(* ===== verification/_CoqProject ===== *)
-Q . S2P
Prelude.v
Text.v
Float64.v
Domain.v
NetAddr.v
AddrText.v
Parse.v
LoadBalancer.v
Ports.v
BindingRepo.v
Cas.v
Metrics.v
PromText.v
Sql.v
BackendRepos.v
Tls.v
Geo.v
ProxyService.v
Balance.v
Relay.v
TcpServer.v
Resolutions.v
CircuitBreaker.v
CircuitRaces.v
RateLimiter.v
ConnectionPool.v
PoolRaces.v
PoolCalls.v
PoolRuntime.v
HealthChecker.v
Shutdown.v
ConfigWatcher.v
Channel.v
ReplTypes.v
Sync.v
Cluster.v
Gossip.v
Membership.v
Transport.v
ApiServer.v
DnsServer.v
Config.v
Agent.v
Main.v
Fleet.v
Bincode.v
TestKit.v
DomainTests.v
ProxyTests.v
StoreTests.v
ResilienceTests.v
ReplicationTests.v
GossipTests.v
ApiTests.v
DnsTests.v
HealthTests.v
PoolTests.v
LifecycleTests.v
TransportTests.v
AdapterTests.v
AgentTests.v
ServerTests.v
