(* ===== verification/Prelude.v ===== *)
(** * edgeProxy: a verification library

    edgeProxy ([src/]) is a geo-aware TCP proxy: it accepts client connections,
    picks a backend by geography, load and weight, binds the client to it, and
    copies bytes; around that core are a registration API, a DNS front end,
    resilience components and a replication layer (gossip membership, change sets
    with last-write-wins, a QUIC transport).  This library models the Rust crate
    under [src/src/] and proves what makes its components correct.

    ** The program's parts and where they are modelled

    Shared foundations.
    - [Prelude]: machine integers ([wrap], [saturating_sub]), time as integers
      (an [instant] or [duration] is a number of nanoseconds), [result] with its
      [let?] notation, map and list lemmas.
    - [Text], [Parse], [NetAddr]: Rust strings and the standard library's operations
      on them; IP and socket addresses read from text and printed; [AddrText]: what
      is printed reads back.
    - [Float64]: [f64] by the executable IEEE 754 specification of the Standard
      Library, with the rounding lemmas the limiter and the balancer need.
    - [Cas]: load / compare-exchange loops, interleaved.
    - [Sql]: SQLite as the class [SqlDb] of the statements the code runs, with
      laws and an in-memory instance; [Channel]: bounded tokio channels.

    Routing core.
    - [Domain]: [domain/value_objects.rs], [domain/entities.rs].
    - [LoadBalancer]: [domain/services/load_balancer.rs].
    - [Ports]: [domain/ports/*.rs], one class of operations and one class of laws
      per trait.  The client ([ProxyService]) is proved against the laws, the
      adapters discharge them:
      [BindingRepo] ([dashmap_binding_repo.rs]), [Metrics]
      ([dashmap_metrics_store.rs], [prometheus_metrics_store.rs]; its text export is
      [PromText]), [BackendRepos] ([sqlite_backend_repo.rs],
      [postgres_backend_repo.rs]), [Geo] ([maxmind_geo_resolver.rs]), all under
      [adapters/outbound/].
    - [ProxyService]: [application/proxy_service.rs]; [Balance]: what its choices,
      one after the other, do to the connection counts.
    - [TcpServer]: [adapters/inbound/tcp_server.rs] and [tls_server.rs]: the
      handler of one connection as a function, the accept loop, and a step relation
      whose steps are whole resolutions; [Tls]: the [TlsConfig] of [tls_server.rs].
    - [Resolutions]: connections of both servers and DNS queries on one proxy
      service, each repository access of [resolve_backend_with_geo] a step of its
      own, with backend reloads and the two halves of a binding collection.
    - [Relay]: [proxy_bidirectional] of both servers, byte by byte.
    - [Config]: [config.rs]; [Main]: [main.rs], the composition of all this, whose
      result is the start state of [Resolutions].

    Infrastructure ([infrastructure/]): [CircuitBreaker], [RateLimiter],
    [ConnectionPool], [HealthChecker], [Shutdown], [ConfigWatcher], each the file
    of that name; [CircuitRaces]: the circuit breaker's calls access by access;
    [PoolRaces]: the connection pool's, with its two kinds of lock and with futures
    dropped where they wait; [PoolCalls]: a call that nobody disturbs is the function
    of [ConnectionPool]; [PoolRuntime]: the pool's tasks on a bounded number of worker
    threads.  [main.rs] uses none of them.

    Replication ([replication/]): [ReplTypes] ([types.rs], [config.rs]), [Sync]
    ([sync.rs]), [Gossip] ([gossip.rs]), [Transport] ([transport.rs]), [Agent]
    ([agent.rs]); [Fleet]: a running agent, all its loops and tasks, in the hands of
    its peers; [Cluster]: sync services exchanging change sets over a network
    that may delay, reorder and repeat them, with restarts; [Membership]: gossip
    services exchanging datagrams over a network that may also lose them; [Bincode]:
    the encoding of messages in the format of the bincode library, and CRC-32, as
    instances of the codec classes.

    Front ends: [ApiServer] ([adapters/inbound/api_server.rs]), [DnsServer]
    ([adapters/inbound/dns_server.rs]).

    Conformance: the crate's unit tests, translated and evaluated on the model, with
    the tests' mock adapters as further instances of the ports ([TestKit] says how):
    [DomainTests], [ProxyTests], [StoreTests], [AdapterTests], [ResilienceTests],
    [PoolTests], [HealthTests], [LifecycleTests], [ReplicationTests], [GossipTests],
    [TransportTests], [AgentTests], [ApiTests], [DnsTests], [ServerTests].

    ** How the code is rendered

    A struct is a [Record] whose projections carry a short prefix, an enum an
    [Inductive]. A method on shared state ([&self] over atomics, locks or DashMap) is a
    function from the state to the new state and the result; the clock readings, random
    numbers and network outcomes of a call are its arguments, one per reading. A
    background loop is the function of one turn; where a flag ends it, testing the flag
    and the turn are two steps of [Fleet.agent_exec]. Where tasks interleave, each
    atomic section of the code is a step: [Resolutions.exec], [CircuitRaces.race_exec],
    [Cas.cas_step], [PoolRaces.pool_exec], [ConnectionPool.pool_step],
    [Shutdown.sd_step], [Cluster.cluster_exec], [Membership.net_exec],
    [Relay.relay_exec], [Fleet.agent_exec] and, at the grain of whole resolutions,
    [TcpServer.conn_step]. The executable ones take a label that names the step, so any
    list of labels is a schedule, and theorems quantify over all of them. Integers keep
    their width: [+u64] and its kin wrap, as unchecked release arithmetic and the
    atomics do. HashMap iteration follows [map_to_list]; no theorem depends on that
    order. Third-party code is a class of operations ([SqlDb], [Digests], [SerdeJson],
    [GossipCodec], [WireCodec], [TlsLib], [QuicLib], [DnsWire], [IoCopy], [Axum]) or an
    argument.

    ** What the theorems show (claim ids)

    - Routing: one resolution's answer and effect (C1); selection is optimal, stable
      and total on eligible backends (C4), geography dominates load within an exact
      numeric bound that survives rounding (C11); affinity, alone (C8) and under
      interleaving (C9); successive choices keep the loads per capacity within one
      connection of each other and below the hard limits (C5).
    - The process: what comes up from which configuration and what stops it (C16);
      from there, under every interleaving, clients are only ever given healthy live
      rows of the database (C2), every connection and query ends (C20).
    - Connections: counters equal the connections being proxied in every
      interleaving (C6), the effect of one connection, plain or TLS (C14), and that
      the sequential handlers are runs of the interleaved system (C12); the relay
      delivers to each side what the other sent (C3) and ends when and only when both
      directions have (C13); the address connected to is the backend's (C39);
      decrements never underflow under contention (C22, from the linearizability
      lemma of [Cas]).
    - Storage: a reload mirrors the table (C15).  Metrics: the Prometheus text can be
      read back (C40).
    - Rate limiter: the admitted cost is at most burst plus rate times time, in
      the code's floating-point arithmetic (C19).
    - Circuit breaker: trips at the threshold (C24), also under concurrent failures
      (C25), blocks until the timeout (C26), recovers or re-opens (C27).
    - Connection pool: what an undisturbed [acquire] returns and leaves (C21); at the
      grain of single accesses no stream is lost, shared or used after it was closed, and
      the counters are exact (C28); calls end, given a thread for each task that blocks
      (C29).  Health checker: health is exactly what the thresholds make of
      the probes (C30).
      Shutdown accounting and wake-ups (C38).
    - Replication: replicas of a cluster that have taken the same change sets agree
      with a register specification, through restarts (C7); sequence numbers are
      never used twice (C17); two replicas of one set of changes converge (C10),
      at-most-once change sets (C23), the hybrid clock (C37), the failure detector
      (C32), message framing (C31); what nodes hold about each other is true whatever
      the network does (C33), and joining works when addresses lead where they should
      (C34); but running agents, whose loops connect to nobody and hand nothing on,
      stay as they are whatever their peers send (C18).
    - Front ends: a registration is a lease, whatever other requests and cleanup ticks
      the API serves meanwhile (C35); DNS answers (C36).

    What the code does and does not mean to is stated by lemmas of the same files,
    among them [Resolutions.concurrent_connections_diverge],
    [Cluster.reordering_loses_changes], [CircuitRaces.breaker_races],
    [PromText.export_injection], [DnsServer.server_never_answers],
    [TcpServer.accept_error_ends_server], [HealthChecker.probe_address],
    [Config.load_config_reads_only], [Sync.local_change_does_not_defend],
    [Gossip.dead_member_resurrected], [Bincode.scope_lost], [Membership.never_own_member],
    [Membership.unspecified_address_pings_itself], [Gossip.process_message_spec],
    [Resolutions.hard_limit_overshoot], [Relay.relay_waits],
    [Fleet.flushed_set_delivered], [AddrText.socket_addr_roundtrip],
    [CircuitRaces.call_alone_atomic], [Cas.cas_loops_terminate],
    [ConnectionPool.acquire_outcomes],
    [ConnectionPool.sequential_use_respects_limit],
    [ConnectionPool.concurrent_acquires_exceed_limit],
    [ConnectionPool.cleanup_misses_later_pools], [ConnectionPool.pool_accounting],
    [PoolCalls.acquire_alone], [PoolRuntime.workers_hang],
    [CircuitBreaker.breaker_invariant], [CircuitRaces.first_failures_lost],
    [Resolutions.edge_well_typed], [Sync.failed_persist_reuses_number],
    [Sync.equal_timestamps_diverge], [Shutdown.second_caller_before_broadcast],
    [ConfigWatcher.events_replay_values],
    [ConfigWatcher.sets_race].

    ** Bounds and assumptions

    No definition needs fuel: all recursion is structural (lists, strings, digits).
    [CHANNEL_CAP] is the code's 1024; theorems about calls that send on a channel
    assume room for their events ([chan_room]) or state what a full channel does.
    C11 assumes connection counts below [2^52], C5 capacities (soft limit times
    weight) up to [2^18] and counts below [2^30], within which comparing the scores
    is comparing the exact loads; C19 assumes [config_moderate]: numbers that [f64]
    represents, and [burst_size * window_ms <= 2 ^ 50]; C6 and C2 assume fewer than
    [2^64] tasks; C7 and C17 assume that change sets of one source arrive in order at
    each node ([orderly]), without which changes are lost, and, as C10, that no database
    statement fails; C7 and C10 that no two different changes of one backend have the
    same timestamp; C24 assumes a failure threshold of at least 2, and C25 a stored
    failure within one window before the calls; C33 and C34 assume configured
    addresses without an IPv6 scope, which the encoding does not carry; C37 assumes logical
    counters below [2^32 - 1], beyond which the code's increment wraps.  The hypotheses about
    third-party code are the laws of [Sql] and of the codec classes, each with a
    concrete instance.

    ** Modelling limits

    Atomic accesses are interleaved sequentially; what [Ordering::Relaxed] would
    allow beyond that is not modelled.  Calls on the registration API are one
    step each; [cleanup_expired] is also split in two ([ApiServer.cleanup_race]).  In
    [PoolRaces] a lock goes to any of those that wait for it (tokio's mutex is
    fair), the readings of the clock in one step agree, and a writer that waits for a
    shard does not keep new readers out.  A
    flush, a delivery or a restart of [Cluster], and a turn of the gossip loop in
    [Membership], is one step.  Log output and tracing
    are dropped.

    Not modelled: how [tokio::io::copy] buffers (it is the class [IoCopy], whose laws
    are its documentation), the HTTP exchange of [fetch_public_ip] (its answer is an
    argument), re-exports, and everything outside [src/src/].

    ** Natural extensions

    A cluster of agents as one step relation over gossip and transport together; the
    health checker's and the registration API's accesses one by one (the rate limiter
    needs no such view: DashMap's [entry] holds the lock of the client's shard for the
    whole of [check_with_cost]). *)

From stdpp Require Import base numbers list gmap strings pretty relations.
From stdpp Require Export base numbers list gmap strings pretty relations.

Open Scope Z_scope.

(** ** Machine integers

    A [w]-bit unsigned integer is a [Z]; plain [+], [-] and [*] on them wrap
    (the release profile of Cargo, which is the one the repository ships, has
    overflow checks off, and [Cargo.toml] does not turn them on); atomics'
    [fetch_add] and [fetch_sub] wrap in every profile. *)
Declare Scope edge_scope.
Delimit Scope edge_scope with edge.
Open Scope edge_scope.

Definition wrap (w x : Z) : Z := x mod 2 ^ w.

Definition in_range (w x : Z) : Prop := 0 <= x < 2 ^ w.

Notation "a +u32 b" := (wrap 32 (a + b)) (at level 50, left associativity) : edge_scope.
Notation "a +u64 b" := (wrap 64 (a + b)) (at level 50, left associativity) : edge_scope.
Notation "a -u64 b" := (wrap 64 (a - b)) (at level 50, left associativity) : edge_scope.

Definition U64_MAX : Z := 2 ^ 64 - 1.

(** [u64::saturating_sub]. *)
Definition saturating_sub (a b : Z) : Z := Z.max 0 (a - b).

(** ** Time: [Instant] and [Duration] are nanosecond counts. *)
Abbreviation instant := Z (only parsing).
Abbreviation duration := Z (only parsing).

Definition NANOS_PER_SEC : Z := 1000000000.
Definition NANOS_PER_MILLI : Z := 1000000.

Definition from_secs (s : Z) : duration := s * NANOS_PER_SEC.
Definition from_millis (ms : Z) : duration := ms * NANOS_PER_MILLI.
Definition as_secs (d : duration) : Z := d / NANOS_PER_SEC.
Definition as_millis (d : duration) : Z := d / NANOS_PER_MILLI.

(** [Instant::duration_since] saturates at zero. *)
Definition duration_since (now earlier : instant) : duration := saturating_sub now earlier.

(** ** Results: [anyhow::Result] and the error enums. *)
Inductive result (A E : Type) : Type :=
| Ok (a : A)
| Err (e : E).
Arguments Ok {A E} _.
Arguments Err {A E} _.

Definition is_ok {A E} (r : result A E) : bool :=
  match r with Ok _ => true | Err _ => false end.

Definition result_bind {A B E} (r : result A E) (k : A → result B E) : result B E :=
  match r with Ok a => k a | Err e => Err e end.

Definition result_ok {A E} (r : result A E) : option A :=
  match r with Ok a => Some a | Err _ => None end.

Notation "'let?' x := r 'in' k" := (result_bind r (fun x => k))
  (at level 10, x pattern, r at level 100, k at level 200) : edge_scope.

(** ** Tactics *)

(** Case analysis on the scrutinee of the first [match] or [if] of the goal. *)
Ltac case_scrutinee :=
  match goal with
  | |- context [match ?e with _ => _ end] => destruct e eqn:?
  end.

(** Turn boolean comparisons on [Z] in the context into propositions. *)
Ltac zbool :=
  repeat match goal with
  | H : (_ <? _) = true |- _ => apply Z.ltb_lt in H
  | H : (_ <? _) = false |- _ => apply Z.ltb_ge in H
  | H : (_ <=? _) = true |- _ => apply Z.leb_le in H
  | H : (_ <=? _) = false |- _ => apply Z.leb_gt in H
  | H : (_ =? _) = true |- _ => apply Z.eqb_eq in H
  | H : (_ =? _) = false |- _ => apply Z.eqb_neq in H
  | H : (_ && _)%bool = true |- _ => apply andb_prop in H as [? ?]
  | H : negb _ = true |- _ => apply negb_true_iff in H
  | H : negb _ = false |- _ => apply negb_false_iff in H
  end.

(** ** Generic lemmas *)

Create HintDb edge discriminated.

Lemma wrap_small w x : in_range w x → wrap w x = x.
Proof. apply Z.mod_small. Qed.

Lemma wrap_range w x : 0 <= w → in_range w (wrap w x).
Proof. intros Hw. apply Z.mod_pos_bound. by apply Z.pow_pos_nonneg. Qed.

#[export] Hint Resolve wrap_small wrap_range : edge.

Lemma wrap_add_l w a b : 0 <= w → wrap w (wrap w a + b) = wrap w (a + b).
Proof. intros Hw. apply Z.add_mod_idemp_l. by apply Z.pow_nonzero. Qed.

Lemma duration_since_le now t : t <= now → duration_since now t = now - t.
Proof. unfold duration_since, saturating_sub. lia. Qed.

Lemma saturating_sub_nonneg a b : 0 <= saturating_sub a b.
Proof. unfold saturating_sub. lia. Qed.

Lemma saturating_sub_self a : saturating_sub a a = 0.
Proof. unfold saturating_sub. lia. Qed.

#[export] Hint Resolve saturating_sub_nonneg : edge.

(** Rule induction over a step relation: an inductive invariant holds in
    every reachable state. *)
Lemma rtc_invariant {S} (step : relation S) (Inv : S → Prop) (s s' : S) :
  (∀ a b, Inv a → step a b → Inv b) → rtc step s s' → Inv s → Inv s'.
Proof. intros Hstep. induction 1; eauto. Qed.

(** A state-passing function folded over a list of inputs. *)
Lemma foldl_invariant {S I} (f : S → I → S) (Inv : S → Prop) (l : list I) (s : S) :
  (∀ a i, Inv a → Inv (f a i)) → Inv s → Inv (foldl f s l).
Proof. intros Hf. revert s. induction l; simpl; eauto. Qed.

(** Steps that commute pairwise can be taken in any order. *)
Lemma foldl_permutation {S I} (f : S → I → S) (l1 l2 : list I) (s : S) :
  (∀ a i j, i ∈ l1 → j ∈ l1 → f (f a i) j = f (f a j) i) →
  l1 ≡ₚ l2 → foldl f s l1 = foldl f s l2.
Proof.
  intros Hf Hp. revert s Hf. induction Hp as [|i l1 l2 _ IH|i j l|l1 l2 l3 Hp1 IH1 _ IH2]; intros s Hf; simpl.
  - done.
  - apply IH. intros. apply Hf; by right.
  - rewrite (Hf s j i) by set_solver. done.
  - rewrite IH1 by done. apply IH2. intros a i j Hi Hj. apply Hf; by rewrite Hp1.
Qed.

(** Removing a list of keys one after the other. *)
Definition delete_keys `{Countable K} {V} (ks : list K) (m : gmap K V) : gmap K V :=
  foldl (fun m k => delete k m) m ks.

Section delete_keys.
Context `{Countable K} {V : Type}.
Implicit Types (m : gmap K V) (ks : list K).

Lemma lookup_delete_keys ks m k :
  delete_keys ks m !! k = if decide (k ∈ ks) then None else m !! k.
Proof.
  unfold delete_keys. revert m.
  induction ks as [|k' ks IH]; intros m; cbn [foldl].
  { case_decide; set_solver. }
  rewrite IH, lookup_delete.
  repeat case_decide; set_solver.
Qed.

Lemma size_delete_keys ks m :
  NoDup ks → (∀ k, k ∈ ks → is_Some (m !! k)) → (size (delete_keys ks m) + length ks)%nat = size m.
Proof.
  unfold delete_keys. revert m. induction ks as [|k ks IH]; intros m Hnd Hin; simpl; [lia|].
  apply NoDup_cons in Hnd as [Hk Hnd].
  assert (is_Some (m !! k)) as [v Hv] by (apply Hin; left).
  specialize (IH (delete k m) Hnd). rewrite map_size_delete, Hv in IH; simpl in IH.
  assert (size m ≠ 0%nat) by (intros Hz%map_size_empty_inv; subst; by rewrite lookup_empty in Hv).
  rewrite Nat.add_succ_r, IH; [lia|].
  intros j Hj. rewrite lookup_delete_ne by (by intros <-). apply Hin. by right.
Qed.
End delete_keys.

(** The sum of a measure of the values of a map, and its value after an update. *)
Definition map_sum `{Countable K} {V} (f : V → nat) (m : gmap K V) : nat := sum_list_with f (snd <$> map_to_list m).

Lemma sum_list_with_perm {V} (f : V → nat) l1 l2 : l1 ≡ₚ l2 → sum_list_with f l1 = sum_list_with f l2.
Proof. induction 1; simpl; lia. Qed.

Lemma map_sum_insert `{Countable K} {V} (f : V → nat) (m : gmap K V) i y :
  (map_sum f (<[i := y]> m) + from_option f 0 (m !! i) = map_sum f m + f y)%nat.
Proof.
  assert (∀ (m0 : gmap K V) v, m0 !! i = None → map_sum f (<[i := v]> m0) = (f v + map_sum f m0)%nat) as Hnew.
  { intros m0 v Hm0. unfold map_sum. rewrite (sum_list_with_perm f _ (snd <$> ((i, v) :: map_to_list m0))); [done|].
    by rewrite map_to_list_insert. }
  destruct (m !! i) as [z|] eqn:Hi; simpl.
  - rewrite <-insert_delete_eq, Hnew by apply lookup_delete_eq.
    rewrite <-(insert_delete_id m i z Hi) at 2. rewrite Hnew by apply lookup_delete_eq. lia.
  - rewrite Hnew by done. lia.
Qed.

Lemma map_sum_mono `{Countable K} {V} (f g : V → nat) (m : gmap K V) :
  (∀ v, (f v <= g v)%nat) → (map_sum f m <= map_sum g m)%nat.
Proof.
  intros Hfg. unfold map_sum. induction (snd <$> map_to_list m) as [|v l IH]; simpl; [lia|]. specialize (Hfg v). lia.
Qed.

(** The lists that [f] makes of the values of a map, one after the other. *)
Definition map_concat `{Countable K} {V B} (f : V → list B) (m : gmap K V) : list B :=
  (snd <$> map_to_list m) ≫= f.

Lemma count_map_concat `{Countable K} {V} (f : V → list nat) (m : gmap K V) x :
  count_occ Nat.eq_dec (map_concat f m) x = map_sum (λ v, count_occ Nat.eq_dec (f v) x) m.
Proof.
  unfold map_concat, map_sum. induction (snd <$> map_to_list m) as [|v l IH]; cbn; [done|].
  by rewrite count_occ_app, IH.
Qed.

Lemma map_concat_insert `{Countable K} {V B} (f : V → list B) (m : gmap K V) i y :
  m !! i = None → map_concat f (<[i := y]> m) ≡ₚ f y ++ map_concat f m.
Proof. intros Hi. unfold map_concat. by rewrite map_to_list_insert. Qed.

Lemma count_map_concat_insert `{Countable K} {V} (f : V → list nat) (m : gmap K V) i y x :
  (count_occ Nat.eq_dec (map_concat f (<[i := y]> m)) x + count_occ Nat.eq_dec (from_option f [] (m !! i)) x =
   count_occ Nat.eq_dec (map_concat f m) x + count_occ Nat.eq_dec (f y) x)%nat.
Proof.
  rewrite !count_map_concat, <-(map_sum_insert (λ v, count_occ Nat.eq_dec (f v) x) m i y). by destruct (m !! i).
Qed.

(** Counting the entries of a map that satisfy a predicate, across an update. *)
Lemma size_filter_insert `{Countable K} {V} (P : K * V → Prop) `{!∀ kv, Decision (P kv)}
    (m : gmap K V) (i : K) (x : V) :
  Z.of_nat (size (filter P (<[i := x]> m))) =
    Z.of_nat (size (filter P m))
    + (if decide (P (i, x)) then 1 else 0)
    - match m !! i with Some y => if decide (P (i, y)) then 1 else 0 | None => 0 end.
Proof.
  assert (filter P m !! i = (y ← m !! i; if decide (P (i, y)) then Some y else None)) as Hlk.
  { rewrite map_lookup_filter. destruct (m !! i) as [y|]; simpl; [|done].
    repeat case_guard; repeat case_decide; done. }
  assert (∀ y, filter P m !! i = Some y → size (filter P m) ≠ 0%nat) as Hpos.
  { intros y Hy Hz. apply map_size_empty_inv in Hz. rewrite Hz in Hy. by rewrite lookup_empty in Hy. }
  rewrite map_filter_insert. destruct (decide (P (i, x))).
  - rewrite map_size_insert, Hlk. destruct (m !! i) as [y|]; simpl; [|lia].
    destruct (decide (P (i, y))); simpl; unfold id; lia.
  - rewrite map_filter_delete, map_size_delete, Hlk. destruct (m !! i) as [y|]; simpl; [|unfold id; lia].
    simpl in Hlk. destruct (decide (P (i, y))); simpl; [|unfold id; lia].
    specialize (Hpos y Hlk). lia.
Qed.
