(* ===== verification/Text.v ===== *)
(** * Strings

    A Rust [String] or [&str] is its UTF-8 byte sequence, a [string] of 8-bit
    [ascii].  This file models the case conversions and comparisons the program
    uses; [Parse] has the functions that take strings apart.  [pretty] of stdpp
    prints integers the way [format!("{}", n)] does. *)

From S2P Require Import Prelude.
From Stdlib Require Import Ascii.

Definition byte_of (c : ascii) : N := N_of_ascii c.

(** ASCII case mapping of one byte. *)
Definition ascii_lower (c : ascii) : ascii :=
  let n := N_of_ascii c in
  if ((65 <=? n) && (n <=? 90))%N then ascii_of_N (n + 32) else c.

Definition ascii_upper (c : ascii) : ascii :=
  let n := N_of_ascii c in
  if ((97 <=? n) && (n <=? 122))%N then ascii_of_N (n - 32) else c.

(** [str::to_lowercase], as far as ASCII results go.  One non-ASCII
    character has an all-ASCII lower case: the Kelvin sign U+212A
    (bytes E2 84 AA), which becomes [k].  Every other non-ASCII character
    maps to text with a non-ASCII byte and is kept as it is here, so the
    result agrees with Rust's in every comparison with an ASCII literal, which
    is the only use the program makes of it. *)
Fixpoint to_lowercase (s : string) : string :=
  match s with
  | EmptyString => EmptyString
  | String c1 s1 =>
      match s1 with
      | String c2 (String c3 s3) =>
          if ((byte_of c1 =? 226) && (byte_of c2 =? 132) && (byte_of c3 =? 170))%N
          then String "k"%char (to_lowercase s3)
          else String (ascii_lower c1) (to_lowercase s1)
      | _ => String (ascii_lower c1) (to_lowercase s1)
      end
  end.

(** Two-byte characters with an all-ASCII upper case: U+00DF (sharp s), U+0131 (dotless i),
    U+017F (long s). *)
Definition upper_special2 (c1 c2 : ascii) : option string :=
  match byte_of c1, byte_of c2 with
  | 195%N, 159%N => Some "SS"
  | 196%N, 177%N => Some "I"
  | 197%N, 191%N => Some "S"
  | _, _ => None
  end.

(** Three-byte characters with an all-ASCII upper case: the Latin ligatures
    U+FB00 to U+FB06. *)
Definition upper_special3 (c1 c2 c3 : ascii) : option string :=
  match byte_of c1, byte_of c2, byte_of c3 with
  | 239%N, 172%N, 128%N => Some "FF"
  | 239%N, 172%N, 129%N => Some "FI"
  | 239%N, 172%N, 130%N => Some "FL"
  | 239%N, 172%N, 131%N => Some "FFI"
  | 239%N, 172%N, 132%N => Some "FFL"
  | 239%N, 172%N, 133%N => Some "ST"
  | 239%N, 172%N, 134%N => Some "ST"
  | _, _, _ => None
  end.

(** [str::to_uppercase], with the same reading as [to_lowercase]. *)
Fixpoint to_uppercase (s : string) : string :=
  match s with
  | EmptyString => EmptyString
  | String c1 s1 =>
      match s1 with
      | String c2 s2 =>
          match upper_special2 c1 c2 with
          | Some u => u +:+ to_uppercase s2
          | None =>
              match s2 with
              | String c3 s3 =>
                  match upper_special3 c1 c2 c3 with
                  | Some u => u +:+ to_uppercase s3
                  | None => String (ascii_upper c1) (to_uppercase s1)
                  end
              | EmptyString => String (ascii_upper c1) (to_uppercase s1)
              end
          end
      | EmptyString => String (ascii_upper c1) EmptyString
      end
  end.

(** Strings whose bytes are all ASCII. *)
Fixpoint is_ascii (s : string) : bool :=
  match s with
  | EmptyString => true
  | String c s' => (byte_of c <? 128)%N && is_ascii s'
  end.

(** [s.contains(c)]. *)
Fixpoint str_contains (c : ascii) (s : string) : bool :=
  match s with
  | EmptyString => false
  | String c' s' => Ascii.eqb c c' || str_contains c s'
  end.

(** [s1 == s2]. *)
Definition str_eqb (s1 s2 : string) : bool := bool_decide (s1 = s2).

Lemma str_eqb_eq s1 s2 : str_eqb s1 s2 = true ↔ s1 = s2.
Proof. apply bool_decide_eq_true. Qed.

Lemma str_eqb_neq s1 s2 : str_eqb s1 s2 = false ↔ s1 ≠ s2.
Proof. apply bool_decide_eq_false. Qed.

Lemma str_eqb_refl s : str_eqb s s = true.
Proof. by apply str_eqb_eq. Qed.

#[export] Hint Rewrite str_eqb_refl : edge.

(** ** Concatenation *)

Lemma string_app_assoc (a b c : string) : (a +:+ b) +:+ c = a +:+ (b +:+ c).
Proof. induction a as [|x a IH]; [done|]. exact (f_equal (String x) IH). Qed.

Lemma string_app_nil (a : string) : a +:+ "" = a.
Proof. induction a as [|x a IH]; [done|]. exact (f_equal (String x) IH). Qed.

Lemma str_contains_app c a b : str_contains c (a +:+ b) = str_contains c a || str_contains c b.
Proof.
  induction a as [|x a IH]; [done|]. change (String x a +:+ b) with (String x (a +:+ b)).
  cbn [str_contains]. by rewrite IH, orb_assoc.
Qed.

(** Case mapping is idempotent, hence case insensitive on ASCII text. *)
Lemma ascii_lower_idem c : ascii_lower (ascii_lower c) = ascii_lower c.
Proof. by destruct c as [[] [] [] [] [] [] [] []]. Qed.

Lemma ascii_lower_upper c : ascii_lower (ascii_upper c) = ascii_lower c.
Proof. by destruct c as [[] [] [] [] [] [] [] []]. Qed.

Lemma ascii_upper_ascii c :
  (byte_of c <? 128)%N = true → (byte_of (ascii_upper c) <? 128)%N = true.
Proof. by destruct c as [[] [] [] [] [] [] [] []]. Qed.
