(* ===== verification/Float64.v ===== *)
(** * IEEE 754 binary64 arithmetic

    Rust's [f64], through the executable specification of floating point of
    the Standard Library ([SpecFloat], precision 53, exponent bound 1024,
    round to nearest even).  Integer-to-float casts round, float-to-integer
    casts truncate and saturate ([NaN as u64] is 0). *)

From S2P Require Import Prelude.
From Stdlib Require Import SpecFloat.

Abbreviation f64 := spec_float (only parsing).

(** [z as f64] for an unsigned integer [z]. *)
Definition f64_of_Z (z : Z) : f64 := binary_normalize 53 1024 z 0 false.

Definition f64_add : f64 → f64 → f64 := SFadd 53 1024.
Definition f64_mul : f64 → f64 → f64 := SFmul 53 1024.
Definition f64_div : f64 → f64 → f64 := SFdiv 53 1024.
Definition f64_ltb : f64 → f64 → bool := SFltb.
Definition f64_leb : f64 → f64 → bool := SFleb.

(** [f64::MAX]. *)
Definition F64_MAX : f64 := SFmax_float 53 1024.

(** [x as u64]. *)
Definition f64_to_u64 (x : f64) : Z :=
  match x with
  | S754_nan | S754_zero _ | S754_infinity true | S754_finite true _ _ => 0
  | S754_infinity false => U64_MAX
  | S754_finite false m e => Z.min U64_MAX (Z.shiftl (Zpos m) e)
  end.

(** ** Order *)

Lemma SFltb_trans x y z : SFltb x y = true → SFltb y z = true → SFltb x z = true.
Proof.
  destruct x as [[]|[]| |[] mx ex], y as [[]|[]| |[] my ey], z as [[]|[]| |[] mz ez];
    unfold SFltb; simpl; try done;
  destruct (Z.compare_spec ex ey), (Z.compare_spec ey ez), (Z.compare_spec ex ez);
    try done; subst; try lia;
  rewrite <-?Pos.compare_cont_spec; fold (Pos.compare mx my) (Pos.compare my mz) (Pos.compare mx mz);
  destruct (Pos.compare_spec mx my), (Pos.compare_spec my mz), (Pos.compare_spec mx mz);
    try done; subst; try lia.
Qed.

Lemma SFltb_irrefl x : SFltb x x = false.
Proof.
  destruct x as [[]|[]| |[] mx ex]; try done; unfold SFltb; simpl;
  rewrite Z.compare_refl; fold (Pos.compare mx mx); by rewrite Pos.compare_refl.
Qed.

Lemma SFleb_ltb_trans x y z : SFleb x y = true → SFltb y z = true → SFltb x z = true.
Proof.
  destruct x as [[]|[]| |[] mx ex], y as [[]|[]| |[] my ey], z as [[]|[]| |[] mz ez];
    unfold SFltb, SFleb; simpl; try done;
  destruct (Z.compare_spec ex ey), (Z.compare_spec ey ez), (Z.compare_spec ex ez);
    try done; subst; try lia;
  fold (Pos.compare mx my) (Pos.compare my mz) (Pos.compare mx mz);
  destruct (Pos.compare_spec mx my), (Pos.compare_spec my mz), (Pos.compare_spec mx mz);
    try done; subst; try lia.
Qed.

(** ** Rounding on the integer grid

    The values the program compares against are small integers.  Rounding to
    nearest moves a number below [2^53] to one of its two neighbours on a grid
    that contains the integers, so it never crosses an integer: this is what
    the lemmas below establish for addition and division of non-negative
    numbers.  [f64_val x v] says that [x] is the non-negative canonical float of
    value [v / 2^1074] (every float is a multiple of [2^-1074]). *)

Abbreviation bfexp := (fexp 53 1024).

Definition SCALE : Z := 2 ^ 1074.

Inductive f64_val : f64 → Z → Prop :=
| val_zero : f64_val (S754_zero false) 0
| val_finite m e :
    bounded 53 1024 m e = true →
    f64_val (S754_finite false m e) (Zpos m * 2 ^ (e + 1074)).

Lemma fexp_eq e : bfexp e = Z.max (e - 53) (-1074).
Proof. done. Qed.

Lemma digits2_log2 p : Zpos (digits2_pos p) = Z.log2 (Zpos p) + 1.
Proof.
  induction p as [p IH|p IH|]; [| |done]; cbn [digits2_pos];
    rewrite Pos2Z.inj_succ, IH.
  - rewrite (Pos2Z.inj_xI p), Z.log2_succ_double; lia.
  - rewrite (Pos2Z.inj_xO p), Z.log2_double; lia.
Qed.

Lemma Zdigits2_log2 m : 0 < m → Zdigits2 m = Z.log2 m + 1.
Proof. destruct m; try lia. intros _. apply digits2_log2. Qed.

Lemma Zdigits2_bounds m : 0 < m → 2 ^ (Zdigits2 m - 1) <= m < 2 ^ Zdigits2 m.
Proof.
  intros Hm. rewrite (Zdigits2_log2 m Hm).
  replace (Z.log2 m + 1 - 1) with (Z.log2 m) by lia.
  by apply Z.log2_spec.
Qed.

Lemma Zdigits2_nonneg m : 0 <= m → 0 <= Zdigits2 m.
Proof. destruct m; simpl; lia. Qed.

(** A bound on the digits from a bound on the value, and conversely. *)
Lemma Zdigits2_le m d : 0 <= m → 0 <= d → m < 2 ^ d → Zdigits2 m <= d.
Proof.
  intros Hm Hd Hlt. destruct (decide (m = 0)) as [->|Hne]; [simpl; lia|].
  rewrite Zdigits2_log2 by lia.
  enough (Z.log2 m < d) by lia. apply Z.log2_lt_pow2; lia.
Qed.

Lemma Zdigits2_ge m d : 0 < d → 2 ^ (d - 1) <= m → d <= Zdigits2 m.
Proof.
  intros Hd Hle. assert (0 < 2 ^ (d - 1)) by (apply Z.pow_pos_nonneg; lia).
  rewrite Zdigits2_log2 by lia.
  enough (d - 1 <= Z.log2 m) by lia. apply Z.log2_le_pow2; lia.
Qed.

(** Canonical floats are ordered as their values. *)
Lemma bounded_inv m e : bounded 53 1024 m e = true →
  -1074 <= e ∧ Zpos m < 2 ^ 53 ∧ (-1074 < e → 2 ^ 52 <= Zpos m).
Proof.
  unfold bounded, canonical_mantissa. intros Hb. zbool.
  rewrite fexp_eq in *.
  pose proof (Zdigits2_bounds (Zpos m) eq_refl) as [Hlo Hhi]; cbn [Zdigits2] in *.
  set (d := Zpos (digits2_pos m)) in *.
  assert (d <= 53) by lia.
  split; [lia|]. split.
  - eapply Z.lt_le_trans; [exact Hhi|]. apply Z.pow_le_mono_r; lia.
  - intros He. assert (d = 53) as Hd by lia. rewrite Hd in Hlo. exact Hlo.
Qed.

Lemma f64_val_ltb x y v w : f64_val x v → f64_val y w → v < w → SFltb x y = true.
Proof.
  intros [|m1 e1 H1] [|m2 e2 H2] Hlt; try done; try lia.
  apply bounded_inv in H1 as (He1 & Hm1 & Hn1), H2 as (He2 & Hm2 & Hn2).
  unfold SFltb; simpl.
  destruct (Z.compare_spec e1 e2) as [->|He|He]; [|done|].
  - fold (Pos.compare m1 m2).
    assert (0 < 2 ^ (e2 + 1074)) by (apply Z.pow_pos_nonneg; lia).
    assert (Zpos m1 < Zpos m2) as Hm by nia.
    destruct (Pos.compare_spec m1 m2); subst; try done; lia.
  - exfalso. specialize (Hn1 ltac:(lia)).
    replace (e1 + 1074) with ((e1 - e2) + (e2 + 1074)) in Hlt by lia.
    rewrite Z.pow_add_r, Z.mul_assoc in Hlt by lia.
    assert (0 < 2 ^ (e2 + 1074)) by (apply Z.pow_pos_nonneg; lia).
    assert (2 ^ 1 <= 2 ^ (e1 - e2)) by (apply Z.pow_le_mono_r; lia).
    assert (Zpos m1 * 2 ^ (e1 - e2) < Zpos m2) as Hcontra by nia.
    nia.
Qed.

(** Shifting right by [k] places divides by [2^k]; the round and sticky bits
    remember whether anything non-zero was shifted out. *)
Definition shr_inexact (r : shr_record) : bool := shr_r r || shr_s r.

Lemma shr_1_spec r : 0 <= shr_m r →
  shr_m (shr_1 r) = shr_m r / 2 ∧
  shr_inexact (shr_1 r) = (shr_inexact r || negb (shr_m r mod 2 =? 0))%bool.
Proof.
  destruct r as [m rr s]; unfold shr_inexact; simpl. intros Hm.
  destruct m as [|[p|p|]|]; simpl; try lia.
  - by destruct rr, s.
  - split; [rewrite (Pos2Z.inj_xI p); apply Z.div_unique with 1; lia|].
    rewrite (Pos2Z.inj_xI p).
    rewrite <-(Z.mod_unique (2 * Z.pos p + 1) 2 (Z.pos p) 1) by lia. by destruct rr, s.
  - split; [rewrite (Pos2Z.inj_xO p); apply Z.div_unique with 0; lia|].
    rewrite (Pos2Z.inj_xO p).
    rewrite <-(Z.mod_unique (2 * Z.pos p) 2 (Z.pos p) 0) by lia. by destruct rr, s.
  - by destruct rr, s.
Qed.

Lemma iter_pos_nat {A} (f : A → A) p x : iter_pos f p x = Nat.iter (Pos.to_nat p) f x.
Proof.
  revert x. induction p as [p IH|p IH|]; intros x; cbn [iter_pos]; [| |done].
  - rewrite !IH, <-Nat.iter_succ_r, <-Nat.iter_add.
    replace (Pos.to_nat p~1) with (Pos.to_nat p + S (Pos.to_nat p))%nat by lia. done.
  - rewrite !IH, <-Nat.iter_add.
    replace (Pos.to_nat p~0) with (Pos.to_nat p + Pos.to_nat p)%nat by lia. done.
Qed.

Lemma shr_iter_spec n r : 0 <= shr_m r →
  shr_m (Nat.iter n shr_1 r) = shr_m r / 2 ^ Z.of_nat n ∧
  (shr_inexact (Nat.iter n shr_1 r) = false ↔
   shr_inexact r = false ∧ shr_m r mod 2 ^ Z.of_nat n = 0).
Proof.
  intros Hm. induction n as [|n [IHm IHi]].
  { simpl. rewrite Z.div_1_r, Z.mod_1_r. tauto. }
  cbn [Nat.iter nat_rect].
  set (r' := Nat.iter n shr_1 r) in *. change (nat_rect _ _ _ n) with r'.
  assert (0 < 2 ^ Z.of_nat n) by (apply Z.pow_pos_nonneg; lia).
  destruct (shr_1_spec r') as [H1 H2]; [rewrite IHm; by apply Z.div_pos|].
  rewrite Nat2Z.inj_succ, Z.pow_succ_r by lia.
  rewrite H1, H2, IHm, (Z.mul_comm 2). split.
  { by rewrite Z.div_div by lia. }
  rewrite orb_false_iff, IHi, negb_false_iff, Z.eqb_eq.
  rewrite (Z.rem_mul_r (shr_m r) (2 ^ Z.of_nat n) 2) by lia.
  pose proof (Z.mod_pos_bound (shr_m r) (2 ^ Z.of_nat n)).
  pose proof (Z.mod_pos_bound (shr_m r / 2 ^ Z.of_nat n) 2).
  split; [intros [[? ?] ?]|intros [? ?]]; repeat split; try done; nia.
Qed.

Lemma shr_spec r e k : 0 <= shr_m r → 0 <= k →
  snd (shr r e k) = e + k ∧
  shr_m (fst (shr r e k)) = shr_m r / 2 ^ k ∧
  (shr_inexact (fst (shr r e k)) = false ↔ shr_inexact r = false ∧ shr_m r mod 2 ^ k = 0).
Proof.
  intros Hm Hk. destruct k as [|p|]; [| |lia]; simpl.
  { rewrite Z.div_1_r, Z.mod_1_r. split; [lia|]. tauto. }
  rewrite iter_pos_nat. split; [done|].
  rewrite <-(positive_nat_Z p). by apply shr_iter_spec.
Qed.

Definition loc_inexact (l : location) : bool :=
  match l with loc_Exact => false | loc_Inexact _ => true end.

Lemma shr_record_of_loc_spec m l :
  shr_m (shr_record_of_loc m l) = m ∧ shr_inexact (shr_record_of_loc m l) = loc_inexact l.
Proof. by destruct l as [|[]]. Qed.

(** Rounding to nearest even yields the truncation or the next integer, and
    the truncation when nothing was lost. *)
Lemma round_nearest_even_spec r :
  let m' := round_nearest_even (shr_m r) (loc_of_shr_record r) in
  m' = shr_m r ∨ (m' = shr_m r + 1 ∧ shr_inexact r = true).
Proof.
  destruct r as [m [] []]; simpl; try tauto. destruct (Z.even m); tauto.
Qed.

Lemma shr_nonpos r e k : k <= 0 → shr r e k = (r, e).
Proof. by destruct k. Qed.

(** The mantissa obtained by the first shift has at most 53 digits, and
    exactly 53 unless the result is subnormal. *)
Lemma shifted_mantissa_bounds mx ex :
  0 <= mx → let e' := bfexp (Zdigits2 mx + ex) in ex <= e' →
  0 <= mx / 2 ^ (e' - ex) < 2 ^ 53 ∧ (-1074 < e' → 2 ^ 52 <= mx / 2 ^ (e' - ex)).
Proof.
  intros Hmx e' Hex. subst e'. rewrite fexp_eq in *.
  set (d := Zdigits2 mx) in *. set (k := Z.max (d + ex - 53) (-1074) - ex).
  assert (0 < 2 ^ k) by (apply Z.pow_pos_nonneg; lia).
  assert (0 <= d) by by apply Zdigits2_nonneg.
  destruct (decide (mx = 0)) as [->|Hne].
  { change d with 0 in *. rewrite Z.div_0_l by lia. lia. }
  pose proof (Zdigits2_bounds mx ltac:(lia)) as [Hlo Hhi]; fold d in Hlo, Hhi.
  assert (0 < d) by (unfold d; rewrite Zdigits2_log2 by lia; pose proof (Z.log2_nonneg mx); lia).
  split; [split|].
  - by apply Z.div_pos.
  - apply Z.div_lt_upper_bound; [done|].
    rewrite <-Z.pow_add_r by lia. eapply Z.lt_le_trans; [exact Hhi|].
    apply Z.pow_le_mono_r; lia.
  - intros He. apply Z.div_le_lower_bound; [done|].
    rewrite <-Z.pow_add_r by lia. etrans; [|exact Hlo].
    apply Z.pow_le_mono_r; lia.
Qed.

(** A mantissa of the right size at exponent [e] is a canonical float. *)
Lemma canonical_val m e :
  -1074 <= e → e <= 900 → Zpos m < 2 ^ 53 → (-1074 < e → 2 ^ 52 <= Zpos m) →
  bounded 53 1024 m e = true.
Proof.
  intros He1 He2 Hm Hn. unfold bounded, canonical_mantissa. rewrite fexp_eq.
  assert (Zpos (digits2_pos m) <= 53) by (apply (Zdigits2_le (Zpos m)); lia).
  assert (-1074 < e → 53 <= Zpos (digits2_pos m))
    by (intros; apply (Zdigits2_ge (Zpos m)); [lia|]; replace (53 - 1) with 52 by lia; auto).
  apply andb_true_intro; split; [apply Z.eqb_eq|apply Z.leb_le]; lia.
Qed.

Lemma binary_round_aux_spec mx ex lx :
  0 <= mx → let e' := bfexp (Zdigits2 mx + ex) in ex <= e' → e' <= 0 →
  ∃ r, f64_val (binary_round_aux 53 1024 false mx ex lx) (r * 2 ^ (e' + 1074)) ∧
    (r = mx / 2 ^ (e' - ex) ∨
     r = mx / 2 ^ (e' - ex) + 1 ∧ (loc_inexact lx = true ∨ mx mod 2 ^ (e' - ex) ≠ 0)).
Proof.
  intros Hmx e' Hex He0.
  pose proof (shifted_mantissa_bounds mx ex Hmx Hex) as [[Hm0 Hm1] Hm2]; fold e' in Hm0, Hm1, Hm2.
  assert (-1074 <= e') by (unfold e'; rewrite fexp_eq; lia).
  unfold binary_round_aux, shr_fexp at 1. fold e'.
  destruct (shr_record_of_loc_spec mx lx) as [Hr1 Hr2].
  destruct (shr_spec (shr_record_of_loc mx lx) ex (e' - ex)) as (Hs1 & Hs2 & Hs3);
    [by rewrite Hr1|lia|].
  rewrite Hr1, Hr2 in *.
  destruct (shr (shr_record_of_loc mx lx) ex (e' - ex)) as [mrs e1]; simpl in Hs1, Hs2, Hs3.
  replace e1 with e' by lia. clear e1 Hs1.
  set (r := round_nearest_even (shr_m mrs) (loc_of_shr_record mrs)).
  exists r.
  assert (r = mx / 2 ^ (e' - ex) ∨ r = mx / 2 ^ (e' - ex) + 1 ∧
    (loc_inexact lx = true ∨ mx mod 2 ^ (e' - ex) ≠ 0)) as Hr.
  { rewrite <-Hs2. destruct (round_nearest_even_spec mrs) as [?|[? Hi]]; [by left|right].
    split; [done|]. destruct (loc_inexact lx); [by left|right].
    intros Hz. rewrite (proj2 Hs3) in Hi by done. done. }
  split; [|done].
  assert (0 <= r <= 2 ^ 53) as Hrb by lia.
  assert (-1074 < e' → 2 ^ 52 <= r) as Hrn by (intros; specialize (Hm2 ltac:(lia)); lia).
  clearbody r. clear Hr Hs2 Hs3 mrs Hm2 Hm0 Hm1.
  destruct (decide (r = 2 ^ 53)) as [->|Hne].
  - unfold shr_fexp. change (2 ^ 53) with 9007199254740992 in *.
    change (Zdigits2 9007199254740992) with 54.
    replace (bfexp (54 + e') - e') with 1 by (rewrite fexp_eq; lia). simpl.
    rewrite (proj2 (Z.leb_le _ _)) by (change (1024 - 53) with 971; lia).
    replace (9007199254740992 * 2 ^ (e' + 1074)) with (2 ^ 52 * 2 ^ (e' + 1 + 1074)).
    { apply (val_finite 4503599627370496 (e' + 1)). apply canonical_val; lia. }
    replace (e' + 1 + 1074) with (Z.succ (e' + 1074)) by lia.
    rewrite Z.pow_succ_r by lia. lia.
  - unfold shr_fexp.
    assert (Zdigits2 r <= 53) by (apply Zdigits2_le; lia).
    rewrite shr_nonpos by (rewrite fexp_eq; lia). simpl.
    destruct r as [|m|]; [apply val_zero| |lia].
    rewrite (proj2 (Z.leb_le _ _)) by (change (1024 - 53) with 971; lia).
    apply val_finite. apply canonical_val; lia.
Qed.

Lemma SCALE_split e : -1074 <= e <= 0 → SCALE = 2 ^ (- e) * 2 ^ (e + 1074).
Proof. intros He. unfold SCALE. rewrite <-Z.pow_add_r by lia. f_equal. lia. Qed.

Lemma SCALE_pos : 0 < SCALE.
Proof. unfold SCALE. by apply Z.pow_pos_nonneg. Qed.

Lemma binary_round_aux_grid mx ex lx :
  0 <= mx → ex <= bfexp (Zdigits2 mx + ex) → bfexp (Zdigits2 mx + ex) <= 0 →
  ∃ v, f64_val (binary_round_aux 53 1024 false mx ex lx) v ∧
    ∀ N, (N * 2 ^ (- ex) <= mx → N * SCALE <= v) ∧
         (mx < N * 2 ^ (- ex) ∨ mx = N * 2 ^ (- ex) ∧ loc_inexact lx = false → v <= N * SCALE).
Proof.
  intros Hmx Hex He0.
  destruct (binary_round_aux_spec mx ex lx Hmx Hex He0) as (r & Hval & Hr).
  set (e' := bfexp (Zdigits2 mx + ex)) in *.
  exists (r * 2 ^ (e' + 1074)). split; [done|]. intros N.
  assert (-1074 <= e') by (unfold e'; rewrite fexp_eq; lia).
  rewrite (SCALE_split e') by lia. rewrite Z.mul_assoc.
  assert (0 < 2 ^ (e' + 1074)) by (apply Z.pow_pos_nonneg; lia).
  set (k := e' - ex) in *. assert (0 < 2 ^ k) by (apply Z.pow_pos_nonneg; lia).
  replace (- ex) with (- e' + k) by lia. rewrite Z.pow_add_r, Z.mul_assoc by lia.
  set (G := N * 2 ^ (- e')) in *.
  pose proof (Z.div_mod mx (2 ^ k) ltac:(lia)) as Hdm.
  pose proof (Z.mod_pos_bound mx (2 ^ k) ltac:(lia)) as Hmb.
  split; intros Hc; apply Z.mul_le_mono_nonneg_r; try lia.
  - assert (G <= mx / 2 ^ k) by (apply Z.div_le_lower_bound; lia). destruct Hr as [->|[-> _]]; lia.
  - assert (mx / 2 ^ k <= G) by (apply Z.div_le_upper_bound; lia).
    destruct Hr as [->|[-> Hi]]; [lia|].
    enough (mx / 2 ^ k < G) by lia. apply Z.div_lt_upper_bound; [lia|].
    destruct Hc as [?|[Heq Hl]]; [lia|exfalso].
    destruct Hi as [Hi|Hi]; [congruence|]. apply Hi. rewrite Heq. apply Z.mod_mul. lia.
Qed.

(** [v / SCALE] lies on the same side of every integer as [num / den]. *)
Definition grid_rounds (num den v : Z) : Prop :=
  ∀ N, (N * den <= num → N * SCALE <= v) ∧ (num <= N * den → v <= N * SCALE).

Lemma grid_rounds_refl v : grid_rounds v SCALE v.
Proof. by intros N. Qed.

(** An integer quotient is hit exactly. *)
Lemma grid_rounds_exact N den v : grid_rounds (N * den) den v → v = N * SCALE.
Proof. intros H. destruct (H N). lia. Qed.

Lemma iter_xO m d : Zpos (Pos.iter xO m d) = Zpos m * 2 ^ Zpos d.
Proof.
  revert m. induction d as [|d IH] using Pos.peano_ind; intros m.
  { simpl. lia. }
  rewrite Pos.iter_succ, Pos2Z.inj_xO, IH, Pos2Z.inj_succ, Z.pow_succ_r by lia. lia.
Qed.

Lemma shl_align_spec m ex ex' :
  Zpos (fst (shl_align m ex ex')) = Zpos m * 2 ^ (ex - Z.min ex ex') ∧
  snd (shl_align m ex ex') = Z.min ex ex'.
Proof.
  unfold shl_align. destruct (ex' - ex) as [|p|p] eqn:Hd; cbn [fst snd].
  - replace (ex - Z.min ex ex') with 0 by lia. lia.
  - replace (ex - Z.min ex ex') with 0 by lia. lia.
  - rewrite iter_xO. replace (ex - Z.min ex ex') with (Zpos p) by lia. lia.
Qed.

Lemma Zdigits2_shift m k : 0 < m → 0 <= k → Zdigits2 (m * 2 ^ k) = Zdigits2 m + k.
Proof.
  intros Hm Hk. assert (0 < 2 ^ k) by (apply Z.pow_pos_nonneg; lia).
  rewrite !Zdigits2_log2 by nia. rewrite Z.log2_mul_pow2 by lia. lia.
Qed.

(** [binary_round] shifts the mantissa so that it can be rounded. *)
Lemma binary_round_aligned m e :
  -1074 <= e → Zpos m * 2 ^ (e + 1074) < 2 ^ 53 * SCALE →
  ∃ mz ez, binary_round 53 1024 false m e = binary_round_aux 53 1024 false (Zpos mz) ez loc_Exact ∧
    Zpos mz * 2 ^ (ez + 1074) = Zpos m * 2 ^ (e + 1074) ∧ -1074 <= ez <= 0 ∧ ez <= e ∧
    Zdigits2 (Zpos mz) + ez = Zdigits2 (Zpos m) + e ∧
    ez <= bfexp (Zdigits2 (Zpos mz) + ez) <= 0.
Proof.
  intros He Hb.
  assert (Zdigits2 (Zpos m) + e <= 53) as Hd.
  { unfold SCALE in Hb. rewrite <-Z.pow_add_r in Hb by lia.
    assert (e <= 53).
    { apply Z.lt_le_incl, Z.nle_gt. intros Hc.
      assert (2 ^ (53 + 1074) <= 2 ^ (e + 1074)) by (apply Z.pow_le_mono_r; lia). nia. }
    enough (Zdigits2 (Zpos m) <= 53 - e) by lia.
    apply Zdigits2_le; [lia|lia|].
    replace (53 + 1074) with ((53 - e) + (e + 1074)) in Hb by lia.
    rewrite (Z.pow_add_r 2 (53 - e)) in Hb by lia.
    assert (0 < 2 ^ (e + 1074)) by (apply Z.pow_pos_nonneg; lia). nia. }
  unfold binary_round.
  change (Zpos (digits2_pos m)) with (Zdigits2 (Zpos m)).
  set (f := bfexp (Zdigits2 (Zpos m) + e)).
  assert (-1074 <= f <= 0) by (unfold f; rewrite fexp_eq; lia).
  destruct (shl_align_spec m e f) as [Hm Hz].
  destruct (shl_align m e f) as [mz ez]; simpl in Hm, Hz.
  assert (Zdigits2 (Zpos mz) + ez = Zdigits2 (Zpos m) + e) as Hdig.
  { rewrite Hm, Hz, Zdigits2_shift by lia. lia. }
  exists mz, ez. split; [done|]. split_and!; [|lia|lia|lia|done|rewrite Hdig; fold f; lia|rewrite Hdig; fold f; lia].
  rewrite Hm, <-Hz, <-Z.mul_assoc, <-Z.pow_add_r by lia. f_equal. f_equal. lia.
Qed.

Lemma binary_round_grid m e :
  -1074 <= e → Zpos m * 2 ^ (e + 1074) < 2 ^ 53 * SCALE →
  ∃ v, f64_val (binary_round 53 1024 false m e) v ∧ grid_rounds (Zpos m * 2 ^ (e + 1074)) SCALE v.
Proof.
  intros He Hb. destruct (binary_round_aligned m e He Hb) as (mz & ez & -> & <- & Hez & _ & _ & Hf).
  destruct (binary_round_aux_grid (Zpos mz) ez loc_Exact) as (v & Hv & Hgrid); [lia|lia|lia|].
  exists v. split; [done|]. intros N. destruct (Hgrid N) as [Hl Hu].
  assert (0 < 2 ^ (ez + 1074)) by (apply Z.pow_pos_nonneg; lia).
  rewrite (SCALE_split ez) in * by lia.
  split; intros HN; [apply Hl|apply Hu]; simpl in *; nia.
Qed.

(** ** Casts, addition and division of non-negative floats *)

Lemma f64_of_Z_val z : 0 <= z < 2 ^ 53 → f64_val (f64_of_Z z) (z * SCALE).
Proof.
  intros Hz. unfold f64_of_Z. destruct z as [|m|]; simpl; [apply val_zero| |lia].
  pose proof SCALE_pos.
  destruct (binary_round_grid m 0) as (v & Hv & Hg); [lia|change (2 ^ (0 + 1074)) with SCALE; nia|].
  change (2 ^ (0 + 1074)) with SCALE in Hg.
  by rewrite <-(grid_rounds_exact _ _ _ Hg).
Qed.

Lemma f64_val_nonneg x v : f64_val x v → 0 <= v.
Proof. intros [|m e H]; [lia|]. pose proof (Z.pow_nonneg 2 (e + 1074) ltac:(lia)). lia. Qed.

(** A sum is exact, or the rounding of an aligned sum. *)
Lemma f64_add_sum x y a b :
  f64_val x a → f64_val y b →
  f64_val (f64_add x y) (a + b) ∨
  ∃ m e, f64_add x y = binary_round 53 1024 false m e ∧ a + b = Zpos m * 2 ^ (e + 1074) ∧ -1074 <= e.
Proof.
  intros Hx Hy.
  destruct Hx as [|m1 e1 H1], Hy as [|m2 e2 H2]; cbn [f64_add SFadd] in *.
  - left. apply val_zero.
  - left. rewrite Z.add_0_l. by apply val_finite.
  - left. rewrite Z.add_0_r. by apply val_finite.
  - right. apply bounded_inv in H1 as [He1 _], H2 as [He2 _].
    set (ez := Z.min e1 e2) in *.
    destruct (shl_align_spec m1 e1 ez) as [Hs1 _], (shl_align_spec m2 e2 ez) as [Hs2 _].
    replace (Z.min e1 ez) with ez in Hs1 by lia. replace (Z.min e2 ez) with ez in Hs2 by lia.
    unfold f64_add, SFadd. cbv [cond_Zopp]. fold ez.
    set (p1 := fst (shl_align m1 e1 ez)) in *. set (p2 := fst (shl_align m2 e2 ez)) in *.
    exists (p1 + p2)%positive, ez. split_and!; [done| |lia].
    rewrite Pos2Z.inj_add, Hs1, Hs2, Z.mul_add_distr_r, <-!Z.mul_assoc, <-!Z.pow_add_r by lia.
    f_equal; f_equal; f_equal; lia.
Qed.

Lemma f64_add_grid x y a b :
  f64_val x a → f64_val y b → a + b < 2 ^ 53 * SCALE →
  ∃ v, f64_val (f64_add x y) v ∧ grid_rounds (a + b) SCALE v.
Proof.
  intros Hx Hy Hlt. destruct (f64_add_sum x y a b Hx Hy) as [Hex|(m & e & -> & Heq & He)].
  - exists (a + b). split; [done|]. apply grid_rounds_refl.
  - rewrite Heq in *. by apply binary_round_grid.
Qed.

Lemma new_location_exact n k : loc_inexact (new_location n k) = negb (k =? 0).
Proof. unfold new_location, new_location_even, new_location_odd. by destruct (Z.even n), (k =? 0). Qed.

(** The quotient computed by the division core has enough digits to be rounded. *)
Lemma div_core_digits m1 m2 s :
  0 < m1 → 0 < m2 → 0 <= s →
  Zdigits2 m1 + s - Zdigits2 m2 <= Zdigits2 (m1 * 2 ^ s / m2).
Proof.
  intros H1 H2 Hs. assert (0 <= m1 * 2 ^ s / m2) as Hq
    by (apply Z.div_pos; [pose proof (Z.pow_nonneg 2 s ltac:(lia)); nia|lia]).
  set (d1 := Zdigits2 m1). set (d2 := Zdigits2 m2).
  destruct (decide (d1 + s - d2 <= 0)).
  { pose proof (Zdigits2_nonneg (m1 * 2 ^ s / m2) ltac:(lia)). lia. }
  pose proof (Zdigits2_bounds m1 H1) as [Hlo _]. pose proof (Zdigits2_bounds m2 H2) as [_ Hhi].
  fold d1 in Hlo. fold d2 in Hhi.
  pose proof (Zdigits2_nonneg m2 ltac:(lia)) as Hd2; fold d2 in Hd2.
  assert (0 < d1) by (unfold d1; rewrite Zdigits2_log2 by lia; pose proof (Z.log2_nonneg m1); lia).
  apply Zdigits2_ge; [lia|]. apply Z.div_le_lower_bound; [lia|].
  assert (0 < 2 ^ (d1 + s - d2 - 1)) by (apply Z.pow_pos_nonneg; lia).
  transitivity (2 ^ d2 * 2 ^ (d1 + s - d2 - 1)); [nia|].
  rewrite <-Z.pow_add_r by lia. replace (d2 + (d1 + s - d2 - 1)) with ((d1 - 1) + s) by lia.
  rewrite Z.pow_add_r by lia. assert (0 < 2 ^ s) by (apply Z.pow_pos_nonneg; lia). nia.
Qed.

Lemma div_exponent_bound m1 e1 m2 e2 :
  -1074 <= e1 → -1074 <= e2 →
  Zpos m1 * 2 ^ (e1 + 1074) <= 2 ^ 52 * (Zpos m2 * 2 ^ (e2 + 1074)) →
  Zdigits2 (Zpos m1) + e1 - (Zdigits2 (Zpos m2) + e2) <= 53.
Proof.
  intros He1 He2 Hle.
  pose proof (Zdigits2_bounds (Zpos m1) eq_refl) as [Hlo _].
  pose proof (Zdigits2_bounds (Zpos m2) eq_refl) as [_ Hhi].
  set (d1 := Zdigits2 (Zpos m1)) in *. set (d2 := Zdigits2 (Zpos m2)) in *.
  assert (0 < d1 ∧ 0 < d2) as [? ?] by (unfold d1, d2; simpl; lia).
  assert (0 < 2 ^ (e1 + 1074)) by (apply Z.pow_pos_nonneg; lia).
  assert (0 < 2 ^ (e2 + 1074)) by (apply Z.pow_pos_nonneg; lia).
  assert (2 ^ (d1 - 1) * 2 ^ (e1 + 1074) < 2 ^ 52 * (2 ^ d2 * 2 ^ (e2 + 1074))) as Hlt by nia.
  rewrite <-!Z.pow_add_r in Hlt by lia.
  apply Z.pow_lt_mono_r_iff in Hlt; lia.
Qed.

(** Division is the rounding of a truncated quotient [q] at some exponent. *)
Lemma f64_div_core x y a b :
  f64_val x a → f64_val y b → 0 < a → 0 < b → a <= 2 ^ 52 * b →
  ∃ q e l, f64_div x y = binary_round_aux 53 1024 false q e l ∧
    0 <= q ∧ e <= 0 ∧ e <= bfexp (Zdigits2 q + e) <= 0 ∧
    q * b <= a * 2 ^ (- e) < (q + 1) * b ∧ (loc_inexact l = false ↔ q * b = a * 2 ^ (- e)) ∧
    (b <= 2 ^ 52 * a → -1074 <= e).
Proof.
  intros [|m1 e1 H1] [|m2 e2 H2] Ha Hb Hle; [lia..|].
  apply bounded_inv in H1 as (He1 & Hm1 & _), H2 as [He2 _].
  pose proof (div_exponent_bound m1 e1 m2 e2 He1 He2 Hle) as HD.
  unfold f64_div, SFdiv, SFdiv_core_binary. cbn [xorb].
  set (d1 := Zdigits2 (Zpos m1)) in *. set (d2 := Zdigits2 (Zpos m2)) in *.
  set (f := bfexp (d1 + e1 - (d2 + e2))).
  assert (f = Z.max (d1 + e1 - (d2 + e2) - 53) (-1074)) as Hf by apply fexp_eq.
  set (e' := Z.min f (e1 - e2)). set (s := e1 - e2 - e').
  assert (e' <= 0) as He' by lia. assert (0 <= s) as Hs by lia.
  replace (match s with Z0 => Zpos m1 | Zpos _ => Z.shiftl (Zpos m1) s | Zneg _ => 0 end)
    with (Zpos m1 * 2 ^ s) by (rewrite <-Z.shiftl_mul_pow2 by lia; destruct s; [done|done|lia]).
  pose proof (div_core_digits (Zpos m1) (Zpos m2) s eq_refl eq_refl Hs) as Hdig.
  fold d1 d2 in Hdig.
  pose proof (Z.div_mod (Zpos m1 * 2 ^ s) (Zpos m2) ltac:(lia)) as Hdm.
  pose proof (Z.mod_pos_bound (Zpos m1 * 2 ^ s) (Zpos m2) ltac:(lia)) as Hmb.
  unfold Z.div in Hdig. unfold Z.div, Z.modulo in Hdm. unfold Z.modulo in Hmb.
  destruct (Z.div_eucl (Zpos m1 * 2 ^ s) (Zpos m2)) as [q r].
  set (P := 2 ^ (- e')). set (B := 2 ^ (e2 + 1074)) in *. set (A := 2 ^ (e1 + 1074)) in *.
  assert (0 < P) by (apply Z.pow_pos_nonneg; lia). assert (0 < B) by (apply Z.pow_pos_nonneg; lia).
  assert (0 < 2 ^ s) by (apply Z.pow_pos_nonneg; lia).
  assert (A * P = 2 ^ s * B) as HAP.
  { unfold A, P, B. rewrite <-!Z.pow_add_r by lia. f_equal. lia. }
  assert (Zpos m1 * A * P = Zpos m1 * 2 ^ s * B) as HaP by (rewrite <-!Z.mul_assoc, HAP; lia).
  assert (0 <= q) by nia.
  assert (Zdigits2 q <= 53 - e').
  { apply Zdigits2_le; [lia|lia|]. unfold P in *. replace (53 - e') with (1 + 52 + - e') by lia.
    rewrite !Z.pow_add_r by lia. nia. }
  exists q, e', (new_location (Zpos m2) r).
  fold P. rewrite new_location_exact, HaP, Z.mul_assoc. split_and!; [done..|rewrite fexp_eq; lia| |nia|nia| |].
  { rewrite fexp_eq; lia. }
  2: { intros Hge. pose proof (div_exponent_bound m2 e2 m1 e1 He2 He1 Hge) as HD'. fold d1 d2 in HD'.
       assert (d1 <= 53) by (apply Zdigits2_le; lia). assert (0 < d2) by done. lia. }
  destruct (Z.eqb_spec r 0); simpl; split; intros; [nia|done|done|nia].
Qed.

Lemma f64_div_grid x y a b :
  f64_val x a → f64_val y b → 0 < b → a <= 2 ^ 52 * b →
  ∃ v, f64_val (f64_div x y) v ∧ grid_rounds a b v.
Proof.
  intros Hx Hy Hb Hle. destruct (decide (a = 0)) as [Ha|Ha].
  { exists 0. destruct Hy as [|m e H]; [lia|]. destruct Hx as [|m' e' H'].
    - split; [apply val_zero|]. intros N. pose proof SCALE_pos. split; intros; nia.
    - apply bounded_inv in H' as [? _].
      assert (0 < 2 ^ (e' + 1074)) by (apply Z.pow_pos_nonneg; lia). nia. }
  pose proof (f64_val_nonneg _ _ Hx).
  destruct (f64_div_core x y a b Hx Hy ltac:(lia) Hb Hle)
    as (q & e & l & -> & Hq & He & Hf & Hqb & Hl & _).
  destruct (binary_round_aux_grid q e l Hq) as (v & Hv & Hg); [lia|lia|].
  exists v. split; [done|]. intros N. destruct (Hg N) as [Hlo Hhi].
  assert (0 < 2 ^ (- e)) by (apply Z.pow_pos_nonneg; lia). set (P := 2 ^ (- e)) in *.
  split; intros HN; [apply Hlo; nia|]. apply Hhi.
  destruct (decide (q = N * P)) as [->|Hne]; [right; split; [done|]; apply Hl; nia|left; nia].
Qed.

(** ** Relative error

    A result in the normal range differs from the exact value by at most one part
    in [2 ^ 52], above or below. *)
Definition close (v exact den : Z) : Prop :=
  v * den * 2 ^ 52 <= exact * (2 ^ 52 + 1) ∧ exact * 2 ^ 52 <= v * den * (2 ^ 52 + 1).

Lemma binary_round_aux_close mx ex lx :
  0 <= mx → let e' := bfexp (Zdigits2 mx + ex) in
  -1074 <= ex → ex <= e' → -1074 < e' → e' <= 0 →
  ∃ v, f64_val (binary_round_aux 53 1024 false mx ex lx) v ∧
    v * 2 ^ 52 <= mx * 2 ^ (ex + 1074) * (2 ^ 52 + 1) ∧
    (mx + 1) * 2 ^ (ex + 1074) * 2 ^ 52 <= v * (2 ^ 52 + 1).
Proof.
  intros Hmx e' Hex Hle Hn He0.
  destruct (binary_round_aux_spec mx ex lx Hmx Hle He0) as (r & Hr & Hcase). fold e' in Hr, Hcase.
  destruct (shifted_mantissa_bounds mx ex Hmx Hle) as [_ Hq]. fold e' in Hq.
  eexists; split; [exact Hr|].
  replace (e' + 1074) with ((e' - ex) + (ex + 1074)) by lia. rewrite (Z.pow_add_r 2 (e' - ex)) by lia.
  set (k := e' - ex) in *. assert (0 < 2 ^ k) by (apply Z.pow_pos_nonneg; lia).
  assert (0 < 2 ^ (ex + 1074)) as HG by (apply Z.pow_pos_nonneg; lia). set (G := 2 ^ (ex + 1074)) in *.
  pose proof (Z.div_mod mx (2 ^ k) ltac:(lia)) as Hdm.
  pose proof (Z.mod_pos_bound mx (2 ^ k) ltac:(lia)) as Hmb.
  set (q := mx / 2 ^ k) in *. specialize (Hq Hn).
  assert (q <= r <= q + 1) as [Hlo Hhi] by lia. rewrite !Z.mul_assoc. split.
  - replace (r * 2 ^ k * G * 2 ^ 52) with (r * 2 ^ 52 * 2 ^ k * G) by lia.
    replace (mx * G * (2 ^ 52 + 1)) with (mx * (2 ^ 52 + 1) * G) by lia.
    apply Z.mul_le_mono_nonneg_r; [lia|]. nia.
  - replace ((mx + 1) * G * 2 ^ 52) with ((mx + 1) * 2 ^ 52 * G) by lia.
    replace (r * 2 ^ k * G * (2 ^ 52 + 1)) with (r * (2 ^ 52 + 1) * 2 ^ k * G) by lia.
    apply Z.mul_le_mono_nonneg_r; [lia|]. nia.
Qed.

Lemma binary_round_close m e :
  -1074 <= e → Zpos m * 2 ^ (e + 1074) < 2 ^ 53 * SCALE → SCALE <= Zpos m * 2 ^ (e + 1074) * 2 ^ 60 →
  ∃ v, f64_val (binary_round 53 1024 false m e) v ∧ close v (Zpos m * 2 ^ (e + 1074)) 1.
Proof.
  intros He Hb Hge. destruct (binary_round_aligned m e He Hb) as (mz & ez & -> & Heq & Hez & _ & _ & Hf).
  rewrite <-Heq in *. clear Heq.
  assert (-1074 < bfexp (Zdigits2 (Zpos mz) + ez)) as Hn.
  { rewrite fexp_eq. apply Z.max_lt_iff. left. apply Z.nle_gt. intros Hc.
    pose proof (Zdigits2_bounds (Zpos mz) eq_refl) as [_ Hhi].
    assert (0 < 2 ^ (ez + 1074)) by (apply Z.pow_pos_nonneg; lia).
    assert (SCALE < 2 ^ Zdigits2 (Zpos mz) * 2 ^ (ez + 1074) * 2 ^ 60) as Hlt by nia.
    pose proof (Zdigits2_nonneg (Zpos mz) ltac:(lia)) as Hd.
    unfold SCALE in Hlt. rewrite <-(Z.pow_add_r 2 (Zdigits2 (Zpos mz))) in Hlt by lia.
    rewrite <-(Z.pow_add_r 2 _ 60) in Hlt by lia.
    apply Z.pow_lt_mono_r_iff in Hlt; lia. }
  destruct (binary_round_aux_close (Zpos mz) ez loc_Exact) as (v & Hv & Hup & Hdn); [lia|lia|lia|done|lia|].
  exists v. split; [done|]. assert (0 < 2 ^ (ez + 1074)) by (apply Z.pow_pos_nonneg; lia).
  split; [lia|]. nia.
Qed.

Lemma f64_add_close x y a b :
  f64_val x a → f64_val y b → a + b < 2 ^ 53 * SCALE → SCALE <= (a + b) * 2 ^ 60 →
  ∃ v, f64_val (f64_add x y) v ∧ close v (a + b) 1.
Proof.
  intros Hx Hy Hlt Hge. pose proof (f64_val_nonneg _ _ Hx). pose proof (f64_val_nonneg _ _ Hy).
  destruct (f64_add_sum x y a b Hx Hy) as [Hex|(m & e & -> & Heq & He)].
  - exists (a + b). split; [done|]. split; lia.
  - rewrite Heq in *. by apply binary_round_close.
Qed.

Lemma f64_div_close x y a b :
  f64_val x a → f64_val y b → 0 < a → 0 < b → a <= 2 ^ 52 * b → b <= 2 ^ 52 * a →
  ∃ v, f64_val (f64_div x y) v ∧
    close v (a * SCALE) b.
Proof.
  intros Hx Hy Ha Hb Hle Hge.
  destruct (f64_div_core x y a b Hx Hy Ha Hb Hle) as (q & e & l & -> & Hq & He & Hf & Hqb & _ & Hlow).
  specialize (Hlow Hge). assert (0 < 2 ^ (- e)) by (apply Z.pow_pos_nonneg; lia).
  assert (-1074 < bfexp (Zdigits2 q + e)) as Hn.
  { rewrite fexp_eq. pose proof (Zdigits2_nonneg q Hq).
    destruct (Z.le_gt_cases (-100) e); [lia|].
    assert (2 ^ (- e - 54) <= q).
    { replace (- e) with (53 + (- e - 54) + 1) in Hqb by lia. rewrite !Z.pow_add_r in Hqb by lia.
      assert (0 < 2 ^ (- e - 54)) by (apply Z.pow_pos_nonneg; lia). nia. }
    pose proof (Zdigits2_ge q (- e - 53) ltac:(lia)) as Hd.
    replace (- e - 53 - 1) with (- e - 54) in Hd by lia. lia. }
  destruct (binary_round_aux_close q e l Hq Hlow ltac:(lia) Hn ltac:(lia)) as (v & Hv & Hup & Hdn).
  exists v. split; [done|]. unfold close. rewrite (SCALE_split e) by lia.
  assert (0 < 2 ^ (e + 1074)) by (apply Z.pow_pos_nonneg; lia).
  set (G := 2 ^ (e + 1074)) in *. set (P := 2 ^ (- e)) in *.
  split.
  - transitivity (q * b * (G * (2 ^ 52 + 1))); [nia|].
    replace (a * (P * G) * (2 ^ 52 + 1)) with (a * P * (G * (2 ^ 52 + 1))) by lia.
    apply Z.mul_le_mono_nonneg_r; lia.
  - transitivity ((q + 1) * b * G * 2 ^ 52); [nia|].
    replace ((q + 1) * b * G * 2 ^ 52) with ((q + 1) * G * 2 ^ 52 * b) by lia.
    replace (v * b * (2 ^ 52 + 1)) with (v * (2 ^ 52 + 1) * b) by lia.
    apply Z.mul_le_mono_nonneg_r; lia.
Qed.

(** A factor of at least [2 ^ -60] is in the normal range. *)
Lemma val_normal m e :
  bounded 53 1024 m e = true → SCALE <= Zpos m * 2 ^ (e + 1074) * 2 ^ 60 →
  -113 < e ∧ 2 ^ 52 <= Zpos m < 2 ^ 53.
Proof.
  intros Hb Hge. apply bounded_inv in Hb as (He & Hm & Hn).
  assert (-113 < e); [|split; [done|split; [apply Hn; lia|done]]].
  apply Z.nle_gt. intros Hc.
  assert (2 ^ (e + 1074) <= 2 ^ (-113 + 1074)) by (apply Z.pow_le_mono_r; lia).
  assert (SCALE <= 2 ^ 53 * 2 ^ (-113 + 1074) * 2 ^ 60 - 1); [nia|].
  revert H0. vm_compute. congruence.
Qed.

Lemma f64_mul_close x y a b :
  f64_val x a → f64_val y b → SCALE <= a * 2 ^ 60 → SCALE <= b * 2 ^ 60 →
  a * b <= 2 ^ 52 * (SCALE * SCALE) →
  ∃ v, f64_val (f64_mul x y) v ∧ v * SCALE * 2 ^ 52 <= a * b * (2 ^ 52 + 1).
Proof.
  intros Hx Hy Ha Hb Hle. pose proof SCALE_pos.
  destruct Hx as [|m1 e1 H1]; [lia|]. destruct Hy as [|m2 e2 H2]; [lia|].
  destruct (val_normal _ _ H1 Ha) as (He1 & Hm1). destruct (val_normal _ _ H2 Hb) as (He2 & Hm2).
  unfold f64_mul, SFmul. cbn [xorb].
  set (m := Zpos (m1 * m2)). set (e := e1 + e2).
  assert (0 < 2 ^ (e + 1074)) by (apply Z.pow_pos_nonneg; lia).
  assert (Zpos m1 * 2 ^ (e1 + 1074) * (Zpos m2 * 2 ^ (e2 + 1074)) = m * 2 ^ (e + 1074) * SCALE) as Hab.
  { unfold m, SCALE. rewrite Pos2Z.inj_mul.
    replace (e + 1074) with ((e1 + 1074) + (e2 + 1074) - 1074) by lia.
    transitivity (Zpos m1 * Zpos m2 * (2 ^ ((e1 + 1074) + (e2 + 1074) - 1074) * 2 ^ 1074));
      [|by rewrite !Z.mul_assoc].
    rewrite <-Z.pow_add_r by lia. replace (e1 + 1074 + (e2 + 1074) - 1074 + 1074)
      with ((e1 + 1074) + (e2 + 1074)) by lia.
    rewrite (Z.pow_add_r 2 (e1 + 1074) (e2 + 1074)) by lia. generalize (2 ^ (e1 + 1074)), (2 ^ (e2 + 1074)). intros p1 p2. nia. }
  rewrite Hab in *. set (G := 2 ^ (e + 1074)) in *.
  assert (2 ^ 104 <= m) by (unfold m; rewrite Pos2Z.inj_mul; nia).
  assert (105 <= Zdigits2 m) by (apply Zdigits2_ge; lia).
  assert (Zdigits2 m + e <= 53).
  { pose proof (Zdigits2_bounds m ltac:(lia)) as [Hlo _].
    assert (m * G <= 2 ^ 52 * SCALE) as Hmg
      by (apply (Z.mul_le_mono_pos_r _ _ SCALE); [done|lia]).
    assert (2 ^ (Zdigits2 m - 1) * G <= m * G) as Hp by (apply Z.mul_le_mono_nonneg_r; lia).
    apply (Z.le_trans _ _ _ Hp) in Hmg as Hp'. clear Hp. rename Hp' into Hp.
    unfold G, SCALE in Hp. rewrite <-!Z.pow_add_r in Hp by lia.
    apply Z.pow_le_mono_r_iff in Hp; lia. }
  destruct (binary_round_aux_close m e loc_Exact) as (v & Hv & Hup & _);
    [lia|lia|rewrite fexp_eq; lia|rewrite fexp_eq; lia|rewrite fexp_eq; lia|].
  exists v. split; [done|]. fold G in Hup. nia.
Qed.

(** The cast truncates. *)
Lemma f64_to_u64_le x v : f64_val x v → 0 <= f64_to_u64 x ∧ f64_to_u64 x * SCALE <= v.
Proof.
  intros [|m e Hb]; [done|]. apply bounded_inv in Hb as (He & _ & _). simpl.
  assert (0 <= Z.shiftl (Zpos m) e ∧ Z.shiftl (Zpos m) e * SCALE <= Zpos m * 2 ^ (e + 1074)) as [? ?].
  { pose proof SCALE_pos. destruct (Z.le_gt_cases 0 e) as [Hp|Hp].
    - rewrite Z.shiftl_mul_pow2 by lia. unfold SCALE. rewrite Z.pow_add_r by lia.
      pose proof (Z.pow_nonneg 2 e ltac:(lia)). split; [nia|lia].
    - rewrite Z.shiftl_div_pow2 by lia. rewrite (SCALE_split e), Z.mul_assoc by lia.
      assert (0 < 2 ^ (- e)) by (apply Z.pow_pos_nonneg; lia).
      split; [apply Z.div_pos; lia|]. apply Z.mul_le_mono_nonneg_r; [apply Z.pow_nonneg; lia|].
      rewrite Z.mul_comm. apply Z.mul_div_le. lia. }
  unfold U64_MAX. pose proof SCALE_pos. split; [lia|nia].
Qed.
