(* ===== verification/Domain.v ===== *)
(** * Domain layer: value objects, entities and ports

    [src/src/domain/value_objects.rs], [entities.rs] and [ports/*.rs].
    Fields of a Rust struct are record projections with the struct's prefix;
    integers are [Z] with the well-formedness predicate stating their width. *)

From S2P Require Import Prelude Text.

(** ** Value objects *)

Inductive RegionCode :=
| SouthAmerica
| NorthAmerica
| Europe
| AsiaPacific.

#[export] Instance RegionCode_eq_dec : EqDecision RegionCode.
Proof. solve_decision. Defined.

Definition region_default : RegionCode := NorthAmerica.

Definition region_from_str (s : string) : RegionCode :=
  let l := to_lowercase s in
  if str_eqb l "sa" then SouthAmerica
  else if str_eqb l "us" then NorthAmerica
  else if str_eqb l "eu" then Europe
  else if str_eqb l "ap" then AsiaPacific
  else NorthAmerica.

Definition region_as_str (r : RegionCode) : string :=
  match r with
  | SouthAmerica => "sa"
  | NorthAmerica => "us"
  | Europe => "eu"
  | AsiaPacific => "ap"
  end.

Definition default_country (r : RegionCode) : string :=
  match r with
  | SouthAmerica => "BR"
  | NorthAmerica => "US"
  | Europe => "DE"
  | AsiaPacific => "JP"
  end.

Definition sa_countries : list string :=
  ["BR"; "AR"; "CL"; "PE"; "CO"; "UY"; "PY"; "BO"; "EC"; "VE"].
Definition us_countries : list string := ["US"; "CA"; "MX"].
Definition eu_countries : list string :=
  ["PT"; "ES"; "FR"; "DE"; "NL"; "IT"; "GB"; "IE"; "BE"; "CH"; "AT"; "PL";
   "CZ"; "SE"; "NO"; "DK"; "FI"; "RU"; "UA"].
Definition ap_countries : list string :=
  ["JP"; "KR"; "TW"; "HK"; "SG"; "MY"; "TH"; "VN"; "ID"; "PH"; "AU"; "NZ";
   "CN"; "IN"].

Definition region_from_country (country : string) : RegionCode :=
  let u := to_uppercase country in
  if bool_decide (u ∈ sa_countries) then SouthAmerica
  else if bool_decide (u ∈ us_countries) then NorthAmerica
  else if bool_decide (u ∈ eu_countries) then Europe
  else if bool_decide (u ∈ ap_countries) then AsiaPacific
  else NorthAmerica.

(** ** Entities *)

Record Backend := mkBackend {
  be_id : string;
  be_app : string;
  be_region : RegionCode;
  be_country : string;
  be_wg_ip : string;
  be_port : Z;          (* u16 *)
  be_healthy : bool;
  be_weight : Z;        (* u8 *)
  be_soft_limit : Z;    (* u32 *)
  be_hard_limit : Z     (* u32 *)
}.

#[export] Instance Backend_eq_dec : EqDecision Backend.
Proof. solve_decision. Defined.

(** The integer fields hold values of their Rust types. *)
Definition backend_wf (b : Backend) : Prop :=
  in_range 16 (be_port b) ∧ in_range 8 (be_weight b) ∧
  in_range 32 (be_soft_limit b) ∧ in_range 32 (be_hard_limit b).

(** [b.healthy = h]. *)
Definition set_healthy (h : bool) (b : Backend) : Backend :=
  mkBackend (be_id b) (be_app b) (be_region b) (be_country b) (be_wg_ip b)
    (be_port b) h (be_weight b) (be_soft_limit b) (be_hard_limit b).

Record Binding := mkBinding {
  bd_backend_id : string;
  bd_created_at : instant;
  bd_last_seen : instant
}.

(** [Binding::new] at clock reading [now]. *)
Definition binding_new (now : instant) (backend_id : string) : Binding :=
  mkBinding backend_id now now.

(** [Binding::touch]. *)
Definition binding_touch (now : instant) (b : Binding) : Binding :=
  mkBinding (bd_backend_id b) (bd_created_at b) now.

(** [IpAddr]: 32-bit or 128-bit. *)
Inductive IpAddr :=
| V4 (a : Z)
| V6 (a : Z).

#[export] Instance IpAddr_eq_dec : EqDecision IpAddr.
Proof. solve_decision. Defined.

#[export] Instance IpAddr_countable : Countable IpAddr.
Proof.
  refine (inj_countable'
    (fun ip => match ip with V4 a => inl a | V6 a => inr a end)
    (fun s => match s with inl a => V4 a | inr a => V6 a end) _).
  by intros [].
Defined.

(** [IpAddr::is_loopback]: 127.0.0.0/8, or ::1. *)
Definition is_loopback (ip : IpAddr) : bool :=
  match ip with
  | V4 a => Z.shiftr a 24 =? 127
  | V6 a => a =? 1
  end.

(** [ClientKey] is a client's IP address; its [PartialEq] and [Hash] are the address's. *)
Record ClientKey := mkClientKey { client_ip : IpAddr }.

#[export] Instance ClientKey_eq_dec : EqDecision ClientKey.
Proof. solve_decision. Defined.

#[export] Instance ClientKey_countable : Countable ClientKey.
Proof. refine (inj_countable' client_ip mkClientKey _). by intros []. Defined.

Record GeoInfo := mkGeoInfo {
  geo_country : string;
  geo_region : RegionCode
}.

#[export] Instance GeoInfo_eq_dec : EqDecision GeoInfo.
Proof. solve_decision. Defined.

(** ** Lemmas *)

Lemma region_from_str_as_str r : region_from_str (region_as_str r) = r.
Proof. by destruct r. Qed.

Lemma region_from_country_default r : region_from_country (default_country r) = r.
Proof. by destruct r. Qed.
