(* ===== verification/NetAddr.v ===== *)
(** * Network addresses as text

    [FromStr] and [Display] of [IpAddr] and [SocketAddr] in Rust's standard
    library ([core::net::parser]), which the program applies to its configuration
    ([main.rs], [dns_server.rs]) and to the answer of the public-IP service
    ([tcp_server.rs], [tls_server.rs]).  A reader takes a prefix of its input and
    returns the rest; [None] leaves the input where it was, as [read_atomically]
    does. *)

From S2P Require Import Prelude Text Domain.
From Stdlib Require Import Ascii.

(** [SocketAddr]; the flow information of an address read from text is 0. *)
Inductive SocketAddr :=
| SockV4 (ip port : Z)
| SockV6 (ip port scope : Z).

#[export] Instance SocketAddr_eq_dec : EqDecision SocketAddr.
Proof. solve_decision. Defined.

Abbreviation reader A := (string → option (A * string)) (only parsing).

(** [char::to_digit(radix)] for radices up to 16. *)
Definition to_digit (radix : Z) (c : ascii) : option Z :=
  let n := Z.of_N (byte_of c) in
  let d := if (48 <=? n) && (n <=? 57) then n - 48
           else if (97 <=? n) && (n <=? 102) then n - 87
           else if (65 <=? n) && (n <=? 70) then n - 55
           else radix in
  if d <? radix then Some d else None.

(** The digits at the front, and what follows them. *)
Fixpoint span_digits (radix : Z) (s : string) : list Z * string :=
  match s with
  | EmptyString => ([], s)
  | String c s' =>
      match to_digit radix c with
      | Some d => let '(ds, rest) := span_digits radix s' in (d :: ds, rest)
      | None => ([], s)
      end
  end.

Definition digits_value (radix : Z) (ds : list Z) : Z := foldl (λ acc d, acc * radix + d) 0 ds.

(** [read_number]: a number of [w] bits. *)
Definition read_number (w radix : Z) (max_digits : option nat) (allow_zero_prefix : bool) : reader Z := λ s,
  let '(ds, rest) := span_digits radix s in
  if bool_decide (ds = []) then None
  else if match max_digits with Some m => (m <? length ds)%nat | None => false end then None
  else if negb allow_zero_prefix && bool_decide (head ds = Some 0) && (1 <? length ds)%nat then None
  else if digits_value radix ds <? 2 ^ w then Some (digits_value radix ds, rest) else None.

Definition read_given_char (c : ascii) : reader unit := λ s,
  match s with
  | String c' s' => if Ascii.eqb c' c then Some (tt, s') else None
  | EmptyString => None
  end.

(** [read_separator]: from the second group on, a separator comes first. *)
Definition read_separator {A} (sep : ascii) (index : nat) (inner : reader A) : reader A := λ s,
  if (0 <? index)%nat then '(_, s) ← read_given_char sep s; inner s else inner s.

Definition read_ipv4_addr : reader Z := λ s,
  let octet i := read_separator "."%char i (read_number 8 10 (Some 3%nat) false) in
  '(a, s) ← octet 0%nat s; '(b, s) ← octet 1%nat s; '(c, s) ← octet 2%nat s; '(d, s) ← octet 3%nat s;
  Some (((a * 256 + b) * 256 + c) * 256 + d, s).

(** [read_groups] on [left] free slots, [i] groups read so far: the groups, whether
    the last two are an embedded IPv4 address, and the rest. *)
Fixpoint read_groups (left i : nat) (s : string) : list Z * bool * string :=
  match left with
  | O => ([], false, s)
  | S left' =>
      match (if (0 <? left')%nat then read_separator ":"%char i read_ipv4_addr s else None) with
      | Some (a, rest) => ([a / 65536; a mod 65536], true, rest)
      | None =>
          match read_separator ":"%char i (read_number 16 16 (Some 4%nat) true) s with
          | Some (g, rest) => let '(gs, v4, rest) := read_groups left' (S i) rest in (g :: gs, v4, rest)
          | None => ([], false, s)
          end
      end
  end.

Definition of_groups (gs : list Z) : Z := foldl (λ acc g, acc * 65536 + g) 0 gs.

Definition read_ipv6_addr : reader Z := λ s,
  let '(head, head_ipv4, s) := read_groups 8 0 s in
  if (length head =? 8)%nat then Some (of_groups head, s)
  else if head_ipv4 then None
  else
    '(_, s) ← read_given_char ":"%char s;
    '(_, s) ← read_given_char ":"%char s;
    let '(tail, _, s) := read_groups (7 - length head) 0 s in
    Some (of_groups (head ++ replicate (8 - length head - length tail) 0 ++ tail), s).

Definition read_port : reader Z := λ s,
  '(_, s) ← read_given_char ":"%char s; read_number 16 10 None true s.

Definition read_scope_id : reader Z := λ s,
  '(_, s) ← read_given_char "%"%char s; read_number 32 10 None true s.

Definition read_socket_addr_v4 : reader SocketAddr := λ s,
  '(ip, s) ← read_ipv4_addr s; '(port, s) ← read_port s; Some (SockV4 ip port, s).

Definition read_socket_addr_v6 : reader SocketAddr := λ s,
  '(_, s) ← read_given_char "["%char s;
  '(ip, s) ← read_ipv6_addr s;
  let '(scope, s) := default (0, s) (read_scope_id s) in
  '(_, s) ← read_given_char "]"%char s;
  '(port, s) ← read_port s;
  Some (SockV6 ip port scope, s).

(** [parse_with]: all of the input. *)
Definition parse_with {A} (r : reader A) (s : string) : option A :=
  match r s with Some (a, EmptyString) => Some a | _ => None end.

(** One reading, or else another, on the same input. *)
Definition or_else {A} (r1 r2 : reader A) : reader A := λ s,
  match r1 s with Some x => Some x | None => r2 s end.

Definition map_reader {A B} (f : A → B) (r : reader A) : reader B := λ s, '(a, s) ← r s; Some (f a, s).

(** [str::parse::<IpAddr>], [str::parse::<SocketAddr>]. *)
Definition parse_ip_addr : string → option IpAddr :=
  parse_with (or_else (map_reader V4 read_ipv4_addr) (map_reader V6 read_ipv6_addr)).

Definition parse_socket_addr : string → option SocketAddr :=
  parse_with (or_else read_socket_addr_v4 read_socket_addr_v6).

(** ** [Display] *)

Definition octets (ip : Z) : list Z :=
  [ip / 16777216; ip / 65536 mod 256; ip / 256 mod 256; ip mod 256].

Definition display_ipv4 (ip : Z) : string :=
  String.concat "." (pretty <$> octets ip).

Definition segments (ip : Z) : list Z :=
  (λ k, ip / 65536 ^ (7 - Z.of_nat k) mod 65536) <$> seq 0 8.

Definition hex_digit (d : Z) : ascii := ascii_of_N (Z.to_N (if d <? 10 then d + 48 else d + 87)).

(** [{:x}] of a 16-bit number. *)
Definition hex16 (g : Z) : string :=
  let digits := [g / 4096 mod 16; g / 256 mod 16; g / 16 mod 16; g mod 16] in
  let blank := if g <? 16 then 3%nat else if g <? 256 then 2%nat else if g <? 4096 then 1%nat else 0%nat in
  String.string_of_list_ascii (hex_digit <$> drop blank digits).

(** The first longest run of zero segments: where it starts, how long it is. *)
Definition longest_zeroes (gs : list Z) : nat * nat :=
  let '(_, _, longest) := foldl (λ '(i, current, longest) g,
    if g =? 0 then
      let current := if (snd current =? 0)%nat then (i, 1%nat) else (fst current, S (snd current)) in
      (S i, current, if (snd longest <? snd current)%nat then current else longest)
    else (S i, (0%nat, 0%nat), longest)) (0%nat, (0%nat, 0%nat), (0%nat, 0%nat)) gs in
  longest.

Definition display_ipv6 (ip : Z) : string :=
  if ip / 2 ^ 32 =? 65535 then "::ffff:" +:+ display_ipv4 (ip mod 2 ^ 32)
  else
    let gs := segments ip in
    let fmt := λ l, String.concat ":" (hex16 <$> l) in
    let '(start, len) := longest_zeroes gs in
    if (1 <? len)%nat then fmt (take start gs) +:+ "::" +:+ fmt (drop (start + len) gs) else fmt gs.

Definition display_ip_addr (ip : IpAddr) : string :=
  match ip with V4 a => display_ipv4 a | V6 a => display_ipv6 a end.

Definition display_socket_addr (a : SocketAddr) : string :=
  match a with
  | SockV4 ip port => display_ipv4 ip +:+ ":" +:+ pretty port
  | SockV6 ip port scope =>
      "[" +:+ display_ipv6 ip +:+ (if scope =? 0 then "" else "%" +:+ pretty scope) +:+ "]:" +:+ pretty port
  end.

(** ** Examples *)

Example parse_v4 : parse_socket_addr "0.0.0.0:4001" = Some (SockV4 0 4001).
Proof. vm_compute. reflexivity. Qed.

Example parse_v6 : parse_socket_addr "[fe80::1%3]:04002" = Some (SockV6 (65152 * 2 ^ 112 + 1) 4002 3).
Proof. vm_compute. reflexivity. Qed.

Example parse_host_name : parse_socket_addr "localhost:4001" = None.
Proof. vm_compute. reflexivity. Qed.

Example parse_mapped : parse_ip_addr "::ffff:192.0.2.1" = Some (V6 (65535 * 2 ^ 32 + 3221225985)).
Proof. vm_compute. reflexivity. Qed.

Example parse_too_long : parse_ip_addr "1:2:3:4:5:6:7:8:9" = None ∧ parse_ip_addr "1::2::3" = None ∧
  parse_ip_addr "256.1.1.1" = None ∧ parse_ip_addr "01.1.1.1" = None.
Proof. vm_compute. done. Qed.

Example display_v6 :
  display_socket_addr (SockV6 (8193 * 2 ^ 112 + 3512 * 2 ^ 96 + 1) 443 0) = "[2001:db8::1]:443" ∧
  display_ip_addr (V6 0) = "::" ∧ display_ip_addr (V6 1) = "::1" ∧
  display_ip_addr (V6 (65535 * 2 ^ 32 + 1)) = "::ffff:0.0.0.1" ∧ display_ip_addr (V4 2130706433) = "127.0.0.1".
Proof. vm_compute. done. Qed.

(** ** Text that is an address *)

(** What a reader makes of a text does not change when the text goes on with [t]. *)
Definition stable {A} (t : string) (r : reader A) : Prop :=
  ∀ s, r (s +:+ t) = '(a, rest) ← r s; Some (a, rest +:+ t).

(** A character that no group of an address contains. *)
Definition stops (radix : Z) (seps : list ascii) (t : string) : Prop :=
  match t with
  | EmptyString => False
  | String c _ => to_digit radix c = None ∧ c ∉ seps
  end.

Lemma span_digits_app radix seps s t :
  stops radix seps t → span_digits radix (s +:+ t) = let '(ds, rest) := span_digits radix s in (ds, rest +:+ t).
Proof.
  intros Ht. induction s as [|c s IH]; cbn [span_digits].
  - destruct t as [|c t]; [done|]. destruct Ht as [Hc _]. change ("" +:+ String c t) with (String c t).
    cbn [span_digits]. by rewrite Hc.
  - change (String c s +:+ t) with (String c (s +:+ t)). cbn [span_digits].
    destruct (to_digit radix c); [|done]. rewrite IH. by destruct (span_digits radix s).
Qed.

Lemma read_number_stable w radix m z seps t : stops radix seps t → stable t (read_number w radix m z).
Proof.
  intros Ht s. unfold read_number. rewrite (span_digits_app _ _ _ _ Ht).
  destruct (span_digits radix s) as [ds rest]. by repeat case_match.
Qed.

Lemma read_given_char_stable c radix seps t : c ∈ seps → stops radix seps t → stable t (read_given_char c).
Proof.
  intros Hc Ht [|c' s]; simpl.
  - destruct t as [|d t]; [done|]. destruct Ht as [_ Hd]. change ("" +:+ String d t) with (String d t).
    simpl. destruct (Ascii.eqb_spec d c); [by subst|done].
  - change (String c' s +:+ t) with (String c' (s +:+ t)). simpl. by destruct (Ascii.eqb c' c).
Qed.

Lemma bind_stable {A B} t (r : reader A) (k : A → reader B) :
  stable t r → (∀ a, stable t (k a)) → stable t (λ s, '(a, s) ← r s; k a s).
Proof. intros Hr Hk s. rewrite Hr. destruct (r s) as [[a rest]|]; simpl; [apply Hk|done]. Qed.

Lemma ret_stable {A} t (a : A) : stable t (λ s, Some (a, s)).
Proof. done. Qed.

Lemma read_separator_stable {A} c i (inner : reader A) radix seps t :
  c ∈ seps → stops radix seps t → stable t inner → stable t (read_separator c i inner).
Proof.
  intros Hc Ht Hi s. unfold read_separator. destruct (0 <? i)%nat; [|apply Hi].
  revert s. apply (bind_stable t _ (λ _, inner)); [by eapply read_given_char_stable|done].
Qed.

Lemma read_ipv4_addr_stable t : stops 10 ["."%char] t → stable t read_ipv4_addr.
Proof.
  intros Ht. assert (∀ i, stable t (read_separator "."%char i (read_number 8 10 (Some 3%nat) false))) as Ho.
  { intros i. eapply read_separator_stable; [by left|done|]. by eapply read_number_stable. }
  unfold read_ipv4_addr.
  apply (bind_stable t _ (λ a s, '(b, s) ← _ s; '(c, s) ← _ s; '(d, s) ← _ s; Some (_, s))); [apply Ho|intros a].
  apply (bind_stable t _ (λ b s, '(c, s) ← _ s; '(d, s) ← _ s; Some (_, s))); [apply Ho|intros b].
  apply (bind_stable t _ (λ c s, '(d, s) ← _ s; Some (_, s))); [apply Ho|intros c].
  apply (bind_stable t _ (λ d s, Some (_, s))); [apply Ho|intros d]. apply ret_stable.
Qed.

(** What ends an IPv6 address. *)
Abbreviation stops6 := (stops 16 ["."%char; ":"%char]).

Lemma stops6_decimal t : stops6 t → stops 10 ["."%char] t.
Proof.
  destruct t as [|c t]; [done|]. intros [Hc Hs]. split; [|set_solver].
  revert Hc. unfold to_digit. repeat case_match; intros; zbool; try done; lia.
Qed.

Lemma read_groups_stable t left i s : stops6 t →
  read_groups left i (s +:+ t) = let '(gs, v4, rest) := read_groups left i s in (gs, v4, rest +:+ t).
Proof.
  intros Ht. revert i s. induction left as [|left IH]; intros i s; cbn [read_groups]; [done|].
  assert (stable t (λ s, if (0 <? left)%nat then read_separator ":"%char i read_ipv4_addr s else None)) as H4.
  { intros s'. destruct (0 <? left)%nat; [|done]. revert s'.
    eapply read_separator_stable; [|exact Ht|]; [set_solver|].
    by apply read_ipv4_addr_stable, stops6_decimal. }
  assert (stable t (read_separator ":"%char i (read_number 16 16 (Some 4%nat) true))) as H6.
  { eapply read_separator_stable; [|exact Ht|]; [set_solver|]. by eapply read_number_stable. }
  rewrite (H4 s), (H6 s). destruct (if (0 <? left)%nat then _ else None) as [[a rest]|]; simpl; [done|].
  destruct (read_separator _ _ _ s) as [[g rest]|]; simpl; [|done].
  rewrite IH. by destruct (read_groups left (S i) rest) as [[gs v4] r].
Qed.

Lemma read_ipv6_addr_stable t : stops6 t → stable t read_ipv6_addr.
Proof.
  intros Ht s. assert (stable t (read_given_char ":"%char)) as Hc.
  { eapply read_given_char_stable; [|exact Ht]. set_solver. }
  unfold read_ipv6_addr. rewrite read_groups_stable by done.
  destruct (read_groups 8 0 s) as [[gs v4] r]. case_match; [done|]. destruct v4; [done|].
  rewrite Hc. destruct (read_given_char _ r) as [[u r1]|]; simpl; [|done].
  rewrite Hc. destruct (read_given_char _ r1) as [[u' r2]|]; simpl; [|done].
  rewrite read_groups_stable by done. by destruct (read_groups _ 0 r2) as [[gs2 v42] r3].
Qed.

(** ** Decimal numbers, printed and read *)

Lemma digits_value_app radix a b : digits_value radix (a ++ b) = digits_value radix a * radix ^ Z.of_nat (length b) + digits_value radix b.
Proof.
  unfold digits_value. rewrite foldl_app. generalize (foldl (λ acc d, acc * radix + d) 0 a) as n.
  assert (∀ l n, foldl (λ acc d, acc * radix + d) n l = n * radix ^ Z.of_nat (length l) + foldl (λ acc d, acc * radix + d) 0 l) as Hl.
  { induction l as [|d l IH]; intros n; simpl; [lia|]. rewrite IH, (IH (0 * radix + d)), Z.mul_add_distr_r.
    replace (Z.of_nat (S (length l))) with (Z.of_nat (length l) + 1) by lia.
    rewrite Z.pow_add_r, Z.pow_1_r by lia. lia. }
  intros n. apply Hl.
Qed.

Lemma pretty_digit d : (d < 10)%N → to_digit 10 (pretty_N_char d) = Some (Z.of_N d).
Proof.
  intros Hd. assert (d = 0 ∨ d = 1 ∨ d = 2 ∨ d = 3 ∨ d = 4 ∨ d = 5 ∨ d = 6 ∨ d = 7 ∨ d = 8 ∨ d = 9)%N as Hc by lia.
  by destruct_or! Hc; subst.
Qed.

Lemma span_pretty_go (x : N) s ds rest : span_digits 10 s = (ds, rest) →
  ∃ ds0, span_digits 10 (pretty_N_go x s) = (ds0 ++ ds, rest) ∧ digits_value 10 ds0 = Z.of_N x ∧ (x ≠ 0%N → ds0 ≠ []).
Proof.
  revert s ds. induction (N.lt_wf_0 x) as [x _ IH]. intros s ds Hs.
  destruct (decide (0 < x)%N) as [Hx|]; [|assert (x = 0%N) as -> by lia; exists []; by rewrite pretty_N_go_0].
  rewrite pretty_N_go_step by done.
  assert (x `mod` 10 < 10)%N as Hm by (by apply N.mod_lt).
  destruct (IH (x `div` 10)%N ltac:(by apply N.div_lt) (String (pretty_N_char (x `mod` 10)) s) (Z.of_N (x `mod` 10) :: ds))
    as (ds0 & Hsp & Hv & _).
  { cbn [span_digits]. by rewrite pretty_digit, Hs. }
  exists (ds0 ++ [Z.of_N (x `mod` 10)]). rewrite <-app_assoc. split; [done|]. split; [|by destruct ds0].
  rewrite digits_value_app, Hv. change (digits_value 10 [Z.of_N (x `mod` 10)]) with (0 * 10 + Z.of_N (x `mod` 10)).
  simpl length. rewrite N2Z.inj_mod, N2Z.inj_div. pose proof (Z.div_mod (Z.of_N x) 10 ltac:(lia)). simpl in *. lia.
Qed.

Lemma read_pretty w n : 0 <= n < 2 ^ w → read_number w 10 None true (pretty n) = Some (n, "").
Proof.
  intros Hn. assert (∃ ds, span_digits 10 (pretty n) = (ds, "") ∧ ds ≠ [] ∧ digits_value 10 ds = n) as (ds & Hs & Hne & Hv).
  { destruct n as [|p|p]; [by exists [0]| |lia]. change (pretty (Zpos p)) with (pretty_N_go (Npos p) "").
    destruct (span_pretty_go (Npos p) "" [] "" eq_refl) as (ds & Hs & Hv & Hne).
    rewrite app_nil_r in Hs. exists ds. naive_solver. }
  unfold read_number. rewrite Hs, bool_decide_false by done. rewrite Hv, (proj2 (Z.ltb_lt n (2 ^ w))) by lia. done.
Qed.

(** ** An IPv6 address has a colon, an IPv4 address has none *)

(** Reading past text without a colon. *)
Definition skips_no_colon {A} (r : reader A) : Prop :=
  ∀ s a rest, r s = Some (a, rest) → str_contains ":"%char s = str_contains ":"%char rest.

Lemma to_digit_colon radix c : radix <= 16 → is_Some (to_digit radix c) → Ascii.eqb ":"%char c = false.
Proof.
  intros Hr. destruct (Ascii.eqb_spec ":"%char c) as [<-|]; [|done]. unfold to_digit. simpl.
  rewrite Z.ltb_irrefl. by intros [? ?].
Qed.

Lemma span_digits_colon radix s ds rest : radix <= 16 → span_digits radix s = (ds, rest) →
  str_contains ":"%char s = str_contains ":"%char rest.
Proof.
  intros Hr. revert ds. induction s as [|c s IH]; intros ds; cbn [span_digits]; [by intros [= _ <-]|].
  destruct (to_digit radix c) eqn:Hd; [|by intros [= _ <-]].
  destruct (span_digits radix s) as [ds' rest'] eqn:Hs. intros [= _ <-]. cbn [str_contains].
  rewrite (to_digit_colon radix c) by eauto. by apply (IH ds').
Qed.

Lemma read_number_colon w radix m z : radix <= 16 → skips_no_colon (read_number w radix m z).
Proof.
  intros Hr s a rest. unfold read_number. destruct (span_digits radix s) as [ds r] eqn:Hs.
  assert (str_contains ":"%char s = str_contains ":"%char r) as Hc by by eapply span_digits_colon.
  repeat case_match; by intros [= _ <-] || done.
Qed.

Lemma read_separator_colon {A} c i (inner : reader A) :
  Ascii.eqb ":"%char c = false → skips_no_colon inner → skips_no_colon (read_separator c i inner).
Proof.
  intros Hc Hi s a rest. unfold read_separator. destruct (0 <? i)%nat; [|apply Hi].
  destruct s as [|c' s]; [done|]. cbn [read_given_char str_contains].
  destruct (Ascii.eqb_spec c' c) as [->|]; [|done]. cbn [mbind option_bind].
  intros Hr. rewrite Hc. by apply (Hi s a).
Qed.

Lemma read_ipv4_addr_colon : skips_no_colon read_ipv4_addr.
Proof.
  intros s a rest. unfold read_ipv4_addr. cbv zeta.
  assert (∀ i, skips_no_colon (read_separator "."%char i (read_number 8 10 (Some 3%nat) false))) as Ho.
  { intros i. apply read_separator_colon; [done|]. by apply read_number_colon. }
  destruct (read_separator _ 0 _ s) as [[a1 r1]|] eqn:E1; simpl; [|done].
  destruct (read_separator _ 1 _ r1) as [[a2 r2]|] eqn:E2; simpl; [|done].
  destruct (read_separator _ 2 _ r2) as [[a3 r3]|] eqn:E3; simpl; [|done].
  destruct (read_separator _ 3 _ r3) as [[a4 r4]|] eqn:E4; simpl; [|done]. intros [= _ <-].
  by rewrite (Ho _ _ _ _ E1), (Ho _ _ _ _ E2), (Ho _ _ _ _ E3), (Ho _ _ _ _ E4).
Qed.

Lemma read_colon_fails {A} i (r : reader A) s : (0 < i)%nat → str_contains ":"%char s = false →
  read_separator ":"%char i r s = None.
Proof.
  intros Hi Hs. unfold read_separator. rewrite (proj2 (Nat.ltb_lt 0 i)) by done.
  destruct s as [|c s]; [done|]. cbn [str_contains] in Hs. apply orb_false_iff in Hs as [Hc _].
  cbn [read_given_char]. rewrite Ascii.eqb_sym, Hc. done.
Qed.

Lemma read_groups_no_colon s : str_contains ":"%char s = false →
  let '(gs, v4, rest) := read_groups 8 0 s in (length gs < 8)%nat ∧ str_contains ":"%char rest = false.
Proof.
  intros Hs. cbn [read_groups Nat.ltb Nat.leb].
  assert (∀ A (r : reader A) a rest, skips_no_colon r → read_separator ":"%char 0 r s = Some (a, rest) →
    str_contains ":"%char rest = false) as Hrest.
  { intros A r a rest Hq Hr. by rewrite <-(Hq s a rest Hr). }
  destruct (read_separator _ 0 read_ipv4_addr s) as [[a rest]|] eqn:H4.
  { split; [simpl; lia|]. eapply Hrest; [apply read_ipv4_addr_colon|exact H4]. }
  destruct (read_separator _ 0 (read_number _ _ _ _) s) as [[g rest]|] eqn:H6; [|simpl; auto with lia].
  assert (str_contains ":"%char rest = false) by (eapply Hrest; [by apply read_number_colon|exact H6]).
  rewrite !read_colon_fails by (done || lia). simpl. auto with lia.
Qed.

Lemma parse_ip_addr_Some s ip : parse_ip_addr s = Some ip →
  match ip with
  | V4 a => read_ipv4_addr s = Some (a, "") ∧ str_contains ":"%char s = false
  | V6 a => read_ipv6_addr s = Some (a, "") ∧ str_contains ":"%char s = true
  end.
Proof.
  unfold parse_ip_addr, parse_with, or_else, map_reader.
  destruct (read_ipv4_addr s) as [[a rest]|] eqn:H4; simpl.
  { destruct rest; intros [= <-]. split; [done|]. by rewrite (read_ipv4_addr_colon _ _ _ H4). }
  destruct (read_ipv6_addr s) as [[a rest]|] eqn:H6; simpl; [|done].
  destruct rest; intros [= <-]. split; [done|]. apply not_false_iff_true. intros Hc.
  revert H6. unfold read_ipv6_addr. pose proof (read_groups_no_colon s Hc) as Hg.
  destruct (read_groups 8 0 s) as [[gs v4] r]. destruct Hg as [Hlen Hr].
  rewrite (proj2 (Nat.eqb_neq _ _)) by lia. destruct v4; [done|].
  pose proof (read_colon_fails 1 (λ s, Some (tt, s)) r ltac:(lia) Hr) as Hf. unfold read_separator in Hf. simpl in Hf.
  by destruct (read_given_char ":"%char r) as [[[] ?]|].
Qed.

Lemma read_port_pretty n : 0 <= n < 2 ^ 16 → read_port (":" +:+ pretty n) = Some (n, "").
Proof. exact (read_pretty 16 n). Qed.

(** The socket address of an IP address and a port. *)
Definition socket_of (ip : IpAddr) (port : Z) : SocketAddr :=
  match ip with V4 a => SockV4 a port | V6 a => SockV6 a port 0 end.

(** An address followed by a port, with brackets when it has a colon, is the text of
    the socket address they make. *)
Lemma parse_socket_addr_text s ip port : parse_ip_addr s = Some ip → 0 <= port < 2 ^ 16 →
  parse_socket_addr (if str_contains ":"%char s then "[" +:+ s +:+ "]:" +:+ pretty port
                     else s +:+ ":" +:+ pretty port) = Some (socket_of ip port).
Proof.
  intros Hip Hport. apply parse_ip_addr_Some in Hip.
  unfold parse_socket_addr, parse_with, or_else. destruct ip as [a|a]; destruct Hip as [Hr ->].
  - unfold read_socket_addr_v4. rewrite (read_ipv4_addr_stable (":" +:+ pretty port)), Hr by (split; [done|set_solver]).
    cbn [mbind option_bind].
    change ("" +:+ ":" +:+ pretty port) with (":" +:+ pretty port).
    rewrite (read_port_pretty port Hport). done.
  - change (read_socket_addr_v4 ("[" +:+ _)) with (@None (SocketAddr * string)). cbv beta iota.
    unfold read_socket_addr_v6.
    change (read_given_char "[" ("[" +:+ s +:+ "]:" +:+ pretty port)) with (Some (tt, s +:+ "]:" +:+ pretty port)).
    cbn [mbind option_bind].
    rewrite (read_ipv6_addr_stable ("]:" +:+ pretty port)), Hr by (split; [done|set_solver]).
    cbn [mbind option_bind].
    change (read_scope_id ("" +:+ "]:" +:+ pretty port)) with (@None (Z * string)).
    cbn [default]. change (read_given_char "]" ("" +:+ "]:" +:+ pretty port)) with (Some (tt, ":" +:+ pretty port)).
    cbn [mbind option_bind].
    rewrite (read_port_pretty port Hport). done.
Qed.

(** Without brackets only an IPv4 address makes one. *)
Lemma parse_socket_addr_bare s ip port : parse_ip_addr s = Some ip → 0 <= port < 2 ^ 16 →
  parse_socket_addr (s +:+ ":" +:+ pretty port) = match ip with V4 a => Some (SockV4 a port) | V6 _ => None end.
Proof.
  intros Hip Hport. pose proof (parse_socket_addr_text s ip port Hip Hport) as Ht.
  destruct ip as [a|a]; destruct (parse_ip_addr_Some _ _ Hip) as [Hr Hc]; rewrite Hc in Ht; [done|].
  unfold parse_socket_addr, parse_with, or_else, read_socket_addr_v4.
  rewrite (read_ipv4_addr_stable (":" +:+ pretty port)) by (split; [done|set_solver]).
  revert Hip. unfold parse_ip_addr, parse_with, or_else, map_reader.
  destruct (read_ipv4_addr s) as [[a4 r4]|]; cbn [mbind option_bind]; [by destruct r4|]. intros _.
  destruct s as [|c s]; [done|]. unfold read_socket_addr_v6.
  change (String c s +:+ ":" +:+ pretty port) with (String c (s +:+ ":" +:+ pretty port)).
  cbn [read_given_char]. destruct (Ascii.eqb_spec c "[") as [->|]; [|done].
  by exfalso; revert Hr; unfold read_ipv6_addr; cbn.
Qed.
