(* ===== verification/AddrText.v ===== *)
(** * Addresses printed and read back

    The standard library's [Display] and [FromStr] of IP and socket addresses
    ([NetAddr]) are inverse: what is printed, canonical IPv6 text included, reads
    back as the same address.  The replication configuration keeps addresses as
    text ([ReplTypes]); this is why that loses nothing ([Main]). *)

From S2P Require Import Prelude Text Domain NetAddr.
From Stdlib Require Import Ascii.

(** The addresses that Rust's types hold. *)
Definition ip_ok (ip : IpAddr) : Prop :=
  match ip with V4 a => 0 <= a < 2 ^ 32 | V6 a => 0 <= a < 2 ^ 128 end.

Definition socket_ok (a : SocketAddr) : Prop :=
  match a with
  | SockV4 ip port => 0 <= ip < 2 ^ 32 ∧ 0 <= port < 2 ^ 16
  | SockV6 ip port scope => 0 <= ip < 2 ^ 128 ∧ 0 <= port < 2 ^ 16 ∧ 0 <= scope < 2 ^ 32
  end.

Lemma stops_char radix seps c t : to_digit radix c = None → bool_decide (c ∈ seps) = false →
  stops radix seps (String c t).
Proof. intros Hd Hs. split; [done|]. exact (bool_decide_eq_false_1 _ Hs). Qed.

(** ** Decimal octets *)

Lemma read_octet n : 0 <= n < 256 → read_number 8 10 (Some 3%nat) false (pretty n) = Some (n, "").
Proof.
  intros Hn. assert (Forall (λ k, read_number 8 10 (Some 3%nat) false (pretty (Z.of_nat k)) = Some (Z.of_nat k, "")) (seq 0 256)) as Hall.
  { apply (bool_decide_unpack _). vm_compute. exact I. }
  rewrite Forall_forall in Hall. specialize (Hall (Z.to_nat n)). rewrite Z2Nat.id in Hall by lia.
  apply Hall. apply elem_of_seq. lia.
Qed.

(** A first octet, and one after a dot. *)
Lemma read_octet_first n t : 0 <= n < 256 →
  read_separator "."%char 0 (read_number 8 10 (Some 3%nat) false) (pretty n +:+ "." +:+ t) = Some (n, "." +:+ t).
Proof.
  intros Hn. unfold read_separator. simpl Nat.ltb. cbv iota.
  rewrite (read_number_stable 8 10 (Some 3%nat) false [] ("." +:+ t)), read_octet by (done || by apply stops_char). done.
Qed.

Lemma read_octet_dot i n t : 0 <= n < 256 →
  read_separator "."%char (S i) (read_number 8 10 (Some 3%nat) false) ("." +:+ pretty n +:+ "." +:+ t) = Some (n, "." +:+ t).
Proof. intros Hn. exact (read_octet_first n t Hn). Qed.

Lemma read_octet_last i n : 0 <= n < 256 →
  read_separator "."%char (S i) (read_number 8 10 (Some 3%nat) false) ("." +:+ pretty n) = Some (n, "").
Proof. intros Hn. exact (read_octet n Hn). Qed.

Lemma read_display_ipv4 a : 0 <= a < 2 ^ 32 → read_ipv4_addr (display_ipv4 a) = Some (a, "").
Proof.
  intros Ha. unfold display_ipv4, octets. cbn [fmap list_fmap String.concat].
  assert (0 <= a / 16777216 < 256) by (split; [apply Z.div_pos; lia|apply Z.div_lt_upper_bound; lia]).
  pose proof (Z.mod_pos_bound (a / 65536) 256 ltac:(lia)). pose proof (Z.mod_pos_bound (a / 256) 256 ltac:(lia)).
  pose proof (Z.mod_pos_bound a 256 ltac:(lia)).
  unfold read_ipv4_addr. rewrite read_octet_first by done. cbn [mbind option_bind].
  rewrite read_octet_dot by done. cbn [mbind option_bind]. rewrite read_octet_dot by done. cbn [mbind option_bind].
  rewrite read_octet_last by done. cbn [mbind option_bind]. do 2 f_equal.
  pose proof (Z.div_mod a 256 ltac:(lia)). pose proof (Z.div_mod (a / 256) 256 ltac:(lia)).
  pose proof (Z.div_mod (a / 65536) 256 ltac:(lia)).
  replace (a / 65536) with (a / 256 / 256) in * by (rewrite Z.div_div by lia; done).
  replace (a / 16777216) with (a / 256 / 256 / 256) in * by (rewrite !Z.div_div by lia; done). lia.
Qed.

(** ** Hexadecimal groups *)

Lemma read_hex_digit d : 0 <= d < 16 → to_digit 16 (hex_digit d) = Some d.
Proof.
  intros Hd. assert (Forall (λ k, to_digit 16 (hex_digit (Z.of_nat k)) = Some (Z.of_nat k)) (seq 0 16)) as Hall.
  { apply (bool_decide_unpack _). vm_compute. exact I. }
  rewrite Forall_forall in Hall. specialize (Hall (Z.to_nat d)). rewrite Z2Nat.id in Hall by lia.
  apply Hall. apply elem_of_seq. lia.
Qed.

Lemma span_hex ds : Forall (λ d, 0 <= d < 16) ds →
  span_digits 16 (String.string_of_list_ascii (hex_digit <$> ds)) = (ds, "").
Proof.
  induction ds as [|d ds IH]; [done|]. intros [Hd Hds]%Forall_cons. cbn [fmap list_fmap String.string_of_list_ascii span_digits].
  by rewrite read_hex_digit, IH.
Qed.

Lemma read_hex16 g : 0 <= g < 65536 → read_number 16 16 (Some 4%nat) true (hex16 g) = Some (g, "").
Proof.
  intros Hg. unfold hex16.
  set (digits := [g / 4096 mod 16; g / 256 mod 16; g / 16 mod 16; g mod 16]).
  set (blank := if g <? 16 then 3%nat else if g <? 256 then 2%nat else if g <? 4096 then 1%nat else 0%nat).
  assert (Forall (λ d, 0 <= d < 16) (drop blank digits)) as Hd.
  { apply Forall_drop. unfold digits. repeat apply Forall_cons_2; [..|by apply Forall_nil]; apply Z.mod_pos_bound; lia. }
  assert (drop blank digits ≠ [] ∧ (length (drop blank digits) <= 4)%nat ∧ digits_value 16 (drop blank digits) = g)
    as (Hne & Hlen & Hv).
  { pose proof (Z.div_mod g 16 ltac:(lia)). pose proof (Z.div_mod (g / 16) 16 ltac:(lia)).
    pose proof (Z.div_mod (g / 256) 16 ltac:(lia)). pose proof (Z.mod_pos_bound g 16 ltac:(lia)).
    pose proof (Z.mod_pos_bound (g / 16) 16 ltac:(lia)). pose proof (Z.mod_pos_bound (g / 256) 16 ltac:(lia)).
    assert (g / 256 = g / 16 / 16) as E2 by (rewrite Z.div_div by lia; done).
    assert (g / 4096 = g / 256 / 16) as E3 by (rewrite Z.div_div by lia; done).
    assert (g / 4096 mod 16 = g / 4096) as E4.
    { apply Z.mod_small. split; [apply Z.div_pos; lia|apply Z.div_lt_upper_bound; lia]. }
    unfold blank, digits, digits_value. rewrite E4.
    destruct (Z.ltb_spec g 16); [|destruct (Z.ltb_spec g 256); [|destruct (Z.ltb_spec g 4096)]];
      (split; [done|split; [simpl; lia|]]); cbn [drop foldl].
    - rewrite Z.mod_small by lia. lia.
    - assert (g / 16 mod 16 = g / 16) by (apply Z.mod_small; split; [apply Z.div_pos; lia|apply Z.div_lt_upper_bound; lia]). lia.
    - assert (g / 256 mod 16 = g / 256) by (apply Z.mod_small; split; [apply Z.div_pos; lia|apply Z.div_lt_upper_bound; lia]). lia.
    - lia. }
  unfold read_number. rewrite span_hex by done. rewrite bool_decide_false by done.
  rewrite (proj2 (Nat.ltb_ge _ _)) by done. simpl negb. cbv iota. rewrite Hv, (proj2 (Z.ltb_lt _ _)) by lia. done.
Qed.

(** ** Text without a dot *)

(** Reading digits passes no character that is not a digit. *)
Lemma span_digits_skips c radix s ds rest : to_digit radix c = None → span_digits radix s = (ds, rest) →
  str_contains c s = str_contains c rest.
Proof.
  intros Hc. revert ds. induction s as [|d s IH]; intros ds; cbn [span_digits]; [by intros [= _ <-]|].
  destruct (to_digit radix d) eqn:Hd; [|by intros [= _ <-]].
  destruct (span_digits radix s) as [ds' rest'] eqn:Hs. intros [= _ <-]. cbn [str_contains].
  destruct (Ascii.eqb_spec c d) as [->|]; [by rewrite Hc in Hd|]. by apply (IH ds').
Qed.

Lemma given_char_missing c s : str_contains c s = false → read_given_char c s = None.
Proof.
  destruct s as [|d s]; [done|]. cbn [str_contains read_given_char]. rewrite Ascii.eqb_sym.
  by intros [-> _]%orb_false_iff.
Qed.

Lemma read_ipv4_no_dot s : str_contains "."%char s = false → read_ipv4_addr s = None.
Proof.
  intros Hs. unfold read_ipv4_addr. cbv zeta.
  destruct (read_separator _ 0 _ s) as [[a r]|] eqn:E; [|done]. cbn [mbind option_bind].
  assert (str_contains "."%char r = false) as Hr.
  { revert E. unfold read_separator, read_number. simpl Nat.ltb. cbv iota.
    destruct (span_digits 10 s) as [ds r'] eqn:Hsp. rewrite (span_digits_skips "."%char 10 s ds r' eq_refl Hsp) in Hs.
    repeat case_match; by intros [= _ <-] || done. }
  destruct (read_separator _ 1 _ r) as [[b r']|] eqn:E1; [|done]. revert E1. unfold read_separator.
  simpl Nat.ltb. cbv iota. by rewrite given_char_missing.
Qed.

Lemma hex16_digits g : 0 <= g < 65536 → ∃ ds, span_digits 16 (hex16 g) = (ds, "").
Proof.
  intros Hg. pose proof (read_hex16 g Hg) as Hr. unfold read_number in Hr.
  destruct (span_digits 16 (hex16 g)) as [ds r]. repeat case_match; try done. exists ds. by injection Hr as _ ->.
Qed.

(** ** Groups separated by colons *)

Definition colon_text (gs : list Z) : string := foldr (λ g t, ":" +:+ hex16 g +:+ t) "" gs.

Definition group_text (gs : list Z) : string := String.concat ":" (hex16 <$> gs).

Abbreviation groups_ok := (Forall (λ g, 0 <= g < 65536)).

Lemma group_text_cons g gs : group_text (g :: gs) = hex16 g +:+ colon_text gs.
Proof.
  unfold group_text. revert g. induction gs as [|h gs IH]; intros g; [by rewrite string_app_nil|].
  cbn [fmap list_fmap String.concat colon_text foldr]. f_equal. exact (f_equal (λ t, ":" +:+ t) (IH h)).
Qed.

Lemma colon_text_no_dot gs : groups_ok gs → str_contains "."%char (colon_text gs) = false.
Proof.
  induction gs as [|g gs IH]; [done|]. intros [Hg Hgs]%Forall_cons. cbn [colon_text foldr].
  change (str_contains "."%char (hex16 g +:+ colon_text gs) = false). rewrite str_contains_app, (IH Hgs), orb_false_r.
  destruct (hex16_digits g Hg) as [ds Hs]. by rewrite (span_digits_skips "."%char 16 _ _ _ eq_refl Hs).
Qed.

Lemma group_text_no_dot gs : groups_ok gs → str_contains "."%char (group_text gs) = false.
Proof.
  destruct gs as [|g gs]; [done|]. intros Hgs. rewrite group_text_cons. exact (colon_text_no_dot (g :: gs) Hgs).
Qed.

(** What can follow the groups: nothing, or the gap. *)
Definition after_groups (t : string) : Prop := (t = "" ∨ ∃ t', t = "::" +:+ t') ∧ str_contains "."%char t = false.

Lemma after_groups_cons gs t : groups_ok gs → after_groups t →
  str_contains "."%char (colon_text gs +:+ t) = false ∧
  (colon_text gs +:+ t = "" ∨ ∃ t', colon_text gs +:+ t = ":" +:+ t').
Proof.
  intros Hgs [Ht Hd]. split; [by rewrite str_contains_app, colon_text_no_dot|].
  destruct gs as [|g gs]; [destruct Ht as [->|[t' ->]]; [by left|right; by exists (":" +:+ t')]|].
  right. cbn [colon_text foldr]. by eexists.
Qed.

Lemma read_group g t : 0 <= g < 65536 → t = "" ∨ (∃ t', t = ":" +:+ t') →
  read_number 16 16 (Some 4%nat) true (hex16 g +:+ t) = Some (g, t).
Proof.
  intros Hg [->|[t' ->]]; [rewrite string_app_nil; by apply read_hex16|].
  by rewrite (read_number_stable _ _ _ _ [] (":" +:+ t')), read_hex16 by (done || by apply stops_char).
Qed.

Lemma read_colon_groups gs left i t : groups_ok gs → (length gs <= left)%nat → after_groups t →
  read_groups left (S i) (colon_text gs +:+ t) = (gs, false, t).
Proof.
  intros Hgs Hlen Ht. revert left i Hlen. induction Hgs as [|g gs Hg Hgs IH]; intros [|left] i Hlen; simpl in Hlen;
    [done| |lia|].
  - destruct Ht as [[->|[t' ->]] Hd]; cbn [colon_text foldr read_groups].
    + by destruct (0 <? left)%nat.
    + change ("" +:+ "::" +:+ t') with (":" +:+ ":" +:+ t').
      assert (∀ A (r : reader A), read_separator ":"%char (S i) r (":" +:+ ":" +:+ t') = r (":" +:+ t')) as E by done.
      rewrite !E. rewrite read_ipv4_no_dot by done. by destruct (0 <? left)%nat.
  - cbn [colon_text foldr read_groups]. destruct (after_groups_cons gs t Hgs Ht) as [Hd Hc].
    change ((":" +:+ hex16 g +:+ foldr (λ g t, ":" +:+ hex16 g +:+ t) "" gs) +:+ t)
      with (":" +:+ (hex16 g +:+ colon_text gs) +:+ t). rewrite string_app_assoc.
    assert (∀ A (r : reader A) s, read_separator ":"%char (S i) r (":" +:+ s) = r s) as E by done.
    rewrite !E, read_ipv4_no_dot, read_group, IH by
      (done || lia || by (rewrite str_contains_app, Hd, orb_false_r; destruct (hex16_digits g Hg) as [ds Hs];
       rewrite (span_digits_skips "."%char 16 _ _ _ eq_refl Hs))).
    by destruct (0 <? left)%nat.
Qed.

Lemma read_first_groups gs left t : groups_ok gs → (length gs <= left)%nat → after_groups t →
  read_groups left 0 (group_text gs +:+ t) = (gs, false, t).
Proof.
  intros Hgs Hlen Ht. destruct Hgs as [|g gs Hg Hgs].
  - destruct left as [|left]; [done|]. cbn [read_groups].
    assert (∀ A (r : reader A) s, read_separator ":"%char 0 r s = r s) as E by done. rewrite !E.
    change (group_text [] +:+ t) with t. destruct Ht as [Ht Hd]. rewrite read_ipv4_no_dot by done.
    destruct Ht as [->|[t' ->]]; by destruct (0 <? left)%nat.
  - destruct left as [|left]; simpl in Hlen; [lia|]. rewrite group_text_cons, string_app_assoc. cbn [read_groups].
    assert (∀ A (r : reader A) s, read_separator ":"%char 0 r s = r s) as E by done. rewrite !E.
    destruct (after_groups_cons gs t Hgs Ht) as [Hd Hc].
    rewrite read_ipv4_no_dot, read_group, read_colon_groups by
      (done || lia || by (rewrite str_contains_app, Hd, orb_false_r; destruct (hex16_digits g Hg) as [ds Hs];
       rewrite (span_digits_skips "."%char 16 _ _ _ eq_refl Hs))).
    by destruct (0 <? left)%nat.
Qed.

(** ** The longest run of zero groups *)

Definition zero_run (gs : list Z) (r : nat * nat) : Prop :=
  (fst r + snd r <= length gs)%nat ∧ ∀ k, (fst r <= k < fst r + snd r)%nat → gs !! k = Some 0.

Lemma zero_run_app gs gs' r : zero_run gs r → zero_run (gs ++ gs') r.
Proof. intros [Hl Hz]. split; [rewrite length_app; lia|]. intros k Hk. apply lookup_app_l_Some, Hz, Hk. Qed.

Lemma longest_zeroes_run gs : zero_run gs (longest_zeroes gs).
Proof.
  unfold longest_zeroes. match goal with |- context [foldl ?f ?i gs] => set (step := f); set (start := i) end.
  assert (∃ cur lon, foldl step start gs = (length gs, cur, lon) ∧ zero_run gs cur ∧ zero_run gs lon ∧
    (snd cur ≠ 0 → fst cur + snd cur = length gs)%nat) as (cur & lon & -> & _ & Hl & _); [|done].
  induction gs as [|g gs IH] using rev_ind.
  { exists (0, 0)%nat, (0, 0)%nat. split; [done|]. unfold zero_run. simpl. repeat split; intros; lia. }
  destruct IH as ([c n] & lon & E & Hc & Hl & Hend). simpl in Hend. rewrite foldl_app, E. cbn [foldl step].
  assert (length (gs ++ [g]) = S (length gs)) as Hlen by (rewrite length_app; simpl; lia). rewrite Hlen.
  destruct (Z.eqb_spec g 0) as [->|]; simpl.
  - set (cur := if (n =? 0)%nat then (length gs, 1%nat) else (c, S n)).
    assert (zero_run (gs ++ [0]) cur ∧ (fst cur + snd cur = S (length gs))%nat) as [Hcur He].
    { unfold cur. destruct (Nat.eqb_spec n 0) as [->|Hn]; simpl; (split; [|lia || specialize (Hend Hn); lia]);
        (split; simpl; [rewrite Hlen; specialize (Hend); lia|intros k Hk]).
      - replace k with (length gs + 0)%nat by lia. by rewrite lookup_app_r, Nat.add_comm, Nat.add_sub by lia.
      - specialize (Hend Hn). destruct (decide (k = length gs)) as [->|].
        + by rewrite lookup_app_r, Nat.sub_diag by lia.
        + apply lookup_app_l_Some, (proj2 Hc). simpl. lia. }
    exists cur. eexists. split; [done|]. split; [done|]. split; [|done].
    destruct (snd lon <? snd cur)%nat; [done|by apply zero_run_app].
  - exists (0, 0)%nat, lon. split; [done|]. split; [|split; [by apply zero_run_app|done]].
    split; simpl; [lia|intros; lia].
Qed.

Lemma zero_run_split gs st len : zero_run gs (st, len) →
  gs = take st gs ++ replicate len 0 ++ drop (st + len) gs.
Proof.
  intros [Hl Hz]. simpl in Hl, Hz. rewrite <-(take_drop st gs) at 1. f_equal.
  rewrite <-(take_drop len (drop st gs)) at 1. rewrite drop_drop. f_equal.
  apply list_eq. intros k. destruct (decide (k < len)%nat).
  - rewrite lookup_take_lt, lookup_drop, Hz, lookup_replicate_2 by lia. done.
  - rewrite lookup_take_ge by lia. symmetry. apply lookup_ge_None. rewrite length_replicate. lia.
Qed.

(** ** Segments *)

Lemma segments_ok a : groups_ok (segments a) ∧ length (segments a) = 8%nat.
Proof.
  unfold segments. split; [|by rewrite length_fmap, length_seq].
  apply Forall_fmap, Forall_forall. intros k _. apply Z.mod_pos_bound. lia.
Qed.

Lemma of_segments a : 0 <= a < 2 ^ 128 → of_groups (segments a) = a.
Proof.
  intros Ha. set (q := λ n : nat, a / 65536 ^ Z.of_nat n).
  assert (∀ n, q n = q (S n) * 65536 + q n mod 65536) as Hs.
  { intros n. rewrite (Z.div_mod (q n) 65536) at 1 by lia. unfold q at 1.
    rewrite Z.div_div by lia. unfold q. rewrite (Nat2Z.inj_succ n), Z.pow_succ_r by lia.
    rewrite (Z.mul_comm 65536 (65536 ^ _)). lia. }
  assert (q 8%nat = 0) as H8 by (apply Z.div_small; lia).
  assert (q 0%nat = a) as H0 by apply Z.div_1_r.
  change (segments a) with ((λ n, q n mod 65536) <$> [7; 6; 5; 4; 3; 2; 1; 0]%nat).
  unfold of_groups. cbn [fmap list_fmap foldl]. clearbody q.
  pose proof (Hs 0%nat). pose proof (Hs 1%nat). pose proof (Hs 2%nat). pose proof (Hs 3%nat).
  pose proof (Hs 4%nat). pose proof (Hs 5%nat). pose proof (Hs 6%nat). pose proof (Hs 7%nat). lia.
Qed.

(** ** IPv6 addresses *)

Lemma read_mapped v : 0 <= v < 2 ^ 32 → read_ipv6_addr ("::ffff:" +:+ display_ipv4 v) = Some (65535 * 2 ^ 32 + v, "").
Proof.
  intros Hv. unfold read_ipv6_addr.
  change (read_groups 8 0 ("::ffff:" +:+ display_ipv4 v)) with (@nil Z, false, "::ffff:" +:+ display_ipv4 v).
  change (length [] =? 8)%nat with false. cbv iota beta zeta.
  assert (∀ s, read_given_char ":"%char (":" +:+ s) = Some (tt, s)) as E by done.
  change ("::ffff:" +:+ display_ipv4 v) with (":" +:+ ":" +:+ "ffff:" +:+ display_ipv4 v).
  rewrite E. cbn [mbind option_bind]. rewrite E. cbn [mbind option_bind].
  assert (read_groups (7 - length []) 0 ("ffff:" +:+ display_ipv4 v)
    = ([65535; v / 65536; v mod 65536], true, "")) as ->.
  { change (7 - length [])%nat with 7%nat. cbn [read_groups].
    change (read_separator ":" 0 read_ipv4_addr ("ffff:" +:+ display_ipv4 v)) with (@None (Z * string)).
    change (read_separator ":" 0 (read_number 16 16 (Some 4%nat) true) ("ffff:" +:+ display_ipv4 v))
      with (Some (65535, ":" +:+ display_ipv4 v)).
    cbn [Nat.ltb Nat.leb]. cbv iota beta.
    change (read_separator ":" 1 read_ipv4_addr (":" +:+ display_ipv4 v)) with (read_ipv4_addr (display_ipv4 v)).
    by rewrite read_display_ipv4. }
  cbn [length app Nat.sub replicate]. unfold of_groups. cbn [foldl].
  pose proof (Z.div_mod v 65536 ltac:(lia)). do 2 f_equal. lia.
Qed.

Lemma read_display_ipv6 a : 0 <= a < 2 ^ 128 → read_ipv6_addr (display_ipv6 a) = Some (a, "").
Proof.
  intros Ha. unfold display_ipv6. destruct (Z.eqb_spec (a / 2 ^ 32) 65535) as [Hm|_].
  { pose proof (Z.mod_pos_bound a (2 ^ 32) ltac:(lia)). rewrite read_mapped by lia.
    pose proof (Z.div_mod a (2 ^ 32) ltac:(lia)). do 2 f_equal. lia. }
  destruct (segments_ok a) as [Hok Hlen]. pose proof (of_segments a Ha) as Hof.
  set (gs := segments a) in *. cbv zeta. pose proof (longest_zeroes_run gs) as Hrun.
  destruct (longest_zeroes gs) as [st len]. unfold read_ipv6_addr.
  destruct (Nat.ltb_spec 1 len) as [Hl|Hl].
  - pose proof (zero_run_split gs st len Hrun) as Hsplit. destruct Hrun as [Hsl _]. simpl in Hsl.
    assert (groups_ok (take st gs) ∧ groups_ok (drop (st + len) gs)) as [Ht Hd]
      by (split; [by apply Forall_take|by apply Forall_drop]).
    assert (after_groups ("::" +:+ group_text (drop (st + len) gs))) as Ha1.
    { split; [right; by eexists|]. by apply group_text_no_dot. }
    assert (after_groups "") as Ha2 by (split; [by left|done]).
    fold (group_text (take st gs)) (group_text (drop (st + len) gs)).
    rewrite read_first_groups by (rewrite ?length_take; done || lia).
    rewrite length_take, Hlen, (proj2 (Nat.eqb_neq (st `min` 8) 8)) by lia.
    assert (∀ s, read_given_char ":"%char (":" +:+ s) = Some (tt, s)) as E by done.
    change ("::" +:+ group_text (drop (st + len) gs)) with (":" +:+ ":" +:+ group_text (drop (st + len) gs)).
    rewrite E. cbn [mbind option_bind]. rewrite E. cbn [mbind option_bind].
    rewrite <-(string_app_nil (group_text (drop (st + len) gs))), read_first_groups
      by (rewrite ?length_drop; done || lia).
    do 2 f_equal. rewrite <-Hof. f_equal. etransitivity; [|symmetry; exact Hsplit].
    do 3 f_equal. rewrite length_drop. lia.
  - fold (group_text gs). assert (after_groups "") as Ha2 by (split; [by left|done]).
    rewrite <-(string_app_nil (group_text gs)), read_first_groups by (done || lia).
    rewrite Hlen. simpl Nat.eqb. cbv iota. by rewrite Hof.
Qed.

(** ** What is read is an address *)

(** The results of a reader satisfy [P]. *)
Definition yields {A} (P : A → Prop) (r : reader A) : Prop := ∀ s a rest, r s = Some (a, rest) → P a.

Lemma span_digits_nonneg radix s ds rest : span_digits radix s = (ds, rest) → Forall (λ d, 0 <= d) ds.
Proof.
  revert ds. induction s as [|c s IH]; intros ds; cbn [span_digits]; [by intros [= <- _]|].
  destruct (to_digit radix c) as [d|] eqn:Hd; [|by intros [= <- _]].
  destruct (span_digits radix s) as [ds' rest'] eqn:Hs. intros [= <- <-].
  constructor; [|by eapply IH]. revert Hd. unfold to_digit. repeat case_match; intros [= <-]; zbool; lia.
Qed.

Lemma read_number_yields w radix m z : 0 <= radix → yields (λ n, 0 <= n < 2 ^ w) (read_number w radix m z).
Proof.
  intros Hr s n rest. unfold read_number. destruct (span_digits radix s) as [ds r] eqn:Hs.
  assert (0 <= digits_value radix ds) as Hv.
  { apply span_digits_nonneg in Hs. clear -Hs Hr.
    assert (∀ acc, 0 <= acc → 0 <= foldl (λ acc d, acc * radix + d) acc ds) as Hf; [|by apply Hf].
    induction Hs as [|d ds Hd Hs IH]; intros acc Hacc; simpl; [done|]. apply IH. nia. }
  destruct (bool_decide _); [done|]. destruct (match m with Some _ => _ | None => _ end); [done|].
  destruct (negb z && _ && _); [done|]. case_match eqn:Hb; [|done].
  intros [= <- _]. apply Z.ltb_lt in Hb. lia.
Qed.

Lemma read_separator_yields {A} (P : A → Prop) c i r : yields P r → yields P (read_separator c i r).
Proof.
  intros Hr s a rest. unfold read_separator. destruct (0 <? i)%nat; [|apply Hr].
  destruct (read_given_char c s) as [[u s']|]; [apply Hr|done].
Qed.

Lemma read_ipv4_addr_yields : yields (λ a, 0 <= a < 2 ^ 32) read_ipv4_addr.
Proof.
  intros s a rest. unfold read_ipv4_addr. cbv zeta.
  assert (∀ i, yields (λ n, 0 <= n < 2 ^ 8) (read_separator "."%char i (read_number 8 10 (Some 3%nat) false))) as Ho.
  { intros i. by apply read_separator_yields, read_number_yields. }
  destruct (read_separator _ 0 _ s) as [[a1 r1]|] eqn:E1; simpl; [|done].
  destruct (read_separator _ 1 _ r1) as [[a2 r2]|] eqn:E2; simpl; [|done].
  destruct (read_separator _ 2 _ r2) as [[a3 r3]|] eqn:E3; simpl; [|done].
  destruct (read_separator _ 3 _ r3) as [[a4 r4]|] eqn:E4; simpl; [|done]. intros [= <- _].
  apply Ho in E1, E2, E3, E4. lia.
Qed.

Lemma read_groups_yields left i s gs v4 rest : read_groups left i s = (gs, v4, rest) →
  groups_ok gs ∧ (length gs <= left)%nat.
Proof.
  revert i s gs v4 rest. induction left as [|left IH]; intros i s gs v4 rest; cbn [read_groups].
  { intros [= <- _ _]. split; [by apply Forall_nil|simpl; lia]. }
  destruct (if (0 <? left)%nat then _ else None) as [[a r]|] eqn:H4.
  { intros [= <- _ _]. destruct (Nat.ltb_spec 0 left); [|done].
    apply (read_separator_yields _ _ _ _ read_ipv4_addr_yields) in H4. split; [|simpl; lia].
    repeat apply Forall_cons_2; [| |by apply Forall_nil].
    - split; [apply Z.div_pos; lia|apply Z.div_lt_upper_bound; lia].
    - apply Z.mod_pos_bound. lia. }
  destruct (read_separator _ i (read_number _ _ _ _) s) as [[g r]|] eqn:H6.
  - destruct (read_groups left (S i) r) as [[gs' v4'] r'] eqn:Hr. intros [= <- _ _].
    destruct (IH _ _ _ _ _ Hr) as [Hok Hlen]. split; [|simpl; lia]. constructor; [|done].
    by apply (read_separator_yields (λ n, 0 <= n < 2 ^ 16) _ _ _ (read_number_yields 16 16 (Some 4%nat) true ltac:(done))) in H6.
  - intros [= <- _ _]. split; [by apply Forall_nil|simpl; lia].
Qed.

Lemma of_groups_range gs : groups_ok gs → length gs = 8%nat → 0 <= of_groups gs < 2 ^ 128.
Proof.
  intros Hok Hlen. do 9 (destruct gs as [|? gs]; try done). unfold of_groups. cbn [foldl].
  repeat match goal with H : Forall _ (_ :: _) |- _ => apply Forall_cons in H as [? H] end. lia.
Qed.

Lemma read_ipv6_addr_yields : yields (λ a, 0 <= a < 2 ^ 128) read_ipv6_addr.
Proof.
  intros s a rest. unfold read_ipv6_addr. destruct (read_groups 8 0 s) as [[gs v4] r] eqn:H1.
  apply read_groups_yields in H1 as [Hok Hlen]. destruct (Nat.eqb_spec (length gs) 8).
  { intros [= <- _]. by apply of_groups_range. }
  destruct v4; [done|]. destruct (read_given_char ":"%char r) as [[u r1]|]; simpl; [|done].
  destruct (read_given_char ":"%char r1) as [[u' r2]|]; simpl; [|done].
  destruct (read_groups _ 0 r2) as [[tl v4] r3] eqn:H2. apply read_groups_yields in H2 as [Hok2 Hlen2].
  intros [= <- _]. apply of_groups_range.
  - apply Forall_app. split; [done|]. apply Forall_app. split; [by apply Forall_replicate|done].
  - rewrite !length_app, length_replicate. lia.
Qed.

Lemma parse_socket_addr_ok s a : parse_socket_addr s = Some a → socket_ok a.
Proof.
  unfold parse_socket_addr, parse_with, or_else.
  destruct (read_socket_addr_v4 s) as [[x r]|] eqn:E4.
  - destruct r; [|done]. intros [= <-]. revert E4. unfold read_socket_addr_v4, read_port.
    destruct (read_ipv4_addr s) as [[ip r]|] eqn:Hip; simpl; [|done]. apply read_ipv4_addr_yields in Hip.
    destruct (read_given_char ":"%char r) as [[u r1]|]; simpl; [|done].
    destruct (read_number _ _ _ _ r1) as [[port r2]|] eqn:Hp; simpl; [|done].
    apply read_number_yields in Hp; [|done]. by intros [= <- _].
  - destruct (read_socket_addr_v6 s) as [[x r]|] eqn:E6; [|done]. destruct r; [|done]. intros [= <-].
    revert E6. unfold read_socket_addr_v6, read_port.
    destruct (read_given_char "["%char s) as [[u r0]|]; simpl; [|done].
    destruct (read_ipv6_addr r0) as [[ip r]|] eqn:Hip; simpl; [|done]. apply read_ipv6_addr_yields in Hip.
    destruct (default (0, r) (read_scope_id r)) as [scope r1] eqn:Hs.
    assert (0 <= scope < 2 ^ 32) as Hscope.
    { revert Hs. unfold read_scope_id. destruct (read_given_char "%"%char r) as [[v r2]|]; simpl; [|by intros [= <- _]].
      destruct (read_number _ _ _ _ r2) as [[n r3]|] eqn:Hn; simpl; [|by intros [= <- _]].
      apply read_number_yields in Hn; [|done]. by intros [= <- _]. }
    destruct (read_given_char "]"%char r1) as [[v r2]|]; simpl; [|done].
    destruct (read_given_char ":"%char r2) as [[v' r3]|]; simpl; [|done].
    destruct (read_number _ _ _ _ r3) as [[port r4]|] eqn:Hp; simpl; [|done].
    apply read_number_yields in Hp; [|done]. by intros [= <- _].
Qed.

(** ** Round trips *)

Lemma display_ipv6_not_v4 a : read_ipv4_addr (display_ipv6 a) = None.
Proof.
  unfold display_ipv6. destruct (a / 2 ^ 32 =? 65535); [done|].
  destruct (segments_ok a) as [Hok _]. set (gs := segments a) in *. cbv zeta.
  apply read_ipv4_no_dot. destruct (longest_zeroes gs) as [st len]. fold (group_text gs).
  fold (group_text (take st gs)) (group_text (drop (st + len) gs)).
  destruct (1 <? len)%nat; [|by apply group_text_no_dot].
  rewrite !str_contains_app, !group_text_no_dot by (by apply Forall_take || by apply Forall_drop). done.
Qed.

Lemma ip_addr_roundtrip ip : ip_ok ip → parse_ip_addr (display_ip_addr ip) = Some ip.
Proof.
  unfold parse_ip_addr, parse_with, or_else, map_reader. destruct ip as [a|a]; simpl ip_ok; intros Ha.
  - simpl display_ip_addr. by rewrite read_display_ipv4.
  - simpl display_ip_addr. by rewrite display_ipv6_not_v4, read_display_ipv6.
Qed.

Lemma socket_addr_roundtrip a : socket_ok a → parse_socket_addr (display_socket_addr a) = Some a.
Proof.
  unfold parse_socket_addr, parse_with, or_else. destruct a as [ip port|ip port scope]; simpl socket_ok.
  - intros [Hip Hp]. simpl display_socket_addr. unfold read_socket_addr_v4.
    rewrite (read_ipv4_addr_stable (":" +:+ pretty port)), read_display_ipv4 by (done || by apply stops_char).
    cbn [mbind option_bind]. change ("" +:+ ":" +:+ pretty port) with (":" +:+ pretty port).
    by rewrite read_port_pretty.
  - intros (Hip & Hp & Hs). cbn [display_socket_addr].
    set (tl := (if scope =? 0 then "" else "%" +:+ pretty scope) +:+ "]:" +:+ pretty port).
    assert (stops6 tl) as Htl.
    { unfold tl. destruct (scope =? 0); by apply stops_char. }
    change (read_socket_addr_v4 ("[" +:+ _)) with (@None (SocketAddr * string)). cbv beta iota.
    unfold read_socket_addr_v6.
    change (read_given_char "[" ("[" +:+ display_ipv6 ip +:+ tl)) with (Some (tt, display_ipv6 ip +:+ tl)).
    cbn [mbind option_bind]. rewrite (read_ipv6_addr_stable tl), read_display_ipv6 by done.
    cbn [mbind option_bind]. change ("" +:+ tl) with tl.
    assert (default (0, tl) (read_scope_id tl) = (scope, "]:" +:+ pretty port)) as ->.
    { unfold tl. destruct (Z.eqb_spec scope 0) as [->|]; [done|].
      change (("%" +:+ pretty scope) +:+ "]:" +:+ pretty port) with ("%" +:+ (pretty scope +:+ "]:" +:+ pretty port)).
      unfold read_scope_id. change (read_given_char "%" ("%" +:+ ?x)) with (Some (tt, x)). cbn [mbind option_bind].
      by rewrite (read_number_stable 32 10 None true [] ("]:" +:+ pretty port)), read_pretty
        by (done || by apply stops_char). }
    change (read_given_char "]" ("]:" +:+ pretty port)) with (Some (tt, ":" +:+ pretty port)).
    cbn [mbind option_bind]. by rewrite read_port_pretty.
Qed.

(** Text that is an address and what is printed of that address read alike. *)
Lemma display_parsed s a : parse_socket_addr s = Some a → parse_socket_addr (display_socket_addr a) = Some a.
Proof. intros Hs. by apply socket_addr_roundtrip, (parse_socket_addr_ok s). Qed.
