(* ===== verification/Parse.v ===== *)
(** * Taking strings apart

    The functions of Rust's standard library that the configuration loader and
    the DNS server apply to strings: suffixes, trimming, splitting, and reading
    unsigned integers and IPv4 addresses. *)

From S2P Require Import Prelude Text.
From Stdlib Require Import Ascii.

(** [str::strip_suffix] and [ends_with]. *)
Fixpoint strip_suffix (s suf : string) : option string :=
  if str_eqb s suf then Some ""
  else match s with
       | EmptyString => None
       | String c s' => String c <$> strip_suffix s' suf
       end.

Definition ends_with (s suf : string) : bool :=
  match strip_suffix s suf with Some _ => true | None => false end.

(** [str::trim_end_matches(c)]. *)
Fixpoint trim_end_matches (c : ascii) (s : string) : string :=
  match s with
  | EmptyString => EmptyString
  | String x s' =>
      match trim_end_matches c s' with
      | EmptyString => if Ascii.eqb x c then EmptyString else String x EmptyString
      | r => String x r
      end
  end.

(** [str::split(c)]. *)
Fixpoint split_on (c : ascii) (s : string) : list string :=
  match s with
  | EmptyString => [EmptyString]
  | String x s' =>
      if Ascii.eqb x c then EmptyString :: split_on c s'
      else match split_on c s' with
           | w :: ws => String x w :: ws
           | [] => [String x EmptyString]
           end
  end.

(** White space, by the number of bytes of its UTF-8 form: the [White_Space]
    characters of Unicode. *)
Definition ws1 (a : ascii) : bool :=
  let n := byte_of a in ((9 <=? n) && (n <=? 13) || (n =? 32))%N.
Definition ws2 (a b : ascii) : bool :=
  ((byte_of a =? 194) && ((byte_of b =? 133) || (byte_of b =? 160)))%N.
Definition ws3 (a b c : ascii) : bool :=
  let x := byte_of a in let y := byte_of b in let z := byte_of c in
  ((x =? 225) && (y =? 154) && (z =? 128)
   || (x =? 226) && (y =? 128) && ((128 <=? z) && (z <=? 138) || (z =? 168) || (z =? 169) || (z =? 175))
   || (x =? 226) && (y =? 129) && (z =? 159)
   || (x =? 227) && (y =? 128) && (z =? 128))%N.

Fixpoint trim_start_bytes (l : list ascii) : list ascii :=
  match l with
  | [] => []
  | a :: l1 =>
      if ws1 a then trim_start_bytes l1
      else match l1 with
           | b :: l2 =>
               if ws2 a b then trim_start_bytes l2
               else match l2 with
                    | c :: l3 => if ws3 a b c then trim_start_bytes l3 else l
                    | [] => l
                    end
           | [] => l
           end
  end.

(** The same from the end, on the reversed bytes. *)
Fixpoint trim_end_rev (l : list ascii) : list ascii :=
  match l with
  | [] => []
  | a :: l1 =>
      if ws1 a then trim_end_rev l1
      else match l1 with
           | b :: l2 =>
               if ws2 b a then trim_end_rev l2
               else match l2 with
                    | c :: l3 => if ws3 c b a then trim_end_rev l3 else l
                    | [] => l
                    end
           | [] => l
           end
  end.

(** [str::trim]. *)
Definition trim (s : string) : string :=
  String.string_of_list_ascii (rev (trim_end_rev (rev (trim_start_bytes (String.list_ascii_of_string s))))).

Definition digit_of (c : ascii) : option Z :=
  let n := byte_of c in
  if ((48 <=? n) && (n <=? 57))%N then Some (Z.of_N n - 48) else None.

Fixpoint parse_digits (acc : Z) (s : string) : option Z :=
  match s with
  | EmptyString => Some acc
  | String c s' => d ← digit_of c; parse_digits (acc * 10 + d) s'
  end.

Definition strip_plus (s : string) : string :=
  match s with
  | String c s' => if Ascii.eqb c "+"%char then s' else s
  | EmptyString => s
  end.

(** [str::parse::<uW>]: an optional plus sign, at least one digit, and a value
    that fits (digits after an overflow are an error either way). *)
Definition parse_uint (w : Z) (s : string) : option Z :=
  let body := strip_plus s in
  if str_eqb body "" then None
  else n ← parse_digits 0 body; if n <? 2 ^ w then Some n else None.

(** One number of an IPv4 address: one to three digits, no leading zero. *)
Definition parse_octet (s : string) : option Z :=
  match s with
  | EmptyString => None
  | String c s' =>
      if (3 <? String.length s)%nat then None
      else if Ascii.eqb c "0"%char && negb (str_eqb s' "") then None
      else n ← parse_digits 0 s; if n <? 256 then Some n else None
  end.

(** [str::parse::<Ipv4Addr>], as a 32-bit number. *)
Definition parse_ipv4 (s : string) : option Z :=
  match split_on "."%char s with
  | [a; b; c; d] =>
      a ← parse_octet a; b ← parse_octet b; c ← parse_octet c; d ← parse_octet d;
      Some (((a * 256 + b) * 256 + c) * 256 + d)
  | _ => None
  end.

(** ** Lemmas *)

Example parse_ipv4_ok : parse_ipv4 "10.0.0.255" = Some 167772415.
Proof. reflexivity. Qed.
Example parse_ipv4_zero : parse_ipv4 "10.00.0.1" = None.
Proof. reflexivity. Qed.
Example trim_ok : trim "  a b " = "a b".
Proof. reflexivity. Qed.

Lemma strip_suffix_Some s suf r : strip_suffix s suf = Some r → s = r +:+ suf.
Proof.
  revert r. induction s as [|c s IH]; intros r; simpl; destruct (str_eqb _ suf) eqn:He.
  - intros [= <-]. by apply str_eqb_eq in He.
  - done.
  - intros [= <-]. by apply str_eqb_eq in He.
  - rewrite fmap_Some. intros (r' & Hr & ->). exact (f_equal (String c) (IH r' Hr)).
Qed.

Lemma string_length_app a b : String.length (a +:+ b) = (String.length a + String.length b)%nat.
Proof. induction a as [|c a IH]; simpl; [done|]. by f_equal. Qed.

Lemma strip_suffix_app a suf : strip_suffix (a +:+ suf) suf = Some a.
Proof.
  induction a as [|c a IH].
  - change (strip_suffix suf suf = Some ""). destruct suf; cbn [strip_suffix]; by rewrite str_eqb_refl.
  - change (String c a +:+ suf) with (String c (a +:+ suf)). cbn [strip_suffix]. rewrite IH.
    destruct (str_eqb _ suf) eqn:He; [|done]. exfalso.
    apply str_eqb_eq, (f_equal String.length) in He. simpl in He. rewrite string_length_app in He. lia.
Qed.

Lemma ends_with_spec s suf : ends_with s suf = true ↔ ∃ r, s = r +:+ suf.
Proof.
  unfold ends_with. split.
  - destruct (strip_suffix s suf) as [r|] eqn:Hs; [|done]. intros _. exists r. by apply strip_suffix_Some.
  - intros [r ->]. by rewrite strip_suffix_app.
Qed.
