(* ===== verification/LoadBalancer.v ===== *)
(** * Load balancer

    [src/src/domain/services/load_balancer.rs].  Scores are [f64]: the model
    computes them with the same sequence of IEEE operations as the code. *)

From S2P Require Import Prelude Text Float64 Domain.
From Stdlib Require Import SpecFloat.

(** [calculate_geo_score]: match arms in order, with their guards. *)
Definition calculate_geo_score (backend : Backend) (local_region : RegionCode)
    (client_geo : option GeoInfo) : f64 :=
  let fallback :=
    if bool_decide (be_region backend = local_region) then f64_of_Z 2 else f64_of_Z 3 in
  match client_geo with
  | Some geo =>
      if str_eqb (be_country backend) (geo_country geo) then f64_of_Z 0
      else if bool_decide (be_region backend = geo_region geo) then f64_of_Z 1
      else fallback
  | None => fallback
  end.

Definition soft_of (backend : Backend) : f64 :=
  if be_soft_limit backend =? 0 then f64_of_Z 1 else f64_of_Z (be_soft_limit backend).

Definition hard_of (backend : Backend) : f64 :=
  if be_hard_limit backend =? 0 then F64_MAX else f64_of_Z (be_hard_limit backend).

Definition weight_of (backend : Backend) : f64 :=
  if be_weight backend =? 0 then f64_of_Z 1 else f64_of_Z (be_weight backend).

(** [geo_score * 100.0 + (load_factor / weight)]. *)
Definition score_of (local_region : RegionCode) (client_geo : option GeoInfo)
    (get_conn_count : string → Z) (backend : Backend) : f64 :=
  let current := f64_of_Z (get_conn_count (be_id backend)) in
  let geo_score := calculate_geo_score backend local_region client_geo in
  let load_factor := f64_div current (soft_of backend) in
  f64_add (f64_mul geo_score (f64_of_Z 100)) (f64_div load_factor (weight_of backend)).

(** One iteration of the selection loop, on the accumulator [best]. *)
Definition pick_step (local_region : RegionCode) (client_geo : option GeoInfo)
    (get_conn_count : string → Z) (best : option (Backend * f64)) (backend : Backend)
    : option (Backend * f64) :=
  let current := f64_of_Z (get_conn_count (be_id backend)) in
  if f64_leb (hard_of backend) current then best
  else
    let score := score_of local_region client_geo get_conn_count backend in
    match best with
    | Some (_, best_score) =>
        if f64_ltb score best_score then Some (backend, score) else best
    | None => Some (backend, score)
    end.

Definition pick_backend (backends : list Backend) (local_region : RegionCode)
    (client_geo : option GeoInfo) (get_conn_count : string → Z) : option Backend :=
  let healthy := filter (fun b => be_healthy b = true) backends in
  fst <$> foldl (pick_step local_region client_geo get_conn_count) None healthy.

Definition calculate_all_scores (backends : list Backend) (local_region : RegionCode)
    (client_geo : option GeoInfo) (get_conn_count : string → Z) : list (string * f64) :=
  let healthy := filter (fun b => be_healthy b = true) backends in
  (fun b => (be_id b, score_of local_region client_geo get_conn_count b)) <$> healthy.

(** ** Specification *)

(** A backend the loop considers: healthy and below its hard limit. *)
Definition eligible (get_conn_count : string → Z) (b : Backend) : Prop :=
  be_healthy b = true ∧ f64_leb (hard_of b) (f64_of_Z (get_conn_count (be_id b))) = false.

(** The tier of a backend: the geo score as an integer. *)
Definition geo_tier (b : Backend) (local_region : RegionCode) (client_geo : option GeoInfo) : Z :=
  match client_geo with
  | Some geo =>
      if str_eqb (be_country b) (geo_country geo) then 0
      else if bool_decide (be_region b = geo_region geo) then 1
      else if bool_decide (be_region b = local_region) then 2 else 3
  | None => if bool_decide (be_region b = local_region) then 2 else 3
  end.

(** Limits with the code's defaults for zero. *)
Definition eff_soft (b : Backend) : Z := if be_soft_limit b =? 0 then 1 else be_soft_limit b.
Definition eff_weight (b : Backend) : Z := if be_weight b =? 0 then 1 else be_weight b.

Section selection.
Context (local_region : RegionCode) (client_geo : option GeoInfo) (get_conn_count : string → Z).

#[local] Abbreviation score := (score_of local_region client_geo get_conn_count).
#[local] Abbreviation step := (pick_step local_region client_geo get_conn_count).

(** What the accumulator says of the backends already visited. *)
Definition best_of (visited : list Backend) (best : option (Backend * f64)) : Prop :=
  match best with
  | None => ∀ b, b ∈ visited → ¬ eligible get_conn_count b
  | Some (b, s) =>
      s = score b ∧
      ∃ l1 l2, visited = l1 ++ b :: l2 ∧ eligible get_conn_count b ∧
        (∀ b', b' ∈ visited → eligible get_conn_count b' → f64_ltb (score b') (score b) = false) ∧
        (∀ b', b' ∈ l1 → eligible get_conn_count b' → f64_leb (score b') (score b) = false)
  end.

(** An unhealthy backend, or one at its hard limit, leaves the accumulator correct. *)
Lemma best_of_skip visited best x :
  best_of visited best → ¬ eligible get_conn_count x → best_of (visited ++ [x]) best.
Proof.
  intros Hbest Hx. destruct best as [[b s]|]; simpl in *.
  - destruct Hbest as (-> & l1 & l2 & -> & Hel & Hmin & Hfirst). split; [done|].
    exists l1, (l2 ++ [x]). split; [by rewrite <-app_assoc|]. split; [done|]. split; [|done].
    intros b' [?| ->%list_elem_of_singleton]%elem_of_app ?; [eauto|done].
  - intros b [?| ->%list_elem_of_singleton]%elem_of_app; [eauto|done].
Qed.

(** An eligible one is compared with the best so far. *)
Lemma best_of_step visited best x :
  best_of visited best → eligible get_conn_count x → best_of (visited ++ [x]) (step best x).
Proof.
  intros Hbest Hx. pose proof Hx as [_ Hhard]. unfold pick_step. rewrite Hhard.
  destruct best as [[b s]|]; simpl in *.
  - destruct Hbest as (-> & l1 & l2 & -> & Hel & Hmin & Hfirst).
    destruct (f64_ltb (score x) (score b)) eqn:Hlt; simpl; (split; [done|]).
    + exists (l1 ++ b :: l2), []. split; [done|]. split; [done|].
      assert (∀ b', b' ∈ l1 ++ b :: l2 → eligible get_conn_count b' →
        f64_leb (score b') (score x) = false) as Hle.
      { intros b' Hin He. apply not_true_is_false. intros Hc.
        pose proof (SFleb_ltb_trans _ _ _ Hc Hlt) as Hlt'.
        specialize (Hmin b' Hin He). unfold f64_ltb in Hmin. congruence. }
      split; [|done].
      intros b' [Hin| ->%list_elem_of_singleton]%elem_of_app He; [|apply SFltb_irrefl].
      apply not_true_is_false. intros Hc.
      pose proof (SFltb_trans _ _ _ Hc Hlt). specialize (Hmin b' Hin He).
      unfold f64_ltb in *. congruence.
    + exists l1, (l2 ++ [x]). split; [by rewrite <-app_assoc|]. split; [done|]. split; [|done].
      intros b' [?| ->%list_elem_of_singleton]%elem_of_app ?; eauto.
  - split; [done|]. exists visited, []. split; [done|]. split; [done|]. split.
    + intros b' [Hin| ->%list_elem_of_singleton]%elem_of_app He; [|apply SFltb_irrefl].
      by destruct (Hbest b' Hin).
    + intros b' Hin He. by destruct (Hbest b' Hin).
Qed.

Lemma pick_loop_correct backends :
  best_of backends (foldl step None (filter (fun b => be_healthy b = true) backends)).
Proof.
  induction backends as [|x l IH] using rev_ind.
  { intros b Hb. by apply elem_of_nil in Hb. }
  rewrite filter_app, foldl_app.
  set (best := foldl step None (filter (λ b, be_healthy b = true) l)) in *.
  rewrite filter_cons, filter_nil. destruct (decide (be_healthy x = true)) as [Hh|Hh]; simpl.
  - destruct (f64_leb (hard_of x) (f64_of_Z (get_conn_count (be_id x)))) eqn:Hhard.
    + replace (step best x) with best by (unfold pick_step; by rewrite Hhard).
      apply best_of_skip; [done|]. intros [_ ?]. congruence.
    + by apply best_of_step.
  - apply best_of_skip; [done|]. intros [? _]. congruence.
Qed.
End selection.

(** ** Score bounds *)

Lemma geo_tier_range b lr g : 0 <= geo_tier b lr g <= 3.
Proof. unfold geo_tier. repeat case_scrutinee; lia. Qed.

Lemma calculate_geo_score_tier b lr g :
  calculate_geo_score b lr g = f64_of_Z (geo_tier b lr g).
Proof. unfold calculate_geo_score, geo_tier. by repeat case_scrutinee. Qed.

Lemma tier_times_100 t : 0 <= t <= 3 → f64_mul (f64_of_Z t) (f64_of_Z 100) = f64_of_Z (100 * t).
Proof.
  intros Ht. assert (t = 0 ∨ t = 1 ∨ t = 2 ∨ t = 3) as Hc by lia.
  destruct Hc as [->|[->|[->| ->]]]; by vm_compute.
Qed.

Lemma soft_of_val b : backend_wf b →
  1 <= eff_soft b < 2 ^ 32 ∧ f64_val (soft_of b) (eff_soft b * SCALE).
Proof.
  intros (_ & _ & Hs & _). unfold in_range in Hs. unfold eff_soft, soft_of.
  destruct (Z.eqb_spec (be_soft_limit b) 0); (split; [lia|]); apply f64_of_Z_val; lia.
Qed.

Lemma weight_of_val b : backend_wf b →
  1 <= eff_weight b < 2 ^ 8 ∧ f64_val (weight_of b) (eff_weight b * SCALE).
Proof.
  intros (_ & Hw & _). unfold in_range in Hw. unfold eff_weight, weight_of.
  destruct (Z.eqb_spec (be_weight b) 0); (split; [lia|]); apply f64_of_Z_val; lia.
Qed.

(** [load_factor / weight] rounds on the integer grid: a connection count of at
    most [N * soft * weight] gives a load term of at most [N]. *)
Lemma load_term_val b c :
  backend_wf b → 0 <= c < 2 ^ 52 →
  ∃ x, f64_val (f64_div (f64_div (f64_of_Z c) (soft_of b)) (weight_of b)) x ∧
    0 <= x <= 2 ^ 52 * SCALE ∧
    ∀ N, c <= N * eff_weight b * eff_soft b → x <= N * SCALE.
Proof.
  intros Hwf Hc. pose proof SCALE_pos.
  destruct (soft_of_val b Hwf) as [Hs Hsv], (weight_of_val b Hwf) as [Hw Hwv].
  assert (∀ K, c <= K * eff_soft b → c * SCALE <= K * (eff_soft b * SCALE)) as Hscale
    by (intros K HK; rewrite Z.mul_assoc; apply Z.mul_le_mono_nonneg_r; lia).
  destruct (f64_div_grid _ _ (c * SCALE) _ (f64_of_Z_val c ltac:(lia)) Hsv) as (a & Ha & Hag);
    [lia|apply Hscale; lia|].
  assert (0 <= a) by (eapply f64_val_nonneg; eauto).
  assert (a <= 2 ^ 52 * SCALE) by (apply (Hag (2 ^ 52)), Hscale; lia).
  assert (a <= 2 ^ 52 * (eff_weight b * SCALE)) by nia.
  destruct (f64_div_grid _ _ a _ Ha Hwv) as (x & Hx & Hxg); [lia|done|].
  exists x. split; [done|]. split; [split|].
  - eapply f64_val_nonneg; eauto.
  - by apply (Hxg (2 ^ 52)).
  - intros N HN. apply (Hxg N). rewrite Z.mul_assoc.
    by apply (Hag (N * eff_weight b)), Hscale.
Qed.

(** The score of a backend of tier [t] is at least [100 t]; it is at most
    [100 t + N] when the load term is at most [N]. *)
Lemma score_of_val lr g cnt b :
  backend_wf b → 0 <= cnt (be_id b) < 2 ^ 52 →
  ∃ v, f64_val (score_of lr g cnt b) v ∧ 100 * geo_tier b lr g * SCALE <= v ∧
    ∀ N, cnt (be_id b) <= N * eff_weight b * eff_soft b →
      v <= (100 * geo_tier b lr g + N) * SCALE.
Proof.
  intros Hwf Hc. unfold score_of.
  pose proof (geo_tier_range b lr g) as Ht. set (t := geo_tier b lr g) in *.
  rewrite calculate_geo_score_tier. fold t. rewrite tier_times_100 by lia.
  destruct (load_term_val b _ Hwf Hc) as (x & Hx & Hxb & HxN).
  pose proof SCALE_pos.
  destruct (f64_add_grid _ _ (100 * t * SCALE) x (f64_of_Z_val (100 * t) ltac:(lia)) Hx)
    as (v & Hv & Hg).
  { assert (100 * t * SCALE <= 300 * SCALE) by (apply Z.mul_le_mono_nonneg_r; lia). lia. }
  exists v. split; [done|]. split; [apply (Hg (100 * t)); lia|].
  intros N HN. apply (Hg (100 * t + N)). specialize (HxN N HN). lia.
Qed.

(** ** Properties *)

(** C4: selection is optimal and stable. When [pick_backend] answers [Some b],
    [b] is healthy and under its hard limit, no eligible backend of the list has
    a strictly smaller score, and every eligible backend before [b] in the list
    has a score that is not smaller or equal (so ties go to the first); it
    answers [None] exactly when no backend of the list is eligible. *)
Theorem pick_backend_spec backends local_region client_geo get_conn_count :
  match pick_backend backends local_region client_geo get_conn_count with
  | Some b =>
      let score := score_of local_region client_geo get_conn_count in
      ∃ l1 l2, backends = l1 ++ b :: l2 ∧ eligible get_conn_count b ∧
        (∀ b', b' ∈ backends → eligible get_conn_count b' →
           f64_ltb (score b') (score b) = false) ∧
        (∀ b', b' ∈ l1 → eligible get_conn_count b' →
           f64_leb (score b') (score b) = false)
  | None => ∀ b, b ∈ backends → ¬ eligible get_conn_count b
  end.
Proof.
  pose proof (pick_loop_correct local_region client_geo get_conn_count backends) as Hloop.
  unfold pick_backend. destruct (foldl _ _ _) as [[b s]|]; simpl in *; [by apply Hloop|done].
Qed.

(** C11: geography dominates load. If a backend of a strictly worse geo tier is
    picked, then every eligible backend of a better tier carries more than 99
    times its soft limit times its weight: in binary64 arithmetic, rounding
    included, the load term cannot reach across a tier below that point.
    (Connection counts are assumed below [2^52].) *)
Theorem pick_backend_geo_priority backends local_region client_geo get_conn_count b b' :
  pick_backend backends local_region client_geo get_conn_count = Some b →
  (∀ x, x ∈ backends → backend_wf x ∧ 0 <= get_conn_count (be_id x) < 2 ^ 52) →
  b' ∈ backends → eligible get_conn_count b' →
  geo_tier b' local_region client_geo < geo_tier b local_region client_geo →
  99 * eff_weight b' * eff_soft b' < get_conn_count (be_id b').
Proof.
  intros Hpick Hall Hin Hel Htier.
  pose proof (pick_loop_correct local_region client_geo get_conn_count backends) as Hloop.
  unfold pick_backend in Hpick. destruct (foldl _ _ _) as [[b0 s]|]; simplify_eq/=.
  destruct Hloop as (_ & l1 & l2 & Heq & _ & Hmin & _).
  assert (b ∈ backends) as Hb by (rewrite Heq, elem_of_app, elem_of_cons; auto).
  destruct (Hall _ Hb) as [Hwf Hc], (Hall _ Hin) as [Hwf' Hc'].
  destruct (score_of_val local_region client_geo _ b Hwf Hc) as (v & Hv & Hlo & _).
  destruct (score_of_val local_region client_geo _ b' Hwf' Hc') as (v' & Hv' & _ & Hhi).
  apply Z.nle_gt. intros Hle. specialize (Hhi 99 Hle). pose proof SCALE_pos.
  specialize (Hmin b' Hin Hel). unfold f64_ltb in Hmin.
  rewrite (f64_val_ltb _ _ _ _ Hv' Hv) in Hmin; [done|nia].
Qed.

(** A witness: with no clients, the second backend (same country) wins over the first. *)
Definition lb_example : list Backend :=
  [mkBackend "far" "app" AsiaPacific "JP" "10.0.0.1" 80 true 2 100 150;
   mkBackend "near" "app" SouthAmerica "BR" "10.0.0.2" 80 true 2 100 150;
   mkBackend "busy" "app" SouthAmerica "BR" "10.0.0.3" 80 true 1 1 0].
Definition lb_counts (id : string) : Z := if str_eqb id "near" then 150 else
  if str_eqb id "busy" then 1000 else 0.

Lemma pick_backend_geo_priority_witness :
  99 * 1 * 1 < lb_counts "busy".
Proof.
  apply (pick_backend_geo_priority lb_example SouthAmerica
    (Some (mkGeoInfo "BR" SouthAmerica)) lb_counts
    (mkBackend "far" "app" AsiaPacific "JP" "10.0.0.1" 80 true 2 100 150)
    (mkBackend "busy" "app" SouthAmerica "BR" "10.0.0.3" 80 true 1 1 0)).
  - vm_compute. reflexivity.
  - intros x Hx. unfold lb_example in Hx.
    rewrite !elem_of_cons in Hx. destruct Hx as [->|[->|[->|Hx]]];
      [| | |by apply elem_of_nil in Hx];
      (split; [unfold backend_wf, in_range; simpl; lia|vm_compute; split; congruence]).
  - unfold lb_example. rewrite !elem_of_cons. auto.
  - split; vm_compute; reflexivity.
  - vm_compute. reflexivity.
Defined.
