(* ===== verification/Ports.v ===== *)
(** * Ports

    [src/src/domain/ports/*.rs]: the traits through which the application
    layer sees storage and metrics.  Each trait is a class of operations on a
    state type (an [async fn] with [&self] on shared interior-mutable state
    becomes a state-passing function); the class of laws beside it states what
    a client may rely on, and every adapter discharges it. *)

From S2P Require Import Prelude Text Domain.

(** ** [BackendRepository] *)
Class BackendRepository (R : Type) := {
  get_all : R → list Backend;
  get_by_id : R → string → option Backend;
  get_healthy : R → list Backend;
  get_version : R → Z
}.

Class BackendRepositoryLaws (R : Type) `{BackendRepository R} := {
  get_by_id_spec r id : get_by_id r id = List.find (fun b => str_eqb (be_id b) id) (get_all r);
  get_healthy_spec r : get_healthy r = filter (fun b => be_healthy b = true) (get_all r)
}.

(** ** [BindingRepository] *)
Class BindingRepository (R : Type) := {
  binding_get : R → ClientKey → option Binding;
  binding_set : R → ClientKey → Binding → R;
  binding_remove : R → ClientKey → R;
  binding_touch_key : instant → R → ClientKey → R;
  binding_cleanup_expired : instant → duration → R → R * Z;
  binding_count : R → Z
}.

(** The expiry test of [cleanup_expired]: not seen for longer than the TTL. *)
Definition binding_expired (now : instant) (ttl : duration) (b : Binding) : bool :=
  ttl <? duration_since now (bd_last_seen b).

Class BindingRepositoryLaws (R : Type) `{BindingRepository R} := {
  binding_get_set r k b k' :
    binding_get (binding_set r k b) k' = if decide (k = k') then Some b else binding_get r k';
  binding_get_remove r k k' :
    binding_get (binding_remove r k) k' = if decide (k = k') then None else binding_get r k';
  binding_get_touch now r k k' :
    binding_get (binding_touch_key now r k) k' =
      if decide (k = k') then binding_touch now <$> binding_get r k' else binding_get r k';
  binding_get_cleanup now ttl r k :
    binding_get (fst (binding_cleanup_expired now ttl r)) k =
      b ← binding_get r k; if binding_expired now ttl b then None else Some b
}.

(** ** [MetricsStore] *)
Class MetricsStore (R : Type) := {
  get_connection_count : R → string → Z;
  increment_connections : R → string → R;
  decrement_connections : R → string → R;
  record_rtt : R → string → Z → R;
  get_last_rtt : R → string → option Z
}.

Class MetricsStoreLaws (R : Type) `{MetricsStore R} := {
  count_increment r id id' :
    get_connection_count (increment_connections r id) id' =
      if decide (id = id') then get_connection_count r id' +u64 1 else get_connection_count r id';
  count_decrement r id id' :
    get_connection_count (decrement_connections r id) id' =
      if decide (id = id') then (if 0 <? get_connection_count r id' then get_connection_count r id' - 1
                                 else get_connection_count r id')
      else get_connection_count r id';
  count_record_rtt r id ms id' :
    get_connection_count (record_rtt r id ms) id' = get_connection_count r id';
  last_rtt_record_rtt r id ms : get_last_rtt (record_rtt r id ms) id = Some ms
}.

(** ** [GeoResolver] *)
Class GeoResolver (G : Type) := {
  geo_resolve : G → IpAddr → option GeoInfo
}.

(** ** Lemmas shared by the clients of the ports *)

Lemma find_Some_spec (bs : list Backend) id b :
  List.find (fun b => str_eqb (be_id b) id) bs = Some b → b ∈ bs ∧ be_id b = id.
Proof.
  intros [Hin Heq]%List.find_some. split; [by apply list_elem_of_In|]. by apply str_eqb_eq.
Qed.

Section backend_laws.
Context `{BackendRepositoryLaws R}.

Lemma get_by_id_Some r id b : get_by_id r id = Some b → b ∈ get_all r ∧ be_id b = id.
Proof. rewrite get_by_id_spec. apply find_Some_spec. Qed.

Lemma elem_of_get_healthy r b : b ∈ get_healthy r ↔ be_healthy b = true ∧ b ∈ get_all r.
Proof. by rewrite get_healthy_spec, list_elem_of_filter. Qed.
End backend_laws.
