(* ===== verification/BindingRepo.v ===== *)
(** * DashMap binding repository

    [src/src/adapters/outbound/dashmap_binding_repo.rs].  The shared
    [DashMap<ClientKey, Binding>] is a [gmap]; each method is one atomic
    operation on it (the collection loop of [cleanup_expired] and of the
    garbage collector reads one clock value, gathers the expired keys, then
    removes them). *)

From S2P Require Import Prelude Text Domain Ports.

Record DashMapBindingRepository := mkBindingRepo { br_bindings : gmap ClientKey Binding }.

Definition binding_repo_new : DashMapBindingRepository := mkBindingRepo ∅.

Definition dm_get (r : DashMapBindingRepository) (k : ClientKey) : option Binding :=
  br_bindings r !! k.

Definition dm_set (r : DashMapBindingRepository) (k : ClientKey) (b : Binding)
    : DashMapBindingRepository :=
  mkBindingRepo (<[k := b]> (br_bindings r)).

Definition dm_remove (r : DashMapBindingRepository) (k : ClientKey) : DashMapBindingRepository :=
  mkBindingRepo (delete k (br_bindings r)).

Definition dm_touch (now : instant) (r : DashMapBindingRepository) (k : ClientKey)
    : DashMapBindingRepository :=
  match br_bindings r !! k with
  | Some b =>
      mkBindingRepo (<[k := mkBinding (bd_backend_id b) (bd_created_at b) now]> (br_bindings r))
  | None => r
  end.

(** The keys gathered by the loop over the map. *)
Definition expired_keys (now : instant) (ttl : duration) (m : gmap ClientKey Binding)
    : list ClientKey :=
  fst <$> filter (fun kb => (ttl <? duration_since now (bd_last_seen (snd kb))) = true)
            (map_to_list m).

Definition dm_cleanup_expired (now : instant) (ttl : duration) (r : DashMapBindingRepository)
    : DashMapBindingRepository * Z :=
  let to_remove := expired_keys now ttl (br_bindings r) in
  let count := Z.of_nat (length to_remove) in
  (mkBindingRepo (delete_keys to_remove (br_bindings r)), count).

(** One turn of the garbage-collection task of [start_gc]. *)
Definition gc_turn (now : instant) (ttl : duration) (r : DashMapBindingRepository)
    : DashMapBindingRepository :=
  mkBindingRepo (delete_keys (expired_keys now ttl (br_bindings r)) (br_bindings r)).

Definition dm_count (r : DashMapBindingRepository) : Z := Z.of_nat (size (br_bindings r)).

#[export] Instance dashmap_binding_repository : BindingRepository DashMapBindingRepository := {|
  binding_get := dm_get;
  binding_set := dm_set;
  binding_remove := dm_remove;
  binding_touch_key := dm_touch;
  binding_cleanup_expired := dm_cleanup_expired;
  binding_count := dm_count
|}.

(** ** Lemmas *)

Lemma elem_of_expired_keys now ttl m k :
  k ∈ expired_keys now ttl m ↔ ∃ b, m !! k = Some b ∧ binding_expired now ttl b = true.
Proof.
  unfold expired_keys. rewrite list_elem_of_fmap. split.
  - intros ([k' b] & -> & [Hexp Hin]%list_elem_of_filter). exists b.
    split; [by apply elem_of_map_to_list|done].
  - intros (b & Hk & Hexp). exists (k, b). split; [done|].
    apply list_elem_of_filter. split; [done|]. by apply elem_of_map_to_list.
Qed.

Lemma lookup_delete_expired now ttl m k :
  delete_keys (expired_keys now ttl m) m !! k =
    b ← m !! k; if binding_expired now ttl b then None else Some b.
Proof.
  rewrite lookup_delete_keys. case_decide as Hin.
  - apply elem_of_expired_keys in Hin as (b & -> & Hexp). simpl. by rewrite Hexp.
  - destruct (m !! k) as [b|] eqn:Hk; simpl; [|done].
    destruct (binding_expired now ttl b) eqn:Hexp; [|done].
    destruct Hin. apply elem_of_expired_keys. eauto.
Qed.

Lemma NoDup_expired_keys now ttl m : NoDup (expired_keys now ttl m).
Proof.
  unfold expired_keys. apply NoDup_fmap_fst.
  - intros k b b' [_ Hb]%list_elem_of_filter [_ Hb']%list_elem_of_filter.
    apply elem_of_map_to_list in Hb, Hb'. congruence.
  - apply NoDup_filter, NoDup_map_to_list.
Qed.

#[export] Instance dashmap_binding_laws : BindingRepositoryLaws DashMapBindingRepository.
Proof.
  split; intros; simpl; unfold dm_get, dm_set, dm_remove, dm_touch; simpl.
  - by rewrite lookup_insert.
  - by rewrite lookup_delete.
  - destruct (br_bindings r !! k) as [b|] eqn:Hk; simpl.
    + rewrite lookup_insert. case_decide; subst; [by rewrite Hk|done].
    + case_decide; subst; [by rewrite Hk|done].
  - apply lookup_delete_expired.
Qed.
