(* ===== verification/Cas.v ===== *)
(** * Compare-and-exchange loops

    The [load] / [compare_exchange_weak] loops of
    [dashmap_metrics_store.rs] and [prometheus_metrics_store.rs]
    ([decrement_connections]) and of [rate_limiter.rs] ([check_with_cost]).  A
    thread [i] runs the loop of an update function [upd i]: it reads the cell,
    gives up when the update is undefined on the value read, and otherwise tries
    to swap the updated value in; a failed exchange (contended or spurious)
    yields the value the cell then has and the loop goes round again.

    [cas_step] interleaves any number of such loops; [linearizable] shows that
    every finished execution has the outcome of running the threads' updates
    atomically one after the other in some order. *)

From S2P Require Import Prelude.

(** Where a thread is in its loop. *)
Inductive cas_pc :=
| Ready
| Loaded (current : Z)
| Finished (swapped : bool).

Record cas_state := mkCas { cell : Z; threads : gmap nat cas_pc }.

Section cas.
Context (upd : nat → Z → option Z).

(** The loop body in one go, on a cell value. *)
Definition cas_atomic (i : nat) (v : Z) : Z * bool :=
  match upd i v with
  | Some v' => (v', true)
  | None => (v, false)
  end.

Inductive cas_step : relation cas_state :=
| step_load c ts i :
    ts !! i = Some Ready → cas_step (mkCas c ts) (mkCas c (<[i := Loaded c]> ts))
| step_give_up c ts i v :
    ts !! i = Some (Loaded v) → upd i v = None →
    cas_step (mkCas c ts) (mkCas c (<[i := Finished false]> ts))
| step_swap c ts i v' :
    ts !! i = Some (Loaded c) → upd i c = Some v' →
    cas_step (mkCas c ts) (mkCas v' (<[i := Finished true]> ts))
| step_retry c ts i v v' :
    ts !! i = Some (Loaded v) → upd i v = Some v' →
    cas_step (mkCas c ts) (mkCas c (<[i := Loaded c]> ts)).

(** Atomic runs: the cell and the answers after running [order] from [v]. *)
Fixpoint run_atomic (order : list nat) (v : Z) : Z * gmap nat bool :=
  match order with
  | [] => (v, ∅)
  | i :: order' =>
      let '(v', b) := cas_atomic i v in
      let '(w, answers) := run_atomic order' v' in
      (w, <[i := b]> answers)
  end.

(** The answer of a thread is settled once it has finished, or has read a value
    on which it gives up. *)
Definition settled (i : nat) (pc : cas_pc) : option bool :=
  match pc with
  | Ready => None
  | Loaded v => match upd i v with Some _ => None | None => Some false end
  | Finished b => Some b
  end.

Lemma run_atomic_snoc order i v w answers :
  i ∉ order → run_atomic order v = (w, answers) →
  run_atomic (order ++ [i]) v =
    (fst (cas_atomic i w), <[i := snd (cas_atomic i w)]> answers).
Proof.
  revert v w answers. induction order as [|j order IH]; intros v w answers Hi Hrun; simpl in *.
  { simplify_eq. by destruct (cas_atomic i w). }
  destruct (cas_atomic j v) as [v' b].
  destruct (run_atomic order v') as [w' answers'] eqn:Hr. simplify_eq.
  rewrite (IH v' w answers') by set_solver.
  f_equal. apply insert_insert_ne. set_solver.
Qed.

(** The invariant: the settled threads, in the order they settled, explain the cell. *)
Definition explained (c0 : Z) (s : cas_state) : Prop :=
  ∃ order answers,
    NoDup order ∧ run_atomic order c0 = (cell s, answers) ∧
    (∀ i pc, threads s !! i = Some pc →
       answers !! i = settled i pc ∧ (i ∈ order ↔ settled i pc ≠ None)) ∧
    (∀ i, i ∈ order → is_Some (threads s !! i)).

(** A step of thread [i] that does not settle it keeps the explanation. *)
Lemma explained_quiet c0 c ts i pc pc' :
  explained c0 (mkCas c ts) → ts !! i = Some pc → settled i pc = settled i pc' →
  explained c0 (mkCas c (<[i := pc']> ts)).
Proof.
  intros (order & answers & Hnd & Hrun & Hthr & Hord) Hi Hsame.
  exists order, answers. split_and!; [done|done| |].
  - intros j pcj. simpl. rewrite lookup_insert. case_decide; subst.
    + intros [= <-]. destruct (Hthr j pc Hi). by rewrite <-Hsame.
    + apply Hthr.
  - intros j Hj. simpl. rewrite lookup_insert. case_decide; eauto.
Qed.

(** A step that settles thread [i] on the current value of the cell appends it. *)
Lemma explained_settle c0 c ts i pc pc' :
  explained c0 (mkCas c ts) → ts !! i = Some pc → settled i pc = None →
  settled i pc' = Some (snd (cas_atomic i c)) →
  explained c0 (mkCas (fst (cas_atomic i c)) (<[i := pc']> ts)).
Proof.
  intros (order & answers & Hnd & Hrun & Hthr & Hord) Hi Hnone Hset.
  assert (i ∉ order) as Hni.
  { destruct (Hthr i pc Hi) as [_ Hiff]. rewrite Hiff. by intros []. }
  exists (order ++ [i]), (<[i := snd (cas_atomic i c)]> answers). split_and!.
  - apply NoDup_app. split_and!; [done|set_solver|apply NoDup_singleton].
  - by apply run_atomic_snoc.
  - intros j pcj. simpl. rewrite !lookup_insert. case_decide; subst.
    + intros [= <-]. rewrite Hset. split; [done|]. set_solver.
    + intros Hj. destruct (Hthr j pcj Hj) as [? Hiff]. split; [done|].
      rewrite elem_of_app, list_elem_of_singleton. naive_solver.
  - intros j. rewrite elem_of_app, list_elem_of_singleton. simpl.
    rewrite lookup_insert. case_decide; subst; [eauto|]. intros [?|?]; [eauto|congruence].
Qed.

(** Reading [c] either leaves the thread unsettled or settles it on [c]. *)
Lemma explained_read c0 c ts i pc :
  explained c0 (mkCas c ts) → ts !! i = Some pc → settled i pc = None →
  explained c0 (mkCas c (<[i := Loaded c]> ts)).
Proof.
  intros Hex Hi Hnone. destruct (upd i c) as [v'|] eqn:Hu.
  - eapply explained_quiet; eauto. simpl. by rewrite Hu.
  - assert (cas_atomic i c = (c, false)) as Hat by (unfold cas_atomic; by rewrite Hu).
    pose proof (explained_settle c0 c ts i pc (Loaded c) Hex Hi Hnone) as H.
    rewrite Hat in H. apply H. simpl. by rewrite Hu.
Qed.

Lemma explained_step c0 s s' : explained c0 s → cas_step s s' → explained c0 s'.
Proof.
  intros Hex Hstep. destruct Hstep as [c ts i Hi|c ts i v Hi Hu|c ts i v' Hi Hu|c ts i v v' Hi Hu].
  - by eapply explained_read.
  - eapply explained_quiet; eauto. simpl. by rewrite Hu.
  - assert (cas_atomic i c = (v', true)) as Hat by (unfold cas_atomic; by rewrite Hu).
    pose proof (explained_settle c0 c ts i (Loaded c) (Finished true) Hex Hi) as H.
    rewrite Hat in H. apply H; simpl; by rewrite ?Hu.
  - eapply explained_read; eauto. simpl. by rewrite Hu.
Qed.

Lemma explained_init c0 ts : (∀ i pc, ts !! i = Some pc → pc = Ready) → explained c0 (mkCas c0 ts).
Proof.
  intros Hready. exists [], ∅. split_and!; [apply NoDup_nil_2|done| |].
  - intros i pc Hi. by rewrite (Hready i pc Hi), lookup_empty; set_solver.
  - set_solver.
Qed.

(** Executions that finish are linearizable. *)
Lemma cas_linearizable c0 ts s :
  (∀ i pc, ts !! i = Some pc → pc = Ready) →
  rtc cas_step (mkCas c0 ts) s →
  (∀ i pc, threads s !! i = Some pc → ∃ b, pc = Finished b) →
  ∃ order answers,
    NoDup order ∧ run_atomic order c0 = (cell s, answers) ∧
    (∀ i, i ∈ order ↔ is_Some (threads s !! i)) ∧
    (∀ i b, threads s !! i = Some (Finished b) → answers !! i = Some b).
Proof.
  intros Hready Hrtc Hdone.
  assert (explained c0 s) as (order & answers & Hnd & Hrun & Hthr & Hord).
  { eapply rtc_invariant; [|exact Hrtc|by apply explained_init].
    intros a b ??. by eapply explained_step. }
  exists order, answers. split_and!; [done|done| |].
  - intros i. split; [apply Hord|]. intros [pc Hi].
    destruct (Hdone i pc Hi) as [b ->]. by apply (Hthr i _ Hi).
  - intros i b Hi. by destruct (Hthr i _ Hi).
Qed.

(** Run alone, a loop finishes within two steps after its load, with the atomic outcome. *)
Lemma cas_alone c i :
  rtc cas_step (mkCas c {[ i := Ready ]})
    (mkCas (fst (cas_atomic i c)) {[ i := Finished (snd (cas_atomic i c)) ]}).
Proof.
  eapply rtc_l; [apply (step_load _ _ i), lookup_singleton_eq|].
  rewrite insert_singleton_eq. unfold cas_atomic.
  destruct (upd i c) as [v'|] eqn:Hu; apply rtc_once.
  - rewrite <-(insert_singleton_eq i (Finished true) (Loaded c)).
    apply step_swap; [apply lookup_singleton_eq|done].
  - rewrite <-(insert_singleton_eq i (Finished false) (Loaded c)).
    eapply step_give_up; [apply lookup_singleton_eq|done].
Qed.
(** ** Termination

    [compare_exchange_weak] may fail spuriously; such a step changes nothing, and
    only it does.  [strong_step] leaves it out. *)
Definition strong_step : relation cas_state := λ s s', cas_step s s' ∧ s' ≠ s.

Definition unfinished (pc : cas_pc) : bool :=
  match pc with Finished _ => false | _ => true end.

(** A thread that has yet to see the cell's present value. *)
Definition behind (c : Z) (pc : cas_pc) : bool :=
  match pc with Ready => true | Loaded v => negb (v =? c) | Finished _ => false end.

Definition count_pc (f : cas_pc → bool) (ts : gmap nat cas_pc) : Z :=
  Z.of_nat (size (filter (fun kv => f (snd kv) = true) ts)).

Lemma count_pc_insert f i pc (ts : gmap nat cas_pc) :
  count_pc f (<[i := pc]> ts) =
    count_pc f ts + (if f pc then 1 else 0)
    - match ts !! i with Some old => if f old then 1 else 0 | None => 0 end.
Proof.
  unfold count_pc. rewrite (size_filter_insert (fun kv => f (snd kv) = true)). simpl.
  destruct (ts !! i) as [old|]; [destruct (f old)|]; destruct (f pc); repeat case_decide; done.
Qed.

Lemma count_pc_bounds f (ts : gmap nat cas_pc) : 0 <= count_pc f ts <= Z.of_nat (size ts).
Proof. unfold count_pc. split; [lia|]. apply inj_le. apply map_subseteq_size, map_filter_subseteq. Qed.

(** What is left to do, in steps. *)
Definition cas_work (s : cas_state) : Z :=
  (Z.of_nat (size (threads s)) + 2) * count_pc unfinished (threads s)
  + count_pc (behind (cell s)) (threads s).

Lemma strong_step_size s s' : strong_step s s' → size (threads s') = size (threads s).
Proof. intros [[] _]; simpl; by rewrite map_size_insert_Some. Qed.

Lemma strong_step_work s s' : strong_step s s' → cas_work s' <= cas_work s - 1.
Proof.
  intros Hs. pose proof (strong_step_size _ _ Hs) as Hsize. destruct Hs as [Hs Hne].
  unfold cas_work. rewrite Hsize.
  destruct Hs as [c ts i Hi|c ts i v Hi Hu|c ts i v' Hi Hu|c ts i v v' Hi Hu]; simpl in *;
    rewrite !count_pc_insert, Hi; simpl; rewrite ?Z.eqb_refl; simpl.
  - lia.
  - destruct (negb _); nia.
  - pose proof (count_pc_bounds (behind c) ts). pose proof (count_pc_bounds (behind v') ts).
    pose proof (count_pc_bounds unfinished ts). destruct (negb _); nia.
  - destruct (Z.eqb_spec v c) as [->|]; simpl; [|lia]. destruct Hne. f_equal. by apply insert_id.
Qed.

(** Some thread can always go on, until all have finished. *)
Lemma strong_step_progress s i pc :
  threads s !! i = Some pc → unfinished pc = true → ∃ s', strong_step s s'.
Proof.
  destruct s as [c ts]; simpl. intros Hi Hpc.
  assert (∀ pc' c', pc' ≠ pc → mkCas c' (<[i := pc']> ts) ≠ mkCas c ts) as Hne.
  { intros pc' c' Hne [= _ He]. apply (f_equal (lookup i)) in He. rewrite lookup_insert_eq in He. congruence. }
  destruct pc as [|v|]; [| |done].
  - eexists. split; [by apply (step_load c ts i)|by apply Hne].
  - destruct (upd i v) as [v'|] eqn:Hu.
    + destruct (decide (v = c)) as [->|Hv].
      * eexists. split; [by eapply step_swap|by apply Hne].
      * eexists. split; [by eapply step_retry|]. apply Hne. congruence.
    + eexists. split; [by eapply step_give_up|by apply Hne].
Qed.

Lemma strong_steps_bounded k s s' :
  nsteps strong_step k s s' → size (threads s') = size (threads s) ∧ cas_work s' + Z.of_nat k <= cas_work s.
Proof.
  induction 1 as [s|k s1 s2 s3 Hs _ [Hsize IH]]; [lia|].
  pose proof (strong_step_size _ _ Hs). pose proof (strong_step_work _ _ Hs). split; [congruence|lia].
Qed.

Lemma cas_work_nonneg s : 0 <= cas_work s.
Proof.
  unfold cas_work. pose proof (count_pc_bounds unfinished (threads s)).
  pose proof (count_pc_bounds (behind (cell s)) (threads s)). nia.
Qed.

(** The compare-and-exchange loops terminate. Whatever the update
    functions and the schedule, [n] concurrent loops take at most [n * (n + 3)]
    steps between them that are not spurious failures; as long as a loop has not
    finished there is such a step, so an execution that stops has finished all. *)
Lemma cas_loops_terminate c ts k s :
  nsteps strong_step k (mkCas c ts) s →
  Z.of_nat k <= Z.of_nat (size ts) * (Z.of_nat (size ts) + 3) ∧
  ((∀ s', ¬ strong_step s s') → ∀ i pc, threads s !! i = Some pc → ∃ b, pc = Finished b).
Proof.
  intros Hk. apply strong_steps_bounded in Hk as [Hsize Hwork]. split.
  - pose proof (cas_work_nonneg s). unfold cas_work in Hwork at 2; simpl in Hwork.
    pose proof (count_pc_bounds unfinished ts). pose proof (count_pc_bounds (behind c) ts). nia.
  - intros Hstuck i pc Hi. destruct (unfinished pc) eqn:Hu; [|by destruct pc; eauto].
    destruct (strong_step_progress s i pc Hi Hu) as [s' Hs']. by apply Hstuck in Hs'.
Qed.
End cas.

Lemma cas_loops_terminate_witness :
  let upd := fun (_ : nat) (v : Z) => if 0 <? v then Some (v - 1) else None in
  ∃ s, nsteps (strong_step upd) 2 (mkCas 1 {[ 0%nat := Ready ]}) s ∧ Z.of_nat 2 <= 1 * (1 + 3) ∧
    ∀ i pc, threads s !! i = Some pc → ∃ b, pc = Finished b.
Proof.
  intros upd. assert (nsteps (strong_step upd) 2 (mkCas 1 {[ 0%nat := Ready ]})
    (mkCas 0 {[ 0%nat := Finished true ]})) as Hk.
  { eapply nsteps_l; [split; [apply (step_load _ _ _ 0%nat); reflexivity|discriminate]|].
    eapply nsteps_l; [split; [apply (step_swap _ _ _ 0%nat 0); reflexivity|discriminate]|]. apply nsteps_O. }
  exists (mkCas 0 {[ 0%nat := Finished true ]}). split; [exact Hk|].
  destruct (cas_loops_terminate upd _ _ _ _ Hk) as [Hb Hdone]. split; [exact Hb|].
  apply Hdone. intros s' [Hs _]. inversion Hs as [? ? i Hi|? ? i v Hi|? ? i v' Hi|? ? i v v' Hi]; subst;
    apply lookup_singleton_Some in Hi as [_ ?]; discriminate.
Defined.
