(* ===== verification/Metrics.v ===== *)
(** * Metrics stores

    [src/src/adapters/outbound/dashmap_metrics_store.rs] and
    [prometheus_metrics_store.rs].  Counters are machine integers in a map
    keyed by backend id; [fetch_add] wraps at 64 bits, the decrement loops are
    the compare-and-exchange loops of [Cas] and never go below zero. *)

From S2P Require Import Prelude Text Float64 Domain Ports Cas.

(** The update tried by the decrement loop: give up on zero. *)
Definition dec_update (c : Z) : option Z := if 0 <? c then Some (c - 1) else None.

(** The loop run without interference ([Cas.cas_alone]). *)
Definition dec_loop (c : Z) : Z := default c (dec_update c).

(** ** [DashMapMetricsStore] *)

Record DmBackendMetrics := mkDmMetrics {
  dm_current_conns : Z;   (* AtomicUsize *)
  dm_last_rtt_ms : Z      (* AtomicU64 *)
}.

Definition dm_metrics_new : DmBackendMetrics := mkDmMetrics 0 0.

Record DashMapMetricsStore := mkDmStore { dm_metrics : gmap string DmBackendMetrics }.

Definition dm_store_new : DashMapMetricsStore := mkDmStore ∅.

Definition dm_backend_ids (s : DashMapMetricsStore) : list string := fst <$> map_to_list (dm_metrics s).

Definition dm_get_metrics (s : DashMapMetricsStore) (id : string) : option (Z * Z) :=
  (fun m => (dm_current_conns m, dm_last_rtt_ms m)) <$> dm_metrics s !! id.

Definition dm_get_connection_count (s : DashMapMetricsStore) (id : string) : Z :=
  default 0 (dm_current_conns <$> dm_metrics s !! id).

(** [entry(id).or_default()], then an update of the entry. *)
Definition dm_with_entry (s : DashMapMetricsStore) (id : string)
    (f : DmBackendMetrics → DmBackendMetrics) : DashMapMetricsStore :=
  mkDmStore (<[id := f (default dm_metrics_new (dm_metrics s !! id))]> (dm_metrics s)).

Definition dm_increment_connections (s : DashMapMetricsStore) (id : string) : DashMapMetricsStore :=
  dm_with_entry s id (fun m => mkDmMetrics (dm_current_conns m +u64 1) (dm_last_rtt_ms m)).

Definition dm_decrement_connections (s : DashMapMetricsStore) (id : string) : DashMapMetricsStore :=
  match dm_metrics s !! id with
  | Some m =>
      mkDmStore (<[id := mkDmMetrics (dec_loop (dm_current_conns m)) (dm_last_rtt_ms m)]>
                   (dm_metrics s))
  | None => s
  end.

Definition dm_record_rtt (s : DashMapMetricsStore) (id : string) (rtt_ms : Z)
    : DashMapMetricsStore :=
  dm_with_entry s id (fun m => mkDmMetrics (dm_current_conns m) rtt_ms).

Definition dm_get_last_rtt (s : DashMapMetricsStore) (id : string) : option Z :=
  dm_last_rtt_ms <$> dm_metrics s !! id.

#[export] Instance dashmap_metrics_store : MetricsStore DashMapMetricsStore := {|
  get_connection_count := dm_get_connection_count;
  increment_connections := dm_increment_connections;
  decrement_connections := dm_decrement_connections;
  record_rtt := dm_record_rtt;
  get_last_rtt := dm_get_last_rtt
|}.

(** ** [PrometheusMetricsStore] *)

Record AggregatedMetrics := mkAgg {
  agg_total_connections : Z;
  agg_bytes_sent : Z;
  agg_bytes_received : Z;
  agg_connection_errors : Z
}.

Definition agg_default : AggregatedMetrics := mkAgg 0 0 0 0.

Record PmBackendMetrics := mkPmMetrics {
  pm_active_connections : Z;
  pm_total_connections : Z;
  pm_last_rtt_ms : Z;
  pm_rtt_sum_ms : Z;
  pm_rtt_count : Z;
  pm_connection_errors : Z
}.

Definition pm_metrics_new : PmBackendMetrics := mkPmMetrics 0 0 0 0 0 0.

(** [avg_rtt_ms]: zero without measurements. *)
Definition pm_avg_rtt_ms (m : PmBackendMetrics) : f64 :=
  if pm_rtt_count m =? 0 then f64_of_Z 0
  else f64_div (f64_of_Z (pm_rtt_sum_ms m)) (f64_of_Z (pm_rtt_count m)).

Record PrometheusMetricsStore := mkPmStore {
  pm_backends : gmap string PmBackendMetrics;
  pm_global : AggregatedMetrics;
  pm_region : string
}.

Definition pm_store_new (region : string) : PrometheusMetricsStore := mkPmStore ∅ agg_default region.

(** [get_or_create]: the entry, inserted when missing. *)
Definition pm_get_or_create (s : PrometheusMetricsStore) (id : string)
    : PrometheusMetricsStore * PmBackendMetrics :=
  match pm_backends s !! id with
  | Some m => (s, m)
  | None => (mkPmStore (<[id := pm_metrics_new]> (pm_backends s)) (pm_global s) (pm_region s),
             pm_metrics_new)
  end.

Definition pm_put (s : PrometheusMetricsStore) (id : string) (m : PmBackendMetrics)
    : PrometheusMetricsStore :=
  mkPmStore (<[id := m]> (pm_backends s)) (pm_global s) (pm_region s).

Definition pm_set_global (s : PrometheusMetricsStore) (g : AggregatedMetrics)
    : PrometheusMetricsStore :=
  mkPmStore (pm_backends s) g (pm_region s).

Definition pm_record_error (s : PrometheusMetricsStore) (id : string) : PrometheusMetricsStore :=
  let '(s, m) := pm_get_or_create s id in
  let s := pm_put s id (mkPmMetrics (pm_active_connections m) (pm_total_connections m)
    (pm_last_rtt_ms m) (pm_rtt_sum_ms m) (pm_rtt_count m) (pm_connection_errors m +u64 1)) in
  let g := pm_global s in
  pm_set_global s (mkAgg (agg_total_connections g) (agg_bytes_sent g) (agg_bytes_received g)
    (agg_connection_errors g +u64 1)).

Definition pm_record_bytes (s : PrometheusMetricsStore) (sent received : Z)
    : PrometheusMetricsStore :=
  let g := pm_global s in
  pm_set_global s (mkAgg (agg_total_connections g) (agg_bytes_sent g +u64 sent)
    (agg_bytes_received g +u64 received) (agg_connection_errors g)).

Definition pm_backend_ids (s : PrometheusMetricsStore) : list string :=
  fst <$> map_to_list (pm_backends s).

Definition pm_get_backend_metrics (s : PrometheusMetricsStore) (id : string)
    : option PmBackendMetrics :=
  pm_backends s !! id.

Definition pm_get_connection_count (s : PrometheusMetricsStore) (id : string) : Z :=
  default 0 (pm_active_connections <$> pm_backends s !! id).

Definition pm_increment_connections (s : PrometheusMetricsStore) (id : string)
    : PrometheusMetricsStore :=
  let '(s, m) := pm_get_or_create s id in
  let s := pm_put s id (mkPmMetrics (pm_active_connections m +u64 1)
    (pm_total_connections m +u64 1) (pm_last_rtt_ms m) (pm_rtt_sum_ms m) (pm_rtt_count m)
    (pm_connection_errors m)) in
  let g := pm_global s in
  pm_set_global s (mkAgg (agg_total_connections g +u64 1) (agg_bytes_sent g)
    (agg_bytes_received g) (agg_connection_errors g)).

Definition pm_decrement_connections (s : PrometheusMetricsStore) (id : string)
    : PrometheusMetricsStore :=
  match pm_backends s !! id with
  | Some m =>
      pm_put s id (mkPmMetrics (dec_loop (pm_active_connections m)) (pm_total_connections m)
        (pm_last_rtt_ms m) (pm_rtt_sum_ms m) (pm_rtt_count m) (pm_connection_errors m))
  | None => s
  end.

Definition pm_record_rtt (s : PrometheusMetricsStore) (id : string) (rtt_ms : Z)
    : PrometheusMetricsStore :=
  let '(s, m) := pm_get_or_create s id in
  pm_put s id (mkPmMetrics (pm_active_connections m) (pm_total_connections m) rtt_ms
    (pm_rtt_sum_ms m +u64 rtt_ms) (pm_rtt_count m +u64 1) (pm_connection_errors m)).

Definition pm_get_last_rtt (s : PrometheusMetricsStore) (id : string) : option Z :=
  pm_last_rtt_ms <$> pm_backends s !! id.

#[export] Instance prometheus_metrics_store : MetricsStore PrometheusMetricsStore := {|
  get_connection_count := pm_get_connection_count;
  increment_connections := pm_increment_connections;
  decrement_connections := pm_decrement_connections;
  record_rtt := pm_record_rtt;
  get_last_rtt := pm_get_last_rtt
|}.

(** ** The port's laws *)

Lemma dec_loop_eq c : dec_loop c = if 0 <? c then c - 1 else c.
Proof. unfold dec_loop, dec_update. by destruct (0 <? c). Qed.

#[export] Instance dashmap_metrics_laws : MetricsStoreLaws DashMapMetricsStore.
Proof.
  split; intros; simpl;
    unfold dm_get_connection_count, dm_increment_connections, dm_decrement_connections,
      dm_record_rtt, dm_with_entry, dm_get_last_rtt; simpl.
  - rewrite lookup_insert. case_decide; subst; [|done]. by destruct (dm_metrics r !! id').
  - destruct (dm_metrics r !! id) as [m|] eqn:Hm; simpl.
    + rewrite lookup_insert. case_decide; subst; [|done]. by rewrite Hm, dec_loop_eq.
    + case_decide; subst; [by rewrite Hm|done].
  - rewrite lookup_insert. case_decide; subst; [|done]. by destruct (dm_metrics r !! id').
  - by rewrite lookup_insert_eq.
Qed.

#[export] Instance prometheus_metrics_laws : MetricsStoreLaws PrometheusMetricsStore.
Proof.
  split; intros; simpl;
    unfold pm_get_connection_count, pm_increment_connections, pm_decrement_connections,
      pm_record_rtt, pm_get_or_create, pm_get_last_rtt.
  - destruct (pm_backends r !! id) eqn:Hm; simpl; rewrite ?lookup_insert;
      repeat case_decide; subst; by rewrite ?Hm.
  - destruct (pm_backends r !! id) as [m|] eqn:Hm; simpl.
    + rewrite lookup_insert. case_decide; subst; [|done]. by rewrite Hm, dec_loop_eq.
    + case_decide; subst; [by rewrite Hm|done].
  - destruct (pm_backends r !! id) eqn:Hm; simpl; rewrite ?lookup_insert;
      repeat case_decide; subst; by rewrite ?Hm.
  - destruct (pm_backends r !! id); simpl; by rewrite ?lookup_insert_eq.
Qed.

(** ** Concurrent decrements *)

Abbreviation dec_threads := (fun (_ : nat) (c : Z) => dec_update c).

Lemma run_atomic_dec order c : 0 <= c →
  fst (run_atomic dec_threads order c) = saturating_sub c (Z.of_nat (length order)).
Proof.
  revert c. induction order as [|i order IH]; intros c Hc; simpl.
  { unfold saturating_sub. lia. }
  unfold cas_atomic. destruct (dec_update c) as [c'|] eqn:Hu;
    unfold dec_update in Hu; destruct (Z.ltb_spec 0 c); simplify_eq.
  - specialize (IH (c - 1) ltac:(lia)).
    destruct (run_atomic dec_threads order (c - 1)). simpl in *. unfold saturating_sub in *. lia.
  - specialize (IH c Hc). destruct (run_atomic dec_threads order c). simpl in *.
    unfold saturating_sub in *. lia.
Qed.

(** C22: concurrent decrements are exact and never underflow. When any number of
    [decrement_connections] loops on one counter have run, interleaved in any
    way and with any number of failed (contended or spurious) exchanges, the
    counter is the initial one minus the number of loops, floored at zero. *)
Theorem concurrent_decrements_exact c0 (ts : gmap nat cas_pc) s :
  0 <= c0 →
  (∀ i pc, ts !! i = Some pc → pc = Ready) →
  rtc (cas_step dec_threads) (mkCas c0 ts) s →
  (∀ i pc, threads s !! i = Some pc → ∃ b, pc = Finished b) →
  cell s = saturating_sub c0 (Z.of_nat (size (threads s))).
Proof.
  intros Hc0 Hready Hrtc Hdone.
  destruct (cas_linearizable _ _ _ _ Hready Hrtc Hdone) as (order & answers & Hnd & Hrun & Hord & _).
  pose proof (run_atomic_dec order c0 Hc0) as Hcell. rewrite Hrun in Hcell. simpl in Hcell.
  rewrite Hcell. f_equal. f_equal.
  rewrite <-(size_dom (D := gset nat) (threads s)), <-(size_list_to_set (C := gset nat) order) by done.
  f_equal. apply set_eq. intros i. by rewrite elem_of_list_to_set, Hord, elem_of_dom.
Qed.

Lemma concurrent_decrements_witness :
  ∃ s, cell s = saturating_sub 1 (Z.of_nat (size (threads s))) ∧
    rtc (cas_step dec_threads) (mkCas 1 {[ 0%nat := Ready; 1%nat := Ready ]}) s.
Proof.
  assert (rtc (cas_step dec_threads) (mkCas 1 {[ 0%nat := Ready; 1%nat := Ready ]})
    (mkCas 0 {[ 0%nat := Finished true; 1%nat := Finished false ]})) as Hrtc.
  { eapply rtc_l; [apply (step_load _ _ _ 0%nat); reflexivity|].
    eapply rtc_l; [apply (step_load _ _ _ 1%nat); reflexivity|].
    eapply rtc_l; [apply (step_swap _ _ _ 0%nat 0); reflexivity|].
    eapply rtc_l; [apply (step_retry _ _ _ 1%nat 1 0); reflexivity|].
    apply rtc_once.
    refine (eq_rect _ (cas_step dec_threads _) (step_give_up _ 0 _ 1%nat 0 _ _) _ _); reflexivity. }
  exists (mkCas 0 {[ 0%nat := Finished true; 1%nat := Finished false ]}). split; [|exact Hrtc].
  apply (concurrent_decrements_exact 1 {[ 0%nat := Ready; 1%nat := Ready ]}
    (mkCas 0 {[ 0%nat := Finished true; 1%nat := Finished false ]})); [lia| |exact Hrtc|].
  - intros i pc. rewrite lookup_insert. case_decide; [congruence|].
    rewrite lookup_singleton. case_decide; congruence.
  - intros i pc. simpl. rewrite lookup_insert. case_decide; [intros [= <-]; eauto|].
    rewrite lookup_singleton. case_decide; [intros [= <-]; eauto|congruence].
Defined.
