(* ===== verification/PromText.v ===== *)
(** * The Prometheus text

    [export_prometheus] of [src/src/adapters/outbound/prometheus_metrics_store.rs]:
    the counters of [Metrics.PrometheusMetricsStore] as text.  Backend ids and the
    region are written into label values as they are. *)

From S2P Require Import Prelude Text Float64 Domain NetAddr Parse Metrics.
From Stdlib Require Import Ascii SpecFloat.

(** The newline and the double quote. *)
Definition nl : ascii := "010"%char.
Definition quote : ascii := "034"%char.
Definition quoted (s : string) : string := String quote (s +:+ String quote "").

(** A number of hundredths. *)
Definition hundredths (n : Z) : string :=
  pretty (n / 100) +:+ "." +:+ pretty (n / 10 mod 10) +:+ pretty (n mod 10).

(** [{:.2}] of an [f64]: the exact value, rounded half to even. *)
Definition format_2 (x : f64) : string :=
  let sign (neg : bool) := if neg then "-" else "" in
  match x with
  | S754_zero neg => sign neg +:+ "0.00"
  | S754_infinity neg => sign neg +:+ "inf"
  | S754_nan => "NaN"
  | S754_finite neg m e =>
      sign neg +:+ hundredths
        (if 0 <=? e then Zpos m * 2 ^ e * 100
         else
           let q := Zpos m * 100 / 2 ^ (- e) in
           match 2 * (Zpos m * 100 mod 2 ^ (- e)) ?= 2 ^ (- e) with
           | Lt => q
           | Eq => if Z.even q then q else q + 1
           | Gt => q + 1
           end)
  end.

Definition line (s : string) : string := s +:+ String nl "".

(** One global metric: its two comment lines and its sample. *)
Definition global_text (name help region : string) (value : Z) : string :=
  line ("# HELP " +:+ name +:+ " " +:+ help) +:+ line ("# TYPE " +:+ name +:+ " counter") +:+
  line (name +:+ "{region=" +:+ quoted region +:+ "} " +:+ pretty value).

Definition backend_header (name help type : string) : string :=
  line ("# HELP " +:+ name +:+ " " +:+ help) +:+ line ("# TYPE " +:+ name +:+ " " +:+ type).

(** What a sample of a backend's metric starts with. *)
Definition sample_key (name region id : string) : string :=
  name +:+ "{region=" +:+ quoted region +:+ ",backend=" +:+ quoted id +:+ "} ".

Definition backend_text (region : string) (e : string * PmBackendMetrics) : string :=
  let '(id, m) := e in
  line (sample_key "edgeproxy_backend_connections_active" region id +:+ pretty (pm_active_connections m)) +:+
  line (sample_key "edgeproxy_backend_connections_total" region id +:+ pretty (pm_total_connections m)) +:+
  line (sample_key "edgeproxy_backend_rtt_ms" region id +:+ pretty (pm_last_rtt_ms m)) +:+
  line (sample_key "edgeproxy_backend_rtt_avg_ms" region id +:+ format_2 (pm_avg_rtt_ms m)) +:+
  line (sample_key "edgeproxy_backend_errors_total" region id +:+ pretty (pm_connection_errors m)).

Definition export_prometheus (s : PrometheusMetricsStore) : string :=
  let g := pm_global s in
  global_text "edgeproxy_connections_total" "Total connections established" (pm_region s) (agg_total_connections g) +:+
  global_text "edgeproxy_bytes_sent_total" "Total bytes sent to backends" (pm_region s) (agg_bytes_sent g) +:+
  global_text "edgeproxy_bytes_received_total" "Total bytes received from backends" (pm_region s)
    (agg_bytes_received g) +:+
  global_text "edgeproxy_connection_errors_total" "Total connection errors" (pm_region s)
    (agg_connection_errors g) +:+
  backend_header "edgeproxy_backend_connections_active" "Current active connections per backend" "gauge" +:+
  backend_header "edgeproxy_backend_connections_total" "Total connections per backend" "counter" +:+
  backend_header "edgeproxy_backend_rtt_ms" "Last RTT to backend in milliseconds" "gauge" +:+
  backend_header "edgeproxy_backend_rtt_avg_ms" "Average RTT to backend in milliseconds" "gauge" +:+
  backend_header "edgeproxy_backend_errors_total" "Total errors per backend" "counter" +:+
  String.concat "" (backend_text (pm_region s) <$> map_to_list (pm_backends s)).

(** ** Reading the text back *)

Fixpoint strip_prefix (p s : string) : option string :=
  match p, s with
  | EmptyString, _ => Some s
  | String a p', String b s' => if Ascii.eqb a b then strip_prefix p' s' else None
  | String _ _, EmptyString => None
  end.

(** The value of a sample: what follows its key on the first line that starts with it. *)
Definition read_sample (text key : string) : option string :=
  head (omap (strip_prefix key) (split_on nl text)).

Example format_thirds :
  format_2 (f64_div (f64_of_Z 2) (f64_of_Z 3)) = "0.67" ∧ format_2 (f64_div (f64_of_Z 1) (f64_of_Z 8)) = "0.12" ∧
  format_2 (f64_div (f64_of_Z 3) (f64_of_Z 8)) = "0.38" ∧ format_2 (f64_of_Z 1234) = "1234.00".
Proof. vm_compute. done. Qed.

(** ** The text is its lines *)

Definition lines_text (ls : list string) : string := String.concat "" (line <$> ls).

Lemma concat_cons (a : string) (l : list string) : String.concat "" (a :: l) = a +:+ String.concat "" l.
Proof. destruct l as [|b l]; [symmetry; apply string_app_nil|done]. Qed.

Lemma lines_text_cons l ls : lines_text (l :: ls) = line l +:+ lines_text ls.
Proof. apply concat_cons. Qed.

Lemma lines_text_app ls1 ls2 : lines_text (ls1 ++ ls2) = lines_text ls1 +:+ lines_text ls2.
Proof.
  induction ls1 as [|l ls1 IH]; [done|]. change ((l :: ls1) ++ ls2) with (l :: ls1 ++ ls2).
  by rewrite !lines_text_cons, IH, string_app_assoc.
Qed.

Lemma split_on_line l rest : str_contains nl l = false → split_on nl (line l +:+ rest) = l :: split_on nl rest.
Proof.
  unfold line. rewrite string_app_assoc. induction l as [|c l IH]; [done|].
  cbn [str_contains]. intros [Hc Hl]%orb_false_iff.
  change (String c l +:+ String nl "" +:+ rest) with (String c (l +:+ String nl "" +:+ rest)). cbn [split_on].
  rewrite Ascii.eqb_sym, Hc, IH by done. done.
Qed.

Lemma read_sample_lines ls key :
  Forall (λ l, str_contains nl l = false) ls → key ≠ "" →
  read_sample (lines_text ls) key = head (omap (strip_prefix key) ls).
Proof.
  intros Hls Hkey. unfold read_sample. f_equal. induction Hls as [|l ls Hl _ IH]; [by destruct key|].
  rewrite lines_text_cons, split_on_line by done. cbn [omap list_omap]. by rewrite IH.
Qed.

(** The first occurrence of a separator decides. *)
Lemma strip_prefix_sep c a b x y : str_contains c a = false → str_contains c b = false →
  strip_prefix (a +:+ String c x) (b +:+ String c y) = if decide (a = b) then strip_prefix x y else None.
Proof.
  revert b. induction a as [|ch a IH]; intros b Ha Hb.
  - change ("" +:+ String c x) with (String c x). destruct b as [|d b].
    { change ("" +:+ String c y) with (String c y). cbn [strip_prefix].
      by rewrite Ascii.eqb_refl, decide_True by done. }
    cbn [str_contains] in Hb. apply orb_false_iff in Hb as [Hd _]. rewrite decide_False by done.
    change (String d b +:+ String c y) with (String d (b +:+ String c y)).
    cbn [strip_prefix]. by rewrite Hd.
  - cbn [str_contains] in Ha. apply orb_false_iff in Ha as [Hc Ha].
    change (String ch a +:+ String c x) with (String ch (a +:+ String c x)).
    destruct b as [|d b].
    + rewrite decide_False by done. change ("" +:+ String c y) with (String c y). cbn [strip_prefix].
      by rewrite Ascii.eqb_sym, Hc.
    + cbn [str_contains] in Hb. apply orb_false_iff in Hb as [_ Hb].
      change (String d b +:+ String c y) with (String d (b +:+ String c y)). cbn [strip_prefix].
      destruct (Ascii.eqb_spec ch d) as [->|Hne]; [|rewrite decide_False; [done|congruence]].
      rewrite IH by done. destruct (decide (a = b)), (decide (String d a = String d b)); congruence.
Qed.

Lemma strip_prefix_app p a b : strip_prefix (p +:+ a) (p +:+ b) = strip_prefix a b.
Proof.
  induction p as [|c p IH]; [done|]. change (String c p +:+ ?t) with (String c (p +:+ t)).
  change (String c p +:+ b) with (String c (p +:+ b)). cbn [strip_prefix]. by rewrite Ascii.eqb_refl.
Qed.

Lemma quoted_app s t : quoted s +:+ t = String quote (s +:+ String quote t).
Proof. exact (f_equal (String quote) (string_app_assoc s (String quote "") t)). Qed.

(** A sample is found under its own name and backend only. *)
Lemma strip_sample name name' region id id' v :
  str_contains "{" name = false → str_contains "{" name' = false →
  str_contains quote id = false → str_contains quote id' = false →
  strip_prefix (sample_key name region id) (sample_key name' region id' +:+ v) =
    if decide (name = name') then if decide (id = id') then Some v else None else None.
Proof.
  intros Hn Hn' Hi Hi'. unfold sample_key. rewrite !string_app_assoc.
  change ("{region=" +:+ ?t) with (String "{" ("region=" +:+ t)).
  rewrite strip_prefix_sep by done. case_decide; [|done]. rewrite !strip_prefix_app, !quoted_app.
  change (String quote ?t) with (String quote "" +:+ t) at 1 3. rewrite strip_prefix_app.
  change (strip_prefix (id +:+ String quote "} ") (id' +:+ String quote ("} " +:+ v)) = if decide (id = id') then Some v else None).
  rewrite strip_prefix_sep by done. by case_decide.
Qed.

(** The lines of the text. *)
Definition global_lines (name help region : string) (value : Z) : list string :=
  ["# HELP " +:+ name +:+ " " +:+ help; "# TYPE " +:+ name +:+ " counter";
   name +:+ "{region=" +:+ quoted region +:+ "} " +:+ pretty value].

Definition header_lines (name help type : string) : list string :=
  ["# HELP " +:+ name +:+ " " +:+ help; "# TYPE " +:+ name +:+ " " +:+ type].

(** The samples of a backend: the metric's name and its value. *)
Definition samples (m : PmBackendMetrics) : list (string * string) :=
  [("edgeproxy_backend_connections_active", pretty (pm_active_connections m));
   ("edgeproxy_backend_connections_total", pretty (pm_total_connections m));
   ("edgeproxy_backend_rtt_ms", pretty (pm_last_rtt_ms m));
   ("edgeproxy_backend_rtt_avg_ms", format_2 (pm_avg_rtt_ms m));
   ("edgeproxy_backend_errors_total", pretty (pm_connection_errors m))].

Definition backend_lines (region : string) (e : string * PmBackendMetrics) : list string :=
  (λ nv, sample_key (fst nv) region (fst e) +:+ snd nv) <$> samples (snd e).

Definition export_lines (s : PrometheusMetricsStore) : list string :=
  let g := pm_global s in
  global_lines "edgeproxy_connections_total" "Total connections established" (pm_region s) (agg_total_connections g) ++
  global_lines "edgeproxy_bytes_sent_total" "Total bytes sent to backends" (pm_region s) (agg_bytes_sent g) ++
  global_lines "edgeproxy_bytes_received_total" "Total bytes received from backends" (pm_region s)
    (agg_bytes_received g) ++
  global_lines "edgeproxy_connection_errors_total" "Total connection errors" (pm_region s) (agg_connection_errors g) ++
  header_lines "edgeproxy_backend_connections_active" "Current active connections per backend" "gauge" ++
  header_lines "edgeproxy_backend_connections_total" "Total connections per backend" "counter" ++
  header_lines "edgeproxy_backend_rtt_ms" "Last RTT to backend in milliseconds" "gauge" ++
  header_lines "edgeproxy_backend_rtt_avg_ms" "Average RTT to backend in milliseconds" "gauge" ++
  header_lines "edgeproxy_backend_errors_total" "Total errors per backend" "counter" ++
  (map_to_list (pm_backends s) ≫= backend_lines (pm_region s)).

Lemma global_text_lines n h r v : global_text n h r v = lines_text (global_lines n h r v).
Proof. unfold global_text, lines_text, global_lines. cbn [fmap list_fmap]. by rewrite !concat_cons, string_app_nil. Qed.

Lemma backend_header_lines n h t : backend_header n h t = lines_text (header_lines n h t).
Proof. unfold backend_header, lines_text, header_lines. cbn [fmap list_fmap]. by rewrite !concat_cons, string_app_nil. Qed.

Lemma backend_text_lines r l : String.concat "" (backend_text r <$> l) = lines_text (l ≫= backend_lines r).
Proof.
  induction l as [|[id m] l IH]; [done|]. cbn [fmap list_fmap mbind list_bind].
  by rewrite concat_cons, lines_text_app, IH.
Qed.

Lemma export_lines_text s : export_prometheus s = lines_text (export_lines s).
Proof.
  unfold export_prometheus, export_lines. cbv zeta.
  by rewrite !lines_text_app, !global_text_lines, !backend_header_lines, backend_text_lines.
Qed.

(** ** No line is broken *)

Lemma pretty_go_no c (x : N) s : to_digit 10 c = None → str_contains c (pretty_N_go x s) = str_contains c s.
Proof.
  intros Hc. revert s. induction (N.lt_wf_0 x) as [x _ IH]. intros s.
  destruct (decide (0 < x)%N) as [Hx|]; [|assert (x = 0%N) as -> by lia; by rewrite pretty_N_go_0].
  rewrite pretty_N_go_step by done. rewrite IH by (by apply N.div_lt). cbn [str_contains].
  destruct (Ascii.eqb_spec c (pretty_N_char (x `mod` 10))) as [->|]; [|done].
  by rewrite pretty_digit in Hc by (by apply N.mod_lt).
Qed.

Lemma pretty_no c (n : Z) : to_digit 10 c = None → c ≠ "-"%char → str_contains c (pretty n) = false.
Proof.
  intros Hc Hm. destruct n as [|p|p].
  - change (Ascii.eqb c "0" || false = false). rewrite orb_false_r.
    apply Ascii.eqb_neq. by intros ->.
  - change (str_contains c (pretty_N_go (Npos p) "") = false). by rewrite pretty_go_no.
  - change (Ascii.eqb c "-" || str_contains c (pretty_N_go (Npos p) "") = false).
    rewrite pretty_go_no by done. rewrite orb_false_r. by apply Ascii.eqb_neq.
Qed.

Lemma format_2_no x : str_contains nl (format_2 x) = false.
Proof.
  assert (∀ n, str_contains nl (hundredths n) = false) as Hh.
  { intros n. unfold hundredths. by rewrite !str_contains_app, !pretty_no. }
  destruct x as [[]|[]| |[] m e]; try done; unfold format_2; cbv zeta; rewrite str_contains_app, Hh; done.
Qed.

(** Ids and region whose text breaks no line and closes no label. *)
Definition label_safe (s : string) : Prop := str_contains nl s = false ∧ str_contains quote s = false.

Definition store_safe (s : PrometheusMetricsStore) : Prop :=
  str_contains nl (pm_region s) = false ∧ map_Forall (λ id _, label_safe id) (pm_backends s).

Lemma sample_key_no n r id : str_contains nl n = false → str_contains nl r = false → str_contains nl id = false →
  str_contains nl (sample_key n r id) = false.
Proof.
  intros Hn Hr Hi. unfold sample_key. rewrite !str_contains_app. unfold quoted. cbn [str_contains].
  rewrite !str_contains_app, Hn, Hr, Hi. done.
Qed.

Lemma export_lines_unbroken s : store_safe s → Forall (λ l, str_contains nl l = false) (export_lines s).
Proof.
  intros [Hr Hids].
  assert (∀ n h v, str_contains nl n = false → str_contains nl h = false →
    Forall (λ l, str_contains nl l = false) (global_lines n h (pm_region s) v)) as Hg.
  { intros n h v Hn Hh. repeat apply Forall_cons_2; [| | |done]; unfold quoted; rewrite !str_contains_app, Hn, ?Hh;
      [done..|]. cbn [str_contains]. by rewrite str_contains_app, Hr, pretty_no. }
  unfold export_lines. cbv zeta. repeat (apply Forall_app; split); try (by apply Hg); try (by repeat constructor).
  apply Forall_bind. apply Forall_forall. intros [id m] Hin%elem_of_map_to_list.
  destruct (Hids id m Hin) as [Hi _]. unfold backend_lines, samples.
  repeat apply Forall_cons_2; [..|done]; cbn [fst snd]; rewrite str_contains_app, sample_key_no, ?pretty_no, ?format_2_no; done.
Qed.

(** ** Reading the counters back *)

Definition metric_names : list string :=
  ["edgeproxy_backend_connections_active"; "edgeproxy_backend_connections_total"; "edgeproxy_backend_rtt_ms";
   "edgeproxy_backend_rtt_avg_ms"; "edgeproxy_backend_errors_total"].

Lemma samples_names m : fst <$> samples m = metric_names.
Proof. done. Qed.

Lemma samples_functional m n v v' : (n, v) ∈ samples m → (n, v') ∈ samples m → v = v'.
Proof.
  intros Hv Hv'. assert (NoDup (fst <$> samples m)) as Hnd.
  { rewrite samples_names. refine (bool_decide_unpack _ _). vm_compute. exact I. }
  apply list_elem_of_lookup in Hv as [i Hi]. apply list_elem_of_lookup in Hv' as [j Hj].
  assert (i = j) as <-; [|congruence].
  eapply (NoDup_lookup _ i j n Hnd); rewrite list_lookup_fmap; [by rewrite Hi|by rewrite Hj].
Qed.

Lemma omap_strip_none key ls : Forall (λ l, strip_prefix key l = None) ls → omap (strip_prefix key) ls = [].
Proof. induction 1 as [|l ls Hl _ IH]; [done|]. cbn [omap list_omap]. by rewrite Hl. Qed.

(** The lines before the backends are no samples of theirs. *)
Lemma preamble_none name r id n h v t : name ∈ metric_names →
  n ∈ ["edgeproxy_connections_total"; "edgeproxy_bytes_sent_total"; "edgeproxy_bytes_received_total";
       "edgeproxy_connection_errors_total"] →
  Forall (λ l, strip_prefix (sample_key name r id) l = None) (global_lines n h r v ++ header_lines name h t).
Proof.
  unfold metric_names. rewrite !elem_of_cons, !elem_of_nil. intros Hname Hn.
  destruct_or! Hname; destruct_or! Hn; try done; subst; repeat constructor.
Qed.

Lemma header_none name r id n h t : name ∈ metric_names → Forall (λ l, strip_prefix (sample_key name r id) l = None) (header_lines n h t).
Proof.
  unfold metric_names. rewrite !elem_of_cons, !elem_of_nil. intros Hname.
  destruct_or! Hname; try done; subst; repeat constructor.
Qed.

Lemma metric_names_brace name : name ∈ metric_names → str_contains "{" name = false.
Proof.
  unfold metric_names. rewrite !elem_of_cons, !elem_of_nil. intros Hname. by destruct_or! Hname; subst.
Qed.

(** What a sample's key finds: the value of that metric of that backend. *)
Lemma strip_export s name id l v : store_safe s → label_safe id → name ∈ metric_names →
  l ∈ export_lines s → strip_prefix (sample_key name (pm_region s) id) l = Some v →
  ∃ m, pm_backends s !! id = Some m ∧ (name, v) ∈ samples m.
Proof.
  intros [Hr Hids] [_ Hq] Hname Hl Hv.
  assert (∀ n h w, n ∈ ["edgeproxy_connections_total"; "edgeproxy_bytes_sent_total"; "edgeproxy_bytes_received_total";
       "edgeproxy_connection_errors_total"] → l ∉ global_lines n h (pm_region s) w) as Hg.
  { intros n h w Hn Hin. pose proof (preamble_none name (pm_region s) id n h w "" Hname Hn) as Hf.
    rewrite Forall_app, Forall_forall in Hf. rewrite (proj1 Hf l Hin) in Hv. done. }
  assert (∀ n h t, l ∉ header_lines n h t) as Hh.
  { intros n h t Hin. pose proof (header_none name (pm_region s) id n h t Hname) as Hf.
    rewrite Forall_forall in Hf. rewrite (Hf l Hin) in Hv. done. }
  revert Hl. unfold export_lines. cbv zeta. rewrite !elem_of_app.
  intros [Hl|[Hl|[Hl|[Hl|[Hl|[Hl|[Hl|[Hl|[Hl|Hl]]]]]]]]]; try (by apply Hh in Hl);
    try (apply Hg in Hl; [done|]; rewrite !elem_of_cons; tauto).
  apply list_elem_of_bind in Hl as ([id' m] & Hl & Hin). apply elem_of_map_to_list in Hin.
  apply list_elem_of_fmap in Hl as ([n' v'] & -> & Hs). cbn [fst snd] in *.
  assert (n' ∈ metric_names) as Hn' by (rewrite <-(samples_names m); apply list_elem_of_fmap; by exists (n', v')).
  destruct (Hids id' m Hin) as [_ Hq']. rewrite strip_sample in Hv by auto using metric_names_brace.
  repeat case_decide; simplify_eq. by exists m.
Qed.

Lemma head_omap {A B} (f : A → option B) (l : list A) v x :
  (∀ y w, y ∈ l → f y = Some w → w = v) → x ∈ l → f x = Some v → head (omap f l) = Some v.
Proof.
  intros Hall. induction l as [|y l IH]; [by intros ?%elem_of_nil|]. intros Hin Hx. cbn [omap list_omap].
  destruct (f y) as [w|] eqn:Hy.
  - simpl. f_equal. apply (Hall y); [by left|done].
  - apply elem_of_cons in Hin as [->|Hin]; [congruence|]. apply IH; [|done..]. intros z w Hz. apply Hall. by right.
Qed.

Lemma head_omap_none {A B} (f : A → option B) (l : list A) :
  (∀ y, y ∈ l → f y = None) → head (omap f l) = None.
Proof.
  induction l as [|y l IH]; [done|]. intros Hall. cbn [omap list_omap].
  rewrite Hall by (by left). apply IH. intros z Hz. apply Hall. by right.
Qed.

(** C40: the exported text can be read back.  If no backend id has a line break or a
    quote in it and the region no line break, looking a sample up in the text by
    metric name and backend gives the value of that counter, for each of the five
    metrics of every backend, and nothing for a backend without metrics. *)
Theorem export_roundtrip s id : store_safe s → label_safe id →
  match pm_backends s !! id with
  | Some m => Forall (λ nv, read_sample (export_prometheus s) (sample_key (fst nv) (pm_region s) id) = Some (snd nv)) (samples m)
  | None => Forall (λ n, read_sample (export_prometheus s) (sample_key n (pm_region s) id) = None) metric_names
  end.
Proof.
  intros Hsafe Hid. pose proof (export_lines_unbroken s Hsafe) as Hlines.
  assert (∀ n, sample_key n (pm_region s) id ≠ "") as Hkey.
  { intros n. unfold sample_key. by destruct n. }
  destruct (pm_backends s !! id) as [m|] eqn:Hm; apply Forall_forall.
  - intros [n v] Hin. cbn [fst snd]. rewrite export_lines_text, read_sample_lines by done.
    assert (n ∈ metric_names) as Hn by (rewrite <-(samples_names m); apply list_elem_of_fmap; by exists (n, v)).
    apply (head_omap _ _ v (sample_key n (pm_region s) id +:+ v)).
    + intros l w Hl Hw. destruct (strip_export s n id l w Hsafe Hid Hn Hl Hw) as (m' & Hm' & Hs).
      rewrite Hm in Hm'. injection Hm' as <-. by eapply samples_functional.
    + unfold export_lines. cbv zeta. do 9 (apply elem_of_app; right). apply list_elem_of_bind. exists (id, m).
      split; [|by apply elem_of_map_to_list]. apply list_elem_of_fmap. by exists (n, v).
    + rewrite strip_sample by (apply Hid || by apply metric_names_brace). by rewrite !decide_True.
  - intros n Hn. rewrite export_lines_text, read_sample_lines by done. apply head_omap_none. intros l Hl.
    destruct (strip_prefix _ l) as [w|] eqn:Hw; [|done].
    destruct (strip_export s n id l w Hsafe Hid Hn Hl Hw) as (m & Hm' & _). congruence.
Qed.

Definition demo_metrics : PrometheusMetricsStore :=
  pm_record_rtt (pm_record_rtt (pm_increment_connections (pm_store_new "sa") "b1") "b1" 10) "b1" 15.

Lemma export_roundtrip_witness :
  read_sample (export_prometheus demo_metrics) (sample_key "edgeproxy_backend_rtt_avg_ms" "sa" "b1") = Some "12.50" ∧
  read_sample (export_prometheus demo_metrics) (sample_key "edgeproxy_backend_rtt_ms" "sa" "b2") = None.
Proof.
  assert (store_safe demo_metrics) as Hsafe.
  { split; [reflexivity|].
    assert (pm_backends demo_metrics = {["b1" := mkPmMetrics 1 1 15 25 2 0]}) as -> by (vm_compute; reflexivity).
    apply map_Forall_singleton. split; reflexivity. }
  split.
  - pose proof (export_roundtrip demo_metrics "b1" Hsafe (conj eq_refl eq_refl)) as H.
    exact (proj1 (Forall_forall _ _) H ("edgeproxy_backend_rtt_avg_ms", "12.50") ltac:(vm_compute; set_solver)).
  - pose proof (export_roundtrip demo_metrics "b2" Hsafe (conj eq_refl eq_refl)) as H.
    exact (proj1 (Forall_forall _ _) H "edgeproxy_backend_rtt_ms" ltac:(vm_compute; set_solver)).
Defined.

(** An id with a quote and a line break forges the sample of a backend that has no metrics. *)
Definition forging_id : string :=
  "b1" +:+ String quote ("} 1" +:+ String nl (sample_key "edgeproxy_backend_errors_total" "sa" "b2" +:+ "99" +:+ String nl "x")).

Lemma export_injection :
  let s := pm_increment_connections (pm_store_new "sa") forging_id in
  pm_backends s !! "b2" = None ∧
  read_sample (export_prometheus s) (sample_key "edgeproxy_backend_errors_total" "sa" "b2") = Some "99".
Proof. vm_compute. done. Qed.
