(* ===== verification/Sql.v ===== *)
(** * The SQLite interface

    SQLite itself is not part of the repository.  Its use is confined to the
    statements written in [sqlite_backend_repo.rs] and [sync.rs], which become
    the operations of the class [SqlDb] on an abstract database; [SqlDbLaws]
    states the documented meaning of those statements ([INSERT OR REPLACE] on a
    primary key, [UPDATE ... WHERE], [SELECT]), with no promise that a statement
    succeeds.  [MemDb] is an instance: it shows that the laws can be met and lets
    the definitions run. *)

From S2P Require Import Prelude Text.

(** Column values the program stores or reads. *)
Inductive SqlValue :=
| SqlNull
| SqlInteger (i : Z)
| SqlText (s : string).

#[export] Instance SqlValue_eq_dec : EqDecision SqlValue.
Proof. solve_decision. Defined.

Abbreviation sql_error := string (only parsing).

(** [row.get::<_, String>], [row.get::<_, i64>]: type mismatches are errors. *)
Definition sql_string (v : SqlValue) : result string sql_error :=
  match v with SqlText s => Ok s | _ => Err "InvalidColumnType" end.

Definition sql_i64 (v : SqlValue) : result Z sql_error :=
  match v with SqlInteger i => Ok i | _ => Err "InvalidColumnType" end.

(** [row.get::<_, u64>] and [u32]: the stored [i64] must be in range. *)
Definition sql_unsigned (w : Z) (i : Z) : result Z sql_error :=
  if (0 <=? i) && (i <? 2 ^ w) then Ok i else Err "IntegralValueOutOfRange".

(** [x as i64] of an unsigned 64-bit value. *)
Definition to_i64 (x : Z) : Z := if x <? 2 ^ 63 then x else x - 2 ^ 64.

(** A row of the [backends] table. *)
Record BackendRow := mkBackendRow {
  row_id : SqlValue; row_app : SqlValue; row_region : SqlValue; row_country : SqlValue;
  row_wg_ip : SqlValue; row_port : SqlValue; row_healthy : SqlValue; row_weight : SqlValue;
  row_soft_limit : SqlValue; row_hard_limit : SqlValue; row_deleted : SqlValue
}.

(** [WHERE deleted IS NULL OR deleted = 0]. *)
Definition row_live (r : BackendRow) : bool :=
  match row_deleted r with
  | SqlNull => true
  | SqlInteger i => i =? 0
  | SqlText _ => false
  end.

(** [UPDATE backends SET deleted = 1]. *)
Definition row_set_deleted (r : BackendRow) : BackendRow :=
  mkBackendRow (row_id r) (row_app r) (row_region r) (row_country r) (row_wg_ip r) (row_port r)
    (row_healthy r) (row_weight r) (row_soft_limit r) (row_hard_limit r) (SqlInteger 1).

(** A row of [__replication_log]. *)
Record LogRow := mkLogRow {
  log_change_id : Z; log_table : string; log_pk : string; log_kind : string; log_data : string;
  log_wall : Z; log_counter : Z; log_node : Z; log_origin : string; log_applied_at : Z
}.

Class SqlDb (D : Type) := {
  (** [Connection::open] *)
  sql_open : D → result unit sql_error;
  (** the four [CREATE TABLE IF NOT EXISTS] of [init_db] *)
  sql_create_tables : D → result D sql_error;
  (** [conn.prepare] of the query on [__replication_lww] *)
  sql_prepare_lww : D → result unit sql_error;
  (** [SELECT ... FROM __replication_lww WHERE table_pk = ?] *)
  sql_select_lww : D → string → option (Z * Z * Z);
  (** [INSERT OR REPLACE INTO __replication_lww] *)
  sql_replace_lww : D → string → Z * Z * Z → result D sql_error;
  (** [SELECT node_id, sequence FROM __replication_versions] *)
  sql_select_versions : D → result (list (string * Z)) sql_error;
  (** [INSERT OR REPLACE INTO __replication_versions] *)
  sql_replace_version : D → string → Z → result D sql_error;
  (** [INSERT OR IGNORE INTO __replication_log] *)
  sql_insert_log : D → LogRow → result D sql_error;
  (** the rows of [backends], by primary key *)
  sql_backend_row : D → string → option BackendRow;
  (** [INSERT OR REPLACE INTO backends] *)
  sql_replace_backend : D → string → BackendRow → result D sql_error;
  (** [UPDATE backends SET deleted = 1 WHERE id = ?] *)
  sql_delete_backend : D → string → result D sql_error;
  (** [SELECT ... FROM backends WHERE deleted IS NULL OR deleted = 0] *)
  sql_select_backends : D → result (list BackendRow) sql_error
}.

Class SqlDbLaws (D : Type) `{SqlDb D} := {
  replace_lww_lww d d' k ts k' : sql_replace_lww d k ts = Ok d' →
    sql_select_lww d' k' = if decide (k = k') then Some ts else sql_select_lww d k';
  replace_lww_backend d d' k ts id : sql_replace_lww d k ts = Ok d' →
    sql_backend_row d' id = sql_backend_row d id;
  replace_backend_backend d d' id r id' : sql_replace_backend d id r = Ok d' →
    sql_backend_row d' id' = if decide (id = id') then Some r else sql_backend_row d id';
  replace_backend_lww d d' id r k : sql_replace_backend d id r = Ok d' →
    sql_select_lww d' k = sql_select_lww d k;
  delete_backend_backend d d' id id' : sql_delete_backend d id = Ok d' →
    sql_backend_row d' id' =
      if decide (id = id') then row_set_deleted <$> sql_backend_row d id' else sql_backend_row d id';
  delete_backend_lww d d' id k : sql_delete_backend d id = Ok d' →
    sql_select_lww d' k = sql_select_lww d k;
  insert_log_lww d d' l k : sql_insert_log d l = Ok d' → sql_select_lww d' k = sql_select_lww d k;
  insert_log_backend d d' l id : sql_insert_log d l = Ok d' →
    sql_backend_row d' id = sql_backend_row d id;
  replace_version_lww d d' n s k : sql_replace_version d n s = Ok d' →
    sql_select_lww d' k = sql_select_lww d k;
  replace_version_backend d d' n s id : sql_replace_version d n s = Ok d' →
    sql_backend_row d' id = sql_backend_row d id;
  (** version rows: one per node, and [INSERT OR REPLACE] changes only its node's *)
  versions_keys d l : sql_select_versions d = Ok l → NoDup l.*1;
  replace_version_versions d d' n s l l' : sql_replace_version d n s = Ok d' →
    sql_select_versions d = Ok l → sql_select_versions d' = Ok l' →
    ∀ n' s', (n', s') ∈ l' ↔ (n' = n ∧ s' = s) ∨ (n' ≠ n ∧ (n', s') ∈ l);
  create_tables_lww d d' k : sql_create_tables d = Ok d' → sql_select_lww d' k = sql_select_lww d k;
  create_tables_versions d d' l l' : sql_create_tables d = Ok d' →
    sql_select_versions d = Ok l → sql_select_versions d' = Ok l' →
    ∀ p, p ∈ l' ↔ p ∈ l;
  create_tables_backend d d' id : sql_create_tables d = Ok d' →
    sql_backend_row d' id = sql_backend_row d id;
  (** statements on the other tables do not touch the version rows *)
  replace_lww_versions d d' k ts : sql_replace_lww d k ts = Ok d' →
    sql_select_versions d' = sql_select_versions d;
  replace_backend_versions d d' id r : sql_replace_backend d id r = Ok d' →
    sql_select_versions d' = sql_select_versions d;
  delete_backend_versions d d' id : sql_delete_backend d id = Ok d' →
    sql_select_versions d' = sql_select_versions d;
  insert_log_versions d d' l : sql_insert_log d l = Ok d' →
    sql_select_versions d' = sql_select_versions d;
  select_backends_live d l r : sql_select_backends d = Ok l →
    (r ∈ l ↔ row_live r = true ∧ ∃ id, sql_backend_row d id = Some r)
}.

(** ** An in-memory instance *)

Record MemDb := mkMemDb {
  mem_lww : gmap string (Z * Z * Z);
  mem_versions : gmap string Z;
  mem_log : list LogRow;
  mem_backends : gmap string BackendRow
}.

Definition mem_empty : MemDb := mkMemDb ∅ ∅ [] ∅.

#[export] Instance mem_sql : SqlDb MemDb := {|
  sql_open d := Ok tt;
  sql_create_tables d := Ok d;
  sql_prepare_lww d := Ok tt;
  sql_select_lww d k := mem_lww d !! k;
  sql_replace_lww d k ts :=
    Ok (mkMemDb (<[k := ts]> (mem_lww d)) (mem_versions d) (mem_log d) (mem_backends d));
  sql_select_versions d := Ok (map_to_list (mem_versions d));
  sql_replace_version d n s :=
    Ok (mkMemDb (mem_lww d) (<[n := s]> (mem_versions d)) (mem_log d) (mem_backends d));
  sql_insert_log d l :=
    Ok (if existsb (fun l' => log_change_id l' =? log_change_id l) (mem_log d) then d
        else mkMemDb (mem_lww d) (mem_versions d) (mem_log d ++ [l]) (mem_backends d));
  sql_backend_row d id := mem_backends d !! id;
  sql_replace_backend d id r :=
    Ok (mkMemDb (mem_lww d) (mem_versions d) (mem_log d) (<[id := r]> (mem_backends d)));
  sql_delete_backend d id :=
    Ok (mkMemDb (mem_lww d) (mem_versions d) (mem_log d)
          (alter row_set_deleted id (mem_backends d)));
  sql_select_backends d :=
    Ok (filter (fun r => row_live r = true) (snd <$> map_to_list (mem_backends d)))
|}.

#[export] Instance mem_sql_laws : SqlDbLaws MemDb.
Proof.
  split; simpl; intros; simplify_eq/=; try done.
  - by rewrite lookup_insert.
  - by rewrite lookup_insert.
  - rewrite lookup_alter. case_decide; by subst.
  - by destruct (existsb _ _).
  - by destruct (existsb _ _).
  - apply NoDup_fst_map_to_list.
  - rewrite !elem_of_map_to_list, lookup_insert. case_decide; naive_solver.
  - by destruct (existsb _ _).
  - rewrite list_elem_of_filter, list_elem_of_fmap. split.
    + intros [? ([id r'] & -> & Hr%elem_of_map_to_list)]. eauto.
    + intros [? [id Hr]]. split; [done|]. exists (id, r). by rewrite elem_of_map_to_list.
Qed.
