(* ===== verification/BackendRepos.v ===== *)
(** * Backend repositories

    [src/src/adapters/outbound/sqlite_backend_repo.rs] and
    [postgres_backend_repo.rs]: a cached list of backends behind a lock and a
    version counter.  One turn of each background sync loop is a function of
    the state and of what the load returned. *)

From S2P Require Import Prelude Text Domain Ports Sql.

(** ** SQLite *)

Record SqliteBackendRepository := mkSqliteRepo {
  sq_backends : list Backend;
  sq_version : Z     (* AtomicU64 *)
}.

Definition sqlite_new : SqliteBackendRepository := mkSqliteRepo [] 0.

(** With pre-loaded backends. *)
Definition sqlite_with_backends (backends : list Backend) : SqliteBackendRepository := mkSqliteRepo backends 1.

(** [row_to_backend]: columns in order, the first bad one is the error; the
    integer columns are cast with [as], which truncates. *)
Definition row_to_backend (row : BackendRow) : result Backend sql_error :=
  let? id := sql_string (row_id row) in
  let? app := sql_string (row_app row) in
  let? region := sql_string (row_region row) in
  let? country := sql_string (row_country row) in
  let? wg_ip := sql_string (row_wg_ip row) in
  let? port := sql_i64 (row_port row) in
  let? healthy := sql_i64 (row_healthy row) in
  let? weight := sql_i64 (row_weight row) in
  let? soft_limit := sql_i64 (row_soft_limit row) in
  let? hard_limit := sql_i64 (row_hard_limit row) in
  Ok (mkBackend id app (region_from_str region) country wg_ip (wrap 16 port)
        (negb (healthy =? 0)) (wrap 8 weight) (wrap 32 soft_limit) (wrap 32 hard_limit)).

(** [.collect::<Result<Vec<_>, _>>()]: the first error wins. *)
Fixpoint collect_results {A B E} (f : A → result B E) (l : list A) : result (list B) E :=
  match l with
  | [] => Ok []
  | x :: l' => let? y := f x in let? ys := collect_results f l' in Ok (y :: ys)
  end.

Section sqlite.
Context `{SqlDb D}.

Definition load_from_sqlite (db : D) : result (list Backend) sql_error :=
  let? _ := sql_open db in
  let? rows := sql_select_backends db in
  collect_results row_to_backend rows.

(** What [spawn_blocking] hands back: the load's result, or a join error. *)
Definition spawn_load (join_ok : bool) (db : D) : result (result (list Backend) sql_error) unit :=
  if join_ok then Ok (load_from_sqlite db) else Err tt.
End sqlite.

(** One turn of the loop of [start_sync]. *)
Definition sqlite_sync_turn (r : SqliteBackendRepository)
    (loaded : result (result (list Backend) sql_error) unit) : SqliteBackendRepository :=
  match loaded with
  | Ok (Ok new_backends) => mkSqliteRepo new_backends (sq_version r +u64 1)
  | Ok (Err _) => r
  | Err _ => r
  end.

Definition sq_get_all (r : SqliteBackendRepository) : list Backend := sq_backends r.

Definition sq_get_by_id (r : SqliteBackendRepository) (id : string) : option Backend :=
  List.find (fun b => str_eqb (be_id b) id) (sq_backends r).

Definition sq_get_healthy (r : SqliteBackendRepository) : list Backend :=
  filter (fun b => be_healthy b = true) (sq_backends r).

Definition sq_get_version (r : SqliteBackendRepository) : Z := sq_version r.

#[export] Instance sqlite_repository : BackendRepository SqliteBackendRepository := {|
  get_all := sq_get_all; get_by_id := sq_get_by_id;
  get_healthy := sq_get_healthy; get_version := sq_get_version
|}.

#[export] Instance sqlite_repository_laws : BackendRepositoryLaws SqliteBackendRepository.
Proof. by split. Qed.

(** ** PostgreSQL *)

Record PostgresConfig := mkPostgresConfig {
  pg_url : string; pg_max_connections : Z; pg_min_connections : Z;
  pg_connect_timeout : duration; pg_query_timeout : duration; pg_reload_interval : duration
}.

Definition postgres_config_default : PostgresConfig :=
  mkPostgresConfig "postgres://localhost:5432/edgeproxy" 10 2 (from_secs 5) (from_secs 10)
    (from_secs 5).

Inductive PostgresError :=
| PgConnectionError (e : string)
| PgQueryError (e : string)
| PgDataError (e : string)
| PgNotInitialized.

Definition postgres_error_display (err : PostgresError) : string :=
  match err with
  | PgConnectionError e => "connection error: " +:+ e
  | PgQueryError e => "query error: " +:+ e
  | PgDataError e => "data error: " +:+ e
  | PgNotInitialized => "repository not initialized"
  end.

(** The schema the program would create; no code of it runs the statements. *)
Definition BACKENDS_SCHEMA : string := "
CREATE TABLE IF NOT EXISTS backends (
    id TEXT PRIMARY KEY,
    app TEXT NOT NULL,
    region TEXT NOT NULL,
    country TEXT NOT NULL,
    wg_ip TEXT NOT NULL,
    port INTEGER NOT NULL,
    healthy INTEGER NOT NULL DEFAULT 1,
    weight INTEGER NOT NULL DEFAULT 1,
    soft_limit INTEGER NOT NULL DEFAULT 100,
    hard_limit INTEGER NOT NULL DEFAULT 150,
    deleted INTEGER NOT NULL DEFAULT 0,
    created_at TIMESTAMP WITH TIME ZONE DEFAULT CURRENT_TIMESTAMP,
    updated_at TIMESTAMP WITH TIME ZONE DEFAULT CURRENT_TIMESTAMP
);

CREATE INDEX IF NOT EXISTS idx_backends_healthy ON backends(healthy) WHERE deleted = 0;
CREATE INDEX IF NOT EXISTS idx_backends_region ON backends(region) WHERE deleted = 0;
".

Record PostgresBackendRepository := mkPostgresRepo {
  pg_config : PostgresConfig;
  pg_backends : list Backend;
  pg_version : Z;          (* AtomicU64 *)
  pg_initialized : bool;
  (* the counter of the sync task: [start_sync] copies [version] into a fresh one *)
  pg_task_version : option Z
}.

Definition postgres_new (config : PostgresConfig) : PostgresBackendRepository :=
  mkPostgresRepo config [] 0 false None.

Definition postgres_initialize (r : PostgresBackendRepository)
    : PostgresBackendRepository * result unit PostgresError :=
  (mkPostgresRepo (pg_config r) (pg_backends r) (pg_version r) true (pg_task_version r), Ok tt).

(** [start_sync] spawns the task: its version counter is a copy. *)
Definition postgres_start_sync (r : PostgresBackendRepository) : PostgresBackendRepository :=
  mkPostgresRepo (pg_config r) (pg_backends r) (pg_version r) (pg_initialized r) (Some (pg_version r)).

(** The stub of the load. *)
Definition load_backends_from_postgres (config : PostgresConfig)
    : result (list Backend) PostgresError := Ok [].

(** One turn of the sync task. *)
Definition postgres_sync_turn (r : PostgresBackendRepository) : PostgresBackendRepository :=
  match pg_task_version r with
  | None => r
  | Some v =>
      if negb (pg_initialized r) then r
      else match load_backends_from_postgres (pg_config r) with
           | Ok new_backends =>
               if bool_decide (pg_backends r = new_backends) then r
               else mkPostgresRepo (pg_config r) new_backends (pg_version r) (pg_initialized r)
                      (Some (v +u64 1))
           | Err _ => r
           end
  end.

Definition add_backend (r : PostgresBackendRepository) (b : Backend)
    : PostgresBackendRepository * result unit PostgresError :=
  (mkPostgresRepo (pg_config r) (pg_backends r ++ [b]) (pg_version r +u64 1) (pg_initialized r)
     (pg_task_version r), Ok tt).

Definition remove_backend (r : PostgresBackendRepository) (backend_id : string)
    : PostgresBackendRepository * result unit PostgresError :=
  (mkPostgresRepo (pg_config r) (filter (fun b => str_eqb (be_id b) backend_id = false) (pg_backends r))
     (pg_version r +u64 1) (pg_initialized r) (pg_task_version r), Ok tt).

(** The first backend with that id, updated in place. *)
Fixpoint update_first (id : string) (healthy : bool) (bs : list Backend) : option (list Backend) :=
  match bs with
  | [] => None
  | b :: bs' =>
      if str_eqb (be_id b) id then Some (set_healthy healthy b :: bs')
      else (fun l => b :: l) <$> update_first id healthy bs'
  end.

Definition update_health (r : PostgresBackendRepository) (backend_id : string) (healthy : bool)
    : PostgresBackendRepository * result unit PostgresError :=
  match update_first backend_id healthy (pg_backends r) with
  | Some bs => (mkPostgresRepo (pg_config r) bs (pg_version r +u64 1) (pg_initialized r)
                  (pg_task_version r), Ok tt)
  | None => (r, Ok tt)
  end.

Definition pg_get_all (r : PostgresBackendRepository) : list Backend := pg_backends r.
Definition pg_get_by_id (r : PostgresBackendRepository) (id : string) : option Backend :=
  List.find (fun b => str_eqb (be_id b) id) (pg_backends r).
Definition pg_get_healthy (r : PostgresBackendRepository) : list Backend :=
  filter (fun b => be_healthy b = true) (pg_backends r).
Definition pg_get_version (r : PostgresBackendRepository) : Z := pg_version r.

#[export] Instance postgres_repository : BackendRepository PostgresBackendRepository := {|
  get_all := pg_get_all; get_by_id := pg_get_by_id;
  get_healthy := pg_get_healthy; get_version := pg_get_version
|}.

#[export] Instance postgres_repository_laws : BackendRepositoryLaws PostgresBackendRepository.
Proof. by split. Qed.

(** ** Lemmas *)

Lemma row_to_backend_wf row b : row_to_backend row = Ok b → backend_wf b.
Proof.
  unfold row_to_backend, result_bind. repeat case_match; intros; simplify_eq.
  unfold backend_wf; simpl. split_and!; apply wrap_range; lia.
Qed.

Lemma collect_results_Ok {A B E} (f : A → result B E) l ys :
  collect_results f l = Ok ys ↔ Forall2 (fun x y => f x = Ok y) l ys.
Proof.
  revert ys. induction l as [|x l IH]; intros ys; simpl; unfold result_bind.
  - split; [by intros [= <-]; constructor|by inversion 1].
  - split.
    + destruct (f x) eqn:Hx; [|done]. destruct (collect_results f l) eqn:Hl; [|done].
      intros [= <-]. constructor; [done|]. by apply IH.
    + inversion 1 as [|? y ? ys' Hy Hys]; subst. rewrite Hy.
      apply IH in Hys. by rewrite Hys.
Qed.

Lemma collect_results_Err {A B E} (f : A → result B E) l e x :
  x ∈ l → f x = Err e → ∃ e', collect_results f l = Err e'.
Proof.
  intros Hin Hx. destruct (collect_results f l) as [ys|e'] eqn:Hc; [|by eauto].
  apply collect_results_Ok in Hc. apply list_elem_of_lookup in Hin as [i Hi].
  eapply Forall2_lookup_l in Hc as (y & _ & Hy); [|done]. congruence.
Qed.

(** ** Properties *)

Section sqlite_properties.
Context `{SqlDbLaws D}.

Lemma load_from_sqlite_Ok (db : D) bs : load_from_sqlite db = Ok bs →
  ∃ rows, sql_select_backends db = Ok rows ∧ Forall2 (fun x y => row_to_backend x = Ok y) rows bs.
Proof.
  unfold load_from_sqlite, result_bind. destruct (sql_open db); [|done].
  destruct (sql_select_backends db) as [rows|]; [|done].
  intros Hc%collect_results_Ok. eauto.
Qed.

(** The backends of the table: its decoded live rows. *)
Definition listed (db : D) (b : Backend) : Prop :=
  ∃ id row, sql_backend_row db id = Some row ∧ row_live row = true ∧ row_to_backend row = Ok b.

Lemma load_from_sqlite_listed (db : D) bs b : load_from_sqlite db = Ok bs → b ∈ bs ↔ listed db b.
Proof.
  intros (rows & Hsel & Hrows)%load_from_sqlite_Ok. rewrite list_elem_of_lookup. split.
  - intros [i Hi]. eapply Forall2_lookup_r in Hrows as (row & Hr & Hb); [|done].
    apply list_elem_of_lookup_2, (select_backends_live db rows) in Hr as [? [id ?]]; [|done]. by exists id, row.
  - intros (id & row & Hid & Hlive & Hb).
    assert (row ∈ rows) as [i Hi]%list_elem_of_lookup by (apply (select_backends_live db rows); eauto).
    eapply Forall2_lookup_l in Hrows as (b' & Hb' & Hrow); [|done]. exists i. congruence.
Qed.

(** A turn of the sync loop lists backends of the table, or leaves the list as it was. *)
Lemma sqlite_sync_turn_listed r join_ok (db : D) b :
  b ∈ sq_backends (sqlite_sync_turn r (spawn_load join_ok db)) → b ∈ sq_backends r ∨ listed db b.
Proof.
  unfold sqlite_sync_turn, spawn_load. destruct join_ok; [|by left].
  destruct (load_from_sqlite db) as [bs|] eqn:Hl; [|by left]. simpl. right. by eapply load_from_sqlite_listed.
Qed.

(** C15: a successful reload mirrors the table. The new cache holds exactly the
    decoded live rows (soft-deleted rows are gone), every integer field is
    within its Rust width, and the version moves on. *)
Theorem sqlite_reload_mirrors_table (r : SqliteBackendRepository) (db : D) bs :
  load_from_sqlite db = Ok bs →
  let r' := sqlite_sync_turn r (spawn_load true db) in
  get_version r' = get_version r +u64 1 ∧
  (∀ b, b ∈ get_all r' → backend_wf b) ∧
  (∀ b, b ∈ get_all r' ↔
     ∃ id row, sql_backend_row db id = Some row ∧ row_live row = true ∧ row_to_backend row = Ok b).
Proof.
  intros Hload. pose proof (load_from_sqlite_Ok db bs Hload) as (rows & _ & Hrows).
  unfold spawn_load. rewrite Hload. simpl. split; [done|]. split.
  - intros b [i Hi]%list_elem_of_lookup. eapply Forall2_lookup_r in Hrows as (row & _ & Hb); [|done].
    by eapply row_to_backend_wf.
  - intros b. by apply load_from_sqlite_listed.
Qed.

(** One undecodable live row (for instance one whose [country] is NULL)
    makes the whole reload fail, and a failed reload leaves cache and version as
    they were. *)
Lemma sqlite_bad_row_blocks_reload (r : SqliteBackendRepository) (db : D) id row :
  sql_backend_row db id = Some row → row_live row = true → row_country row = SqlNull →
  sqlite_sync_turn r (spawn_load true db) = r.
Proof.
  intros Hid Hlive Hnull. unfold spawn_load.
  assert (∃ e, load_from_sqlite db = Err e) as [e ->]; [|done].
  unfold load_from_sqlite, result_bind. destruct (sql_open db); [|eauto].
  destruct (sql_select_backends db) as [rows|] eqn:Hsel; [|eauto].
  assert (∃ e, row_to_backend row = Err e) as [e He].
  { unfold row_to_backend. rewrite Hnull. simpl.
    destruct (row_id row), (row_app row), (row_region row); simpl; eauto. }
  apply (collect_results_Err _ _ e row); [|done].
  apply (select_backends_live db rows); eauto.
Qed.
End sqlite_properties.

Definition example_row : BackendRow :=
  mkBackendRow (SqlText "b1") (SqlText "app") (SqlText "sa") (SqlText "BR") (SqlText "10.0.0.1")
    (SqlInteger 8080) (SqlInteger 1) (SqlInteger 2) (SqlInteger 100) (SqlInteger 150) (SqlInteger 0).

Definition example_db : MemDb := mkMemDb ∅ ∅ [] {[ "b1" := example_row ]}.

Lemma sqlite_reload_mirrors_table_witness :
  load_from_sqlite example_db =
    Ok [mkBackend "b1" "app" SouthAmerica "BR" "10.0.0.1" 8080 true 2 100 150] ∧
  get_version (sqlite_sync_turn sqlite_new (spawn_load true example_db)) = 1.
Proof.
  assert (load_from_sqlite example_db =
    Ok [mkBackend "b1" "app" SouthAmerica "BR" "10.0.0.1" 8080 true 2 100 150]) as Hl
    by (vm_compute; reflexivity).
  split; [exact Hl|].
  exact (proj1 (sqlite_reload_mirrors_table sqlite_new example_db _ Hl)).
Defined.

Definition null_country_db : MemDb :=
  mkMemDb ∅ ∅ [] {[ "b2" := mkBackendRow (SqlText "b2") (SqlText "app") (SqlText "us") SqlNull
    (SqlText "10.0.0.2") (SqlInteger 80) (SqlInteger 1) (SqlInteger 2) (SqlInteger 100)
    (SqlInteger 150) (SqlInteger 0); "b1" := example_row ]}.

Lemma sqlite_bad_row_blocks_reload_witness :
  sqlite_sync_turn sqlite_new (spawn_load true null_country_db) = sqlite_new.
Proof.
  apply (sqlite_bad_row_blocks_reload sqlite_new null_country_db "b2"
    (mkBackendRow (SqlText "b2") (SqlText "app") (SqlText "us") SqlNull
    (SqlText "10.0.0.2") (SqlInteger 80) (SqlInteger 1) (SqlInteger 2) (SqlInteger 100)
    (SqlInteger 150) (SqlInteger 0))); reflexivity.
Defined.
