(* ===== verification/Tls.v ===== *)
(** * TLS configuration

    [TlsConfig] of [src/src/adapters/inbound/tls_server.rs].  Certificates and keys
    are byte strings (DER); generating and parsing them, and building a
    [rustls::ServerConfig], are the libraries' ([rcgen], [rustls_pemfile],
    [rustls]), the class [TlsLib].  The file system is a function from paths. *)

From S2P Require Import Prelude Text Domain Ports Sql BackendRepos.

Class TlsLib := {
  ServerConfig : Type;
  (* the DER certificate and the DER key pair *)
  generate_simple_self_signed : list string → result (list Z * list Z) string;
  private_key_der : list Z → result (list Z) string;                 (* PrivateKeyDer::try_from *)
  with_single_cert : list (list Z) → list Z → result ServerConfig string;
  pem_certs : list Z → list (result (list Z) string);                (* rustls_pemfile::certs *)
  pem_private_key : list Z → result (option (list Z)) string         (* rustls_pemfile::private_key *)
}.

Definition map_err {A E F} (f : E → F) (r : result A E) : result A F :=
  match r with Ok a => Ok a | Err e => Err (f e) end.

Section tls.
Context `{TlsLib}.

Record TlsConfig := mkTlsConfig { acceptor : ServerConfig }.

Definition from_certs_and_key (certs : list (list Z)) (key : list Z) : result TlsConfig string :=
  let? config := with_single_cert certs key in Ok (mkTlsConfig config).

(** [open path] is what [File::open] and reading the file give. *)
Definition from_pem_files (open : string → result (list Z) string) (cert_path key_path : string)
    : result TlsConfig string :=
  let? cert_file := open cert_path in
  let? key_file := open key_path in
  let? certs := collect_results id (pem_certs cert_file) in
  let? key := (let? k := pem_private_key key_file in
               match k with Some k => Ok k | None => Err ("no private key found in " +:+ key_path) end) in
  from_certs_and_key certs key.

Definition self_signed_names (domain : string) : list string := [domain; "localhost"; "127.0.0.1"].

Definition self_signed (domain : string) : result TlsConfig string :=
  let? (cert_der, key_pair_der) := generate_simple_self_signed (self_signed_names domain) in
  let? key_der := map_err (λ e, "failed to serialize key: " +:+ e) (private_key_der key_pair_der) in
  from_certs_and_key [cert_der] key_der.

(** A configuration from files uses every certificate of one file, in order, and the
    first private key of the other; anything wrong with either file is an error. *)
Lemma from_pem_files_Ok open cert_path key_path cfg :
  from_pem_files open cert_path key_path = Ok cfg ↔
  ∃ cert_file key_file certs key,
    open cert_path = Ok cert_file ∧ open key_path = Ok key_file ∧
    pem_certs cert_file = Ok <$> certs ∧ pem_private_key key_file = Ok (Some key) ∧
    with_single_cert certs key = Ok (acceptor cfg).
Proof.
  unfold from_pem_files, from_certs_and_key. destruct cfg as [config]; simpl. split.
  - destruct (open cert_path) as [cf|]; simpl; [|done]. destruct (open key_path) as [kf|]; simpl; [|done].
    destruct (collect_results id (pem_certs cf)) as [certs|] eqn:Hc; simpl; [|done].
    destruct (pem_private_key kf) as [[key|]|] eqn:Hk; simpl; [|done..].
    destruct (with_single_cert certs key) eqn:Hw; simpl; [|done]. intros [= <-].
    exists cf, kf, certs, key. split_and!; try done.
    apply collect_results_Ok in Hc. clear -Hc. induction Hc as [|x y l k Hx _ IH]; [done|].
    simpl. unfold id in Hx. by rewrite Hx, IH.
  - intros (cf & kf & certs & key & Hcf & Hkf & Hc & Hk & Hw). rewrite Hcf, Hkf. simpl.
    rewrite (proj2 (collect_results_Ok id (pem_certs cf) certs)); simpl; [by rewrite Hk; simpl; rewrite Hw|].
    rewrite Hc. apply Forall2_fmap_l. apply Forall_Forall2_diag. by apply Forall_true.
Qed.
End tls.
Arguments TlsConfig : clear implicits. Arguments TlsConfig {_}.
