(* ===== verification/Geo.v ===== *)
(** * MaxMind geo resolver

    [src/src/adapters/outbound/maxmind_geo_resolver.rs].  The MaxMind reader is
    third-party code over a binary database: its [lookup] is a field of the
    resolver, an arbitrary function. *)

From S2P Require Import Prelude Text Domain Ports.

(** The two deserialized structs. *)
Record Country := mkCountry { iso_code : option string }.
Record CountryResp := mkCountryResp { resp_country : option Country }.

Record MaxMindGeoResolver := mkMaxMind {
  reader_lookup : IpAddr → result CountryResp string
}.

(** [from_file], [embedded]: the reader is what the library makes of the file, or of
    the database compiled into the program. *)
Definition maxmind_from_file (open_readfile : string → result (IpAddr → result CountryResp string) string)
    (path : string) : result MaxMindGeoResolver string :=
  let? reader := open_readfile path in Ok (mkMaxMind reader).

Definition maxmind_embedded (from_source : result (IpAddr → result CountryResp string) string)
    : result MaxMindGeoResolver string :=
  let? reader := from_source in Ok (mkMaxMind reader).

Definition maxmind_resolve (g : MaxMindGeoResolver) (ip : IpAddr) : option GeoInfo :=
  resp ← result_ok (reader_lookup g ip);
  country ← resp_country resp;
  iso ← iso_code country;
  let region := region_from_country iso in
  Some (mkGeoInfo iso region).

#[export] Instance maxmind_geo_resolver : GeoResolver MaxMindGeoResolver := {|
  geo_resolve := maxmind_resolve
|}.

(** The region of a resolved client is that of its country. *)
Lemma maxmind_resolve_region g ip info :
  maxmind_resolve g ip = Some info → geo_region info = region_from_country (geo_country info).
Proof.
  unfold maxmind_resolve. destruct (result_ok _) as [resp|]; simpl; [|done].
  destruct (resp_country resp) as [c|]; simpl; [|done]. by destruct (iso_code c); intros [= <-].
Qed.
