(* ===== verification/ProxyService.v ===== *)
(** * Proxy service

    [src/src/application/proxy_service.rs], generic in the repositories it is
    given: the operations are defined over the port classes and the theorems are
    proved from the port laws, so they hold for every adapter combination.
    Each [Instant::now()] an operation reads is an argument: [t_touch] for the
    read inside [BindingRepository::touch], [t_new] for the one inside
    [Binding::new]. *)

From S2P Require Import Prelude Text Float64 Domain LoadBalancer Ports.
From S2P Require Import Geo BindingRepo Metrics BackendRepos.

Record ProxyService (R B M G : Type) := mkProxy {
  ps_backend_repo : R;
  ps_binding_repo : B;
  ps_geo_resolver : option G;
  ps_metrics : M;
  ps_local_region : RegionCode
}.
Arguments mkProxy {R B M G} _ _ _ _ _.
Arguments ps_backend_repo {R B M G} _.
Arguments ps_binding_repo {R B M G} _.
Arguments ps_geo_resolver {R B M G} _.
Arguments ps_metrics {R B M G} _.
Arguments ps_local_region {R B M G} _.

Section proxy.
Context {R B M G : Type}
  `{!BackendRepository R, !BindingRepository B, !MetricsStore M, !GeoResolver G}.
#[local] Abbreviation service := (ProxyService R B M G).

Definition with_bindings (s : service) (b : B) : service :=
  mkProxy (ps_backend_repo s) b (ps_geo_resolver s) (ps_metrics s) (ps_local_region s).

Definition with_metrics (s : service) (m : M) : service :=
  mkProxy (ps_backend_repo s) (ps_binding_repo s) (ps_geo_resolver s) m (ps_local_region s).

Definition resolve_geo (s : service) (ip : IpAddr) : option GeoInfo :=
  g ← ps_geo_resolver s; geo_resolve g ip.

(** [resolve_backend]. *)
Definition resolve_backend (t_touch t_new : instant) (s : service) (client : IpAddr)
    : service * option Backend :=
  let client_key := mkClientKey client in
  let pick (s : service) :=
    let client_geo := resolve_geo s client in
    let backends := get_healthy (ps_backend_repo s) in
    match backends with
    | [] => (s, None)
    | _ =>
        match pick_backend backends (ps_local_region s) client_geo
                (get_connection_count (ps_metrics s)) with
        | None => (s, None)
        | Some backend =>
            (with_bindings s (binding_set (ps_binding_repo s) client_key
               (binding_new t_new (be_id backend))), Some backend)
        end
    end in
  match binding_get (ps_binding_repo s) client_key with
  | Some binding =>
      let s := with_bindings s (binding_touch_key t_touch (ps_binding_repo s) client_key) in
      let stale (s : service) :=
        pick (with_bindings s (binding_remove (ps_binding_repo s) client_key)) in
      match get_by_id (ps_backend_repo s) (bd_backend_id binding) with
      | Some backend => if be_healthy backend then (s, Some backend) else stale s
      | None => stale s
      end
  | None => pick s
  end.

(** [resolve_backend_with_geo]. *)
Definition resolve_backend_with_geo (t_touch t_new : instant) (s : service) (client : IpAddr)
    (client_geo : option GeoInfo) : service * option Backend :=
  let client_key := mkClientKey client in
  let '(s, bound) :=
    match binding_get (ps_binding_repo s) client_key with
    | Some binding =>
        let s := with_bindings s (binding_touch_key t_touch (ps_binding_repo s) client_key) in
        let removed := with_bindings s (binding_remove (ps_binding_repo s) client_key) in
        match get_by_id (ps_backend_repo s) (bd_backend_id binding) with
        | Some backend => if be_healthy backend then (s, Some backend) else (removed, None)
        | None => (removed, None)
        end
    | None => (s, None)
    end in
  match bound with
  | Some backend => (s, Some backend)
  | None =>
      let backends := get_healthy (ps_backend_repo s) in
      match backends with
      | [] => (s, None)
      | _ =>
          match pick_backend backends (ps_local_region s) client_geo
                  (get_connection_count (ps_metrics s)) with
          | None => (s, None)
          | Some backend =>
              (with_bindings s (binding_set (ps_binding_repo s) client_key
                 (binding_new t_new (be_id backend))), Some backend)
          end
      end
  end.

Definition clear_binding (s : service) (client : IpAddr) : service :=
  with_bindings s (binding_remove (ps_binding_repo s) (mkClientKey client)).

Definition record_connection_start (s : service) (backend_id : string) : service :=
  with_metrics s (increment_connections (ps_metrics s) backend_id).

Definition record_connection_end (s : service) (backend_id : string) : service :=
  with_metrics s (decrement_connections (ps_metrics s) backend_id).

Definition ps_record_rtt (s : service) (backend_id : string) (rtt_ms : Z) : service :=
  with_metrics s (record_rtt (ps_metrics s) backend_id rtt_ms).

Definition ps_get_connection_count (s : service) (backend_id : string) : Z :=
  get_connection_count (ps_metrics s) backend_id.

(** One turn of [run_binding_cleanup]. *)
Definition binding_cleanup_turn (now : instant) (ttl : duration) (s : service) : service :=
  with_bindings s (fst (binding_cleanup_expired now ttl (ps_binding_repo s))).

(** ** Reference description *)

(** The healthy backend a client is bound to, if any. *)
Definition bound_backend (s : service) (client : IpAddr) : option Backend :=
  binding ← binding_get (ps_binding_repo s) (mkClientKey client);
  backend ← get_by_id (ps_backend_repo s) (bd_backend_id binding);
  if be_healthy backend then Some backend else None.

(** The backend the load balancer would choose. *)
Definition fresh_choice (s : service) (client_geo : option GeoInfo) : option Backend :=
  pick_backend (get_healthy (ps_backend_repo s)) (ps_local_region s) client_geo
    (get_connection_count (ps_metrics s)).

(** The routing decision: the bound backend while it is healthy, else a fresh choice. *)
Definition route (s : service) (client : IpAddr) (client_geo : option GeoInfo) : option Backend :=
  match bound_backend s client with
  | Some b => Some b
  | None => fresh_choice s client_geo
  end.

Lemma fresh_choice_healthy `{!BackendRepositoryLaws R} s g b :
  fresh_choice s g = Some b → be_healthy b = true ∧ b ∈ get_all (ps_backend_repo s).
Proof.
  unfold fresh_choice. intros Hp.
  pose proof (pick_loop_correct (ps_local_region s) g (get_connection_count (ps_metrics s))
    (get_healthy (ps_backend_repo s))) as Hloop.
  unfold pick_backend in Hp. destruct (foldl _ _ _) as [[b0 sc]|]; simplify_eq/=.
  destruct Hloop as (_ & l1 & l2 & Heq & _). apply elem_of_get_healthy. rewrite Heq.
  apply elem_of_app. right. by left.
Qed.

Lemma bound_backend_healthy `{!BackendRepositoryLaws R} s client b :
  bound_backend s client = Some b → be_healthy b = true ∧ b ∈ get_all (ps_backend_repo s) ∧
    ∃ bd, binding_get (ps_binding_repo s) (mkClientKey client) = Some bd ∧ bd_backend_id bd = be_id b.
Proof.
  unfold bound_backend. destruct (binding_get _ _) as [bd|] eqn:Hbd; simpl; [|done].
  destruct (get_by_id _ _) as [b0|] eqn:Hb; simpl; [|done].
  destruct (be_healthy b0) eqn:Hh; [|done]. intros [= <-].
  apply get_by_id_Some in Hb as [? ?]. split; [done|]. split; [done|]. eauto.
Qed.

(** The state in which a fresh choice is made: a stale binding is gone. *)
Definition drop_stale (t_touch : instant) (s : service) (key : ClientKey) : service :=
  match binding_get (ps_binding_repo s) key with
  | Some _ => with_bindings s (binding_remove (binding_touch_key t_touch (ps_binding_repo s) key) key)
  | None => s
  end.

(** The decision and the state it leaves, in one equation. *)
Lemma resolve_with_geo_eq t_touch t_new s client g :
  resolve_backend_with_geo t_touch t_new s client g =
    let key := mkClientKey client in
    match bound_backend s client with
    | Some b => (with_bindings s (binding_touch_key t_touch (ps_binding_repo s) key), Some b)
    | None =>
        let s1 := drop_stale t_touch s key in
        match fresh_choice s g with
        | Some b => (with_bindings s1 (binding_set (ps_binding_repo s1) key
                       (binding_new t_new (be_id b))), Some b)
        | None => (s1, None)
        end
    end.
Proof.
  unfold resolve_backend_with_geo, bound_backend, fresh_choice, drop_stale, with_bindings. cbv zeta.
  destruct (binding_get _ _) as [bd|]; simpl.
  - destruct (get_by_id _ _) as [b|]; simpl; [destruct (be_healthy b); simpl; [done|]|];
      by destruct (get_healthy (ps_backend_repo s)).
  - by destruct (get_healthy (ps_backend_repo s)).
Qed.

(** ** Properties *)

(** [resolve_backend] is [resolve_backend_with_geo] fed with the service's
    own geo lookup: the two code paths take the same decision and leave the same
    state. *)
Lemma resolve_backend_equiv t_touch t_new (s : service) client :
  resolve_backend t_touch t_new s client =
    resolve_backend_with_geo t_touch t_new s client (resolve_geo s client).
Proof.
  unfold resolve_backend, resolve_backend_with_geo.
  destruct (binding_get _ _) as [bd|]; simpl; [|done].
  destruct (get_by_id _ _) as [b|]; simpl; [|done]. by destruct (be_healthy b).
Qed.

Context `{!BackendRepositoryLaws R, !BindingRepositoryLaws B}.

Lemma drop_stale_frame t_touch s key :
  (∀ k, binding_get (ps_binding_repo (drop_stale t_touch s key)) k =
     if decide (key = k) then None else binding_get (ps_binding_repo s) k) ∧
  ps_backend_repo (drop_stale t_touch s key) = ps_backend_repo s ∧
  ps_metrics (drop_stale t_touch s key) = ps_metrics s ∧
  ps_geo_resolver (drop_stale t_touch s key) = ps_geo_resolver s ∧
  ps_local_region (drop_stale t_touch s key) = ps_local_region s.
Proof.
  unfold drop_stale. destruct (binding_get (ps_binding_repo s) key) as [bd|] eqn:Hbd; simpl.
  - split_and!; try done. intros k. rewrite binding_get_remove, binding_get_touch.
    by case_decide.
  - split_and!; try done. intros k. by case_decide; subst.
Qed.

(** What a call decides, and what it leaves behind. *)
Lemma binding_after_resolve t_touch t_new s client g s' r :
  resolve_backend_with_geo t_touch t_new s client g = (s', r) →
  r = route s client g ∧
  bd_backend_id <$> binding_get (ps_binding_repo s') (mkClientKey client) = be_id <$> r ∧
  (∀ k, k ≠ mkClientKey client → binding_get (ps_binding_repo s') k = binding_get (ps_binding_repo s) k) ∧
  ps_backend_repo s' = ps_backend_repo s ∧ ps_metrics s' = ps_metrics s ∧
  ps_geo_resolver s' = ps_geo_resolver s ∧ ps_local_region s' = ps_local_region s.
Proof.
  rewrite resolve_with_geo_eq. unfold route. cbv zeta.
  destruct (bound_backend s client) as [b|] eqn:Hb.
  - intros [= <- <-]. apply bound_backend_healthy in Hb as (_ & _ & bd & Hbd & Hid).
    split_and!; simpl; try done.
    + rewrite binding_get_touch, decide_True, Hbd by done. simpl. by rewrite Hid.
    + intros k Hk. by rewrite binding_get_touch, decide_False by done.
  - destruct (drop_stale_frame t_touch s (mkClientKey client)) as (Hget & Hrepo & Hmet & Hgeo & Hreg).
    destruct (fresh_choice s g) as [b|]; intros [= <- <-]; (split_and!; simpl; try done).
    + by rewrite binding_get_set, decide_True by done.
    + intros k Hk. by rewrite binding_get_set, Hget, !decide_False by done.
    + by rewrite Hget, decide_True by done.
    + intros k Hk. by rewrite Hget, decide_False by done.
Qed.

(** C1: what one resolution does. The answer is the healthy backend the client
    is bound to, or else the load balancer's choice among the healthy backends;
    afterwards the client is bound to the answer (and to nothing when there is
    none), the bindings of all other clients, the backends and the metrics are
    untouched; and a returned backend is always a healthy one of the repository. *)
Theorem resolve_backend_with_geo_spec t_touch t_new (s : service) client g :
  let '(s', answer) := resolve_backend_with_geo t_touch t_new s client g in
  answer = route s client g ∧
  bd_backend_id <$> binding_get (ps_binding_repo s') (mkClientKey client) = be_id <$> answer ∧
  (∀ k, k ≠ mkClientKey client →
     binding_get (ps_binding_repo s') k = binding_get (ps_binding_repo s) k) ∧
  ps_backend_repo s' = ps_backend_repo s ∧ ps_metrics s' = ps_metrics s ∧
  (∀ b, answer = Some b → be_healthy b = true ∧ b ∈ get_all (ps_backend_repo s)).
Proof.
  destruct (resolve_backend_with_geo t_touch t_new s client g) as [s' answer] eqn:Hr.
  apply binding_after_resolve in Hr as (-> & Hb & Hk & Hrepo & Hm & _).
  split_and!; try done. unfold route. intros b.
  destruct (bound_backend s client) as [b0|] eqn:Hbb.
  - intros [= <-]. by apply bound_backend_healthy in Hbb as (? & ? & _).
  - apply fresh_choice_healthy.
Qed.


(** The hard limit is a limit on new bindings only. A bound client is sent
    to its backend at any connection count, also at or above [hard_limit]. *)
Lemma bound_client_ignores_hard_limit t_touch t_new (s : service) client g b (m : M) :
  bound_backend s client = Some b →
  snd (resolve_backend_with_geo t_touch t_new (with_metrics s m) client g) = Some b.
Proof.
  intros Hb. rewrite resolve_with_geo_eq. cbv zeta.
  change (bound_backend (with_metrics s m) client) with (bound_backend s client).
  by rewrite Hb.
Qed.
End proxy.

(** ** The deployed composition, and witnesses *)

(** The adapters [main.rs] wires together. *)
Abbreviation EdgeService :=
  (ProxyService SqliteBackendRepository DashMapBindingRepository DashMapMetricsStore
     MaxMindGeoResolver).

Definition example_backend : Backend :=
  mkBackend "b1" "app" SouthAmerica "BR" "10.0.0.1" 8080 true 2 100 1.

Definition example_service : EdgeService :=
  mkProxy (mkSqliteRepo [example_backend] 1) binding_repo_new None dm_store_new SouthAmerica.

Definition example_bound : EdgeService :=
  fst (resolve_backend_with_geo 10 11 example_service (V4 16909060) None).

Lemma resolve_backend_with_geo_spec_witness :
  let '(s', answer) := resolve_backend_with_geo 10 11 example_service (V4 16909060) None in
  answer = Some example_backend ∧
  bd_backend_id <$> binding_get (ps_binding_repo s') (mkClientKey (V4 16909060)) = Some "b1".
Proof.
  pose proof (resolve_backend_with_geo_spec 10 11 example_service (V4 16909060) None) as H.
  destruct (resolve_backend_with_geo 10 11 example_service (V4 16909060) None) as [s' answer].
  destruct H as (Ha & Hb & _). split; [exact Ha|]. rewrite Ha in Hb. exact Hb.
Defined.


Lemma bound_client_ignores_hard_limit_witness :
  snd (resolve_backend_with_geo 20 21
    (with_metrics example_bound (dm_increment_connections dm_store_new "b1"))
    (V4 16909060) None) = Some example_backend.
Proof.
  apply (bound_client_ignores_hard_limit 20 21 example_bound (V4 16909060) None example_backend).
  vm_compute. reflexivity.
Defined.
