(* ===== verification/Balance.v ===== *)
(** * Balance

    What successive choices of the load balancer
    ([src/src/domain/services/load_balancer.rs]) do to the connection counts that
    the proxy service ([src/src/application/proxy_service.rs]) feeds back to it.
    The capacity of a backend is its soft limit times its weight.  Shown: between
    two backends of one tier, the comparison of the [f64] scores is the comparison
    of the exact loads per capacity ([score_order]); and as new clients come in, no
    backend gets ahead of another by more than one connection per capacity
    ([admissions_balanced]). *)

From S2P Require Import Prelude Text Float64 Domain LoadBalancer Ports Geo BindingRepo Metrics BackendRepos ProxyService.
From Stdlib Require Import SpecFloat.

Definition capacity (b : Backend) : Z := eff_soft b * eff_weight b.

(** The ranges in which the comparison of scores is exact. *)
Definition MAX_CAPACITY : Z := 2 ^ 18.
Definition MAX_CONNECTIONS : Z := 2 ^ 30.

(** ** Scores *)

Lemma capacity_pos b : backend_wf b → 1 <= capacity b.
Proof. intros Hwf. destruct (soft_of_val b Hwf) as [? _], (weight_of_val b Hwf) as [? _]. unfold capacity. nia. Qed.

(** The load term differs from the exact load by two roundings. *)
Lemma load_term_close b c :
  backend_wf b → 0 < c < 2 ^ 52 →
  ∃ x, f64_val (f64_div (f64_div (f64_of_Z c) (soft_of b)) (weight_of b)) x ∧
    x * capacity b * 2 ^ 104 <= c * SCALE * (2 ^ 52 + 1) ^ 2 ∧
    c * SCALE * 2 ^ 104 <= x * capacity b * (2 ^ 52 + 1) ^ 2.
Proof.
  intros Hwf Hc. pose proof SCALE_pos. unfold capacity.
  destruct (soft_of_val b Hwf) as [Hs Hsv], (weight_of_val b Hwf) as [Hw Hwv].
  set (S := eff_soft b) in *. set (W := eff_weight b) in *.
  destruct (f64_div_close _ _ (c * SCALE) _ (f64_of_Z_val c ltac:(lia)) Hsv) as (a & Ha & Hup & Hdn); [nia..|].
  assert (a * S * 2 ^ 52 <= c * SCALE * (2 ^ 52 + 1)) as Hau by (apply (Z.mul_le_mono_pos_r _ _ SCALE); [done|lia]).
  assert (c * SCALE * 2 ^ 52 <= a * S * (2 ^ 52 + 1)) as Had by (apply (Z.mul_le_mono_pos_r _ _ SCALE); [done|lia]).
  clear Hup Hdn. pose proof (f64_val_nonneg _ _ Ha).
  assert (a <= 2 ^ 53 * SCALE) by nia. assert (SCALE <= a * 2 ^ 33) by nia.
  destruct (f64_div_close _ _ a _ Ha Hwv) as (x & Hx & Hup & Hdn); [nia..|].
  assert (x * W * 2 ^ 52 <= a * (2 ^ 52 + 1)) as Hxu by (apply (Z.mul_le_mono_pos_r _ _ SCALE); [done|lia]).
  assert (a * 2 ^ 52 <= x * W * (2 ^ 52 + 1)) as Hxd by (apply (Z.mul_le_mono_pos_r _ _ SCALE); [done|lia]).
  exists x. split; [done|]. split; nia.
Qed.

(** The exact score, as a fraction with the capacity for denominator. *)
Definition exact_score (t c : Z) (b : Backend) : Z := 100 * t * capacity b + c.

(** A score differs from the exact one by at most one part in [2 ^ 50]. *)
Lemma score_close lr g cnt b :
  backend_wf b → 0 <= cnt (be_id b) < 2 ^ 48 →
  let e := exact_score (geo_tier b lr g) (cnt (be_id b)) b in
  ∃ v, f64_val (score_of lr g cnt b) v ∧
    v * capacity b * 2 ^ 50 <= e * SCALE * (2 ^ 50 + 1) ∧
    e * SCALE * 2 ^ 50 <= v * capacity b * (2 ^ 50 + 1).
Proof.
  intros Hwf Hc e. unfold score_of. pose proof SCALE_pos. pose proof (capacity_pos b Hwf) as HK.
  pose proof (geo_tier_range b lr g) as Ht. unfold exact_score in e. set (t := geo_tier b lr g) in *.
  rewrite calculate_geo_score_tier. fold t. rewrite tier_times_100 by lia.
  set (c := cnt (be_id b)) in *. set (K := capacity b) in *.
  destruct (decide (c = 0)) as [Hz|Hz].
  { destruct (load_term_val b c Hwf ltac:(lia)) as (x & Hx & Hxb & HxN).
    assert (x = 0) as -> by (specialize (HxN 0 ltac:(lia)); lia).
    destruct (f64_add_grid _ _ (100 * t * SCALE) 0 (f64_of_Z_val (100 * t) ltac:(lia)) Hx) as (v & Hv & Hg); [nia|].
    rewrite Z.add_0_r in Hg. apply grid_rounds_exact in Hg as ->.
    exists (100 * t * SCALE). unfold e. split; [done|]. rewrite Hz. split; nia. }
  destruct (load_term_close b c Hwf ltac:(lia)) as (x & Hx & Hup & Hdn). fold K in Hup, Hdn.
  pose proof (f64_val_nonneg _ _ Hx) as Hx0.
  assert (K < 2 ^ 40) as HK2.
  { destruct (soft_of_val b Hwf) as [? _], (weight_of_val b Hwf) as [? _]. unfold K, capacity. nia. }
  assert (x <= 2 ^ 49 * SCALE) by nia. assert (SCALE <= x * 2 ^ 41) by nia.
  destruct (f64_add_close _ _ (100 * t * SCALE) x (f64_of_Z_val (100 * t) ltac:(lia)) Hx) as (v & Hv & Hvu & Hvd);
    [nia|nia|].
  exists v. split; [done|]. rewrite !Z.mul_1_r in *.
  assert (v * K * 2 ^ 52 * 2 ^ 104 <= (100 * t * SCALE * K + x * K) * (2 ^ 52 + 1) * 2 ^ 104) as HV1 by nia.
  assert ((100 * t * SCALE * K + x * K) * 2 ^ 52 <= v * K * (2 ^ 52 + 1)) as HV2 by nia.
  assert (0 <= t * SCALE * K) as HT by nia. assert (0 <= c * SCALE) as HC by nia.
  replace (e * SCALE) with (100 * (t * SCALE * K) + c * SCALE) by (unfold e; lia).
  replace (100 * t * SCALE * K) with (100 * (t * SCALE * K)) in * by lia.
  set (T := t * SCALE * K) in *. set (C := c * SCALE) in *. set (X := x * K) in *.
  replace (v * K * 2 ^ 52 * 2 ^ 104) with (v * K * (2 ^ 52 * 2 ^ 104)) in HV1 by lia.
  set (V := v * K) in *. clearbody T C X V. clear -HV1 HV2 Hup Hdn HT HC. split; lia.
Qed.

(** Between backends of one tier the scores compare as the loads per capacity. *)
Lemma score_order lr g cnt b1 b2 :
  backend_wf b1 → backend_wf b2 → capacity b1 <= MAX_CAPACITY → capacity b2 <= MAX_CAPACITY →
  0 <= cnt (be_id b1) < MAX_CONNECTIONS → 0 <= cnt (be_id b2) < MAX_CONNECTIONS →
  geo_tier b1 lr g = geo_tier b2 lr g →
  f64_ltb (score_of lr g cnt b2) (score_of lr g cnt b1) = false →
  cnt (be_id b1) * capacity b2 <= cnt (be_id b2) * capacity b1.
Proof.
  unfold MAX_CAPACITY, MAX_CONNECTIONS. intros Hwf1 Hwf2 HK1 HK2 Hc1 Hc2 Ht Hlt.
  destruct (score_close lr g cnt b1 Hwf1 ltac:(lia)) as (v1 & Hv1 & _ & Hd1).
  destruct (score_close lr g cnt b2 Hwf2 ltac:(lia)) as (v2 & Hv2 & Hu2 & _).
  pose proof (capacity_pos b1 Hwf1). pose proof (capacity_pos b2 Hwf2). pose proof (geo_tier_range b2 lr g).
  pose proof SCALE_pos.
  assert (v1 <= v2) as Hv.
  { apply Z.nlt_ge. intros Hc. pose proof (f64_val_ltb _ _ _ _ Hv2 Hv1 Hc). unfold f64_ltb in Hlt. congruence. }
  unfold exact_score in *. rewrite Ht in Hd1.
  set (K1 := capacity b1) in *. set (K2 := capacity b2) in *. set (t := geo_tier b2 lr g) in *.
  set (c1 := cnt (be_id b1)) in *. set (c2 := cnt (be_id b2)) in *.
  apply Z.nlt_ge. intros Hlt'.
  set (A1 := 100 * t * K1 + c1) in *. set (A2 := 100 * t * K2 + c2) in *.
  assert (A2 * K1 + 1 <= A1 * K2) as HA by (unfold A1, A2; nia).
  assert (A2 * K1 <= 2 ^ 49 - 2) as Hsmall by (unfold A2; nia).
  assert (A1 * K2 * 2 ^ 50 * 2 ^ 50 <= A2 * K1 * (2 ^ 50 + 1) * (2 ^ 50 + 1)) as Hchain.
  { apply (Z.mul_le_mono_pos_r _ _ SCALE); [done|].
    transitivity (v1 * K1 * (2 ^ 50 + 1) * (K2 * 2 ^ 50)).
    { replace (A1 * K2 * 2 ^ 50 * 2 ^ 50 * SCALE) with (A1 * SCALE * 2 ^ 50 * (K2 * 2 ^ 50)) by lia.
      apply Z.mul_le_mono_nonneg_r; lia. }
    transitivity (v2 * K2 * 2 ^ 50 * (K1 * (2 ^ 50 + 1))).
    { replace (v1 * K1 * (2 ^ 50 + 1) * (K2 * 2 ^ 50)) with (v1 * (K1 * (2 ^ 50 + 1) * (K2 * 2 ^ 50))) by lia.
      replace (v2 * K2 * 2 ^ 50 * (K1 * (2 ^ 50 + 1))) with (v2 * (K1 * (2 ^ 50 + 1) * (K2 * 2 ^ 50))) by lia.
      apply Z.mul_le_mono_nonneg_r; [nia|done]. }
    replace (A2 * K1 * (2 ^ 50 + 1) * (2 ^ 50 + 1) * SCALE) with (A2 * SCALE * (2 ^ 50 + 1) * (K1 * (2 ^ 50 + 1))) by lia.
    apply Z.mul_le_mono_nonneg_r; nia. }
  set (P := A2 * K1) in *. set (Q := A1 * K2) in *. clearbody P Q. lia.
Qed.

(** ** Limits *)

(** Below the hard limit, where 0 means none. *)
Definition has_room (count : Z) (b : Backend) : Prop := be_hard_limit b = 0 ∨ count < be_hard_limit b.

#[export] Instance has_room_dec count b : Decision (has_room count b).
Proof. unfold has_room. apply _. Defined.

Lemma SFleb_refl m e : SFleb (S754_finite false m e) (S754_finite false m e) = true.
Proof. unfold SFleb. simpl. by rewrite Z.compare_refl, Pos.compare_refl. Qed.

Lemma f64_leb_of_Z a b : 0 <= a < 2 ^ 53 → 0 <= b < 2 ^ 53 → f64_leb (f64_of_Z a) (f64_of_Z b) = (a <=? b).
Proof.
  intros Ha Hb. pose proof SCALE_pos.
  pose proof (f64_of_Z_val a Ha) as Hva. pose proof (f64_of_Z_val b Hb) as Hvb. unfold f64_leb.
  destruct (Z.lt_trichotomy a b) as [Hlt|[->|Hlt]].
  - rewrite (proj2 (Z.leb_le _ _)) by lia.
    pose proof (f64_val_ltb _ _ _ _ Hva Hvb ltac:(nia)) as Hl. unfold SFltb, SFleb in *.
    by destruct (SFcompare _ _) as [[]|].
  - rewrite Z.leb_refl. clear Hva. inversion Hvb; [done|apply SFleb_refl].
  - rewrite (proj2 (Z.leb_gt _ _)) by lia. apply not_true_is_false. intros Hle.
    pose proof (f64_val_ltb _ _ _ _ Hvb Hva ltac:(nia)) as Hl.
    pose proof (SFleb_ltb_trans _ _ _ Hle Hl) as Hc. by rewrite SFltb_irrefl in Hc.
Qed.

Lemma eligible_room cnt b :
  backend_wf b → 0 <= cnt (be_id b) < 2 ^ 53 →
  eligible cnt b ↔ be_healthy b = true ∧ has_room (cnt (be_id b)) b.
Proof.
  intros (_ & _ & _ & Hh) Hc. unfold eligible, has_room, hard_of, in_range in *.
  apply and_iff_compat_l. destruct (Z.eqb_spec (be_hard_limit b) 0) as [->|Hne].
  - split; [by left|]. intros _. apply not_true_is_false. intros Hle.
    assert (f64_val F64_MAX (9007199254740991 * 2 ^ (971 + 1074))) as Hmax by (by apply val_finite).
    assert (SFltb (f64_of_Z (cnt (be_id b))) F64_MAX = true) as Hlt.
    { eapply f64_val_ltb; [by apply f64_of_Z_val|exact Hmax|]. pose proof SCALE_pos.
      rewrite Z.pow_add_r by lia. fold SCALE. nia. }
    pose proof (SFleb_ltb_trans _ _ _ Hle Hlt) as Hcc. by rewrite SFltb_irrefl in Hcc.
  - rewrite f64_leb_of_Z, Z.leb_gt by lia. split; [by right|]. by intros [?|?].
Qed.

(** ** Admissions *)

Record arrival := mkArrival { ar_client : IpAddr; ar_geo : option GeoInfo; ar_touch : instant; ar_new : instant }.

Section balance.
Context {R B M G : Type} `{!BackendRepository R, !BindingRepository B, !MetricsStore M, !GeoResolver G}.
#[local] Abbreviation service := (ProxyService R B M G).
Implicit Types (s : service).

(** A client is routed, and its connection to the backend is recorded. *)
Definition admission s (a : arrival) : service :=
  let '(s', r) := resolve_backend_with_geo (ar_touch a) (ar_new a) s (ar_client a) (ar_geo a) in
  match r with
  | Some b => record_connection_start s' (be_id b)
  | None => s'
  end.

Definition count_of s (b : Backend) : Z := get_connection_count (ps_metrics s) (be_id b).

Context `{!BackendRepositoryLaws R, !BindingRepositoryLaws B, !MetricsStoreLaws M}.

(** The setting: well-formed backends with distinct ids, capacities in range. *)
Definition backends_ok s : Prop :=
  NoDup (be_id <$> get_healthy (ps_backend_repo s)) ∧
  ∀ b, b ∈ get_healthy (ps_backend_repo s) → backend_wf b ∧ capacity b <= MAX_CAPACITY.

Definition counts_below s (n : Z) : Prop :=
  ∀ b, b ∈ get_healthy (ps_backend_repo s) → 0 <= count_of s b < n.

(** No backend is ahead of one with room, that the same clients would be as near to,
    by more than one connection per capacity. *)
Definition balanced (lr : RegionCode) (geos : list (option GeoInfo)) s : Prop :=
  ∀ b1 b2, b1 ∈ get_healthy (ps_backend_repo s) → b2 ∈ get_healthy (ps_backend_repo s) →
    (∀ g, g ∈ geos → geo_tier b1 lr g = geo_tier b2 lr g) → has_room (count_of s b2) b2 →
    (count_of s b1 - 1) * capacity b2 <= count_of s b2 * capacity b1.

(** An unbound client leaves everything but its own binding and one count alone. *)
Lemma admission_spec s a :
  binding_get (ps_binding_repo s) (mkClientKey (ar_client a)) = None →
  ps_backend_repo (admission s a) = ps_backend_repo s ∧ ps_local_region (admission s a) = ps_local_region s ∧
  (∀ k, k ≠ mkClientKey (ar_client a) → binding_get (ps_binding_repo (admission s a)) k = binding_get (ps_binding_repo s) k) ∧
  ps_metrics (admission s a) = match fresh_choice s (ar_geo a) with
                           | Some b => increment_connections (ps_metrics s) (be_id b)
                           | None => ps_metrics s
                           end.
Proof.
  intros Hn. unfold admission.
  destruct (resolve_backend_with_geo (ar_touch a) (ar_new a) s (ar_client a) (ar_geo a)) as [s' r] eqn:Hr.
  apply binding_after_resolve in Hr as (-> & _ & Hk & Hrepo & Hm & _ & Hreg).
  unfold route, bound_backend. rewrite Hn. simpl.
  destruct (fresh_choice s (ar_geo a)); simpl; split_and!; try done. by rewrite Hm.
Qed.

Lemma NoDup_ids (l : list Backend) b1 b2 : NoDup (be_id <$> l) → b1 ∈ l → b2 ∈ l → be_id b1 = be_id b2 → b1 = b2.
Proof.
  induction l as [|b l IH]; cbn [fmap list_fmap]; [by intros _ ?%elem_of_nil|].
  intros [Hb Hnd]%NoDup_cons [->|H1]%elem_of_cons [->|H2]%elem_of_cons Heq; [done| | |eauto];
    destruct Hb; apply list_elem_of_fmap; eauto.
Qed.

(** The count of the chosen backend, and no other, goes up by one. *)
Lemma admission_count n s a b' :
  backends_ok s → counts_below s n → n < MAX_CONNECTIONS →
  binding_get (ps_binding_repo s) (mkClientKey (ar_client a)) = None → b' ∈ get_healthy (ps_backend_repo s) →
  count_of (admission s a) b' = count_of s b' + (if decide (fresh_choice s (ar_geo a) = Some b') then 1 else 0).
Proof.
  intros [Hnd Hok] Hcnt Hn Hunb Hb'. destruct (admission_spec s a Hunb) as (_ & _ & _ & Hm).
  unfold count_of at 1. rewrite Hm. destruct (fresh_choice s (ar_geo a)) as [b|] eqn:Hpick; [|unfold count_of; case_decide; [done|lia]].
  assert (b ∈ get_healthy (ps_backend_repo s)) as Hb.
  { apply fresh_choice_healthy in Hpick. by apply elem_of_get_healthy. }
  rewrite count_increment. pose proof (Hcnt b' Hb') as Hc. unfold count_of in *.
  destruct (decide (be_id b = be_id b')) as [Hid|Hid].
  - apply (NoDup_ids _ _ _ Hnd Hb Hb') in Hid as <-. rewrite decide_True by done.
    apply wrap_small. unfold in_range, MAX_CONNECTIONS in *. lia.
  - rewrite decide_False by congruence. lia.
Qed.

(** The choice among the healthy backends: one with room that none with room beats. *)
Lemma fresh_choice_best n s g b :
  backends_ok s → counts_below s n → n < MAX_CONNECTIONS → fresh_choice s g = Some b →
  b ∈ get_healthy (ps_backend_repo s) ∧ has_room (count_of s b) b ∧
  ∀ b', b' ∈ get_healthy (ps_backend_repo s) → has_room (count_of s b') b' →
    geo_tier b (ps_local_region s) g = geo_tier b' (ps_local_region s) g →
    count_of s b * capacity b' <= count_of s b' * capacity b.
Proof.
  intros [Hnd Hok] Hcnt Hn Hpick.
  pose proof (pick_loop_correct (ps_local_region s) g (get_connection_count (ps_metrics s))
    (get_healthy (ps_backend_repo s))) as Hloop.
  unfold fresh_choice, pick_backend in Hpick. destruct (foldl _ _ _) as [[b0 sc]|]; simplify_eq/=.
  destruct Hloop as (_ & l1 & l2 & Heq & Hel & Hmin & _).
  assert (b ∈ get_healthy (ps_backend_repo s)) as Hb by (rewrite Heq, elem_of_app, elem_of_cons; auto).
  assert (∀ b', b' ∈ get_healthy (ps_backend_repo s) →
    eligible (get_connection_count (ps_metrics s)) b' ↔ be_healthy b' = true ∧ has_room (count_of s b') b') as Hroom.
  { intros b' Hb'. destruct (Hok b' Hb') as [Hwf _]. pose proof (Hcnt b' Hb').
    apply eligible_room; [done|]. unfold count_of, MAX_CONNECTIONS in *. lia. }
  split; [done|]. split; [by apply Hroom|]. intros b' Hb' Hr Ht.
  destruct (Hok b Hb) as [Hwf HK], (Hok b' Hb') as [Hwf' HK']. pose proof (Hcnt b Hb). pose proof (Hcnt b' Hb').
  apply (score_order (ps_local_region s) g (get_connection_count (ps_metrics s))); try done; unfold count_of in *; try lia.
  apply Hmin; [done|]. apply Hroom; [done|]. split; [by apply elem_of_get_healthy in Hb' as [? _]|done].
Qed.

Lemma admission_balanced geos n s a :
  backends_ok s → counts_below s n → n < MAX_CONNECTIONS → ar_geo a ∈ geos →
  binding_get (ps_binding_repo s) (mkClientKey (ar_client a)) = None →
  balanced (ps_local_region s) geos s →
  balanced (ps_local_region s) geos (admission s a) ∧ counts_below (admission s a) (n + 1) ∧
  ∀ b, b ∈ get_healthy (ps_backend_repo s) → be_hard_limit b ≠ 0 →
    count_of (admission s a) b <= Z.max (count_of s b) (be_hard_limit b).
Proof.
  intros Hok Hcnt Hn Hgeo Hunb Hbal. destruct (admission_spec s a Hunb) as (Hrepo & _ & _ & _).
  pose proof (λ b, admission_count n s a b Hok Hcnt Hn Hunb) as Hcount. split_and!.
  - unfold balanced. rewrite Hrepo. intros b1 b2 Hb1 Hb2 Htier. rewrite !Hcount by done. intros Hroom.
    destruct (proj2 Hok b1 Hb1) as [Hwf1 _], (proj2 Hok b2 Hb2) as [Hwf2 _].
    pose proof (capacity_pos _ Hwf1). pose proof (capacity_pos _ Hwf2).
    pose proof (Hcnt b1 Hb1). pose proof (Hcnt b2 Hb2).
    assert (has_room (count_of s b2) b2) as Hroom' by (destruct Hroom; [by left|right; case_decide; lia]).
    specialize (Hbal b1 b2 Hb1 Hb2 Htier Hroom').
    destruct (decide (fresh_choice s (ar_geo a) = Some b1)) as [Hp|Hp]; [|case_decide; nia].
    destruct (fresh_choice_best n s (ar_geo a) b1 Hok Hcnt Hn Hp) as (_ & _ & Hbest).
    specialize (Hbest b2 Hb2 Hroom' (Htier _ Hgeo)). case_decide; nia.
  - unfold counts_below. rewrite Hrepo. intros b Hb. rewrite Hcount by done. specialize (Hcnt b Hb). case_decide; lia.
  - intros b Hb Hl. rewrite Hcount by done. case_decide as Hp; [|lia].
    destruct (fresh_choice_best n s (ar_geo a) b Hok Hcnt Hn Hp) as (_ & [?|?] & _); [done|lia].
Qed.

Lemma admissions_keep geos n s l :
  backends_ok s → counts_below s n → n + Z.of_nat (length l) <= MAX_CONNECTIONS →
  (∀ a, a ∈ l → ar_geo a ∈ geos ∧ binding_get (ps_binding_repo s) (mkClientKey (ar_client a)) = None) →
  NoDup (ar_client <$> l) → balanced (ps_local_region s) geos s →
  balanced (ps_local_region s) geos (foldl admission s l) ∧
  ps_backend_repo (foldl admission s l) = ps_backend_repo s ∧
  ∀ b, b ∈ get_healthy (ps_backend_repo s) → be_hard_limit b ≠ 0 →
    count_of (foldl admission s l) b <= Z.max (count_of s b) (be_hard_limit b).
Proof.
  revert n s. induction l as [|a l IH]; intros n s Hok Hcnt Hn Hall Hnd Hbal; cbn [foldl]; [split_and!; [done..|lia]|].
  cbn [fmap list_fmap length] in *. apply NoDup_cons in Hnd as [Ha Hnd].
  destruct (Hall a) as [Hgeo Hunb]; [by left|].
  destruct (admission_spec s a Hunb) as (Hrepo & Hreg & Hk & _).
  destruct (admission_balanced geos n s a Hok Hcnt ltac:(lia) Hgeo Hunb Hbal) as (Hbal' & Hcnt' & Hlim).
  destruct (IH (n + 1) (admission s a)) as (Hb & Hr & Hl); try done.
  - unfold backends_ok. by rewrite Hrepo.
  - lia.
  - intros a' Ha'. destruct (Hall a' ltac:(by right)) as [? Hu]. split; [done|].
    rewrite Hk; [done|]. intros [= Heq]. destruct Ha. rewrite <-Heq. apply list_elem_of_fmap. eauto.
  - by rewrite Hreg.
  - rewrite Hreg in Hb. split_and!; [done|by rewrite Hr|]. intros b Hbh Hne.
    rewrite Hrepo in Hl. specialize (Hl b Hbh Hne). specialize (Hlim b Hbh Hne). lia.
Qed.

(** C5: the load is balanced in proportion to capacity. Let new clients come in, one
    after the other, each routed by the proxy service and its connection recorded.
    If no backend was ahead of another before, none is ever ahead afterwards: of two
    healthy backends that are equally near to all these clients, the count of the
    one, less one, divided by its capacity (soft limit times weight) is at most the
    count of the other divided by its own, as long as the other is below its hard
    limit. And no count goes beyond a hard limit. The choice is made on rounded
    binary64 scores, and this holds exactly, for capacities up to 2^18 and fewer than
    2^30 connections. *)
Theorem admissions_balanced n s l b1 b2 :
  backends_ok s → counts_below s n → n + Z.of_nat (length l) <= MAX_CONNECTIONS →
  (∀ a, a ∈ l → binding_get (ps_binding_repo s) (mkClientKey (ar_client a)) = None) → NoDup (ar_client <$> l) →
  balanced (ps_local_region s) (ar_geo <$> l) s →
  b1 ∈ get_healthy (ps_backend_repo s) → b2 ∈ get_healthy (ps_backend_repo s) →
  (∀ a, a ∈ l → geo_tier b1 (ps_local_region s) (ar_geo a) = geo_tier b2 (ps_local_region s) (ar_geo a)) →
  let s' := foldl admission s l in
  (has_room (count_of s' b2) b2 → (count_of s' b1 - 1) * capacity b2 <= count_of s' b2 * capacity b1) ∧
  (be_hard_limit b1 ≠ 0 → count_of s' b1 <= Z.max (count_of s b1) (be_hard_limit b1)).
Proof.
  intros Hok Hcnt Hn Hunb Hnd Hbal Hb1 Hb2 Htier s'.
  destruct (admissions_keep (ar_geo <$> l) n s l) as (Hb & Hr & Hl); try done.
  { intros a Ha. split; [|by apply Hunb]. apply list_elem_of_fmap. eauto. }
  split; [|by apply Hl]. apply Hb; [by rewrite Hr..|].
  intros g (a & -> & Ha)%list_elem_of_fmap. by apply Htier.
Qed.

(** So backends of equal capacity, starting without connections, differ by at most one. *)
Lemma equal_backends_differ_by_one s l b1 b2 :
  backends_ok s → counts_below s 1 → Z.of_nat (length l) < MAX_CONNECTIONS →
  (∀ a, a ∈ l → binding_get (ps_binding_repo s) (mkClientKey (ar_client a)) = None) → NoDup (ar_client <$> l) →
  b1 ∈ get_healthy (ps_backend_repo s) → b2 ∈ get_healthy (ps_backend_repo s) →
  (∀ a, a ∈ l → geo_tier b1 (ps_local_region s) (ar_geo a) = geo_tier b2 (ps_local_region s) (ar_geo a)) →
  capacity b1 = capacity b2 →
  let s' := foldl admission s l in
  has_room (count_of s' b1) b1 → has_room (count_of s' b2) b2 →
  Z.abs (count_of s' b1 - count_of s' b2) <= 1.
Proof.
  intros Hok Hcnt Hn Hunb Hnd Hb1 Hb2 Htier Hcap s' Hr1 Hr2.
  pose proof Hok as [Hids Hwf]. destruct (Hwf b1 Hb1) as [Hwf1 _]. pose proof (capacity_pos _ Hwf1).
  destruct (admissions_keep (ar_geo <$> l) 1 s l) as (Hb & Hr & _); try done; try lia.
  { intros a Ha. split; [|by apply Hunb]. apply list_elem_of_fmap. eauto. }
  { intros x y Hx Hy _ _. pose proof (Hcnt x Hx). pose proof (Hcnt y Hy).
    destruct (Hwf x Hx) as [Hwx _], (Hwf y Hy) as [Hwy _].
    pose proof (capacity_pos _ Hwx). pose proof (capacity_pos _ Hwy). nia. }
  fold s' in Hb, Hr. rewrite <-Hr in Hb1, Hb2.
  assert (∀ g, g ∈ ar_geo <$> l → geo_tier b1 (ps_local_region s) g = geo_tier b2 (ps_local_region s) g) as Ht
    by (intros g (a & -> & Ha)%list_elem_of_fmap; by apply Htier).
  pose proof (Hb b1 b2 Hb1 Hb2 Ht Hr2). pose proof (Hb b2 b1 Hb2 Hb1 ltac:(intros; symmetry; auto) Hr1). nia.
Qed.
End balance.

(** Two backends, the second with twice the weight, and six new clients. *)
Definition backend_x : Backend := mkBackend "x" "app" Europe "DE" "10.0.0.1" 80 true 1 10 0.
Definition backend_y : Backend := mkBackend "y" "app" Europe "DE" "10.0.0.2" 80 true 2 10 100.

Definition balance_demo : EdgeService :=
  mkProxy (mkSqliteRepo [backend_x; backend_y] 1) binding_repo_new None dm_store_new Europe.

Definition balance_arrivals : list arrival :=
  (λ i, mkArrival (V4 i) (Some (mkGeoInfo "DE" Europe)) 0 0) <$> [1; 2; 3; 4; 5; 6].

Lemma balance_demo_backends (P : Backend → Prop) :
  P backend_x → P backend_y → ∀ b, b ∈ get_healthy (ps_backend_repo balance_demo) → P b.
Proof.
  intros Hx Hy b Hb. change (b ∈ [backend_x; backend_y]) in Hb. rewrite !elem_of_cons in Hb.
  destruct Hb as [->|[->|Hb]]; [done..|by apply elem_of_nil in Hb].
Qed.

Lemma admissions_balanced_witness :
  let s' := foldl admission balance_demo balance_arrivals in
  count_of s' backend_x = 2 ∧ count_of s' backend_y = 4 ∧
  (has_room (count_of s' backend_x) backend_x →
   (count_of s' backend_y - 1) * capacity backend_x <= count_of s' backend_x * capacity backend_y) ∧
  (be_hard_limit backend_y ≠ 0 → count_of s' backend_y <= Z.max (count_of balance_demo backend_y) (be_hard_limit backend_y)).
Proof.
  cbv zeta. split; [vm_compute; reflexivity|]. split; [vm_compute; reflexivity|].
  apply (admissions_balanced 1 balance_demo balance_arrivals backend_y backend_x).
  - split; [apply (bool_decide_unpack _); vm_compute; exact I|].
    apply balance_demo_backends; (split; [unfold backend_wf, in_range; simpl; lia|vm_compute; congruence]).
  - unfold counts_below. apply balance_demo_backends; vm_compute; split; congruence.
  - vm_compute. congruence.
  - intros a _. vm_compute. reflexivity.
  - apply (bool_decide_unpack _). vm_compute. exact I.
  - intros x y Hx. revert x Hx y. refine (balance_demo_backends _ _ _); intros y Hy; revert y Hy;
      refine (balance_demo_backends _ _ _); intros _ _; vm_compute; congruence.
  - right. by left.
  - by left.
  - intros a Ha. unfold balance_arrivals in Ha. apply list_elem_of_fmap in Ha as (i & -> & _). vm_compute. reflexivity.
Defined.
