(* ===== verification/Relay.v ===== *)
(** * The byte relay

    [proxy_bidirectional] of [src/src/adapters/inbound/tcp_server.rs] and of
    [tls_server.rs]: two tasks, one per direction, each [tokio::io::copy] from a
    read half to a write half and then, in all but one case, a [shutdown] of the
    write half; [join!] waits for both.  [io::copy] is a library's and is the class
    [IoCopy]: what it asks for next, and how it goes on with an answer; its laws
    are its documentation.  [relay_exec] runs one step, of either task or of the
    peers; any list of labels is an interleaving.

    Shown: each side is written a prefix of what the other side sent, all of it
    when the copy succeeds, and sees the end of the stream only after the copy has
    ended; the directions do not affect each other; the relay returns [Ok], once,
    after both have ended; and it takes boundedly many steps of its own. *)

From S2P Require Import Prelude.

Abbreviation bytes := (list Z) (only parsing).

(** ** [tokio::io::copy] *)

(** What the future waits for, and what it is told. *)
Inductive copy_act :=
| CRead
| CWrite (data : list Z)
| CDone (r : result Z string).

Inductive copy_answer :=
| AData (data : list Z)          (* the reader gave these bytes *)
| AEof
| AReadErr (e : string)
| AWrote (n : nat)               (* the writer took the first [n] *)
| AWriteErr (e : string).

Class IoCopy := {
  copier : Type;
  copy_start : copier;
  copy_next : copier → copy_act;
  copy_answered : copier → copy_answer → copier
}.

(** What an answer gives the copy and takes from it, if the copy asked for it: a
    reader that has not ended gives some byte, a writer that works takes some. *)
Definition copy_moves `{IoCopy} (c : copier) (a : copy_answer) : option (list Z * list Z) :=
  match copy_next c, a with
  | CRead, AData data => match data with [] => None | _ => Some (data, []) end
  | CRead, (AEof | AReadErr _) => Some ([], [])
  | CWrite data, AWrote n => if ((0 <? n) && (n <=? length data))%nat then Some ([], take n data) else None
  | CWrite _, AWriteErr _ => Some ([], [])
  | _, _ => None
  end.

(** A history of answers: the bytes read, the bytes written, where the copy is. *)
Fixpoint copy_run `{IoCopy} (h : list copy_answer) (c : copier) : option (list Z * list Z * copier) :=
  match h with
  | [] => Some ([], [], c)
  | a :: h' =>
      '(r, w) ← copy_moves c a;
      '(rs, ws, c') ← copy_run h' (copy_answered c a);
      Some (r ++ rs, w ++ ws, c')
  end.

Class IoCopyLaws `{IoCopy} : Prop := {
  (** it writes what it reads, in order *)
  copy_prefix h rs ws c : copy_run h copy_start = Some (rs, ws, c) → ws `prefix_of` rs;
  (** success is the reader's end with everything written, and gives the count *)
  copy_success h rs ws c n : copy_run h copy_start = Some (rs, ws, c) → copy_next c = CDone (Ok n) →
    AEof ∈ h ∧ ws = rs ∧ n = Z.of_nat (length rs);
  (** failure is a failure of the reader or of the writer *)
  copy_failure h rs ws c e : copy_run h copy_start = Some (rs, ws, c) → copy_next c = CDone (Err e) →
    AReadErr e ∈ h ∨ AWriteErr e ∈ h;
  (** it does not ask to write nothing *)
  copy_writes h rs ws c : copy_run h copy_start = Some (rs, ws, c) → copy_next c ≠ CWrite [];
  (** it comes to an end: of a reader with [n] bytes it needs boundedly many answers *)
  copy_bounded : ∃ bound : nat → nat, ∀ h rs ws c n,
    copy_run h copy_start = Some (rs, ws, c) → (length rs <= n)%nat → (length h <= bound n)%nat
}.

(** ** One direction *)

Inductive copy_task `{IoCopy} :=
| Copying (c : copier)
| Closing (r : result Z string)      (* awaiting [shutdown] of the write half *)
| Ended (r : result Z string).

Record direction `{IoCopy} := mkDir {
  dr_sent : list Z;          (* all that the source's peer has sent *)
  dr_eof : bool;             (* and that it will send no more *)
  dr_unread : list Z;        (* the part the copy has not read *)
  dr_task : copy_task;
  dr_out : list Z;           (* what has been written to the destination's peer *)
  dr_closed : bool           (* the write half has been shut down *)
}.

Arguments Copying {_} _. Arguments Closing {_} _. Arguments Ended {_} _. Arguments mkDir {_}.
Arguments dr_sent {_} _. Arguments dr_eof {_} _. Arguments dr_unread {_} _. Arguments dr_task {_} _.
Arguments dr_out {_} _. Arguments dr_closed {_} _.

(** How the task of a direction ends: with a [shutdown] or without, and whether
    dropping its write half shuts it down too ([OwnedWriteHalf] of a [TcpStream]
    does, the [WriteHalf] of [tokio::io::split] does not). *)
Record ending := mkEnding { en_shutdown : bool; en_drop_closes : bool }.

Inductive dir_label :=
| DSend (data : list Z)        (* the source's peer *)
| DFinish
| DRead (n : nat)              (* the copy reads [n] of the bytes that are there *)
| DReadEof
| DReadErr (e : string)
| DWrite (n : nat)
| DWriteErr (e : string)
| DReturn                      (* the copy returns *)
| DShutdown (ok : bool).

Section relay.
Context `{IoCopy}.

Definition dir_start : direction := mkDir [] false [] (Copying copy_start) [] false.

Definition dir_answer (d : direction) (a : copy_answer) (unread : list Z) : option direction :=
  match dr_task d with
  | Copying c =>
      '(_, w) ← copy_moves c a;
      Some (mkDir (dr_sent d) (dr_eof d) unread (Copying (copy_answered c a)) (dr_out d ++ w) (dr_closed d))
  | _ => None
  end.

Definition dir_exec (en : ending) (l : dir_label) (d : direction) : option direction :=
  match l with
  | DSend data =>
      if dr_eof d then None
      else Some (mkDir (dr_sent d ++ data) false (dr_unread d ++ data) (dr_task d) (dr_out d) (dr_closed d))
  | DFinish => Some (mkDir (dr_sent d) true (dr_unread d) (dr_task d) (dr_out d) (dr_closed d))
  | DRead n => if (n <=? length (dr_unread d))%nat
               then dir_answer d (AData (take n (dr_unread d))) (drop n (dr_unread d)) else None
  | DReadEof => match dr_unread d with
                | [] => if dr_eof d then dir_answer d AEof [] else None
                | _ => None
                end
  | DReadErr e => dir_answer d (AReadErr e) (dr_unread d)
  | DWrite n => dir_answer d (AWrote n) (dr_unread d)
  | DWriteErr e => dir_answer d (AWriteErr e) (dr_unread d)
  | DReturn =>
      match dr_task d with
      | Copying c =>
          match copy_next c with
          | CDone r =>
              Some (if en_shutdown en
                    then mkDir (dr_sent d) (dr_eof d) (dr_unread d) (Closing r) (dr_out d) (dr_closed d)
                    else mkDir (dr_sent d) (dr_eof d) (dr_unread d) (Ended r) (dr_out d)
                           (dr_closed d || en_drop_closes en))
          | _ => None
          end
      | _ => None
      end
  | DShutdown ok =>
      match dr_task d with
      | Closing r =>      (* its result is ignored; then the task drops the half *)
          Some (mkDir (dr_sent d) (dr_eof d) (dr_unread d) (Ended r) (dr_out d)
                  (dr_closed d || ok || en_drop_closes en))
      | _ => None
      end
  end.

(** ** Both directions *)

Record relay := mkRelay {
  rl_c2b : direction;
  rl_b2c : direction;
  rl_returned : option (result unit string)
}.

Inductive relay_label :=
| RUp (l : dir_label)          (* client to backend *)
| RDown (l : dir_label)
| RJoin.

Definition relay_start : relay := mkRelay dir_start dir_start None.

(** Errors of the copies are logged, and the result is [Ok(())]. *)
Definition relay_exec (up down : ending) (l : relay_label) (s : relay) : option relay :=
  match l with
  | RUp l => d ← dir_exec up l (rl_c2b s); Some (mkRelay d (rl_b2c s) (rl_returned s))
  | RDown l => d ← dir_exec down l (rl_b2c s); Some (mkRelay (rl_c2b s) d (rl_returned s))
  | RJoin =>
      match dr_task (rl_c2b s), dr_task (rl_b2c s), rl_returned s with
      | Ended _, Ended _, None => Some (mkRelay (rl_c2b s) (rl_b2c s) (Some (Ok tt)))
      | _, _, _ => None
      end
  end.

(** [TcpServer::proxy_bidirectional]: only the write half to the backend is shut
    down explicitly. *)
Definition tcp_proxy_bidirectional : relay_label → relay → option relay :=
  relay_exec (mkEnding true true) (mkEnding false true).

(** [TlsServer::proxy_bidirectional]: both are, the client's by a TLS closure. *)
Definition tls_proxy_bidirectional : relay_label → relay → option relay :=
  relay_exec (mkEnding true true) (mkEnding true false).

Fixpoint relay_run (exec : relay_label → relay → option relay) (ls : list relay_label) (s : relay) : option relay :=
  match ls with
  | [] => Some s
  | l :: ls' => s' ← exec l s; relay_run exec ls' s'
  end.

Fixpoint dir_run (en : ending) (ls : list dir_label) (d : direction) : option direction :=
  match ls with
  | [] => Some d
  | l :: ls' => d' ← dir_exec en l d; dir_run en ls' d'
  end.
End relay.

Arguments mkRelay {_}. Arguments rl_c2b {_} _. Arguments rl_b2c {_} _. Arguments rl_returned {_} _.

(** ** Lemmas *)

Section facts.
Context `{IoCopy}.

Lemma copy_run_snoc h a c rs ws c' r w :
  copy_run h c = Some (rs, ws, c') → copy_moves c' a = Some (r, w) →
  copy_run (h ++ [a]) c = Some (rs ++ r, ws ++ w, copy_answered c' a).
Proof.
  revert c rs ws. induction h as [|b h IH]; intros c rs ws; cbn [copy_run app].
  - intros [= <- <- <-] ->. simpl. by rewrite !app_nil_r.
  - destruct (copy_moves c b) as [[r0 w0]|]; simpl; [|done].
    destruct (copy_run h _) as [[[rs' ws'] c1]|] eqn:Hr; simpl; [|done].
    intros [= <- <- <-] Hm. rewrite (IH _ _ _ Hr Hm). simpl. by rewrite !app_assoc.
Qed.

Definition task_at (t : copy_task) (c : copier) : Prop :=
  match t with Copying c' => c' = c | Closing r | Ended r => copy_next c = CDone r end.

Definition is_ended (t : copy_task) : bool := match t with Ended _ => true | _ => false end.

(** The steps of the relay itself; the others are its peers'. *)
Definition own_dir (l : dir_label) : bool := match l with DSend _ | DFinish => false | _ => true end.
Definition own (l : relay_label) : bool := match l with RUp l | RDown l => own_dir l | RJoin => true end.

(** The tail of a task after its copy: at most two steps. *)
Definition task_steps (t : copy_task) : nat := match t with Copying _ => 0 | Closing _ => 1 | Ended _ => 2 end.

Definition own_steps (ls : list dir_label) : nat := length (filter (λ l, own_dir l = true) ls).

(** A direction and the history of its copy; [ls] are the steps taken, [k] of its
    own beyond the answers to the copy. *)
Record dir_at (en : ending) (ls : list dir_label) (k : nat) (h : list copy_answer) (rs ws : list Z) (c : copier)
    (d : direction) : Prop := {
  at_run : copy_run h copy_start = Some (rs, ws, c);
  at_task : task_at (dr_task d) c;
  at_sent : dr_sent d = rs ++ dr_unread d;
  at_out : dr_out d = ws;
  at_eof : AEof ∈ h → dr_eof d = true ∧ dr_unread d = [];
  at_error e : AReadErr e ∈ h ∨ AWriteErr e ∈ h → DReadErr e ∈ ls ∨ DWriteErr e ∈ ls;
  at_closed : dr_closed d = true → is_ended (dr_task d) = true;
  at_drop : en_drop_closes en = true → is_ended (dr_task d) = true → dr_closed d = true;
  at_steps : (own_steps ls <= length h + k)%nat
}.

Definition dir_inv (en : ending) (ls : list dir_label) (d : direction) : Prop :=
  ∃ h rs ws c, dir_at en ls (task_steps (dr_task d)) h rs ws c d.

Lemma own_steps_snoc ls l : own_steps (ls ++ [l]) = (own_steps ls + Nat.b2n (own_dir l))%nat.
Proof. unfold own_steps. rewrite filter_app, length_app, filter_cons. by destruct (own_dir l). Qed.

Lemma dir_start_inv en : dir_inv en [] dir_start.
Proof.
  exists [], [], [], copy_start. split; simpl; try done; [by intros ?%elem_of_nil|by intros e [?%elem_of_nil|?%elem_of_nil]].
Qed.

(** An answer to the copy, with the bytes it took from the unread ones. *)
Lemma dir_answer_inv en ls l d a unread d' :
  dir_inv en ls d → dir_answer d a unread = Some d' →
  (∀ r w c, copy_moves c a = Some (r, w) → dr_unread d = r ++ unread) →
  (a = AEof → dr_eof d = true ∧ unread = []) →
  (∀ e, a = AReadErr e ∨ a = AWriteErr e → l = DReadErr e ∨ l = DWriteErr e) →
  dir_inv en (ls ++ [l]) d'.
Proof.
  intros (h & rs & ws & c & [Hrun Htask Hsent Hout Heof Herr Hcl Hdrop Hsteps]) Hans Hunread Ha Hl.
  unfold dir_answer in Hans. destruct (dr_task d) as [c'| |] eqn:Ht; simpl in Htask; [subst c'|done..].
  destruct (copy_moves c a) as [[r w]|] eqn:Hm; simplify_eq/=. specialize (Hunread _ _ _ Hm).
  exists (h ++ [a]), (rs ++ r), (dr_out d ++ w), (copy_answered c a). split; simpl.
  - by eapply copy_run_snoc.
  - done.
  - rewrite Hsent, Hunread. by rewrite app_assoc.
  - done.
  - intros [Hin| <-%list_elem_of_singleton]%elem_of_app; [|by apply Ha].
    destruct (Heof Hin) as [-> Hu]. split; [done|]. rewrite Hu in Hunread.
    symmetry in Hunread. by apply app_nil in Hunread as [_ ->].
  - intros e He. rewrite !elem_of_app, !list_elem_of_singleton in He. rewrite !elem_of_app, !list_elem_of_singleton.
    assert ((AReadErr e ∈ h ∨ AWriteErr e ∈ h) ∨ a = AReadErr e ∨ a = AWriteErr e) as [Hc|Hc]
      by (destruct He as [[?|<-]|[?|<-]]; auto).
    + destruct (Herr e Hc); auto.
    + destruct (Hl e Hc) as [<-|<-]; auto.
  - intros Hc. by apply Hcl in Hc.
  - done.
  - rewrite own_steps_snoc, length_app. simpl. destruct (own_dir l); simpl; lia.
Qed.

(** A step that leaves the copy and the streams' contents as they are. *)
Lemma dir_at_mono en ls l k h rs ws c d :
  dir_at en ls k h rs ws c d → dir_at en (ls ++ [l]) (k + Nat.b2n (own_dir l)) h rs ws c d.
Proof.
  intros [Hrun Htask Hsent Hout Heof Herr Hcl Hdrop Hsteps]. split; try done.
  - intros e [?|?]%Herr; [left|right]; apply elem_of_app; by left.
  - rewrite own_steps_snoc. lia.
Qed.

Lemma dir_exec_inv en ls l d d' :
  dir_inv en ls d → dir_exec en l d = Some d' → dir_inv en (ls ++ [l]) d'.
Proof.
  intros Hinv Hex. destruct l as [data| |n| |e|n|e| |ok]; simpl in Hex.
  - destruct (dr_eof d) eqn:He; simplify_eq. destruct Hinv as (h & rs & ws & c & [] %(dir_at_mono _ _ (DSend data))).
    exists h, rs, ws, c. split; simpl in *; try done; try lia.
    + rewrite at_sent0. by rewrite app_assoc.
    + intros Hin. destruct (at_eof0 Hin). congruence.
  - simplify_eq. destruct Hinv as (h & rs & ws & c & [] %(dir_at_mono _ _ DFinish)). exists h, rs, ws, c. split; simpl in *; try done; try lia.
    intros Hin. by destruct (at_eof0 Hin).
  - destruct (Nat.leb_spec n (length (dr_unread d))); [|done]. eapply dir_answer_inv; [done..| | |].
    + intros r w c Hm. unfold copy_moves in Hm. destruct (copy_next c); try done.
      destruct (take n (dr_unread d)) eqn:Ht; simplify_eq. by rewrite <-Ht, take_drop.
    + done.
    + by intros e [?|?].
  - destruct (dr_unread d) eqn:Hu; [|done]. destruct (dr_eof d) eqn:He; [|done].
    eapply dir_answer_inv; [done..| | |]; [|done|by intros e [?|?]].
    intros r w c Hm. unfold copy_moves in Hm. by destruct (copy_next c); simplify_eq.
  - eapply dir_answer_inv; [done..| | |]; [|done|intros e' [[= ->]|?]; [by left|done]].
    intros r w c Hm. unfold copy_moves in Hm. by destruct (copy_next c); simplify_eq.
  - eapply dir_answer_inv; [done..| | |]; [|done|by intros e' [?|?]].
    intros r w c Hm. unfold copy_moves in Hm. destruct (copy_next c); try done. by case_match; simplify_eq.
  - eapply dir_answer_inv; [done..| | |]; [|done|intros e' [?|[= ->]]; [done|by right]].
    intros r w c Hm. unfold copy_moves in Hm. by destruct (copy_next c); simplify_eq.
  - destruct (dr_task d) as [c0| |] eqn:Ht; [|done..]. destruct (copy_next c0) as [| |r] eqn:Hn; [done..|].
    destruct Hinv as (h & rs & ws & c & [] %(dir_at_mono _ _ DReturn)).
    rewrite Ht in *. simpl in at_task0. subst c0. exists h, rs, ws, c.
    destruct (en_shutdown en); simplify_eq; split; simpl in *; try done; try lia; intros Hd; [by rewrite Hd, orb_true_r].
  - destruct (dr_task d) as [|r|] eqn:Ht; [done| |done]. simplify_eq.
    destruct Hinv as (h & rs & ws & c & [] %(dir_at_mono _ _ (DShutdown ok))).
    rewrite Ht in *. exists h, rs, ws, c. split; simpl in *; try done; try lia. intros Hd _. by rewrite Hd, orb_true_r.
Qed.

Lemma dir_run_inv en ls : ∀ d, dir_run en ls dir_start = Some d → dir_inv en ls d.
Proof.
  enough (∀ ls' d d', dir_inv en ls' d → dir_run en ls d = Some d' → dir_inv en (ls' ++ ls) d') as Hgen.
  { intros d Hr. apply (Hgen [] dir_start d); [apply dir_start_inv|done]. }
  induction ls as [|l ls IH]; intros ls' d d' Hinv; cbn [dir_run].
  { intros [= <-]. by rewrite app_nil_r. }
  destruct (dir_exec en l d) as [d1|] eqn:Hex; simpl; [|done]. intros Hr.
  rewrite (cons_middle l), app_assoc. eapply IH; [|done]. by eapply dir_exec_inv.
Qed.

(** ** The two directions are independent *)

Definition ups (ls : list relay_label) : list dir_label := omap (λ l, match l with RUp l => Some l | _ => None end) ls.
Definition downs (ls : list relay_label) : list dir_label := omap (λ l, match l with RDown l => Some l | _ => None end) ls.

Lemma relay_run_dirs up down ls s s' :
  relay_run (relay_exec up down) ls s = Some s' →
  dir_run up (ups ls) (rl_c2b s) = Some (rl_c2b s') ∧ dir_run down (downs ls) (rl_b2c s) = Some (rl_b2c s').
Proof.
  revert s. induction ls as [|l ls IH]; intros s; cbn [relay_run]; [by intros [= ->]|].
  destruct (relay_exec up down l s) as [s1|] eqn:Hex; simpl; [|done]. intros Hr.
  destruct (IH s1 Hr) as [Hu Hd]. destruct l as [l|l|]; simpl in Hex.
  - destruct (dir_exec up l _) eqn:He; simplify_eq/=. by rewrite He.
  - destruct (dir_exec down l _) eqn:He; simplify_eq/=. by rewrite He.
  - destruct (dr_task (rl_c2b s)), (dr_task (rl_b2c s)), (rl_returned s); by simplify_eq/=.
Qed.

Lemma relay_returned up down ls s s' r :
  relay_run (relay_exec up down) ls s = Some s' →
  (∀ r, rl_returned s = Some r → r = Ok tt ∧ is_ended (dr_task (rl_c2b s)) = true ∧ is_ended (dr_task (rl_b2c s)) = true) →
  rl_returned s' = Some r → r = Ok tt ∧ is_ended (dr_task (rl_c2b s')) = true ∧ is_ended (dr_task (rl_b2c s')) = true.
Proof.
  assert (∀ en l d d', dir_exec en l d = Some d' → is_ended (dr_task d) = true → is_ended (dr_task d') = true) as Hend.
  { intros en l d d' Hex He. destruct (dr_task d) eqn:Ht; try done.
    destruct l; simpl in Hex; unfold dir_answer in Hex; rewrite ?Ht in Hex; repeat case_match; simplify_eq/=; by rewrite ?Ht. }
  revert s. induction ls as [|l ls IH]; intros s; cbn [relay_run]; [intros [= ->]; eauto|].
  destruct (relay_exec up down l s) as [s1|] eqn:Hex; simpl; [|done]. intros Hr Hs. apply (IH s1 Hr).
  intros r' Hr'. destruct l as [l|l|]; simpl in Hex.
  - destruct (dir_exec up l _) eqn:He; simplify_eq/=. destruct (Hs _ Hr') as (-> & ? & ?). eauto.
  - destruct (dir_exec down l _) eqn:He; simplify_eq/=. destruct (Hs _ Hr') as (-> & ? & ?). eauto.
  - destruct (dr_task (rl_c2b s)) eqn:H1, (dr_task (rl_b2c s)) eqn:H2, (rl_returned s); simplify_eq/=.
    by rewrite H1, H2.
Qed.
End facts.

(** ** Properties *)

Section properties.
Context `{IoCopyLaws}.

(** What one direction of a relay promises, after the steps [ls] of its own. *)
Definition relayed (ls : list dir_label) (d : direction) : Prop :=
  dr_out d `prefix_of` dr_sent d ∧
  (dr_closed d = true → is_ended (dr_task d) = true) ∧
  (∀ n, dr_task d = Ended (Ok n) → dr_eof d = true ∧ dr_out d = dr_sent d ∧ n = Z.of_nat (length (dr_sent d))) ∧
  (∀ e, dr_task d = Ended (Err e) → DReadErr e ∈ ls ∨ DWriteErr e ∈ ls).

Lemma dir_inv_relayed en ls d : dir_inv en ls d → relayed ls d.
Proof.
  intros (h & rs & ws & c & [Hrun Htask Hsent Hout Heof Herr Hcl Hdrop Hsteps]). split_and!; [|done| |].
  - rewrite Hout, Hsent. eapply prefix_app_r, copy_prefix, Hrun.
  - intros n Ht. rewrite Ht in Htask. destruct (copy_success _ _ _ _ _ Hrun Htask) as (Hin & -> & ->).
    destruct (Heof Hin) as [He Hu]. rewrite Hsent, Hu, app_nil_r. split_and!; congruence.
  - intros e Ht. rewrite Ht in Htask. apply Herr. by eapply copy_failure.
Qed.

(** What a peer of the TCP server, or the backend of the TLS server, sees of the end
    of a direction. *)
Lemma dir_inv_ended en ls d :
  en_drop_closes en = true → dir_inv en ls d → is_ended (dr_task d) = dr_closed d.
Proof.
  intros Hen (h & rs & ws & c & [Hrun Htask Hsent Hout Heof Herr Hcl Hdrop Hsteps]).
  destruct (is_ended (dr_task d)); [by rewrite Hdrop|]. destruct (dr_closed d); [by discriminate Hcl|done].
Qed.

(** Which of the two servers' relays. *)
Definition proxy_bidirectional (tls : bool) : relay_label → relay → option relay :=
  if tls then tls_proxy_bidirectional else tcp_proxy_bidirectional.

Lemma proxy_bidirectional_endings tls : ∃ up down, proxy_bidirectional tls = relay_exec up down ∧
  en_drop_closes up = true ∧ (tls = false → en_drop_closes down = true).
Proof. destruct tls; by eexists _, _. Qed.

(** C3: the relay is faithful. In any interleaving of the two copies with each
    other and with both peers, on the TCP server and on the TLS server, each side
    has been written a prefix of what the other side sent: nothing is lost, made
    up, repeated, reordered or mixed between the directions. A copy that succeeds
    has passed on everything, and only after its source finished; one that fails
    does so by an error of its own reader or writer, never by the other direction's.
    A side sees the end of its stream only after the copy towards it has ended (the
    backend, and any client of the TCP server, exactly then). The relay returns only
    when both copies have ended, and then [Ok]. *)
Theorem relay_faithful tls ls s :
  relay_run (proxy_bidirectional tls) ls relay_start = Some s →
  relayed (ups ls) (rl_c2b s) ∧ relayed (downs ls) (rl_b2c s) ∧
  is_ended (dr_task (rl_c2b s)) = dr_closed (rl_c2b s) ∧
  (tls = false → is_ended (dr_task (rl_b2c s)) = dr_closed (rl_b2c s)) ∧
  (∀ r, rl_returned s = Some r →
     r = Ok tt ∧ is_ended (dr_task (rl_c2b s)) = true ∧ is_ended (dr_task (rl_b2c s)) = true).
Proof.
  destruct (proxy_bidirectional_endings tls) as (up & down & -> & Hup & Hdown). intros Hr.
  pose proof (relay_run_dirs _ _ _ _ _ Hr) as [Hu Hd]. apply dir_run_inv in Hu, Hd.
  split_and!; [by eapply dir_inv_relayed..|exact (dir_inv_ended _ _ _ Hup Hu)|intros Ht; exact (dir_inv_ended _ _ _ (Hdown Ht) Hd)|].
  intros r Hret. by eapply relay_returned.
Qed.

(** ** Ending *)

(** Steps in which nothing fails. *)
Definition smooth_dir (l : dir_label) : bool := match l with DReadErr _ | DWriteErr _ | DShutdown false => false | _ => true end.
Definition smooth (l : relay_label) : bool := match l with RUp l | RDown l => smooth_dir l | RJoin => true end.

Lemma dir_progress en ls d :
  dir_inv en ls d → dr_eof d = true → is_ended (dr_task d) = false →
  ∃ l d', own_dir l = true ∧ smooth_dir l = true ∧ dir_exec en l d = Some d'.
Proof.
  intros (h & rs & ws & c & [Hrun Htask Hsent Hout Heof Herr Hcl Hdrop Hsteps]) He Hend.
  destruct (dr_task d) as [c'|r|r] eqn:Ht; simpl in *; [subst c'| |done].
  - destruct (copy_next c) as [|data|r] eqn:Hn.
    + destruct (dr_unread d) as [|x u] eqn:Hu.
      * exists DReadEof. simpl. rewrite Hu, He. unfold dir_answer, copy_moves. rewrite Ht, Hn. by eexists.
      * exists (DRead (length (dr_unread d))). simpl. rewrite Nat.leb_refl. unfold dir_answer, copy_moves.
        rewrite Ht, Hn, firstn_all, Hu. by eexists.
    + exists (DWrite (length data)). simpl. unfold dir_answer, copy_moves. rewrite Ht, Hn.
      destruct data as [|x data]; [by destruct (copy_writes _ _ _ _ Hrun)|]. simpl. rewrite Nat.leb_refl. by eexists.
    + exists DReturn. simpl. rewrite Ht, Hn. by eexists.
  - exists (DShutdown true). simpl. rewrite Ht. by eexists.
Qed.

(** [join!] completes once. *)
Definition joins (ls : list relay_label) : nat := length (omap (λ l, match l with RJoin => Some tt | _ => None end) ls).

Lemma own_split ls :
  length (filter (λ l, own l = true) ls) = (own_steps (ups ls) + own_steps (downs ls) + joins ls)%nat.
Proof.
  unfold own_steps, joins, ups, downs. induction ls as [|[l|l|] ls IH]; [done|..]; cbn [omap list_omap];
    rewrite ?filter_cons; simpl; try destruct (own_dir l); simpl; lia.
Qed.

Lemma joins_once up down ls s s' :
  relay_run (relay_exec up down) ls s = Some s' →
  (joins ls + match rl_returned s with Some _ => 1 | None => 0 end <= 1)%nat.
Proof.
  revert s. induction ls as [|l ls IH]; intros s; cbn [relay_run]; [destruct (rl_returned s); simpl; lia|].
  destruct (relay_exec up down l s) as [s1|] eqn:Hex; simpl; [|done]. intros Hr. specialize (IH s1 Hr).
  destruct l as [l|l|]; simpl in Hex; unfold joins; cbn [omap list_omap].
  - destruct (dir_exec up l _); simplify_eq/=. done.
  - destruct (dir_exec down l _); simplify_eq/=. done.
  - destruct (dr_task (rl_c2b s)), (dr_task (rl_b2c s)), (rl_returned s); simplify_eq/=. unfold joins in IH. lia.
Qed.

(** C13: the relay ends. Whatever the interleaving, the steps it takes itself are
    bounded by a function of how much each side has sent; and once both sides have
    finished sending it can always go on without a failure until it has returned. So
    under a schedule that does not stop it, it returns. *)
Theorem relay_ends :
  ∃ bound : nat → nat, ∀ tls ls s,
    relay_run (proxy_bidirectional tls) ls relay_start = Some s →
    (length (filter (λ l, own l = true) ls)
       <= bound (length (dr_sent (rl_c2b s))) + bound (length (dr_sent (rl_b2c s))) + 5)%nat ∧
    (dr_eof (rl_c2b s) = true → dr_eof (rl_b2c s) = true → rl_returned s = None →
     ∃ l s', own l = true ∧ smooth l = true ∧ proxy_bidirectional tls l s = Some s').
Proof.
  destruct copy_bounded as [bound Hbound]. exists bound. intros tls ls s Hr.
  destruct (proxy_bidirectional_endings tls) as (up & down & Heq & _). rewrite Heq in *.
  pose proof (relay_run_dirs _ _ _ _ _ Hr) as [Hu Hd]. apply dir_run_inv in Hu, Hd. split.
  - pose proof (joins_once _ _ _ _ _ Hr) as Hj. rewrite own_split.
    assert (∀ en ls d, dir_inv en ls d → (own_steps ls <= bound (length (dr_sent d)) + 2)%nat) as Hdir.
    { intros en l d (h & rs & ws & c & []). specialize (Hbound h rs ws c (length (dr_sent d)) at_run0).
      rewrite at_sent0, length_app in *. specialize (Hbound ltac:(lia)). destruct (dr_task d); simpl in *; lia. }
    apply Hdir in Hu, Hd. simpl in Hj. lia.
  - intros Hec Heb Hret. destruct (is_ended (dr_task (rl_c2b s))) eqn:Hc.
    + destruct (is_ended (dr_task (rl_b2c s))) eqn:Hb.
      * exists RJoin. simpl. destruct (dr_task (rl_c2b s)), (dr_task (rl_b2c s)); try done. rewrite Hret. by eexists.
      * destruct (dir_progress _ _ _ Hd Heb Hb) as (l & d' & ? & ? & Hex). exists (RDown l). simpl. rewrite Hex. by eexists.
    + destruct (dir_progress _ _ _ Hu Hec Hc) as (l & d' & ? & ? & Hex). exists (RUp l). simpl. rewrite Hex. by eexists.
Qed.

(** Without a failure the relay waits for both sides: as long as one of them neither
    finishes nor fails, the connection is kept (and counted). *)
Lemma relay_waits tls ls s r :
  relay_run (proxy_bidirectional tls) ls relay_start = Some s → rl_returned s = Some r →
  (dr_eof (rl_c2b s) = true ∨ ∃ e, DReadErr e ∈ ups ls ∨ DWriteErr e ∈ ups ls) ∧
  (dr_eof (rl_b2c s) = true ∨ ∃ e, DReadErr e ∈ downs ls ∨ DWriteErr e ∈ downs ls).
Proof.
  intros Hr Hret. destruct (proxy_bidirectional_endings tls) as (up & down & Heq & _). rewrite Heq in *.
  pose proof (relay_run_dirs _ _ _ _ _ Hr) as [Hu Hd]. apply dir_run_inv, dir_inv_relayed in Hu as (_ & _ & Hu1 & Hu2).
  apply dir_run_inv, dir_inv_relayed in Hd as (_ & _ & Hd1 & Hd2).
  destruct (relay_returned _ _ _ _ _ r Hr ltac:(done) Hret) as (_ & Hc & Hb). split.
  - destruct (dr_task (rl_c2b s)) as [|?|[n|e]]; try done; [left; by apply (Hu1 n)|right; exists e; by apply Hu2].
  - destruct (dr_task (rl_b2c s)) as [|?|[n|e]]; try done; [left; by apply (Hd1 n)|right; exists e; by apply Hd2].
Qed.
End properties.

(** ** A copy *)

(** Read when the buffer is empty, write it out otherwise; [n] counts what was read. *)
Inductive buffered :=
| BIdle (n : Z)
| BPending (x : Z) (buf : list Z) (n : Z)
| BDone (r : result Z string).

Definition buffer (buf : list Z) (n : Z) : buffered :=
  match buf with [] => BIdle n | x :: buf => BPending x buf n end.

#[export] Instance buffered_copy : IoCopy := {|
  copier := buffered;
  copy_start := BIdle 0;
  copy_next b := match b with BIdle _ => CRead | BPending x buf _ => CWrite (x :: buf) | BDone r => CDone r end;
  copy_answered b a :=
    match b, a with
    | BIdle n, AData data => buffer data (n + Z.of_nat (length data))
    | BIdle n, AEof => BDone (Ok n)
    | BPending x buf n, AWrote k => buffer (drop k (x :: buf)) n
    | _, (AReadErr e | AWriteErr e) => BDone (Err e)
    | _, _ => b
    end
|}.

(** The bytes read are those written and those in the buffer. *)
Definition buffered_at (h : list copy_answer) (rs ws : list Z) (b : buffered) : Prop :=
  match b with
  | BIdle n => rs = ws ∧ n = Z.of_nat (length rs) ∧ (length h <= length rs + length ws)%nat
  | BPending x buf n => rs = ws ++ x :: buf ∧ n = Z.of_nat (length rs) ∧ (length h <= length rs + length ws)%nat
  | BDone r => ws `prefix_of` rs ∧ (length h <= length rs + length ws + 1)%nat ∧
      match r with
      | Ok n => AEof ∈ h ∧ ws = rs ∧ n = Z.of_nat (length rs)
      | Err e => AReadErr e ∈ h ∨ AWriteErr e ∈ h
      end
  end.

Lemma copy_run_inv h a rs ws c' :
  copy_run (h ++ [a]) copy_start = Some (rs, ws, c') →
  ∃ rs0 ws0 c r w, copy_run h copy_start = Some (rs0, ws0, c) ∧ copy_moves c a = Some (r, w) ∧
    rs = rs0 ++ r ∧ ws = ws0 ++ w ∧ c' = copy_answered c a.
Proof.
  generalize (@copy_start buffered_copy) as c0. revert rs ws. induction h as [|b h IH]; intros rs ws c0; cbn [app copy_run].
  - destruct (copy_moves c0 a) as [[r w]|] eqn:Hm; simpl; [|done]. intros [= <- <- <-].
    exists [], [], c0, r, w. by rewrite !app_nil_r.
  - destruct (copy_moves c0 b) as [[r0 w0]|]; simpl; [|done].
    destruct (copy_run (h ++ [a]) _) as [[[rs1 ws1] c1]|] eqn:Hr; simpl; [|done]. intros [= <- <- <-].
    destruct (IH _ _ _ Hr) as (rs2 & ws2 & c & r & w & -> & Hm & -> & -> & ->). simpl.
    exists (r0 ++ rs2), (w0 ++ ws2), c, r, w. by rewrite !app_assoc.
Qed.

Lemma buffered_run h rs ws b : copy_run h copy_start = Some (rs, ws, b) → buffered_at h rs ws b.
Proof.
  revert rs ws b. induction h as [|a h IH] using rev_ind; intros rs ws b.
  { intros [= <- <- <-]. done. }
  intros (rs0 & ws0 & c & r & w & Hr & Hm & -> & -> & ->)%copy_run_inv.
  apply IH in Hr. unfold buffered_at in *. unfold copy_moves in Hm.
  destruct c as [n|x buf n|r0]; simpl in Hm; destruct a as [[|y data]| |e|k|e]; simplify_eq/=.
  - destruct Hr as (-> & -> & Hl). rewrite app_nil_r, !length_app. simpl. split_and!; [done|lia|lia].
  - destruct Hr as (-> & -> & Hl). rewrite !app_nil_r, ?length_app; simpl. split_and!; [done|lia| |done|done].
    apply elem_of_app. right. by left.
  - destruct Hr as (-> & -> & Hl). rewrite !app_nil_r, ?length_app; simpl. split_and!; [done|lia|].
    left. apply elem_of_app. right. by left.
  - destruct ((0 <? k)%nat && (k <=? S (length buf))%nat)%bool eqn:Hk; simplify_eq.
    apply andb_prop in Hk as [Hk1%Nat.ltb_lt Hk2%Nat.leb_le]. destruct Hr as (-> & -> & Hl).
    rewrite app_nil_r, ?length_app; simpl. unfold buffer.
    pose proof (take_drop k (x :: buf)) as Htd.
    assert (length (take k (x :: buf)) = k) as Hlk by (rewrite length_take; simpl; lia).
    destruct (drop k (x :: buf)) as [|z rest] eqn:Hd.
    + rewrite app_nil_r in Htd. rewrite Htd in *. split_and!; [done|done|]. rewrite !length_app in *. simpl in *. lia.
    + split_and!; [by rewrite <-app_assoc, Htd|done|]. rewrite !length_app in *. simpl in *. lia.
  - destruct Hr as (-> & -> & Hl). rewrite !app_nil_r, ?length_app; simpl. split_and!; [by eexists|rewrite length_app in Hl; simpl in Hl; lia|].
    right. apply elem_of_app. right. by left.
Qed.

#[export] Instance buffered_copy_laws : IoCopyLaws.
Proof.
  split.
  - intros h rs ws b Hr%buffered_run. destruct b; simpl in Hr; [by destruct Hr as (-> & _)|destruct Hr as (-> & _); by eexists|tauto].
  - intros h rs ws b n Hr%buffered_run Hn. destruct b; simplify_eq/=. tauto.
  - intros h rs ws b e Hr%buffered_run Hn. destruct b; simplify_eq/=. tauto.
  - intros h rs ws b Hr%buffered_run. by destruct b.
  - exists (λ n, (2 * n + 1)%nat). intros h rs ws b n Hr Hl. apply buffered_run in Hr. 
    destruct b; simpl in Hr; [destruct Hr as (-> & _ & Hr)|destruct Hr as (-> & _ & Hr)|destruct Hr as (Hp & Hr & _)].
    + lia.
    + rewrite length_app in *. lia.
    + apply prefix_length in Hp. lia.
Qed.

(** A request of three bytes, half of it written, an answer of two, and both ends. *)
Definition relay_demo : list relay_label := [
  RUp (DSend [1; 2; 3]); RUp (DRead 2); RUp (DWrite 1); RDown (DSend [9; 8]); RDown (DRead 2); RUp (DWrite 1);
  RDown DFinish; RDown (DWrite 2); RUp DFinish; RUp (DRead 1); RDown DReadEof; RDown DReturn; RUp (DWrite 1);
  RUp DReadEof; RUp DReturn; RUp (DShutdown true); RJoin
].

Definition relay_demo_end : relay := default relay_start (relay_run (proxy_bidirectional false) relay_demo relay_start).

Lemma relay_faithful_witness :
  dr_out (rl_c2b relay_demo_end) = [1; 2; 3] ∧ dr_out (rl_b2c relay_demo_end) = [9; 8] ∧
  relayed (ups relay_demo) (rl_c2b relay_demo_end) ∧ relayed (downs relay_demo) (rl_b2c relay_demo_end).
Proof.
  split; [vm_compute; reflexivity|]. split; [vm_compute; reflexivity|].
  destruct (relay_faithful false relay_demo relay_demo_end) as (Hu & Hd & _); [vm_compute; reflexivity|].
  exact (conj Hu Hd).
Defined.

(** In the middle of it, when both have finished sending, it can go on. *)
Definition relay_demo_mid : relay := default relay_start (relay_run (proxy_bidirectional false) (take 9 relay_demo) relay_start).

Lemma relay_ends_witness :
  rl_returned relay_demo_mid = None ∧
  ∃ l s', own l = true ∧ smooth l = true ∧ proxy_bidirectional false l relay_demo_mid = Some s'.
Proof.
  split; [vm_compute; reflexivity|].
  destruct relay_ends as [bound Hbound].
  destruct (Hbound false (take 9 relay_demo) relay_demo_mid) as [_ Hgo]; [vm_compute; reflexivity|].
  apply Hgo; vm_compute; reflexivity.
Defined.
