(* ===== verification/TcpServer.v ===== *)
(** * TCP and TLS servers

    [src/src/adapters/inbound/tcp_server.rs] and [tls_server.rs]: what happens
    to one client connection, from [accept] to the end of the byte copy.  The
    network is the environment: the result of [TcpStream::connect], the public
    IP service and the TLS handshake are arguments.  [conn_step] interleaves any
    number of connections with backend reloads and binding collection; the calls
    that one resolution makes on the repositories are one step of it ([Resolutions]
    has them as steps of their own). *)

From S2P Require Import Prelude Text Float64 Domain NetAddr Parse LoadBalancer Ports ProxyService.
From S2P Require Import Geo BindingRepo Metrics BackendRepos.
From Stdlib Require Import Ascii.

(** The backend address, with brackets around an IPv6 literal. *)
Definition format_backend_addr (b : Backend) : string :=
  if str_contains ":"%char (be_wg_ip b)
  then "[" +:+ be_wg_ip b +:+ "]:" +:+ pretty (be_port b)
  else be_wg_ip b +:+ ":" +:+ pretty (be_port b).

(** [fetch_public_ip], of the TCP server and of the TLS server: [response] is the
    body [reqwest] gets from the service, [None] when the client cannot be built or
    the request fails. *)
Definition fetch_public_ip (response : option string) : option IpAddr :=
  text ← response; parse_ip_addr (trim text).

Definition tls_fetch_public_ip (response : option string) : option IpAddr :=
  text ← response; parse_ip_addr (trim text).

(** [TcpServer] and [TlsServer]: the proxy service is shared between them. *)
Record TcpServer (G : Type) := mkTcpServer {
  tcp_listen_addr : string;
  tcp_geo_resolver : option G;
  tcp_public_ip_geo : option GeoInfo
}.
Arguments mkTcpServer {G}. Arguments tcp_listen_addr {G}. Arguments tcp_geo_resolver {G}.
Arguments tcp_public_ip_geo {G}.

Definition tcp_server_new {G} (listen_addr : string) (geo_resolver : option G) : TcpServer G :=
  mkTcpServer listen_addr geo_resolver None.

Record TlsServer (G T : Type) := mkTlsServer {
  tls_listen_addr : string;
  tls_geo_resolver : option G;
  tls_public_ip_geo : option GeoInfo;
  tls_config : T
}.
Arguments mkTlsServer {G T}. Arguments tls_listen_addr {G T}. Arguments tls_geo_resolver {G T}.
Arguments tls_public_ip_geo {G T}. Arguments tls_config {G T}.

Definition tls_server_new {G T} (listen_addr : string) (geo_resolver : option G) (config : T) : TlsServer G T :=
  mkTlsServer listen_addr geo_resolver None config.

(** [run]: bind, then one task per accepted client; an error of [accept] ends the
    server, as one of [bind] does.  The clients served by the accepts so far, and
    how the server has ended, if it has. *)
Fixpoint accept_loop (accepts : list (result IpAddr string)) : list IpAddr * option string :=
  match accepts with
  | [] => ([], None)
  | Ok client :: accepts' => let '(served, ended) := accept_loop accepts' in (client :: served, ended)
  | Err e :: _ => ([], Some e)
  end.

Definition tcp_run {G} (bind : string → result unit string) (accepts : list (result IpAddr string))
    (srv : TcpServer G) : list IpAddr * option string :=
  match bind (tcp_listen_addr srv) with
  | Ok _ => accept_loop accepts
  | Err e => ([], Some e)
  end.

Definition tls_run {G T} (bind : string → result unit string) (accepts : list (result IpAddr string))
    (srv : TlsServer G T) : list IpAddr * option string :=
  match bind (tls_listen_addr srv) with
  | Ok _ => accept_loop accepts
  | Err e => ([], Some e)
  end.

(** After a failed accept (no free file descriptor, say) nobody is served any more. *)
Lemma accept_error_ends_server {G} bind before e after (srv : TcpServer G) :
  bind (tcp_listen_addr srv) = Ok tt →
  tcp_run bind ((Ok <$> before) ++ Err e :: after) srv = (before, Some e).
Proof.
  intros Hb. unfold tcp_run. rewrite Hb. induction before as [|c before IH]; [done|].
  cbn [fmap list_fmap app accept_loop]. by rewrite IH.
Qed.

(** C39: the address a proxy connects to is its backend's.  For a backend whose
    [wg_ip] is the text of an IP address, of either family, the connection target is
    the text of exactly that address and the backend's port. *)
Theorem backend_addr_roundtrip b ip :
  parse_ip_addr (be_wg_ip b) = Some ip → 0 <= be_port b < 2 ^ 16 →
  parse_socket_addr (format_backend_addr b) = Some (socket_of ip (be_port b)).
Proof. apply parse_socket_addr_text. Qed.

Lemma backend_addr_roundtrip_witness :
  let b := mkBackend "b" "app" Europe "DE" "fd00::1:2" 8443 true 1 10 20 in
  format_backend_addr b = "[fd00::1:2]:8443" ∧
  parse_socket_addr (format_backend_addr b) = Some (SockV6 (64768 * 2 ^ 112 + 65538) 8443 0).
Proof.
  split; [reflexivity|].
  apply (backend_addr_roundtrip (mkBackend "b" "app" Europe "DE" "fd00::1:2" 8443 true 1 10 20)
    (V6 (64768 * 2 ^ 112 + 65538))); [reflexivity|simpl; lia].
Defined.

(** What the network answers to one connection. *)
Record NetEnv := mkNetEnv {
  env_public_ip : option IpAddr;                  (* fetch_public_ip *)
  env_connect : string → result unit string;      (* TcpStream::connect *)
  env_rtt_ms : Z                                  (* elapsed while connecting *)
}.

Section server.
Context {R B M G : Type}
  `{!BackendRepository R, !BindingRepository B, !MetricsStore M, !GeoResolver G}.
#[local] Abbreviation service := (ProxyService R B M G).

(** [resolve_localhost_geo] on the cache [public_ip_geo]. *)
Definition resolve_localhost_geo (geo_resolver : option G) (fetched : option IpAddr)
    (public_ip_geo : option GeoInfo) : option GeoInfo * option GeoInfo :=
  match public_ip_geo with
  | Some geo => (public_ip_geo, Some geo)
  | None =>
      match fetched with
      | Some public_ip =>
          let geo_info := g ← geo_resolver; geo_resolve g public_ip in
          (match geo_info with Some _ => geo_info | None => public_ip_geo end, geo_info)
      | None => (public_ip_geo, None)
      end
  end.

(** The geo lookup at the start of [handle_connection]. *)
Definition client_geo_of (env : NetEnv) (s : service) (geo_resolver : option G)
    (public_ip_geo : option GeoInfo) (client : IpAddr) : option GeoInfo * option GeoInfo :=
  if is_loopback client
  then resolve_localhost_geo geo_resolver (env_public_ip env) public_ip_geo
  else (public_ip_geo, resolve_geo s client).

(** [TcpServer::handle_connection]: the service and the geo cache afterwards.
    Every path returns [Ok(())]: copy errors are logged, not propagated. *)
Definition handle_connection (t_touch t_new : instant) (env : NetEnv) (s : service)
    (geo_resolver : option G) (public_ip_geo : option GeoInfo) (client : IpAddr)
    : service * option GeoInfo :=
  let '(cache, client_geo) := client_geo_of env s geo_resolver public_ip_geo client in
  let '(s, resolved) := resolve_backend_with_geo t_touch t_new s client client_geo in
  match resolved with
  | None => (s, cache)
  | Some backend =>
      let backend_addr := format_backend_addr backend in
      match env_connect env backend_addr with
      | Err _ => (clear_binding s client, cache)
      | Ok _ =>
          let backend_id := be_id backend in
          let s := record_connection_start s backend_id in
          let s := ps_record_rtt s backend_id (env_rtt_ms env) in
          (* proxy_bidirectional *)
          let s := record_connection_end s backend_id in
          (s, cache)
      end
  end.

(** [TlsServer::handle_connection]: the same steps on a TLS stream. *)
Definition tls_resolve_localhost_geo (geo_resolver : option G) (fetched : option IpAddr)
    (public_ip_geo : option GeoInfo) : option GeoInfo * option GeoInfo :=
  match public_ip_geo with
  | Some geo => (public_ip_geo, Some geo)
  | None =>
      match fetched with
      | Some public_ip =>
          let geo_info := g ← geo_resolver; geo_resolve g public_ip in
          (match geo_info with Some _ => geo_info | None => public_ip_geo end, geo_info)
      | None => (public_ip_geo, None)
      end
  end.

Definition tls_handle_connection (t_touch t_new : instant) (env : NetEnv) (s : service)
    (geo_resolver : option G) (public_ip_geo : option GeoInfo) (client : IpAddr)
    : service * option GeoInfo :=
  let '(cache, client_geo) :=
    if is_loopback client
    then tls_resolve_localhost_geo geo_resolver (env_public_ip env) public_ip_geo
    else (public_ip_geo, resolve_geo s client) in
  let '(s, resolved) := resolve_backend_with_geo t_touch t_new s client client_geo in
  match resolved with
  | None => (s, cache)
  | Some backend =>
      let backend_addr := format_backend_addr backend in
      match env_connect env backend_addr with
      | Err _ => (clear_binding s client, cache)
      | Ok _ =>
          let backend_id := be_id backend in
          let s := record_connection_start s backend_id in
          let s := ps_record_rtt s backend_id (env_rtt_ms env) in
          let s := record_connection_end s backend_id in
          (s, cache)
      end
  end.

(** One accepted socket of [TlsServer::run]: a failed handshake ends it. *)
Definition tls_serve (handshake_ok : bool) (t_touch t_new : instant) (env : NetEnv) (s : service)
    (geo_resolver : option G) (public_ip_geo : option GeoInfo) (client : IpAddr)
    : service * option GeoInfo :=
  if handshake_ok
  then tls_handle_connection t_touch t_new env s geo_resolver public_ip_geo client
  else (s, public_ip_geo).

(** ** Interleaved connections *)

Inductive conn_phase :=
| Accepted (client : IpAddr)
| Connecting (client : IpAddr) (backend : Backend)
| Proxying (backend_id : string)
| Closed.

Record server_state := mkServer {
  sv_service : service;
  sv_cache : option GeoInfo;
  sv_conns : gmap nat conn_phase
}.

Inductive conn_step (geo_resolver : option G) : relation server_state :=
| step_accept s cache conns n client :
    conns !! n = None →
    conn_step geo_resolver (mkServer s cache conns)
      (mkServer s cache (<[n := Accepted client]> conns))
| step_no_backend s cache conns n client env t1 t2 s' cache' client_geo :
    conns !! n = Some (Accepted client) →
    client_geo_of env s geo_resolver cache client = (cache', client_geo) →
    resolve_backend_with_geo t1 t2 s client client_geo = (s', None) →
    conn_step geo_resolver (mkServer s cache conns) (mkServer s' cache' (<[n := Closed]> conns))
| step_routed s cache conns n client env t1 t2 s' cache' client_geo backend :
    conns !! n = Some (Accepted client) →
    client_geo_of env s geo_resolver cache client = (cache', client_geo) →
    resolve_backend_with_geo t1 t2 s client client_geo = (s', Some backend) →
    conn_step geo_resolver (mkServer s cache conns)
      (mkServer s' cache' (<[n := Connecting client backend]> conns))
| step_connect_failed s cache conns n client backend :
    conns !! n = Some (Connecting client backend) →
    conn_step geo_resolver (mkServer s cache conns)
      (mkServer (clear_binding s client) cache (<[n := Closed]> conns))
| step_connected s cache conns n client backend rtt_ms :
    conns !! n = Some (Connecting client backend) →
    conn_step geo_resolver (mkServer s cache conns)
      (mkServer (ps_record_rtt (record_connection_start s (be_id backend)) (be_id backend) rtt_ms)
         cache (<[n := Proxying (be_id backend)]> conns))
| step_finished s cache conns n backend_id :
    conns !! n = Some (Proxying backend_id) →
    conn_step geo_resolver (mkServer s cache conns)
      (mkServer (record_connection_end s backend_id) cache (<[n := Closed]> conns))
| step_reload s cache conns r :
    conn_step geo_resolver (mkServer s cache conns)
      (mkServer (mkProxy r (ps_binding_repo s) (ps_geo_resolver s) (ps_metrics s)
                   (ps_local_region s)) cache conns)
| step_collect s cache conns now ttl :
    conn_step geo_resolver (mkServer s cache conns)
      (mkServer (binding_cleanup_turn now ttl s) cache conns).

#[export] Instance conn_phase_eq_dec : EqDecision conn_phase.
Proof. solve_decision. Defined.

(** The connections currently proxied to a backend. *)
Definition proxied (backend_id : string) (conns : gmap nat conn_phase) : Z :=
  Z.of_nat (size (filter (fun kv => snd kv = Proxying backend_id) conns)).

(** ** Lemmas *)

(** A resolution leaves the metrics alone. *)
Lemma resolve_metrics t1 t2 (s s' : service) client g r :
  resolve_backend_with_geo t1 t2 s client g = (s', r) → ps_metrics s' = ps_metrics s.
Proof.
  rewrite resolve_with_geo_eq. unfold drop_stale. cbv zeta.
  destruct (bound_backend s client); [by intros [= <- <-]|].
  destruct (fresh_choice s g); intros [= <- <-]; simpl; by destruct (binding_get _ _).
Qed.

Lemma proxied_insert id n ph (conns : gmap nat conn_phase) :
  proxied id (<[n := ph]> conns) =
    proxied id conns + (if decide (ph = Proxying id) then 1 else 0)
    - match conns !! n with Some old => if decide (old = Proxying id) then 1 else 0 | None => 0 end.
Proof.
  unfold proxied. rewrite (size_filter_insert (fun kv => snd kv = Proxying id)). simpl.
  destruct (conns !! n); [|done]. done.
Qed.

Lemma proxied_bounds id (conns : gmap nat conn_phase) : 0 <= proxied id conns <= Z.of_nat (size conns).
Proof.
  unfold proxied. split; [lia|]. apply inj_le. apply map_subseteq_size, map_filter_subseteq.
Qed.

Lemma proxied_pos id n (conns : gmap nat conn_phase) :
  conns !! n = Some (Proxying id) → 0 < proxied id conns.
Proof.
  intros Hn. pose proof (proxied_insert id n Closed conns) as Hi. rewrite Hn in Hi.
  destruct (decide (Closed = Proxying id)); [done|].
  destruct (decide (Proxying id = Proxying id)); [|done].
  pose proof (proxied_bounds id (<[n := Closed]> conns)). lia.
Qed.

Context `{!MetricsStoreLaws M}.

(** The connection counters agree with the connections being proxied. *)
Definition counts_agree (st : server_state) : Prop :=
  ∀ id, get_connection_count (ps_metrics (sv_service st)) id = proxied id (sv_conns st).

(** A phase change that moves no connection in or out of [Proxying]. *)
Lemma counts_agree_quiet s s' cache cache' conns n ph :
  counts_agree (mkServer s cache conns) → ps_metrics s' = ps_metrics s →
  (∀ id, ph ≠ Proxying id) → (∀ id, conns !! n ≠ Some (Proxying id)) →
  counts_agree (mkServer s' cache' (<[n := ph]> conns)).
Proof.
  intros Hag Hm Hph Hold id. simpl. rewrite Hm, proxied_insert.
  rewrite decide_False by apply Hph. specialize (Hag id). simpl in Hag.
  destruct (conns !! n) as [old|] eqn:Hn; [|lia].
  rewrite decide_False by (intros ->; by eapply Hold). lia.
Qed.

Lemma counts_agree_step geo_resolver st st' :
  Z.of_nat (size (sv_conns st)) < 2 ^ 64 →
  counts_agree st → conn_step geo_resolver st st' → counts_agree st'.
Proof.
  intros Hsize Hag Hstep.
  destruct Hstep as [s cache conns n client Hn
    |s cache conns n client env t1 t2 s' cache' cg Hn _ Hr
    |s cache conns n client env t1 t2 s' cache' cg backend Hn _ Hr
    |s cache conns n client backend Hn|s cache conns n client backend rtt Hn
    |s cache conns n bid Hn| |]; simpl in Hsize; [| | | | | |done|done].
  - eapply counts_agree_quiet; [done|done|done|congruence].
  - eapply counts_agree_quiet; [done|by eapply resolve_metrics|done|congruence].
  - eapply counts_agree_quiet; [done|by eapply resolve_metrics|done|congruence].
  - eapply counts_agree_quiet; [done|done|done|congruence].
  - intros id. simpl. rewrite count_record_rtt, count_increment, proxied_insert, Hn.
    pose proof (Hag id) as Hid. simpl in Hid. rewrite Hid.
    pose proof (proxied_bounds id conns).
    assert (proxied id conns + 1 <= Z.of_nat (size conns)).
    { pose proof (proxied_bounds id (<[n := Proxying id]> conns)) as Hb.
      rewrite proxied_insert, Hn, map_size_insert_Some in Hb by eauto.
      rewrite decide_True, decide_False in Hb by done. lia. }
    rewrite (decide_False (P := Connecting _ _ = _)) by done.
    repeat case_decide; simplify_eq; try lia. rewrite wrap_small; [lia|]. unfold in_range. lia.
  - intros id. simpl. rewrite count_decrement, proxied_insert, Hn.
    pose proof (Hag id) as Hid. simpl in Hid. rewrite Hid.
    pose proof (proxied_pos _ _ _ Hn).
    rewrite (decide_False (P := Closed = _)) by done.
    repeat case_decide; simplify_eq; try lia.
    rewrite (proj2 (Z.ltb_lt _ _)) by done. lia.
Qed.

Lemma conn_step_size geo_resolver st st' :
  conn_step geo_resolver st st' → (size (sv_conns st) <= size (sv_conns st'))%nat.
Proof.
  destruct 1; simpl; try lia; rewrite map_size_insert; unfold id; case_match; lia.
Qed.

Lemma counts_agree_rtc geo_resolver st st' :
  rtc (conn_step geo_resolver) st st' → Z.of_nat (size (sv_conns st')) < 2 ^ 64 →
  counts_agree st → counts_agree st'.
Proof.
  induction 1 as [|a b c Hab Hbc IH]; [done|]. intros Hsize Hag. apply IH; [done|].
  assert (size (sv_conns b) <= size (sv_conns c))%nat.
  { clear -Hbc. induction Hbc as [|x y z Hxy]; [lia|]. apply conn_step_size in Hxy. lia. }
  apply conn_step_size in Hab as ?. eapply counts_agree_step; [|done..]. lia.
Qed.

(** ** Properties *)

(** Connection accounting under concurrency. In every state reachable from
    a server with no connections and zero counters, by any interleaving of
    accepts, routings, connects (failed or not), ends of copies, backend reloads
    and binding collections, the connection count the load balancer reads for a
    backend is the number of connections being proxied to it. *)
Lemma connection_count_exact geo_resolver (s : service) cache st id :
  (∀ i, get_connection_count (ps_metrics s) i = 0) →
  rtc (conn_step geo_resolver) (mkServer s cache ∅) st →
  Z.of_nat (size (sv_conns st)) < 2 ^ 64 →
  get_connection_count (ps_metrics (sv_service st)) id = proxied id (sv_conns st).
Proof.
  intros Hzero Hrtc Hsize. eapply (counts_agree_rtc _ _ _ Hrtc Hsize).
  intros i. simpl. rewrite Hzero. unfold proxied. by rewrite map_filter_empty.
Qed.

(** The sequential function is a run of the step relation. *)
Lemma handle_connection_steps t1 t2 env geo_resolver (s : service) cache conns n client :
  conns !! n = Some (Accepted client) →
  let '(s', cache') := handle_connection t1 t2 env s geo_resolver cache client in
  rtc (conn_step geo_resolver) (mkServer s cache conns)
    (mkServer s' cache' (<[n := Closed]> conns)).
Proof.
  intros Hn. unfold handle_connection.
  destruct (client_geo_of env s geo_resolver cache client) as [cache' cg] eqn:Hgeo.
  destruct (resolve_backend_with_geo t1 t2 s client cg) as [s' [backend|]] eqn:Hr.
  - eapply (step_routed geo_resolver) in Hr as Hstep; [|done|done].
    assert (∀ ph ph' : conn_phase, <[n := ph']> (<[n := ph]> conns) = <[n := ph']> conns) as Hins
      by (intros; apply insert_insert_eq).
    destruct (env_connect env (format_backend_addr backend)).
    + eapply rtc_l; [exact Hstep|]. eapply rtc_l.
      { apply (step_connected _ _ _ _ n client backend (env_rtt_ms env)), lookup_insert_eq. }
      apply rtc_once. rewrite Hins, <-(Hins (Proxying (be_id backend)) Closed).
      apply step_finished, lookup_insert_eq.
    + eapply rtc_l; [exact Hstep|]. apply rtc_once.
      rewrite <-(Hins (Connecting client backend) Closed).
      eapply step_connect_failed, lookup_insert_eq.
  - apply rtc_once. by eapply step_no_backend.
Qed.

(** C14: one connection, start to end. Handling a connection leaves every
    connection count as it was; a failed connect leaves the client unbound, so
    the next attempt is routed afresh; and TLS connections with a completed
    handshake are handled exactly as plain ones, while a failed handshake
    touches nothing. *)
Theorem handle_connection_effect `{!BackendRepositoryLaws R, !BindingRepositoryLaws B}
    t1 t2 env geo_resolver (s : service) cache client :
  (∀ id, 0 <= get_connection_count (ps_metrics s) id < 2 ^ 64 - 1) →
  let '(s', cache') := handle_connection t1 t2 env s geo_resolver cache client in
  (∀ id, get_connection_count (ps_metrics s') id = get_connection_count (ps_metrics s) id) ∧
  (∀ b e, route s client (snd (client_geo_of env s geo_resolver cache client)) = Some b →
     env_connect env (format_backend_addr b) = Err e →
     binding_get (ps_binding_repo s') (mkClientKey client) = None) ∧
  tls_serve true t1 t2 env s geo_resolver cache client = (s', cache') ∧
  tls_serve false t1 t2 env s geo_resolver cache client = (s, cache).
Proof.
  intros Hrange.
  change (tls_serve true t1 t2 env s geo_resolver cache client)
    with (handle_connection t1 t2 env s geo_resolver cache client).
  unfold handle_connection.
  destruct (client_geo_of env s geo_resolver cache client) as [cache' cg].
  destruct (resolve_backend_with_geo t1 t2 s client cg) as [s' r] eqn:Hr.
  pose proof (resolve_metrics _ _ _ _ _ _ _ Hr) as Hm.
  apply binding_after_resolve in Hr as (-> & _). simpl.
  destruct (route s client cg) as [backend|] eqn:Hroute; [|by split_and!; rewrite ?Hm].
  destruct (env_connect env (format_backend_addr backend)) eqn:Hc; (split_and!; [| |done|done]).
  - intros id. simpl. rewrite count_decrement, count_record_rtt, count_increment, Hm.
    specialize (Hrange id). case_decide; [|done].
    rewrite wrap_small by (unfold in_range; lia). rewrite (proj2 (Z.ltb_lt _ _)) by lia. lia.
  - congruence.
  - intros id. simpl. by rewrite Hm.
  - intros b e' _ _. simpl. by rewrite binding_get_remove, decide_True by done.
Qed.
End server.

(** ** Witnesses *)

Definition example_env : NetEnv :=
  mkNetEnv None (fun a => if str_eqb a "10.0.0.1:8080" then Ok tt else Err "refused") 7.

Lemma connection_count_exact_witness :
  ∃ st : server_state (R := SqliteBackendRepository) (B := DashMapBindingRepository)
           (M := DashMapMetricsStore) (G := MaxMindGeoResolver),
    sv_conns st = {[ 0%nat := Proxying "b1" ]} ∧
    get_connection_count (ps_metrics (sv_service st)) "b1" = proxied "b1" (sv_conns st).
Proof.
  eexists. split; [|apply (connection_count_exact None example_service None)].
  2: { intros i. reflexivity. }
  2: { eapply rtc_l; [apply (step_accept _ _ _ _ 0%nat (V4 16909060)); reflexivity|].
       eapply rtc_l; [eapply (step_routed _ _ _ _ 0%nat _ example_env 1 2); vm_compute; reflexivity|].
       eapply rtc_l; [eapply (step_connected _ _ _ _ 0%nat _ _ 7); reflexivity|].
       apply rtc_refl. }
  all: vm_compute; reflexivity.
Defined.

Lemma handle_connection_effect_witness :
  let '(s', cache') := handle_connection 1 2 example_env example_service None None (V4 16909060) in
  get_connection_count (ps_metrics s') "b1" = get_connection_count (ps_metrics example_service) "b1" ∧
  tls_serve true 1 2 example_env example_service None None (V4 16909060) = (s', cache').
Proof.
  pose proof (handle_connection_effect 1 2 example_env None example_service None (V4 16909060)) as H.
  destruct (handle_connection 1 2 example_env example_service None None (V4 16909060)) as [s' c'].
  destruct H as (H & _ & Ht & _).
  - intros id. split; reflexivity || (vm_compute; congruence).
  - split; [apply H|exact Ht].
Defined.
