(* ===== verification/Resolutions.v ===== *)
(** * Interleaved resolutions

    The proxy service shared by everything that calls it: connections of
    [tcp_server.rs] and of [tls_server.rs], and queries answered by [DnsHandler]
    of [dns_server.rs], each a task whose awaits and atomic accesses are separate
    steps ([proxy_service.rs], [resolve_backend_with_geo]: get, touch, look up,
    remove, list, one read of a connection count per candidate, set).  The binding
    collector of [dashmap_binding_repo.rs] first gathers expired keys and then
    removes them, one by one.  [exec] runs one step, named by its label; any list
    of labels is an interleaving.

    [TcpServer] takes a whole resolution as one step; here the connection counts
    are proved exact, the answers sound and affinity stable at the grain of the
    code, the sequential handlers are shown to be runs of this system, and what
    two concurrent resolutions of one client do to each other is made explicit. *)

From S2P Require Import Prelude Text Float64 Domain LoadBalancer Ports ProxyService TcpServer.
From S2P Require Import Sql Geo BindingRepo Metrics BackendRepos.

(** Which front end a task belongs to.  A TLS task exists once its handshake is done. *)
Inductive TaskKind := KTcp | KTls | KDns.

(** Where a task is, with the values it holds: [k] its kind, [c] the client. *)
Inductive task_pc :=
| TAccepted (k : TaskKind) (c : IpAddr)
| TFetching (k : TaskKind) (c : IpAddr)                       (* awaiting fetch_public_ip *)
| TLookup (k : TaskKind) (c : IpAddr) (g : option GeoInfo)    (* about to binding_repo.get *)
| TTouch (k : TaskKind) (c : IpAddr) (g : option GeoInfo) (id : string)
| TVerify (k : TaskKind) (c : IpAddr) (g : option GeoInfo) (id : string)  (* get_by_id *)
| TRemove (k : TaskKind) (c : IpAddr) (g : option GeoInfo)
| TList (k : TaskKind) (c : IpAddr) (g : option GeoInfo)      (* get_healthy *)
| TScan (k : TaskKind) (c : IpAddr) (g : option GeoInfo)
    (todo : list Backend) (best : option (Backend * f64))     (* pick_backend's loop *)
| TBind (k : TaskKind) (c : IpAddr) (b : Backend)             (* binding_repo.set *)
| TConnect (c : IpAddr) (b : Backend)                         (* awaiting TcpStream::connect *)
| TUnbind (c : IpAddr)                                        (* clear_binding *)
| TStart (id : string) (rtt_ms : Z)                           (* record_connection_start *)
| TRtt (id : string) (rtt_ms : Z)                             (* record_rtt *)
| TCopy (id : string)                                         (* awaiting proxy_bidirectional *)
| TReplied (c : IpAddr) (b : option Backend)                  (* the answer to a DNS query *)
| TClosed.

Record edge_state (R B M G : Type) := mkEdge {
  es_service : ProxyService R B M G;
  es_tcp_geo : option GeoInfo;          (* TcpServer's public_ip_geo *)
  es_tls_geo : option GeoInfo;          (* TlsServer's *)
  es_gathered : list ClientKey;         (* to_remove of the collector *)
  es_tasks : gmap nat task_pc
}.
Arguments mkEdge {R B M G}. Arguments es_service {R B M G}. Arguments es_tcp_geo {R B M G}.
Arguments es_tls_geo {R B M G}. Arguments es_gathered {R B M G}. Arguments es_tasks {R B M G}.

Inductive label (R : Type) :=
| LAccept (n : nat) (k : TaskKind) (c : IpAddr)
| LStep (n : nat) (now : instant)             (* task [n] goes on, reading the clock *)
| LFetched (n : nat) (public_ip : option IpAddr)
| LConnected (n : nat) (rtt_ms : Z)
| LConnectFailed (n : nat)
| LCopied (n : nat)
| LReload (r : R)                             (* the sync loop stored a new backend list *)
| LGather (k : ClientKey) (now : instant) (ttl : duration)
| LDrop (k : ClientKey).
Arguments LAccept {R}. Arguments LStep {R}. Arguments LFetched {R}. Arguments LConnected {R}.
Arguments LConnectFailed {R}. Arguments LCopied {R}. Arguments LReload {R}. Arguments LGather {R}.
Arguments LDrop {R}.

Section edge.
Context {R B M G : Type}
  `{!BackendRepository R, !BindingRepository B, !MetricsStore M, !GeoResolver G}.
Context (geo_resolver : option G).
#[local] Abbreviation service := (ProxyService R B M G).
#[local] Abbreviation state := (edge_state R B M G).

Definition with_service (st : state) (s : service) : state :=
  mkEdge s (es_tcp_geo st) (es_tls_geo st) (es_gathered st) (es_tasks st).

Definition with_task (st : state) (n : nat) (pc : task_pc) : state :=
  mkEdge (es_service st) (es_tcp_geo st) (es_tls_geo st) (es_gathered st) (<[n := pc]> (es_tasks st)).

(** The cache of the task's server. *)
Definition public_ip_geo (st : state) (k : TaskKind) : option GeoInfo :=
  match k with KTcp => es_tcp_geo st | KTls => es_tls_geo st | KDns => None end.

Definition cache_geo (st : state) (k : TaskKind) (g : option GeoInfo) : state :=
  match k with
  | KTcp => mkEdge (es_service st) g (es_tls_geo st) (es_gathered st) (es_tasks st)
  | KTls => mkEdge (es_service st) (es_tcp_geo st) g (es_gathered st) (es_tasks st)
  | KDns => st
  end.

(** What follows the answer of [resolve_backend_with_geo]. *)
Definition answered (k : TaskKind) (c : IpAddr) (r : option Backend) : task_pc :=
  match k, r with
  | KDns, _ => TReplied c r
  | _, Some b => TConnect c b
  | _, None => TClosed
  end.

(** The next access of a task that does not wait for the network. *)
Definition task_step (now : instant) (s : service) (cached : option GeoInfo) (pc : task_pc)
    : option (service * task_pc) :=
  match pc with
  | TAccepted KDns c =>
      Some (s, TLookup KDns c (if is_loopback c then None else g ← geo_resolver; geo_resolve g c))
  | TAccepted k c =>
      Some (s, if is_loopback c
               then match cached with Some g => TLookup k c (Some g) | None => TFetching k c end
               else TLookup k c (resolve_geo s c))
  | TLookup k c g =>
      Some (s, match binding_get (ps_binding_repo s) (mkClientKey c) with
               | Some bd => TTouch k c g (bd_backend_id bd)
               | None => TList k c g
               end)
  | TTouch k c g id =>
      Some (with_bindings s (binding_touch_key now (ps_binding_repo s) (mkClientKey c)), TVerify k c g id)
  | TVerify k c g id =>
      Some (s, match get_by_id (ps_backend_repo s) id with
               | Some b => if be_healthy b then answered k c (Some b) else TRemove k c g
               | None => TRemove k c g
               end)
  | TRemove k c g =>
      Some (with_bindings s (binding_remove (ps_binding_repo s) (mkClientKey c)), TList k c g)
  | TList k c g =>
      Some (s, match get_healthy (ps_backend_repo s) with
               | [] => answered k c None
               | bs => TScan k c g (filter (fun b => be_healthy b = true) bs) None
               end)
  | TScan k c g (b :: todo) best =>
      Some (s, TScan k c g todo (pick_step (ps_local_region s) g (get_connection_count (ps_metrics s)) best b))
  | TScan k c g [] best =>
      Some (s, match best with Some (b, _) => TBind k c b | None => answered k c None end)
  | TBind k c b =>
      Some (with_bindings s (binding_set (ps_binding_repo s) (mkClientKey c) (binding_new now (be_id b))),
            answered k c (Some b))
  | TUnbind c => Some (clear_binding s c, TClosed)
  | TStart id rtt_ms => Some (record_connection_start s id, TRtt id rtt_ms)
  | TRtt id rtt_ms => Some (ps_record_rtt s id rtt_ms, TCopy id)
  | TFetching _ _ | TConnect _ _ | TCopy _ | TReplied _ _ | TClosed => None
  end.

Definition exec (l : label R) (st : state) : option state :=
  match l with
  | LAccept n k c =>
      match es_tasks st !! n with None => Some (with_task st n (TAccepted k c)) | Some _ => None end
  | LStep n now =>
      pc ← es_tasks st !! n;
      '(s, pc') ← task_step now (es_service st)
                    (match pc with TAccepted k _ => public_ip_geo st k | _ => None end) pc;
      Some (with_task (with_service st s) n pc')
  | LFetched n public_ip =>
      match es_tasks st !! n with
      | Some (TFetching k c) =>
          let geo_info := ip ← public_ip; g ← geo_resolver; geo_resolve g ip in
          let st := match geo_info with Some _ => cache_geo st k geo_info | None => st end in
          Some (with_task st n (TLookup k c geo_info))
      | _ => None
      end
  | LConnected n rtt_ms =>
      match es_tasks st !! n with
      | Some (TConnect c b) => Some (with_task st n (TStart (be_id b) rtt_ms))
      | _ => None
      end
  | LConnectFailed n =>
      match es_tasks st !! n with
      | Some (TConnect c b) => Some (with_task st n (TUnbind c))
      | _ => None
      end
  | LCopied n =>
      match es_tasks st !! n with
      | Some (TCopy id) => Some (with_task (with_service st (record_connection_end (es_service st) id)) n TClosed)
      | _ => None
      end
  | LReload r =>
      let s := es_service st in
      Some (with_service st (mkProxy r (ps_binding_repo s) (ps_geo_resolver s) (ps_metrics s) (ps_local_region s)))
  | LGather k now ttl =>
      match binding_get (ps_binding_repo (es_service st)) k with
      | Some bd =>
          if binding_expired now ttl bd
          then Some (mkEdge (es_service st) (es_tcp_geo st) (es_tls_geo st) (k :: es_gathered st) (es_tasks st))
          else None
      | None => None
      end
  | LDrop k =>
      if decide (k ∈ es_gathered st) then
        let s := es_service st in
        Some (mkEdge (with_bindings s (binding_remove (ps_binding_repo s) k)) (es_tcp_geo st) (es_tls_geo st)
                (filter (fun k' => k' ≠ k) (es_gathered st)) (es_tasks st))
      else None
  end.

Fixpoint run (ls : list (label R)) (st : state) : option state :=
  match ls with
  | [] => Some st
  | l :: ls' => st' ← exec l st; run ls' st'
  end.

(** A step whose label is allowed in its state. *)
Definition edge_step (ok : state → label R → Prop) : relation state :=
  λ st st', ∃ l, ok st l ∧ exec l st = Some st'.

Lemma run_rtc (ok : state → label R → Prop) ls st st' :
  Forall (λ l, ∀ st, ok st l) ls → run ls st = Some st' → rtc (edge_step ok) st st'.
Proof.
  intros Hok. revert st. induction Hok as [|l ls Hl Hls IH]; intros st; simpl; [intros [= ->]; apply rtc_refl|].
  destruct (exec l st) as [st1|] eqn:Hex; simpl; [|done]. intros Hr.
  eapply rtc_l; [|by apply IH]. by exists l.
Qed.

Lemma run_app ls1 ls2 st : run (ls1 ++ ls2) st = st' ← run ls1 st; run ls2 st'.
Proof.
  revert st. induction ls1 as [|l ls1 IH]; intros st; simpl; [done|].
  destruct (exec l st); simpl; [apply IH|done].
Qed.

(** ** Termination *)

(** How far a task is from its end: stages, and the candidates left to score. *)
Definition task_rank (pc : task_pc) : nat * nat :=
  match pc with
  | TAccepted _ _ => (13, 0)
  | TFetching _ _ => (12, 0)
  | TLookup _ _ _ => (11, 0)
  | TTouch _ _ _ _ => (10, 0)
  | TVerify _ _ _ _ => (9, 0)
  | TRemove _ _ _ => (8, 0)
  | TList _ _ _ => (7, 0)
  | TScan _ _ _ todo _ => (6, length todo)
  | TBind _ _ _ => (5, 0)
  | TConnect _ _ => (4, 0)
  | TStart _ _ => (3, 0)
  | TRtt _ _ => (2, 0)
  | TUnbind _ | TCopy _ => (1, 0)
  | TReplied _ _ | TClosed => (0, 0)
  end%nat.

Definition rank_lt (a b : nat * nat) : Prop :=
  (fst a < fst b)%nat ∨ (fst a = fst b ∧ (snd a < snd b)%nat).

Lemma rank_lt_wf : well_founded rank_lt.
Proof.
  intros [a b]. revert b. induction (lt_wf a) as [a _ IHa]. intros b.
  induction (lt_wf b) as [b _ IHb]. constructor. intros [a' b'] [Hlt|[Heq Hlt]]; simpl in *.
  - by apply IHa.
  - subst a'. by apply IHb.
Qed.

Lemma rank_lt_irrefl a : ¬ rank_lt a a.
Proof. unfold rank_lt. lia. Qed.

Lemma answered_rank k c r : (fst (task_rank (answered k c r)) <= 4)%nat.
Proof. destruct k, r; simpl; lia. Qed.

Lemma task_step_rank now s cached pc s' pc' :
  task_step now s cached pc = Some (s', pc') → rank_lt (task_rank pc') (task_rank pc).
Proof.
  assert (∀ k c r a b, (4 < a)%nat → rank_lt (task_rank (answered k c r)) (a, b)) as Hans.
  { intros k c r a b Ha. left. pose proof (answered_rank k c r). simpl. lia. }
  destruct pc as [k c|k c|k c g|k c g i|k c g i|k c g|k c g|k c g [|b todo] best|k c b|c b|c|i r|i r|i|c b|]; simpl;
    [destruct k; simpl|..]; intros Hst; simplify_eq;
    repeat case_match; simplify_eq; try (apply Hans; simpl; lia); try (left; simpl; lia).
  right. simpl. lia.
Qed.

(** A label moves the tasks it names down, and no other. *)
Lemma exec_rank l (st st' : state) n pc pc' :
  exec l st = Some st' → es_tasks st !! n = Some pc → es_tasks st' !! n = Some pc' →
  pc' = pc ∨ rank_lt (task_rank pc') (task_rank pc).
Proof.
  assert (∀ m q q' (ts : gmap nat task_pc), ts !! m = Some q → rank_lt (task_rank q') (task_rank q) →
    ts !! n = Some pc → <[m := q']> ts !! n = Some pc' → pc' = pc ∨ rank_lt (task_rank pc') (task_rank pc)) as Hins.
  { intros m q q' ts Hm Hlt Hn. rewrite lookup_insert. case_decide; subst.
    - intros [= <-]. right. congruence.
    - intros Hn'. left. congruence. }
  intros Hex Hn Hn'. destruct l as [m k c|m now|m ip|m rtt|m|m|r|k now ttl|k]; simpl in Hex.
  - destruct (es_tasks st !! m) eqn:Hm; simplify_eq/=.
    rewrite lookup_insert_ne in Hn' by congruence. left. congruence.
  - destruct (es_tasks st !! m) as [q|] eqn:Hm; simpl in Hex; [|done].
    destruct (task_step _ _ _ q) as [[s q']|] eqn:Hs; simplify_eq/=.
    apply task_step_rank in Hs. eapply Hins; [exact Hm|exact Hs|exact Hn|exact Hn'].
  - destruct (es_tasks st !! m) as [[]|] eqn:Hm; simplify_eq.
    destruct (_ ≫= _), k; simpl in Hn'; (eapply Hins; [exact Hm| |exact Hn|exact Hn']); left; simpl; lia.
  - destruct (es_tasks st !! m) as [[]|] eqn:Hm; simplify_eq/=.
    eapply Hins; [exact Hm| |exact Hn|exact Hn']. left. simpl. lia.
  - destruct (es_tasks st !! m) as [[]|] eqn:Hm; simplify_eq/=.
    eapply Hins; [exact Hm| |exact Hn|exact Hn']. left. simpl. lia.
  - destruct (es_tasks st !! m) as [[]|] eqn:Hm; simplify_eq/=.
    eapply Hins; [exact Hm| |exact Hn|exact Hn']. left. simpl. lia.
  - simplify_eq/=. left. congruence.
  - repeat case_match; simplify_eq/=. left. congruence.
  - repeat case_match; simplify_eq/=. left. congruence.
Qed.

(** A task that waits for the network, and one that is over. *)
Definition waiting (pc : task_pc) : bool :=
  match pc with TFetching _ _ | TConnect _ _ | TCopy _ => true | _ => false end.

(** The steps that are due at a phase: the answers to what the task waits for, or
    else its own next step. *)
Definition due (n : nat) (pc : task_pc) (l : label R) : Prop :=
  match pc, l with
  | TFetching _ _, LFetched m _ | TConnect _ _, (LConnected m _ | LConnectFailed m) | TCopy _, LCopied m => m = n
  | (TFetching _ _ | TConnect _ _ | TCopy _), _ => False
  | _, LStep m _ => m = n
  | _, _ => False
  end.

Definition over (pc : task_pc) : bool :=
  match pc with TReplied _ _ | TClosed => true | _ => false end.

Lemma task_step_total now s cached pc :
  waiting pc = false → over pc = false → is_Some (task_step now s cached pc).
Proof.
  destruct pc as [k c|k c|k c g|k c g i|k c g i|k c g|k c g|k c g [|b todo] best|k c b|c b|c|i r|i r|i|c b|]; simpl;
    try discriminate; eauto. destruct k; eauto.
Qed.

(** One phase of some task turning into another, by any step of the system. *)
Definition phase_move (pc' pc : task_pc) : Prop :=
  ∃ l (st st' : state) n, exec l st = Some st' ∧ es_tasks st !! n = Some pc ∧
    es_tasks st' !! n = Some pc' ∧ pc' ≠ pc.

Lemma phase_move_wf : well_founded phase_move.
Proof.
  apply (wf_projected rank_lt task_rank); [|apply rank_lt_wf].
  intros pc' pc (l & st & st' & n & Hex & Hn & Hn' & Hne).
  by destruct (exec_rank _ _ _ _ _ _ Hex Hn Hn').
Qed.

(** The two phases that write the metrics. *)
Definition records (pc : task_pc) : bool :=
  match pc with TStart _ _ | TRtt _ _ => true | _ => false end.

(** What a step of a task does to the service: everything but the two metrics
    phases leaves the metrics alone; nothing changes the backends or the region. *)
Lemma task_step_frame now s cached pc s' pc' :
  task_step now s cached pc = Some (s', pc') →
  ps_backend_repo s' = ps_backend_repo s ∧ ps_local_region s' = ps_local_region s ∧
  ps_geo_resolver s' = ps_geo_resolver s ∧
  (records pc = false → ps_metrics s' = ps_metrics s).
Proof.
  destruct pc as [k c|k c|k c g|k c g i|k c g i|k c g|k c g|k c g [|b todo] best|k c b|c b|c|i r|i r|i|c b|]; simpl;
    [destruct k; simpl|..]; intros Hst; by simplify_eq/=.
Qed.

(** ** Connection counts *)

(** A task counted for a backend: between the start and the end it records. *)
Definition counted (id : string) (pc : task_pc) : bool :=
  match pc with TRtt id' _ | TCopy id' => String.eqb id' id | _ => false end.

Definition counted_tasks (id : string) (ts : gmap nat task_pc) : Z :=
  Z.of_nat (size (filter (fun kv => counted id (snd kv) = true) ts)).

Lemma counted_insert id n pc (ts : gmap nat task_pc) :
  counted_tasks id (<[n := pc]> ts) =
    counted_tasks id ts + (if counted id pc then 1 else 0)
    - match ts !! n with Some old => if counted id old then 1 else 0 | None => 0 end.
Proof.
  unfold counted_tasks. rewrite (size_filter_insert (fun kv => counted id (snd kv) = true)). simpl.
  destruct (ts !! n) as [old|]; [destruct (counted id old)|]; destruct (counted id pc); repeat case_decide; done.
Qed.

Lemma counted_bounds id (ts : gmap nat task_pc) : 0 <= counted_tasks id ts <= Z.of_nat (size ts).
Proof.
  unfold counted_tasks. split; [lia|]. apply inj_le. apply map_subseteq_size, map_filter_subseteq.
Qed.

Lemma counted_pos id n pc (ts : gmap nat task_pc) :
  ts !! n = Some pc → counted id pc = true → 0 < counted_tasks id ts.
Proof.
  intros Hn Hc. pose proof (counted_insert id n TClosed ts) as Hi. rewrite Hn, Hc in Hi. simpl in Hi.
  pose proof (counted_bounds id (<[n := TClosed]> ts)). lia.
Qed.

Lemma counted_room id n pc (ts : gmap nat task_pc) :
  ts !! n = Some pc → counted id pc = false → counted_tasks id ts + 1 <= Z.of_nat (size ts).
Proof.
  intros Hn Hc. pose proof (counted_bounds id (<[n := TCopy id]> ts)) as Hb.
  rewrite counted_insert, Hn, Hc, map_size_insert_Some in Hb by eauto. simpl in Hb.
  rewrite String.eqb_refl in Hb. lia.
Qed.

Definition counts_exact (st : state) : Prop :=
  ∀ id, get_connection_count (ps_metrics (es_service st)) id = counted_tasks id (es_tasks st).

(** A phase change of a task that is counted neither before nor after. *)
Lemma counts_exact_quiet (st : state) s m n pc q :
  counts_exact st → es_tasks st !! n = Some q → es_tasks m = <[n := pc]> (es_tasks st) →
  es_service m = s → ps_metrics s = ps_metrics (es_service st) →
  (∀ id, counted id pc = false) → (∀ id, counted id q = false) → counts_exact m.
Proof.
  intros Hag Hn Hts Hs Hm Hpc Hq id. rewrite Hs, Hts, Hm, counted_insert, Hn, Hpc, Hq, Hag. lia.
Qed.

Lemma counted_answered id k c r : counted id (answered k c r) = false.
Proof. by destruct k, r. Qed.

(** A step of a task that records nothing: it is not counted before or after. *)
Lemma task_step_counted now s cached pc s' pc' id :
  task_step now s cached pc = Some (s', pc') →
  records pc = false → counted id pc' = false ∧ counted id pc = false.
Proof.
  destruct pc as [k c|k c|k c g|k c g i|k c g i|k c g|k c g|k c g [|b todo] best|k c b|c b|c|i r|i r|i|c b|]; simpl;
    [destruct k; simpl|..]; intros Hst Hr; simplify_eq/=; split; try done;
    repeat case_match; simplify_eq/=; try done; apply counted_answered.
Qed.

Context `{!MetricsStoreLaws M}.

Lemma counts_exact_start (st : state) n id rtt :
  Z.of_nat (size (es_tasks st)) < 2 ^ 64 → counts_exact st → es_tasks st !! n = Some (TStart id rtt) →
  counts_exact (with_task (with_service st (record_connection_start (es_service st) id)) n (TRtt id rtt)).
Proof.
  intros Hsize Hag Hn id'. simpl. rewrite count_increment, counted_insert, Hn, Hag. simpl.
  pose proof (counted_bounds id' (es_tasks st)).
  pose proof (counted_room id' n _ _ Hn eq_refl).
  case_decide as Hid; subst.
  - rewrite String.eqb_refl, wrap_small by (unfold in_range; lia). lia.
  - rewrite (proj2 (String.eqb_neq _ _)) by done. lia.
Qed.

Lemma counts_exact_end (st : state) n id :
  counts_exact st → es_tasks st !! n = Some (TCopy id) →
  counts_exact (with_task (with_service st (record_connection_end (es_service st) id)) n TClosed).
Proof.
  intros Hag Hn id'. simpl. rewrite count_decrement, counted_insert, Hn, Hag. simpl.
  case_decide as Hid; subst.
  - rewrite String.eqb_refl. assert (0 < counted_tasks id' (es_tasks st)).
    { eapply counted_pos; [exact Hn|]. simpl. apply String.eqb_refl. }
    rewrite (proj2 (Z.ltb_lt _ _)) by done. lia.
  - rewrite (proj2 (String.eqb_neq _ _)) by done. lia.
Qed.

Lemma counts_exact_task_step (st : state) n now cached q s q' :
  Z.of_nat (size (es_tasks st)) < 2 ^ 64 → counts_exact st → es_tasks st !! n = Some q →
  task_step now (es_service st) cached q = Some (s, q') →
  counts_exact (with_task (with_service st s) n q').
Proof.
  intros Hsize Hag Hn Hs. destruct (records q) eqn:Hr.
  - destruct q; simplify_eq/=; [by apply counts_exact_start|].
    intros id'. simpl. rewrite count_record_rtt, counted_insert, Hn, Hag. simpl. lia.
  - pose proof (task_step_frame _ _ _ _ _ _ Hs) as (_ & _ & _ & Hm).
    apply (counts_exact_quiet st s _ n q' q); auto; intros id; apply (task_step_counted _ _ _ _ _ _ id Hs Hr).
Qed.

Lemma counts_exact_exec l (st st' : state) :
  Z.of_nat (size (es_tasks st)) < 2 ^ 64 → counts_exact st → exec l st = Some st' → counts_exact st'.
Proof.
  intros Hsize Hag Hex. destruct l as [n k c|n now|n ip|n rtt|n|n|r|k now ttl|k]; simpl in Hex.
  - destruct (es_tasks st !! n) eqn:Hn; simplify_eq/=. intros id. simpl.
    rewrite counted_insert, Hn, Hag. simpl. lia.
  - destruct (es_tasks st !! n) as [q|] eqn:Hn; simpl in Hex; [|done].
    destruct (task_step _ _ _ q) as [[s q']|] eqn:Hs; simplify_eq/=.
    by eapply counts_exact_task_step.
  - destruct (es_tasks st !! n) as [[]|] eqn:Hn; simplify_eq.
    destruct (_ ≫= _), k; by eapply (counts_exact_quiet st (es_service st)); [exact Hag|exact Hn|reflexivity|..].
  - destruct (es_tasks st !! n) as [[]|] eqn:Hn; simplify_eq.
    by eapply (counts_exact_quiet st (es_service st)); [exact Hag|exact Hn|reflexivity|..].
  - destruct (es_tasks st !! n) as [[]|] eqn:Hn; simplify_eq.
    by eapply (counts_exact_quiet st (es_service st)); [exact Hag|exact Hn|reflexivity|..].
  - destruct (es_tasks st !! n) as [[]|] eqn:Hn; simplify_eq. by apply counts_exact_end.
  - simplify_eq. exact Hag.
  - repeat case_match; simplify_eq. exact Hag.
  - repeat case_match; simplify_eq. exact Hag.
Qed.

Lemma exec_size l (st st' : state) : exec l st = Some st' → (size (es_tasks st) <= size (es_tasks st'))%nat.
Proof.
  assert (∀ n pc (ts : gmap nat task_pc), (size ts <= size (<[n := pc]> ts))%nat) as Hins.
  { intros. rewrite map_size_insert. unfold id. case_match; lia. }
  destruct l as [n k c|n now|n ip|n rtt|n|n|r|k now ttl|k]; simpl; intros Hex.
  2: { destruct (es_tasks st !! n); simpl in Hex; [|done].
       destruct (task_step _ _ _ _) as [[]|]; simplify_eq/=. apply Hins. }
  2: { destruct (es_tasks st !! n) as [[]|]; simplify_eq. destruct (_ ≫= _), k; apply Hins. }
  all: repeat case_match; simplify_eq/=; first [apply Hins|lia].
Qed.

Lemma counts_exact_rtc ok (st st' : state) :
  rtc (edge_step ok) st st' → Z.of_nat (size (es_tasks st')) < 2 ^ 64 → counts_exact st → counts_exact st'.
Proof.
  induction 1 as [|a b c (l & _ & Hab) Hbc IH]; [done|]. intros Hsize Hag. apply IH; [done|].
  assert (size (es_tasks b) <= size (es_tasks c))%nat.
  { clear -Hbc. induction Hbc as [|x y z (l & _ & Hxy)]; [lia|]. apply exec_size in Hxy. lia. }
  pose proof (exec_size _ _ _ Hab). eapply counts_exact_exec; [|done..]. lia.
Qed.

(** ** Where answers come from *)

Context `{!BackendRepositoryLaws R, !BindingRepositoryLaws B}.

Section sound.
Context (P : Backend → Prop).

Definition sound_backend (b : Backend) : Prop := be_healthy b = true ∧ P b.

(** The backends a task holds. *)
Definition sound_pc (pc : task_pc) : Prop :=
  match pc with
  | TScan _ _ _ todo best =>
      Forall sound_backend todo ∧ (∀ b sc, best = Some (b, sc) → sound_backend b)
  | TBind _ _ b | TConnect _ b | TReplied _ (Some b) => sound_backend b
  | _ => True
  end.

Definition sound_bindings (m : B) : Prop :=
  ∀ k bd, binding_get m k = Some bd → ∃ b, be_id b = bd_backend_id bd ∧ sound_backend b.

Definition sound_state (st : state) : Prop :=
  (∀ b, b ∈ get_all (ps_backend_repo (es_service st)) → P b) ∧
  sound_bindings (ps_binding_repo (es_service st)) ∧
  ∀ n pc, es_tasks st !! n = Some pc → sound_pc pc.

Lemma sound_answered k c r : (∀ b, r = Some b → sound_backend b) → sound_pc (answered k c r).
Proof. intros Hr. destruct k, r; simpl; auto. Qed.

Lemma sound_get_healthy r b :
  (∀ b, b ∈ get_all r → P b) → b ∈ get_healthy r → sound_backend b.
Proof. intros HP [Hh Hin]%elem_of_get_healthy. split; auto. Qed.

Lemma sound_pick_step lr g cnt best b :
  (∀ b sc, best = Some (b, sc) → sound_backend b) → sound_backend b →
  ∀ b' sc, pick_step lr g cnt best b = Some (b', sc) → sound_backend b'.
Proof.
  intros Hbest Hb b' sc. unfold pick_step. repeat case_match; intros; simplify_eq; eauto.
Qed.

Lemma sound_remove m k : sound_bindings m → sound_bindings (binding_remove m k).
Proof. intros Hm k' bd. rewrite binding_get_remove. case_decide; [done|]. apply Hm. Qed.

Lemma sound_touch now m k : sound_bindings m → sound_bindings (binding_touch_key now m k).
Proof.
  intros Hm k' bd. rewrite binding_get_touch. case_decide; [|apply Hm].
  destruct (binding_get m k') as [bd'|] eqn:Hk; simpl; [|done]. intros [= <-]. by apply Hm in Hk.
Qed.

Lemma sound_set now m k b : sound_bindings m → sound_backend b →
  sound_bindings (binding_set m k (binding_new now (be_id b))).
Proof.
  intros Hm Hb k' bd. rewrite binding_get_set. case_decide; [|apply Hm]. intros [= <-]. by exists b.
Qed.

Lemma sound_task_step now s cached pc s' pc' :
  (∀ b, b ∈ get_all (ps_backend_repo s) → P b) → sound_bindings (ps_binding_repo s) → sound_pc pc →
  task_step now s cached pc = Some (s', pc') →
  sound_bindings (ps_binding_repo s') ∧ sound_pc pc'.
Proof.
  intros Hrepo Hbind Hpc.
  destruct pc as [k c|k c|k c g|k c g i|k c g i|k c g|k c g|k c g [|b todo] best|k c b|c b|c|i r|i r|i|c b|]; simpl;
    [destruct k; simpl|..]; intros Hst; simplify_eq/=;
    (split; [by auto using sound_remove, sound_touch, sound_set|]); try done;
    try (repeat case_match; done).
  - destruct (get_by_id _ i) as [b|] eqn:Hb; [|done]. destruct (be_healthy b) eqn:Hh; [|done].
    apply sound_answered. intros ? [= <-]. apply get_by_id_Some in Hb as [Hin _]. split; auto.
  - destruct (get_healthy _) as [|b bs] eqn:Hbs; [by apply sound_answered|]. split; [|done].
    rewrite <-Hbs. apply Forall_forall. intros b' [_ Hin]%list_elem_of_filter.
    by eapply sound_get_healthy.
  - destruct Hpc as [_ Hbest]. destruct best as [[b sc]|]; [by eapply Hbest|by apply sound_answered].
  - destruct Hpc as [[Hb Htodo]%Forall_cons Hbest]. split; [done|]. by apply sound_pick_step.
  - apply sound_answered. by intros ? [= <-].
Qed.

Lemma sound_tasks_insert (ts : gmap nat task_pc) n pc :
  (∀ n pc, ts !! n = Some pc → sound_pc pc) → sound_pc pc →
  ∀ n' pc', <[n := pc]> ts !! n' = Some pc' → sound_pc pc'.
Proof. intros Hts Hpc n' pc'. rewrite lookup_insert. case_decide; [by intros [= <-]|apply Hts]. Qed.

Lemma sound_exec l (st st' : state) :
  sound_state st → (∀ r, l = LReload r → ∀ b, b ∈ get_all r → P b) → exec l st = Some st' → sound_state st'.
Proof.
  intros (Hrepo & Hbind & Hts) Hl Hex.
  destruct l as [n k c|n now|n ip|n rtt|n|n|r|k now ttl|k]; simpl in Hex.
  - destruct (es_tasks st !! n); simplify_eq/=. split_and!; [done|done|]. by apply sound_tasks_insert.
  - destruct (es_tasks st !! n) as [q|] eqn:Hn; simpl in Hex; [|done].
    destruct (task_step _ _ _ q) as [[s q']|] eqn:Hs; simplify_eq/=.
    pose proof (task_step_frame _ _ _ _ _ _ Hs) as (Hr & _).
    apply sound_task_step in Hs as [Hb Hq]; [|done|done|by eapply Hts].
    split_and!; simpl; [by rewrite Hr|done|by apply sound_tasks_insert].
  - destruct (es_tasks st !! n) as [[]|]; simplify_eq.
    destruct (_ ≫= _), k; (split_and!; [done|done|by apply sound_tasks_insert]).
  - destruct (es_tasks st !! n) as [[]|]; simplify_eq. split_and!; [done|done|by apply sound_tasks_insert].
  - destruct (es_tasks st !! n) as [[]|]; simplify_eq. split_and!; [done|done|by apply sound_tasks_insert].
  - destruct (es_tasks st !! n) as [[]|]; simplify_eq. split_and!; [done|done|by apply sound_tasks_insert].
  - simplify_eq. split_and!; [by apply Hl|done|done].
  - repeat case_match; simplify_eq. by split_and!.
  - repeat case_match; simplify_eq. split_and!; [done| |done]. by apply sound_remove.
Qed.
End sound.

(** ** Affinity *)

(** A task of client [c] between its lookup of the binding and its answer, or
    about to unbind the client. *)
Definition resolving (c : IpAddr) (pc : task_pc) : bool :=
  match pc with
  | TTouch _ c' _ _ | TVerify _ c' _ _ | TRemove _ c' _ | TList _ c' _ | TScan _ c' _ _ _
  | TBind _ c' _ | TUnbind c' => bool_decide (c' = c)
  | _ => false
  end.

(** The backend a task has been given for client [c]. *)
Definition answer_of (c : IpAddr) (pc : task_pc) : option Backend :=
  match pc with
  | TConnect c' b | TReplied c' (Some b) => if decide (c' = c) then Some b else None
  | _ => None
  end.

(** Labels that leave the binding of [c] to [id] alone: the backend stays listed
    and healthy, the collector does not remove the binding, and no connection of
    the client fails to connect. *)
Definition undisturbed (c : IpAddr) (id : string) (st : state) (l : label R) : Prop :=
  match l with
  | LReload r => ∃ b, get_by_id r id = Some b ∧ be_healthy b = true
  | LDrop k => k ≠ mkClientKey c
  | LConnectFailed n => ∀ b, es_tasks st !! n ≠ Some (TConnect c b)
  | _ => True
  end.

Definition bound_to (c : IpAddr) (id : string) (s : service) : Prop :=
  bd_backend_id <$> binding_get (ps_binding_repo s) (mkClientKey c) = Some id ∧
  ∃ b, get_by_id (ps_backend_repo s) id = Some b ∧ be_healthy b = true.

(** What holds of the tasks of the client from the start state [st0] on. *)
Definition affine_pc (c : IpAddr) (id : string) (old : option task_pc) (pc : task_pc) : Prop :=
  match pc with
  | TTouch _ c' _ i | TVerify _ c' _ i => c' = c → i = id
  | TRemove _ c' _ | TList _ c' _ | TScan _ c' _ _ _ | TBind _ c' _ | TUnbind c' => c' ≠ c
  | _ => ∀ b, answer_of c pc = Some b → be_id b = id ∨ old = Some pc
  end.

Definition affine (c : IpAddr) (id : string) (st0 st : state) : Prop :=
  bound_to c id (es_service st) ∧
  ∀ n pc, es_tasks st !! n = Some pc → affine_pc c id (es_tasks st0 !! n) pc.

Lemma bound_to_bindings c id s m :
  bound_to c id s →
  bd_backend_id <$> binding_get m (mkClientKey c) =
    bd_backend_id <$> binding_get (ps_binding_repo s) (mkClientKey c) →
  bound_to c id (with_bindings s m).
Proof. intros [Hb Hr] Hm. split; [by rewrite <-Hb|done]. Qed.

Lemma client_key_ne c c' : c' ≠ c → mkClientKey c' ≠ mkClientKey c.
Proof. congruence. Qed.

Lemma affine_answered c id old k c' b : (c' = c → be_id b = id) → affine_pc c id old (answered k c' (Some b)).
Proof. intros Hb. destruct k; simpl; intros b'; case_decide; intros; simplify_eq; auto. Qed.

Lemma affine_answered_other c id old k c' r : c' ≠ c → affine_pc c id old (answered k c' r).
Proof. intros Hc. destruct k, r; simpl; try done; intros b'; by rewrite decide_False. Qed.

Lemma affine_task_step c id old now s cached pc s' pc' :
  bound_to c id s → affine_pc c id old pc → task_step now s cached pc = Some (s', pc') →
  bound_to c id s' ∧ affine_pc c id old pc'.
Proof.
  intros Hbound Hpc.
  destruct pc as [k c'|k c'|k c' g|k c' g i|k c' g i|k c' g|k c' g|k c' g [|b todo] best|k c' b|c' b|c'|i r|i r|i|c' b|]; simpl in *;
    [destruct k; simpl|..]; intros Hst; simplify_eq/=; try (by (split; [done|]); repeat case_match).
  - split; [done|]. destruct Hbound as [Hb _].
    destruct (decide (c' = c)) as [->|Hne].
    + destruct (binding_get _ _) as [bd|]; simplify_eq/=. done.
    + destruct (binding_get _ (mkClientKey c')); [by intros ?|done].
  - split; [|done]. apply bound_to_bindings; [done|]. rewrite binding_get_touch. case_decide; [|done].
    by destruct (binding_get _ _).
  - split; [done|]. destruct (decide (c' = c)) as [->|Hne].
    + rewrite Hpc by done. destruct Hbound as [_ (b & Hb & Hh)]. rewrite Hb, Hh. apply affine_answered.
      by apply get_by_id_Some in Hb as [_ ?].
    + repeat case_match; simpl; try done; by apply affine_answered_other.
  - split; [|done]. apply bound_to_bindings; [done|]. by rewrite binding_get_remove, decide_False by by apply client_key_ne.
  - split; [done|]. destruct (get_healthy _); [by apply affine_answered_other|done].
  - split; [done|]. destruct best as [[b sc]|]; [done|by apply affine_answered_other].
  - split; [|by apply affine_answered_other]. apply bound_to_bindings; [done|].
    by rewrite binding_get_set, decide_False by by apply client_key_ne.
  - split; [|done]. apply bound_to_bindings; [done|]. by rewrite binding_get_remove, decide_False by by apply client_key_ne.
Qed.

Lemma affine_insert c id (ts0 ts : gmap nat task_pc) n pc :
  (∀ n pc, ts !! n = Some pc → affine_pc c id (ts0 !! n) pc) → affine_pc c id (ts0 !! n) pc →
  ∀ n' pc', <[n := pc]> ts !! n' = Some pc' → affine_pc c id (ts0 !! n') pc'.
Proof. intros Hts Hpc n' pc'. rewrite lookup_insert. case_decide; [subst; by intros [= <-]|apply Hts]. Qed.

Lemma affine_exec c id st0 l (st st' : state) :
  affine c id st0 st → undisturbed c id st l → exec l st = Some st' → affine c id st0 st'.
Proof.
  intros [Hbound Hts] Hl Hex.
  destruct l as [n k c'|n now|n ip|n rtt|n|n|r|k now ttl|k]; simpl in Hex, Hl.
  - destruct (es_tasks st !! n); simplify_eq/=. split; [done|]. by apply affine_insert.
  - destruct (es_tasks st !! n) as [q|] eqn:Hn; simpl in Hex; [|done].
    destruct (task_step _ _ _ q) as [[s q']|] eqn:Hs; simplify_eq/=.
    eapply affine_task_step in Hs as [Hb Hq]; [|done|by apply Hts].
    split; [done|]. simpl. by apply affine_insert.
  - destruct (es_tasks st !! n) as [[]|]; simplify_eq.
    destruct (_ ≫= _), k; (split; [done|by apply affine_insert]).
  - destruct (es_tasks st !! n) as [[]|]; simplify_eq. split; [done|by apply affine_insert].
  - destruct (es_tasks st !! n) as [[]|] eqn:Hn; simplify_eq. split; [done|]. apply affine_insert; [done|].
    simpl. intros ->. by apply (Hl b).
  - destruct (es_tasks st !! n) as [[]|]; simplify_eq. split; [done|by apply affine_insert].
  - simplify_eq. destruct Hbound as [Hb _]. by split.
  - repeat case_match; simplify_eq. by split.
  - repeat case_match; simplify_eq. split; [|done]. apply bound_to_bindings; [done|].
    by rewrite binding_get_remove, decide_False.
Qed.

(** ** The sequential handlers are runs *)

(** Task [n] alone, with the service it leaves. *)
Definition at_task (st : state) (n : nat) (s : service) (pc : task_pc) : state :=
  with_task (with_service st s) n pc.

Lemma exec_at_task st n s pc now s' pc' :
  (∀ k c, pc ≠ TAccepted k c) → task_step now s None pc = Some (s', pc') →
  exec (LStep n now) (at_task st n s pc) = Some (at_task st n s' pc').
Proof.
  intros Hpc Hs. unfold exec, at_task. simpl. rewrite lookup_insert_eq. simpl.
  assert (match pc with TAccepted k _ => public_ip_geo (with_task (with_service st s) n pc) k | _ => None end = None)
    as -> by (destruct pc as [k c| | | | | | | | | | | | | | |]; try done; by destruct (Hpc k c)).
  rewrite Hs. simpl. unfold with_task, with_service; simpl. by rewrite insert_insert_eq.
Qed.

(** The labels of [LStep n] at given clock readings. *)
Definition steps (n : nat) (ts : list instant) : list (label R) := LStep n <$> ts.

(** A step of task [n] alone, with the network as [env] has it. *)
Definition own_label (n : nat) (env : NetEnv) (l : label R) : Prop :=
  match l with
  | LStep m _ | LConnectFailed m | LCopied m => m = n
  | LFetched m public_ip => m = n ∧ public_ip = env_public_ip env
  | LConnected m rtt_ms => m = n ∧ rtt_ms = env_rtt_ms env
  | LAccept _ _ _ | LReload _ | LGather _ _ _ | LDrop _ => False
  end.

Lemma own_steps n env ts : Forall (own_label n env) (steps n ts).
Proof. apply Forall_fmap, Forall_true. done. Qed.

Lemma steps_app n ts1 ts2 : steps n (ts1 ++ ts2) = steps n ts1 ++ steps n ts2.
Proof. apply fmap_app. Qed.

Lemma run_at_task st n s pc now s' pc' ls r :
  (∀ k c, pc ≠ TAccepted k c) → task_step now s None pc = Some (s', pc') →
  run (steps n ls) (at_task st n s' pc') = r →
  run (steps n (now :: ls)) (at_task st n s pc) = r.
Proof. intros Hpc Hs <-. change (steps n (now :: ls)) with (LStep n now :: steps n ls). cbn [run]. by rewrite (exec_at_task st n s pc now s' pc'). Qed.

(** The scan loop is [pick_backend]'s fold. *)
Lemma run_scan st n s k c g t todo best :
  run (steps n (replicate (length todo) t)) (at_task st n s (TScan k c g todo best)) =
    Some (at_task st n s (TScan k c g []
      (foldl (pick_step (ps_local_region s) g (get_connection_count (ps_metrics s))) best todo))).
Proof.
  revert best. induction todo as [|b todo IH]; intros best; [done|].
  eapply run_at_task; [done|done|]. apply IH.
Qed.

(** From the listing on: the fresh choice is made and bound. *)
Lemma run_fresh st n s k c g t_new :
  ∃ ts, run (steps n ts) (at_task st n s (TList k c g)) =
    Some (match fresh_choice s g with
          | Some b => at_task st n (with_bindings s (binding_set (ps_binding_repo s) (mkClientKey c)
                        (binding_new t_new (be_id b)))) (answered k c (Some b))
          | None => at_task st n s (answered k c None)
          end).
Proof.
  unfold fresh_choice, pick_backend. destruct (get_healthy (ps_backend_repo s)) as [|b0 bs] eqn:Hh.
  { exists [0]. eapply run_at_task; [done|simpl; by rewrite Hh|done]. }
  set (todo := filter (fun b => be_healthy b = true) (b0 :: bs)).
  pose proof (run_scan st n s k c g 0 todo None) as Hscan.
  destruct (foldl _ None todo) as [[b sc]|]; simpl.
  - exists (0 :: replicate (length todo) 0 ++ [0; t_new]).
    eapply run_at_task; [done|simpl; by rewrite Hh|]. fold todo.
    rewrite steps_app, run_app, Hscan. cbn [mbind option_bind].
    eapply run_at_task; [done|done|]. eapply run_at_task; [done|done|]. done.
  - exists (0 :: replicate (length todo) 0 ++ [0]).
    eapply run_at_task; [done|simpl; by rewrite Hh|]. fold todo.
    rewrite steps_app, run_app, Hscan. cbn [mbind option_bind].
    eapply run_at_task; [done|done|]. done.
Qed.

(** A resolution left alone is [resolve_backend_with_geo]. *)
Lemma run_resolution st n s k c g t_touch t_new :
  ∃ ts, let '(s', r) := resolve_backend_with_geo t_touch t_new s c g in
    run (steps n ts) (at_task st n s (TLookup k c g)) = Some (at_task st n s' (answered k c r)).
Proof.
  rewrite resolve_with_geo_eq. cbv zeta. unfold bound_backend, drop_stale.
  destruct (binding_get (ps_binding_repo s) (mkClientKey c)) as [bd|] eqn:Hbd; simpl.
  2: { destruct (run_fresh st n s k c g t_new) as [ts Hts]. exists (0 :: ts).
       destruct (fresh_choice s g); (eapply run_at_task; [done|simpl; by rewrite Hbd|exact Hts]). }
  set (s1 := with_bindings s (binding_touch_key t_touch (ps_binding_repo s) (mkClientKey c))).
  destruct (get_by_id (ps_backend_repo s) (bd_backend_id bd)) as [b|] eqn:Hb; simpl;
    [destruct (be_healthy b) eqn:Hh; simpl|].
  - exists [0; t_touch; 0].
    eapply run_at_task; [done|simpl; by rewrite Hbd|]. eapply run_at_task; [done|done|].
    eapply run_at_task; [done|simpl; by rewrite Hb, Hh|done].
  - destruct (run_fresh st n (with_bindings s (binding_remove (ps_binding_repo s1) (mkClientKey c)))
      k c g t_new) as [ts Hts]. exists (0 :: t_touch :: 0 :: 0 :: ts).
    change (fresh_choice (with_bindings s _) g) with (fresh_choice s g) in Hts.
    destruct (fresh_choice s g); (
      eapply run_at_task; [done|simpl; by rewrite Hbd|]; eapply run_at_task; [done|done|];
      eapply run_at_task; [done|simpl; by rewrite Hb, Hh|]; eapply run_at_task; [done|done|exact Hts]).
  - destruct (run_fresh st n (with_bindings s (binding_remove (ps_binding_repo s1) (mkClientKey c)))
      k c g t_new) as [ts Hts]. exists (0 :: t_touch :: 0 :: 0 :: ts).
    change (fresh_choice (with_bindings s _) g) with (fresh_choice s g) in Hts.
    destruct (fresh_choice s g); (
      eapply run_at_task; [done|simpl; by rewrite Hbd|]; eapply run_at_task; [done|done|];
      eapply run_at_task; [done|simpl; by rewrite Hb|]; eapply run_at_task; [done|done|exact Hts]).
Qed.

(** The geo lookup of a connection. *)
Lemma run_accept (st : state) n k c env :
  k ≠ KDns → es_tasks st !! n = Some (TAccepted k c) →
  let '(cache', g) := client_geo_of env (es_service st) geo_resolver (public_ip_geo st k) c in
  ∃ ls, Forall (own_label n env) ls ∧
    run ls st = Some (at_task (cache_geo st k cache') n (es_service st) (TLookup k c g)).
Proof.
  intros Hk Hn. unfold client_geo_of, resolve_localhost_geo.
  assert (∀ g, public_ip_geo st k = g → cache_geo st k g = st) as Hsame by (destruct st, k; simpl; by intros ? <-).
  assert (∀ q, task_step 0 (es_service st) (public_ip_geo st k) (TAccepted k c) = Some (es_service st, q) →
    exec (LStep n 0) st = Some (at_task st n (es_service st) q)) as Hstep.
  { intros q Hq. unfold exec. rewrite Hn. cbn [mbind option_bind]. by rewrite Hq. }
  assert (task_step 0 (es_service st) (public_ip_geo st k) (TAccepted k c) = Some (es_service st,
    if is_loopback c then match public_ip_geo st k with Some g => TLookup k c (Some g) | None => TFetching k c end
    else TLookup k c (resolve_geo (es_service st) c))) as Hq by by destruct k.
  specialize (Hstep _ Hq). destruct (is_loopback c) eqn:Hl.
  2: { exists [LStep n 0]. split; [by repeat constructor|]. cbn [run]. rewrite Hstep. cbn [mbind option_bind]. by rewrite Hsame. }
  destruct (public_ip_geo st k) as [g|] eqn:Hg.
  { exists [LStep n 0]. split; [by repeat constructor|]. cbn [run]. rewrite Hstep. cbn [mbind option_bind]. by rewrite Hsame. }
  destruct (env_public_ip env) as [ip|] eqn:Hip; exists [LStep n 0; LFetched n (env_public_ip env)];
    (split; [by repeat constructor|]); cbn [run]; rewrite Hstep; cbn [mbind option_bind]; unfold exec, at_task; simpl; rewrite lookup_insert_eq;
    rewrite Hip; cbn [mbind option_bind]; [destruct (geo_resolver ≫= _)|];
    destruct st, k; simpl in *; try done; unfold with_task, with_service; simpl; rewrite ?insert_insert_eq; congruence.
Qed.

Lemma at_task_again st n s s' pc pc' :
  with_task (with_service (at_task st n s pc) s') n pc' = at_task st n s' pc'.
Proof. unfold at_task, with_task; simpl. by rewrite insert_insert_eq. Qed.

Lemma exec_connected st n s c b rtt_ms :
  exec (LConnected n rtt_ms) (at_task st n s (TConnect c b)) = Some (at_task st n s (TStart (be_id b) rtt_ms)).
Proof. unfold exec. simpl. rewrite lookup_insert_eq. f_equal. apply (at_task_again st n s s). Qed.

Lemma exec_connect_failed st n s c b :
  exec (LConnectFailed n) (at_task st n s (TConnect c b)) = Some (at_task st n s (TUnbind c)).
Proof. unfold exec. simpl. rewrite lookup_insert_eq. f_equal. apply (at_task_again st n s s). Qed.

Lemma exec_copied st n s id :
  exec (LCopied n) (at_task st n s (TCopy id)) = Some (at_task st n (record_connection_end s id) TClosed).
Proof. unfold exec. simpl. rewrite lookup_insert_eq. f_equal. apply (at_task_again st n s). Qed.

(** From the answer to the end of a connection. *)
Lemma run_answered (st : state) n s k c r env :
  k ≠ KDns →
  ∃ ls, Forall (own_label n env) ls ∧ run ls (at_task st n s (answered k c r)) = Some (at_task st n
    (match r with
     | None => s
     | Some b =>
         match env_connect env (format_backend_addr b) with
         | Err _ => clear_binding s c
         | Ok _ => record_connection_end
             (ps_record_rtt (record_connection_start s (be_id b)) (be_id b) (env_rtt_ms env)) (be_id b)
         end
     end) TClosed).
Proof.
  intros Hk. destruct r as [b|]; [|exists []; split; [done|by destruct k]].
  assert (answered k c (Some b) = TConnect c b) as -> by by destruct k.
  destruct (env_connect env (format_backend_addr b)).
  - exists ([LConnected n (env_rtt_ms env)] ++ steps n [0; 0] ++ [LCopied n]). split; [by repeat constructor|].
    rewrite run_app. cbn [run]. rewrite exec_connected. cbn [mbind option_bind].
    rewrite run_app. erewrite (run_at_task st n s); [|done|done|].
    2: { eapply run_at_task; [done|done|reflexivity]. }
    change (run (steps n []) ?x) with (Some x). cbn [run mbind option_bind]. by rewrite exec_copied.
  - exists ([LConnectFailed n] ++ steps n [0]). split; [by repeat constructor|].
    rewrite run_app. cbn [run]. rewrite exec_connect_failed. cbn [mbind option_bind].
    by eapply run_at_task.
Qed.

(** ** Properties *)

(** C6: connection accounting at the grain of single accesses. From a server
    without connections and with zero counters, whatever the tasks of the three
    front ends, the reloads and the collector do, access by access, in whatever
    order, the count the load balancer reads for a backend is the number of
    connections between their recorded start and their recorded end. *)
Theorem connection_counts_exact (s : service) g1 g2 (st : state) id :
  (∀ i, get_connection_count (ps_metrics s) i = 0) →
  rtc (edge_step (λ _ _, True)) (mkEdge s g1 g2 [] ∅) st →
  Z.of_nat (size (es_tasks st)) < 2 ^ 64 →
  get_connection_count (ps_metrics (es_service st)) id = counted_tasks id (es_tasks st).
Proof.
  intros Hzero Hrtc Hsize. eapply counts_exact_rtc; [exact Hrtc|exact Hsize|].
  intros i. simpl. rewrite Hzero. unfold counted_tasks. by rewrite map_filter_empty.
Qed.

(** Answers are sound in every interleaving: a backend a connection or a DNS
    query has been given was healthy in a list the repository held (take for [P]
    membership in one of those lists, or any property all of them have), and every
    binding names such a backend, although lists are replaced and bindings removed
    between any two accesses of a resolution. *)
Lemma answers_sound P (s : service) g1 g2 (st : state) :
  (∀ b, b ∈ get_all (ps_backend_repo s) → P b) →
  (∀ k, binding_get (ps_binding_repo s) k = None) →
  rtc (edge_step (λ _ l, ∀ r, l = LReload r → ∀ b, b ∈ get_all r → P b)) (mkEdge s g1 g2 [] ∅) st →
  (∀ n c b, es_tasks st !! n = Some (TConnect c b) ∨ es_tasks st !! n = Some (TReplied c (Some b)) →
     be_healthy b = true ∧ P b) ∧
  (∀ c bd, binding_get (ps_binding_repo (es_service st)) c = Some bd →
     ∃ b, be_id b = bd_backend_id bd ∧ be_healthy b = true ∧ P b).
Proof.
  intros HP Hnone Hrtc.
  assert (sound_state P st) as (_ & Hb & Hts).
  { eapply rtc_invariant; [|exact Hrtc|].
    - intros a b Ha (l & Hl & Hex). by eapply sound_exec.
    - split_and!; [done| |]; simpl; [intros k bd; by rewrite Hnone|intros n pc; by rewrite lookup_empty]. }
  split; [|exact Hb]. intros n c b [Hn|Hn]; exact (Hts _ _ Hn).
Qed.

(** C9: affinity under interleaving. While the bound backend of a client stays
    listed and healthy, its binding is not collected and none of its connections
    fails to connect, every answer the client gets, in any interleaving with
    other clients, reloads and collections, is the bound backend, provided no
    resolution of this client was half way when the binding was made; and the
    client stays bound to it. *)
Theorem affinity_interleaved c id (st st' : state) :
  bound_to c id (es_service st) →
  (∀ n pc, es_tasks st !! n = Some pc → resolving c pc = false) →
  rtc (edge_step (undisturbed c id)) st st' →
  bound_to c id (es_service st') ∧
  ∀ n pc b, es_tasks st' !! n = Some pc → answer_of c pc = Some b →
    be_id b = id ∨ es_tasks st !! n = Some pc.
Proof.
  intros Hbound Hquiet Hrtc.
  assert (affine c id st st') as [Hb Hts].
  { eapply rtc_invariant; [|exact Hrtc|].
    - intros a b Ha (l & Hl & Hex). by eapply affine_exec.
    - split; [done|]. intros n pc Hn. specialize (Hquiet n pc Hn).
      destruct pc; simpl in *; try done; try (by apply bool_decide_eq_false in Hquiet); eauto.
  }
  split; [done|]. intros n pc b Hn Ha. specialize (Hts n pc Hn).
  destruct pc; simpl in *; try done; by eapply Hts.
Qed.

(** C20: every connection and every query ends. No sequence of steps moves a task
    for ever, however long the backend lists and however often they are replaced:
    the relation between a task's successive phases is well founded. And a task
    that has not ended is never stuck: unless it waits for the network it can take
    its next step by itself, at any clock reading, and if it waits, the network has
    an answer and any answer moves it on (a fetched address or none, a connection
    made or failed, a copy that has ended). *)
Theorem tasks_terminate :
  well_founded phase_move ∧
  ∀ (st : state) n pc, es_tasks st !! n = Some pc → over pc = false →
    (∃ l, due n pc l) ∧
    ∀ l, due n pc l → ∃ st' pc', exec l st = Some st' ∧ es_tasks st' !! n = Some pc' ∧ phase_move pc' pc.
Proof.
  split; [apply phase_move_wf|]. intros st n pc Hn Hov. split.
  { unfold due. destruct pc; try done; try (by exists (LStep n 0)).
    - by exists (LFetched n None).
    - by exists (LConnectFailed n).
    - by exists (LCopied n). }
  assert (∀ l st' pc', exec l st = Some st' → es_tasks st' !! n = Some pc' → rank_lt (task_rank pc') (task_rank pc) →
    ∃ st' pc', exec l st = Some st' ∧ es_tasks st' !! n = Some pc' ∧ phase_move pc' pc) as Hgo.
  { intros l st' pc' Hex Hn' Hlt. exists st', pc'. split_and!; try done. exists l, st, st', n.
    split_and!; try done. intros ->. by apply rank_lt_irrefl in Hlt. }
  intros l Hdue. destruct (waiting pc) eqn:Hw.
  - destruct pc, l; try done; simpl in Hdue; subst.
    + eapply Hgo; [by simpl; rewrite Hn|apply lookup_insert_eq|left; simpl; lia].
    + eapply Hgo; [by simpl; rewrite Hn|apply lookup_insert_eq|left; simpl; lia].
    + eapply Hgo; [by simpl; rewrite Hn|apply lookup_insert_eq|left; simpl; lia].
    + eapply Hgo; [by simpl; rewrite Hn|apply lookup_insert_eq|left; simpl; lia].
  - assert (∃ now, l = LStep n now) as [now ->] by (destruct pc, l; try done; simpl in Hdue; subst; eauto).
    set (cached := match pc with TAccepted k _ => public_ip_geo st k | _ => None end).
    destruct (task_step_total now (es_service st) cached pc Hw Hov) as [[s pc'] Hs].
    eapply Hgo; [simpl; rewrite Hn; simpl; fold cached; by rewrite Hs|apply lookup_insert_eq|].
    by eapply task_step_rank.
Qed.
End edge.

(** ** Types of the deployed state

    The composition of [main.rs]: SQLite backends, DashMap bindings and metrics. *)

Section types.
Context `{SqlDb D} {G : Type} `{!GeoResolver G} (geo_resolver : option G).
#[local] Abbreviation state :=
  (edge_state SqliteBackendRepository DashMapBindingRepository DashMapMetricsStore G).

Definition metrics_wf (m : DashMapMetricsStore) : Prop :=
  ∀ id e, dm_metrics m !! id = Some e → in_range 64 (dm_current_conns e) ∧ in_range 64 (dm_last_rtt_ms e).

Definition rtt_wf (pc : task_pc) : Prop :=
  match pc with TStart _ rtt | TRtt _ rtt => in_range 64 rtt | _ => True end.

(** Every integer of the state holds a value of its Rust type. *)
Definition edge_wf (st : state) : Prop :=
  sound_state backend_wf st ∧ in_range 64 (sq_version (ps_backend_repo (es_service st))) ∧
  metrics_wf (ps_metrics (es_service st)) ∧ ∀ n pc, es_tasks st !! n = Some pc → rtt_wf pc.

(** The sync loop's turns on what the database and the runtime give it; an
    elapsed time cast to [u64]. *)
Definition label_wf (st : state) (l : label SqliteBackendRepository) : Prop :=
  match l with
  | LReload r => ∃ join_ok (db : D), r = sqlite_sync_turn (ps_backend_repo (es_service st)) (spawn_load join_ok db)
  | LConnected _ rtt_ms => in_range 64 rtt_ms
  | _ => True
  end.

Lemma sqlite_sync_turn_wf r join_ok (db : D) :
  (∀ b, b ∈ sq_backends r → backend_wf b) → in_range 64 (sq_version r) →
  let r' := sqlite_sync_turn r (spawn_load join_ok db) in
  (∀ b, b ∈ sq_backends r' → backend_wf b) ∧ in_range 64 (sq_version r').
Proof.
  intros Hb Hv. unfold sqlite_sync_turn, spawn_load, load_from_sqlite.
  destruct join_ok; [|done]. destruct (sql_open db); simpl; [|done].
  destruct (sql_select_backends db) as [rows|]; simpl; [|done].
  destruct (collect_results row_to_backend rows) as [bs|] eqn:Hc; simpl; [|done].
  split; [|by apply wrap_range]. intros b Hin. apply collect_results_Ok in Hc.
  apply list_elem_of_lookup in Hin as [i Hi].
  destruct (Forall2_lookup_r _ _ _ _ _ Hc Hi) as (row & _ & Hrow). by eapply row_to_backend_wf.
Qed.

Lemma metrics_wf_entry m id f :
  metrics_wf m →
  (∀ e, in_range 64 (dm_current_conns e) → in_range 64 (dm_last_rtt_ms e) →
     in_range 64 (dm_current_conns (f e)) ∧ in_range 64 (dm_last_rtt_ms (f e))) →
  metrics_wf (dm_with_entry m id f).
Proof.
  intros Hm Hf id' e. simpl. rewrite lookup_insert. case_decide; [|apply Hm].
  intros [= <-]. destruct (dm_metrics m !! id) as [e|] eqn:He; simpl.
  - apply Hm in He as [? ?]. by apply Hf.
  - apply Hf; unfold in_range; simpl; lia.
Qed.

Lemma metrics_wf_decrement m id : metrics_wf m → metrics_wf (dm_decrement_connections m id).
Proof.
  intros Hm. unfold dm_decrement_connections. destruct (dm_metrics m !! id) as [e0|] eqn:He; [|done].
  apply Hm in He as [Hc Hr]. intros id' e. simpl. rewrite lookup_insert. case_decide; [|apply Hm].
  intros [= <-]. simpl. split; [|done]. rewrite dec_loop_eq. unfold in_range in *.
  destruct (Z.ltb_spec 0 (dm_current_conns e0)); lia.
Qed.

Lemma metrics_wf_task_step now s cached pc s' pc' :
  metrics_wf (ps_metrics s) → rtt_wf pc →
  task_step (R := SqliteBackendRepository) (B := DashMapBindingRepository) (M := DashMapMetricsStore)
    geo_resolver now s cached pc = Some (s', pc') →
  metrics_wf (ps_metrics s') ∧ rtt_wf pc'.
Proof.
  intros Hm Hpc.
  destruct pc as [k c|k c|k c g|k c g i|k c g i|k c g|k c g|k c g [|b todo] best|k c b|c b|c|i r|i r|i|c b|]; simpl;
    [destruct k; simpl|..]; intros Hst; simplify_eq/=; (split; [try done|try by repeat case_match]).
  - destruct (sq_get_by_id _ i) as [b|]; [destruct (be_healthy b)|]; [by destruct k|done|done].
  - destruct (sq_get_healthy _); [by destruct k|done].
  - destruct best as [[b sc]|]; [done|by destruct k].
  - by destruct k.
  - apply metrics_wf_entry; [done|]. intros e ? ?. split; [by apply wrap_range|done].
  - by apply metrics_wf_entry.
Qed.

Lemma rtt_wf_insert (ts : gmap nat task_pc) n pc :
  (∀ n pc, ts !! n = Some pc → rtt_wf pc) → rtt_wf pc →
  ∀ n' pc', <[n := pc]> ts !! n' = Some pc' → rtt_wf pc'.
Proof. intros Hts Hpc n' pc'. rewrite lookup_insert. case_decide; [by intros [= <-]|apply Hts]. Qed.

Lemma edge_wf_exec l (st st' : state) :
  edge_wf st → label_wf st l → exec geo_resolver l st = Some st' → edge_wf st'.
Proof.
  intros (Hsound & Hv & Hm & Hts) Hl Hex.
  assert (sound_state backend_wf st') as Hsound'.
  { refine (sound_exec geo_resolver backend_wf l st st' Hsound _ Hex). intros r ->. destruct Hl as (j & db & ->).
    intros b Hb. by eapply (sqlite_sync_turn_wf _ j db (proj1 Hsound) Hv). }
  split; [done|]. clear Hsound'.
  destruct l as [n k c|n now|n ip|n rtt|n|n|r|k now ttl|k]; simpl in Hex, Hl.
  - destruct (es_tasks st !! n); simplify_eq/=. split_and!; [done|done|by apply rtt_wf_insert].
  - destruct (es_tasks st !! n) as [q|] eqn:Hn; simpl in Hex; [|done].
    destruct (task_step _ _ _ _ q) as [[s q']|] eqn:Hs; simplify_eq/=.
    pose proof (task_step_frame _ _ _ _ _ _ _ Hs) as (Hr & _).
    apply metrics_wf_task_step in Hs as [Hm' Hq]; [|done|by eapply Hts].
    split_and!; [by rewrite Hr|done|by apply rtt_wf_insert].
  - destruct (es_tasks st !! n) as [[]|]; simplify_eq.
    destruct (_ ≫= _), k; (split_and!; [done|done|by apply rtt_wf_insert]).
  - destruct (es_tasks st !! n) as [[]|]; simplify_eq. split_and!; [done|done|by apply rtt_wf_insert].
  - destruct (es_tasks st !! n) as [[]|]; simplify_eq. split_and!; [done|done|by apply rtt_wf_insert].
  - destruct (es_tasks st !! n) as [[]|]; simplify_eq.
    split_and!; [done|by apply metrics_wf_decrement|by apply rtt_wf_insert].
  - simplify_eq. destruct Hl as (j & db & ->).
    split_and!; [by apply (sqlite_sync_turn_wf _ j db (proj1 Hsound) Hv)|done|done].
  - repeat case_match; simplify_eq. by split_and!.
  - repeat case_match; simplify_eq. by split_and!.
Qed.

(** The deployed state stays well typed, whatever the rows of the database
    hold: from the empty repositories, in every interleaving, every backend that
    is listed, being scored, bound or connected to has a [u16] port, a [u8]
    weight and [u32] limits, and every counter and round-trip time is a [u64];
    so no arithmetic of the load balancer meets a value outside its type. *)
Lemma edge_well_typed region g1 g2 (st : state) :
  rtc (edge_step geo_resolver label_wf)
    (mkEdge (mkProxy sqlite_new binding_repo_new geo_resolver dm_store_new region) g1 g2 [] ∅) st →
  (∀ b, b ∈ get_all (ps_backend_repo (es_service st)) → backend_wf b) ∧
  (∀ n pc, es_tasks st !! n = Some pc → sound_pc backend_wf pc ∧ rtt_wf pc) ∧
  (∀ id, in_range 64 (get_connection_count (ps_metrics (es_service st)) id)) ∧
  (∀ id rtt, get_last_rtt (ps_metrics (es_service st)) id = Some rtt → in_range 64 rtt) ∧
  in_range 64 (get_version (ps_backend_repo (es_service st))).
Proof.
  intros Hrtc.
  assert (edge_wf st) as ((Hb & _ & Hpc) & Hv & Hm & Hts).
  { eapply rtc_invariant; [|exact Hrtc|].
    - intros a b Ha (l & Hl & Hex). by eapply edge_wf_exec.
    - split_and!; simpl; try done; try (by intros ? ?; rewrite lookup_empty).
      split_and!; simpl; [by intros b ?%elem_of_nil|by intros ? ?|by intros ? ?; rewrite lookup_empty]. }
  split_and!; [done|naive_solver| | |done].
  - intros id. simpl. unfold dm_get_connection_count.
    destruct (dm_metrics _ !! id) as [e|] eqn:He; simpl; [by eapply Hm|unfold in_range; lia].
  - intros id rtt. simpl. unfold dm_get_last_rtt.
    destruct (dm_metrics _ !! id) as [e|] eqn:He; simpl; [|done]. intros [= <-]. by eapply Hm.
Qed.
End types.

(** ** Two connections of one client, and witnesses *)

#[local] Abbreviation EdgeState :=
  (edge_state SqliteBackendRepository DashMapBindingRepository DashMapMetricsStore MaxMindGeoResolver).
#[local] Abbreviation EdgeLabel := (label SqliteBackendRepository).

Definition second_backend : Backend :=
  mkBackend "b2" "app" SouthAmerica "BR" "10.0.0.2" 8080 true 2 100 100.

Definition race_service : EdgeService :=
  mkProxy (mkSqliteRepo [example_backend; second_backend] 1) binding_repo_new None
    dm_store_new SouthAmerica.

Definition race_start : EdgeState := mkEdge race_service None None [] ∅.

Definition race_client : IpAddr := V4 16909060.

(** The second connection has found no binding before the first one makes its
    own; it lists and scores after the first one is counted. *)
Definition race_labels : list EdgeLabel :=
  [LAccept 0%nat KTcp race_client; LAccept 1%nat KTcp race_client] ++
  steps 0%nat [1; 2] ++ steps 1%nat [3; 4] ++
  steps 0%nat [5; 6; 7; 8; 9] ++ [LConnected 0%nat 3] ++ steps 0%nat [10; 11] ++
  steps 1%nat [12; 13; 14; 15; 16].

(** Affinity does not hold between connections of one client that overlap:
    two connections may be given two backends, and the binding that stays is that
    of whichever bound last, not of the connection that was first; if the later
    one then fails to connect it unbinds the client although the first connection
    is being proxied. *)
Lemma concurrent_connections_diverge :
  ∃ st1 st2 : EdgeState,
    run None race_labels race_start = Some st1 ∧
    es_tasks st1 !! 0%nat = Some (TCopy "b1") ∧
    es_tasks st1 !! 1%nat = Some (TConnect race_client second_backend) ∧
    bd_backend_id <$> binding_get (ps_binding_repo (es_service st1)) (mkClientKey race_client) = Some "b2" ∧
    run None (LConnectFailed 1%nat :: steps 1%nat [17]) st1 = Some st2 ∧
    es_tasks st2 !! 0%nat = Some (TCopy "b1") ∧
    binding_get (ps_binding_repo (es_service st2)) (mkClientKey race_client) = None.
Proof.
  eexists _, _. split; [vm_compute; reflexivity|]. split; [vm_compute; reflexivity|].
  split; [vm_compute; reflexivity|]. split; [vm_compute; reflexivity|].
  split; [vm_compute; reflexivity|]. split; vm_compute; reflexivity.
Qed.

(** Two clients, and a backend that takes one connection.  The second client's
    resolution reads the count before the first connection is recorded. *)
Definition limit_start : EdgeState :=
  mkEdge (mkProxy (mkSqliteRepo [example_backend] 1) binding_repo_new None dm_store_new SouthAmerica) None None [] ∅.

Definition limit_labels : list EdgeLabel :=
  [LAccept 0%nat KTcp (V4 1); LAccept 1%nat KTcp (V4 2)] ++
  steps 0%nat [1; 2; 3; 4; 5; 6] ++ steps 1%nat [1; 2; 3; 4; 5; 6] ++
  [LConnected 0%nat 3; LConnected 1%nat 4] ++ steps 0%nat [7; 8] ++ steps 1%nat [7; 8].

(** The count is read when a backend is chosen and written when the connection to it
    is up, so overlapping connections can exceed [hard_limit]. *)
Lemma hard_limit_overshoot :
  be_hard_limit example_backend = 1 ∧
  ∃ st : EdgeState, run None limit_labels limit_start = Some st ∧
    es_tasks st !! 0%nat = Some (TCopy "b1") ∧ es_tasks st !! 1%nat = Some (TCopy "b1") ∧
    ps_get_connection_count (es_service st) "b1" = 2.
Proof.
  split; [done|]. eexists. split; [vm_compute; reflexivity|]. split; [vm_compute; reflexivity|].
  split; vm_compute; reflexivity.
Qed.

(** A first connection, with so many candidates to score. *)
Definition one_connection (candidates : nat) : list EdgeLabel :=
  LAccept 0%nat KTcp race_client :: steps 0%nat (replicate (5 + candidates) 1) ++
  LConnected 0%nat 3 :: steps 0%nat [8; 9].

Definition run_of (ls : list EdgeLabel) (st : EdgeState) : EdgeState := default st (run None ls st).

Lemma run_of_rtc (ok : EdgeState → EdgeLabel → Prop) ls st :
  Forall (λ l, ∀ st, ok st l) ls → bool_decide (is_Some (run None ls st)) = true →
  rtc (edge_step None ok) st (run_of ls st).
Proof.
  intros Hok Hrun. unfold run_of. apply bool_decide_eq_true in Hrun as [st' Hst'].
  rewrite Hst'. by eapply run_rtc.
Qed.

Lemma connection_counts_exact_witness :
  es_tasks (run_of (one_connection 2) race_start) !! 0%nat = Some (TCopy "b1") ∧
  get_connection_count (ps_metrics (es_service (run_of (one_connection 2) race_start))) "b1" =
    counted_tasks "b1" (es_tasks (run_of (one_connection 2) race_start)).
Proof.
  split; [vm_compute; reflexivity|].
  apply (connection_counts_exact None race_service None None).
  - intros i. reflexivity.
  - apply run_of_rtc; [|vm_compute; reflexivity]. repeat constructor.
  - vm_compute. reflexivity.
Defined.

Lemma answers_sound_witness :
  ∃ b, es_tasks (run_of race_labels race_start) !! 1%nat = Some (TConnect race_client b) ∧
    be_healthy b = true ∧ b ∈ [example_backend; second_backend].
Proof.
  exists second_backend. split; [vm_compute; reflexivity|].
  refine (proj1 (answers_sound None (λ b, b ∈ [example_backend; second_backend]) race_service None None
    (run_of race_labels race_start) _ _ _) 1%nat race_client second_backend _).
  - intros b Hb. exact Hb.
  - intros k. reflexivity.
  - apply run_of_rtc; [|vm_compute; reflexivity].
    repeat (apply Forall_cons; split; [intros st r; discriminate|]). apply Forall_nil. exact I.
  - left. vm_compute. reflexivity.
Defined.

(** A bound client connects again while another client does. *)
Definition bound_start : EdgeState := run_of (one_connection 2 ++ [LCopied 0%nat]) race_start.

Definition second_connections : list EdgeLabel :=
  [LAccept 1%nat KTcp race_client; LAccept 2%nat KTcp (V4 16909061)] ++
  steps 1%nat [20; 21] ++ steps 2%nat [22; 23] ++ steps 1%nat [24; 25] ++ steps 2%nat [26; 27; 28; 29; 30].

Lemma affinity_interleaved_witness :
  ∃ b, es_tasks (run_of second_connections bound_start) !! 1%nat = Some (TConnect race_client b) ∧ be_id b = "b1".
Proof.
  exists example_backend. split; [vm_compute; reflexivity|].
  destruct (affinity_interleaved None race_client "b1" bound_start (run_of second_connections bound_start)) as [_ H].
  - split; [vm_compute; reflexivity|]. exists example_backend. split; vm_compute; reflexivity.
  - intros n pc Hn. assert (es_tasks bound_start = {[0%nat := TClosed]}) as He by (vm_compute; reflexivity).
    rewrite He in Hn. apply lookup_singleton_Some in Hn as [_ <-]. reflexivity.
  - apply run_of_rtc; [|vm_compute; reflexivity].
    repeat (apply Forall_cons; split; [intros st; exact I|]). apply Forall_nil. exact I.
  - destruct (H 1%nat (TConnect race_client example_backend) example_backend) as [Hid|Hold];
      [vm_compute; reflexivity|vm_compute; reflexivity|exact Hid|].
    vm_compute in Hold. discriminate.
Defined.


Definition typed_start : EdgeState :=
  mkEdge (mkProxy sqlite_new binding_repo_new None dm_store_new SouthAmerica) None None [] ∅.

Definition typed_reload : EdgeState :=
  with_service typed_start (mkProxy (sqlite_sync_turn sqlite_new (spawn_load true example_db)) binding_repo_new None
    dm_store_new SouthAmerica).

Lemma edge_well_typed_witness :
  ∃ b, b ∈ get_all (ps_backend_repo (es_service (run_of (one_connection 1) typed_reload))) ∧ backend_wf b.
Proof.
  exists (mkBackend "b1" "app" SouthAmerica "BR" "10.0.0.1" 8080 true 2 100 150).
  split; [vm_compute; left|].
  refine (proj1 (edge_well_typed (D := MemDb) None SouthAmerica None None
    (run_of (one_connection 1) typed_reload) _) _ _); [|vm_compute; left].
  eapply rtc_l.
  - exists (LReload (sqlite_sync_turn sqlite_new (spawn_load true example_db))). split; [|reflexivity].
    exists true, example_db. reflexivity.
  - apply run_of_rtc; [|vm_compute; reflexivity].
    repeat (apply Forall_cons; split; [intros st; first [exact I|unfold label_wf, in_range; lia]|]).
    apply Forall_nil. exact I.
Defined.
