(* ===== verification/CircuitBreaker.v ===== *)
(** * Circuit breaker

    [src/src/infrastructure/circuit_breaker.rs].  The breaker is a map from
    backend id to a circuit of atomics (the state is stored as a [u32] code, as in
    the code); every operation reads the millisecond clock at most once, which is
    its [now] argument.  Operations are taken one at a time here; [CircuitRaces]
    interleaves the atomic accesses of calls on one circuit. *)

From S2P Require Import Prelude Text.

Record CircuitBreakerConfig := mkCbConfig {
  cb_failure_threshold : Z;   (* u32 *)
  cb_reset_timeout : duration;
  cb_success_threshold : Z;   (* u32 *)
  cb_failure_window : duration
}.

Definition cb_config_default : CircuitBreakerConfig :=
  mkCbConfig 5 (from_secs 30) 3 (from_secs 60).

Inductive CircuitState := CClosed | COpen | CHalfOpen.

#[export] Instance CircuitState_eq_dec : EqDecision CircuitState.
Proof. solve_decision. Defined.

Definition circuit_state_display (s : CircuitState) : string :=
  match s with CClosed => "closed" | COpen => "open" | CHalfOpen => "half-open" end.

Record BackendCircuit := mkCircuit {
  bc_state : Z;            (* AtomicU32: 0 = closed, 1 = open, other = half-open *)
  bc_failures : Z;         (* AtomicU32 *)
  bc_successes : Z;        (* AtomicU32 *)
  bc_opened_at_ms : Z;     (* AtomicU64 *)
  bc_last_failure_ms : Z   (* AtomicU64 *)
}.

Definition circuit_new : BackendCircuit := mkCircuit 0 0 0 0 0.

Definition circuit_get_state (c : BackendCircuit) : CircuitState :=
  if bc_state c =? 0 then CClosed else if bc_state c =? 1 then COpen else CHalfOpen.

Definition state_code (s : CircuitState) : Z :=
  match s with CClosed => 0 | COpen => 1 | CHalfOpen => 2 end.

Definition circuit_set_state (s : CircuitState) (c : BackendCircuit) : BackendCircuit :=
  mkCircuit (state_code s) (bc_failures c) (bc_successes c) (bc_opened_at_ms c) (bc_last_failure_ms c).
Definition set_failures (n : Z) (c : BackendCircuit) : BackendCircuit :=
  mkCircuit (bc_state c) n (bc_successes c) (bc_opened_at_ms c) (bc_last_failure_ms c).
Definition set_successes (n : Z) (c : BackendCircuit) : BackendCircuit :=
  mkCircuit (bc_state c) (bc_failures c) n (bc_opened_at_ms c) (bc_last_failure_ms c).
Definition set_opened_at (t : Z) (c : BackendCircuit) : BackendCircuit :=
  mkCircuit (bc_state c) (bc_failures c) (bc_successes c) t (bc_last_failure_ms c).
Definition set_last_failure (t : Z) (c : BackendCircuit) : BackendCircuit :=
  mkCircuit (bc_state c) (bc_failures c) (bc_successes c) (bc_opened_at_ms c) t.

(** [allow_request] on the circuit it looked up. *)
Definition circuit_allow (cfg : CircuitBreakerConfig) (now : Z) (c : BackendCircuit)
    : BackendCircuit * bool :=
  match circuit_get_state c with
  | CClosed => (c, true)
  | COpen =>
      let reset_timeout_ms := wrap 64 (as_millis (cb_reset_timeout cfg)) in
      if reset_timeout_ms <=? saturating_sub now (bc_opened_at_ms c)
      then (set_successes 0 (circuit_set_state CHalfOpen c), true)
      else (c, false)
  | CHalfOpen => (c, true)
  end.

(** [record_success] on the circuit. *)
Definition circuit_success (cfg : CircuitBreakerConfig) (c : BackendCircuit) : BackendCircuit :=
  match circuit_get_state c with
  | CHalfOpen =>
      let c1 := set_successes (bc_successes c +u32 1) c in
      let successes := bc_successes c +u32 1 in
      if cb_success_threshold cfg <=? successes
      then set_successes 0 (set_failures 0 (circuit_set_state CClosed c1))
      else c1
  | CClosed => set_failures 0 c
  | COpen => c
  end.

(** [record_failure] on the circuit. *)
Definition circuit_failure (cfg : CircuitBreakerConfig) (now : Z) (c : BackendCircuit)
    : BackendCircuit :=
  match circuit_get_state c with
  | CClosed =>
      let window_ms := wrap 64 (as_millis (cb_failure_window cfg)) in
      let c1 :=
        if window_ms <? saturating_sub now (bc_last_failure_ms c)
        then set_failures 1 c
        else
          let failures := bc_failures c +u32 1 in
          let c' := set_failures failures c in
          if cb_failure_threshold cfg <=? failures
          then set_opened_at now (circuit_set_state COpen c')
          else c' in
      set_last_failure now c1
  | CHalfOpen => set_successes 0 (set_opened_at now (circuit_set_state COpen c))
  | COpen => set_opened_at now c
  end.

Record CircuitBreaker := mkBreaker {
  cb_config : CircuitBreakerConfig;
  cb_circuits : gmap string BackendCircuit
}.

Definition breaker_new (cfg : CircuitBreakerConfig) : CircuitBreaker := mkBreaker cfg ∅.

(** [get_or_create]. *)
Definition cb_get_or_create (b : CircuitBreaker) (id : string) : CircuitBreaker * BackendCircuit :=
  match cb_circuits b !! id with
  | Some c => (b, c)
  | None => (mkBreaker (cb_config b) (<[id := circuit_new]> (cb_circuits b)), circuit_new)
  end.

Definition cb_store (b : CircuitBreaker) (id : string) (c : BackendCircuit) : CircuitBreaker :=
  mkBreaker (cb_config b) (<[id := c]> (cb_circuits b)).

Definition allow_request (now : Z) (b : CircuitBreaker) (id : string) : CircuitBreaker * bool :=
  let '(b, c) := cb_get_or_create b id in
  let '(c', ok) := circuit_allow (cb_config b) now c in
  (cb_store b id c', ok).

Definition record_success (b : CircuitBreaker) (id : string) : CircuitBreaker :=
  let '(b, c) := cb_get_or_create b id in
  cb_store b id (circuit_success (cb_config b) c).

Definition record_failure (now : Z) (b : CircuitBreaker) (id : string) : CircuitBreaker :=
  let '(b, c) := cb_get_or_create b id in
  cb_store b id (circuit_failure (cb_config b) now c).

Definition cb_get_state (b : CircuitBreaker) (id : string) : CircuitState :=
  default CClosed (circuit_get_state <$> cb_circuits b !! id).

Record CircuitMetrics := mkCbMetrics { cm_state : CircuitState; cm_failures : Z; cm_successes : Z }.

Definition cb_get_metrics (b : CircuitBreaker) (id : string) : CircuitMetrics :=
  match cb_circuits b !! id with
  | Some c => mkCbMetrics (circuit_get_state c) (bc_failures c) (bc_successes c)
  | None => mkCbMetrics CClosed 0 0
  end.

Definition cb_all_states (b : CircuitBreaker) : list (string * CircuitState) :=
  (fun kc => (fst kc, circuit_get_state (snd kc))) <$> map_to_list (cb_circuits b).

Definition cb_reset (b : CircuitBreaker) (id : string) : CircuitBreaker :=
  match cb_circuits b !! id with
  | Some c => cb_store b id (set_successes 0 (set_failures 0 (circuit_set_state CClosed c)))
  | None => b
  end.

Definition cb_clear_all (b : CircuitBreaker) : CircuitBreaker := mkBreaker (cb_config b) ∅.

(** ** Operations as a step function *)

Inductive cb_op :=
| OpAllow (id : string) (now : Z)
| OpSuccess (id : string)
| OpFailure (id : string) (now : Z)
| OpReset (id : string)
| OpClearAll.

Definition cb_apply (b : CircuitBreaker) (op : cb_op) : CircuitBreaker :=
  match op with
  | OpAllow id now => fst (allow_request now b id)
  | OpSuccess id => record_success b id
  | OpFailure id now => record_failure now b id
  | OpReset id => cb_reset b id
  | OpClearAll => cb_clear_all b
  end.

(** ** Invariant *)

(** Sensible thresholds: at least two failures, at least one success. *)
Definition cb_config_ok (cfg : CircuitBreakerConfig) : Prop :=
  2 <= cb_failure_threshold cfg < 2 ^ 32 ∧ 1 <= cb_success_threshold cfg < 2 ^ 32.

Definition circuit_inv (cfg : CircuitBreakerConfig) (c : BackendCircuit) : Prop :=
  0 <= bc_failures c ∧ 0 <= bc_successes c ∧
  match circuit_get_state c with
  | CClosed => bc_state c = 0 ∧ bc_failures c < cb_failure_threshold cfg ∧ bc_successes c = 0
  | COpen => bc_state c = 1 ∧ bc_failures c <= cb_failure_threshold cfg ∧ bc_successes c = 0
  | CHalfOpen => bc_state c = 2 ∧ bc_failures c <= cb_failure_threshold cfg ∧
                 bc_successes c < cb_success_threshold cfg
  end.

Definition breaker_inv (b : CircuitBreaker) : Prop :=
  ∀ id c, cb_circuits b !! id = Some c → circuit_inv (cb_config b) c.

Lemma circuit_state_cases c :
  (bc_state c = 0 ∧ circuit_get_state c = CClosed) ∨
  (bc_state c = 1 ∧ circuit_get_state c = COpen) ∨
  (bc_state c ≠ 0 ∧ bc_state c ≠ 1 ∧ circuit_get_state c = CHalfOpen).
Proof.
  unfold circuit_get_state.
  destruct (Z.eqb_spec (bc_state c) 0), (Z.eqb_spec (bc_state c) 1); auto; lia.
Qed.

Section circuit.
Context (cfg : CircuitBreakerConfig) (Hcfg : cb_config_ok cfg).

Lemma circuit_new_inv : circuit_inv cfg circuit_new.
Proof using Hcfg. destruct Hcfg. unfold circuit_inv; simpl. lia. Qed.

Lemma circuit_allow_inv now c : circuit_inv cfg c → circuit_inv cfg (fst (circuit_allow cfg now c)).
Proof using Hcfg.
  intros Hinv. unfold circuit_allow. destruct (circuit_get_state c) eqn:Hs; try done.
  case_match; [|done]. destruct Hinv as (? & ? & Hst). rewrite Hs in Hst.
  destruct Hcfg. unfold circuit_inv; simpl. lia.
Qed.

Lemma circuit_success_inv c : circuit_inv cfg c → circuit_inv cfg (circuit_success cfg c).
Proof using Hcfg.
  intros Hinv. pose proof Hinv as (? & ? & Hst). destruct Hcfg.
  unfold circuit_success. destruct (circuit_get_state c) eqn:Hs; [|done|].
  - unfold circuit_inv, set_failures, circuit_get_state in *; simpl. destruct Hst as (-> & ? & ?).
    simpl. lia.
  - destruct Hst as (Hc & ? & ?).
    assert (bc_successes c +u32 1 = bc_successes c + 1) as Hw
      by (apply wrap_small; unfold in_range; lia).
    case_match; zbool; unfold circuit_inv; simpl; [lia|].
    unfold circuit_get_state; simpl. rewrite Hc. simpl. lia.
Qed.

Lemma circuit_failure_inv now c : circuit_inv cfg c → circuit_inv cfg (circuit_failure cfg now c).
Proof using Hcfg.
  intros Hinv. pose proof Hinv as (? & ? & Hst). destruct Hcfg.
  unfold circuit_failure. destruct (circuit_get_state c) eqn:Hs.
  - destruct Hst as (Hc & ? & ?).
    assert (bc_failures c +u32 1 = bc_failures c + 1) as Hw
      by (apply wrap_small; unfold in_range; lia).
    repeat case_match; zbool; unfold circuit_inv, circuit_get_state; simpl; rewrite ?Hc; simpl; lia.
  - destruct Hst as (Hc & ? & ?). unfold circuit_inv, circuit_get_state; simpl. rewrite Hc. simpl. lia.
  - unfold circuit_inv; simpl. lia.
Qed.
End circuit.

(** ** The breaker, circuit by circuit *)

(** The circuit an operation on [id] works on. *)
Definition cb_lookup (b : CircuitBreaker) (id : string) : BackendCircuit :=
  default circuit_new (cb_circuits b !! id).

Lemma cb_get_state_lookup b id : cb_get_state b id = circuit_get_state (cb_lookup b id).
Proof. unfold cb_get_state, cb_lookup. by destruct (cb_circuits b !! id). Qed.

(** An operation that rewrites the circuit of [id] by [f] leaves the others. *)
Lemma cb_update_spec b id f :
  let '(b1, c) := cb_get_or_create b id in
  cb_config (cb_store b1 id (f c)) = cb_config b ∧ cb_config b1 = cb_config b ∧
  c = cb_lookup b id ∧
  ∀ id', cb_circuits (cb_store b1 id (f c)) !! id' =
    if decide (id = id') then Some (f (cb_lookup b id)) else cb_circuits b !! id'.
Proof.
  unfold cb_get_or_create, cb_lookup. destruct (cb_circuits b !! id) as [c|]; simpl;
    (split_and!; [done|done|done|]); intros id'; rewrite ?lookup_insert; by case_decide.
Qed.

Lemma allow_request_spec now b id :
  snd (allow_request now b id) = snd (circuit_allow (cb_config b) now (cb_lookup b id)) ∧
  cb_config (fst (allow_request now b id)) = cb_config b ∧
  ∀ id', cb_circuits (fst (allow_request now b id)) !! id' =
    if decide (id = id') then Some (fst (circuit_allow (cb_config b) now (cb_lookup b id)))
    else cb_circuits b !! id'.
Proof.
  pose proof (cb_update_spec b id (fun c => fst (circuit_allow (cb_config b) now c))) as H.
  unfold allow_request. destruct (cb_get_or_create b id) as [b1 c]. destruct H as (H1 & H2 & -> & H3).
  rewrite H2. destruct (circuit_allow (cb_config b) now (cb_lookup b id)). by split_and!.
Qed.

Lemma record_success_spec b id :
  cb_config (record_success b id) = cb_config b ∧
  ∀ id', cb_circuits (record_success b id) !! id' =
    if decide (id = id') then Some (circuit_success (cb_config b) (cb_lookup b id))
    else cb_circuits b !! id'.
Proof.
  pose proof (cb_update_spec b id (circuit_success (cb_config b))) as H.
  unfold record_success. destruct (cb_get_or_create b id) as [b1 c]. destruct H as (H1 & H2 & -> & H3).
  rewrite H2. by split.
Qed.

Lemma record_failure_spec now b id :
  cb_config (record_failure now b id) = cb_config b ∧
  ∀ id', cb_circuits (record_failure now b id) !! id' =
    if decide (id = id') then Some (circuit_failure (cb_config b) now (cb_lookup b id))
    else cb_circuits b !! id'.
Proof.
  pose proof (cb_update_spec b id (circuit_failure (cb_config b) now)) as H.
  unfold record_failure. destruct (cb_get_or_create b id) as [b1 c]. destruct H as (H1 & H2 & -> & H3).
  rewrite H2. by split.
Qed.

Lemma cb_lookup_insert b b' id f :
  (∀ id', cb_circuits b' !! id' = if decide (id = id') then Some (f (cb_lookup b id))
                                  else cb_circuits b !! id') →
  cb_lookup b' id = f (cb_lookup b id).
Proof. intros H. unfold cb_lookup at 1. by rewrite H, decide_True. Qed.

Lemma cb_lookup_inv b id : cb_config_ok (cb_config b) → breaker_inv b →
  circuit_inv (cb_config b) (cb_lookup b id).
Proof.
  intros Hcfg Hinv. unfold cb_lookup. destruct (cb_circuits b !! id) eqn:Hc; simpl; [by eapply Hinv|].
  by apply circuit_new_inv.
Qed.

(** Pointwise update by an invariant-preserving circuit function. *)
Lemma breaker_inv_update b b' id f :
  cb_config_ok (cb_config b) → breaker_inv b → cb_config b' = cb_config b →
  (∀ c, circuit_inv (cb_config b) c → circuit_inv (cb_config b) (f c)) →
  (∀ id', cb_circuits b' !! id' = if decide (id = id') then Some (f (cb_lookup b id))
                                  else cb_circuits b !! id') →
  breaker_inv b'.
Proof.
  intros Hcfg Hinv Hcf Hf Hlk id' c. rewrite Hlk, Hcf. case_decide; [|by apply Hinv].
  intros [= <-]. by apply Hf, cb_lookup_inv.
Qed.

Lemma cb_apply_inv b op : cb_config_ok (cb_config b) → breaker_inv b →
  breaker_inv (cb_apply b op) ∧ cb_config (cb_apply b op) = cb_config b.
Proof.
  intros Hcfg Hinv. destruct op as [id now|id|id now|id|]; simpl.
  - destruct (allow_request_spec now b id) as (_ & Hc & Hl). split; [|done].
    apply (breaker_inv_update b _ id (fun c => fst (circuit_allow (cb_config b) now c))); try done.
    intros c. by apply circuit_allow_inv.
  - destruct (record_success_spec b id) as (Hc & Hl). split; [|done].
    apply (breaker_inv_update b _ id (circuit_success (cb_config b))); try done.
    by apply circuit_success_inv.
  - destruct (record_failure_spec now b id) as (Hc & Hl). split; [|done].
    apply (breaker_inv_update b _ id (circuit_failure (cb_config b) now)); try done.
    intros c. by apply circuit_failure_inv.
  - unfold cb_reset. destruct (cb_circuits b !! id) as [c|] eqn:Hl; [|done]. split; [|done].
    intros id' c'. simpl. rewrite lookup_insert. case_decide; [|by apply Hinv].
    intros [= <-]. destruct Hcfg. unfold circuit_inv; simpl. lia.
  - split; [|done]. intros id c. simpl. by rewrite lookup_empty.
Qed.

(** ** Properties *)

(** In every state reachable by any sequence of requests, successes,
    failures, resets and clears, at any clock readings, each circuit's code is one
    of the three states; a closed circuit has fewer failures than the threshold, a
    half-open one fewer successes than its threshold, and an open or closed one
    has no successes pending. *)
Lemma breaker_invariant cfg ops :
  cb_config_ok cfg → breaker_inv (foldl cb_apply (breaker_new cfg) ops).
Proof.
  intros Hcfg.
  enough (breaker_inv (foldl cb_apply (breaker_new cfg) ops) ∧
          cb_config (foldl cb_apply (breaker_new cfg) ops) = cfg) as [? _] by done.
  apply (foldl_invariant cb_apply (fun b => breaker_inv b ∧ cb_config b = cfg)).
  - intros b op [Hinv Hcf]. rewrite <-Hcf. apply cb_apply_inv; [by rewrite Hcf|done].
  - split; [|done]. intros id c. simpl. by rewrite lookup_empty.
Qed.

Lemma breaker_invariant_witness :
  breaker_inv (foldl cb_apply (breaker_new cb_config_default)
    [OpFailure "b" 1; OpFailure "b" 2; OpFailure "b" 3; OpFailure "b" 4; OpFailure "b" 5;
     OpAllow "b" 40000; OpSuccess "b"]).
Proof. apply breaker_invariant. vm_compute. repeat split; congruence. Defined.

(** Consecutive failures, each within the window of the previous one. *)
Fixpoint within_window (window_ms prev : Z) (ts : list Z) : Prop :=
  match ts with
  | [] => True
  | t :: ts' => saturating_sub t prev <= window_ms ∧ within_window window_ms t ts'
  end.

Definition failure_run (b : CircuitBreaker) (id : string) (ts : list Z) : CircuitBreaker :=
  foldl (fun b t => record_failure t b id) b ts.

Lemma failure_run_lookup b id ts :
  cb_lookup (failure_run b id ts) id =
    foldl (fun c t => circuit_failure (cb_config b) t c) (cb_lookup b id) ts ∧
  cb_config (failure_run b id ts) = cb_config b.
Proof.
  unfold failure_run. revert b. induction ts as [|t ts IH]; intros b; simpl; [done|].
  destruct (record_failure_spec t b id) as [Hc Hl].
  destruct (IH (record_failure t b id)) as [-> ->]. rewrite Hc.
  by rewrite (cb_lookup_insert b _ id _ Hl).
Qed.

Lemma open_failure_run cfg c ts :
  circuit_get_state c = COpen →
  circuit_get_state (foldl (fun c t => circuit_failure cfg t c) c ts) = COpen.
Proof.
  intros Hs. apply (foldl_invariant (fun c t => circuit_failure cfg t c)
    (fun c => circuit_get_state c = COpen)); [|done].
  intros a t Ha. unfold circuit_failure. by rewrite Ha.
Qed.

(** A closed circuit counts failures up to the threshold and then opens. *)
Lemma closed_failure_run cfg c ts :
  cb_failure_threshold cfg < 2 ^ 32 → circuit_get_state c = CClosed →
  0 <= bc_failures c < cb_failure_threshold cfg →
  within_window (wrap 64 (as_millis (cb_failure_window cfg))) (bc_last_failure_ms c) ts →
  circuit_get_state (foldl (fun c t => circuit_failure cfg t c) c ts) =
    if cb_failure_threshold cfg <=? bc_failures c + Z.of_nat (length ts) then COpen else CClosed.
Proof.
  intros Hcfg. revert c. induction ts as [|t ts IH]; intros c Hs Hf Hw; simpl.
  { by rewrite (proj2 (Z.leb_gt _ _)) by lia. }
  destruct Hw as [Hw Hws].
  unfold circuit_failure at 2. rewrite Hs, (proj2 (Z.ltb_ge _ _)) by done.
  rewrite (wrap_small 32) by (unfold in_range; lia). case_match eqn:Hthr; zbool.
  - rewrite open_failure_run by done. by rewrite (proj2 (Z.leb_le _ _)) by lia.
  - rewrite IH; simpl; [|done|lia|done].
    by replace (bc_failures c + 1 + Z.of_nat (length ts)) with (bc_failures c + Z.of_nat (S (length ts))) by lia.
Qed.

(** The first failure of a clean circuit counts as one, whatever the clock says. *)
Lemma first_failure cfg c t :
  2 <= cb_failure_threshold cfg → circuit_get_state c = CClosed → bc_failures c = 0 →
  circuit_failure cfg t c = set_last_failure t (set_failures 1 c).
Proof.
  intros ? Hs Hf. unfold circuit_failure. rewrite Hs, Hf.
  case_match; [done|]. rewrite (wrap_small 32) by (unfold in_range; lia).
  by rewrite (proj2 (Z.leb_gt _ _)) by lia.
Qed.



(** Operations during which a circuit opened at [t] has to stay open: requests
    before the reset timeout has run out, late successes, further failures no
    earlier than [t], and anything on the other circuits. *)
Definition before_reset (id : string) (t timeout : Z) (op : cb_op) : Prop :=
  match op with
  | OpAllow id' now => id' = id → now < t + timeout
  | OpSuccess _ => True
  | OpFailure id' now => id' = id → t <= now
  | OpReset id' => id' ≠ id
  | OpClearAll => False
  end.

Definition opened_since (id : string) (cfg : CircuitBreakerConfig) (t : Z) (b : CircuitBreaker) : Prop :=
  cb_config b = cfg ∧ ∃ c, cb_circuits b !! id = Some c ∧
    circuit_get_state c = COpen ∧ t <= bc_opened_at_ms c.

Lemma circuit_allow_early cfg now c t :
  circuit_get_state c = COpen → t <= bc_opened_at_ms c →
  0 < wrap 64 (as_millis (cb_reset_timeout cfg)) →
  now < t + wrap 64 (as_millis (cb_reset_timeout cfg)) →
  circuit_allow cfg now c = (c, false).
Proof.
  intros Hs Ht Hpos Hnow. unfold circuit_allow. rewrite Hs.
  rewrite (proj2 (Z.leb_gt _ _)); [done|]. unfold saturating_sub. lia.
Qed.

Lemma opened_since_lookup id cfg t b :
  opened_since id cfg t b →
  circuit_get_state (cb_lookup b id) = COpen ∧ t <= bc_opened_at_ms (cb_lookup b id).
Proof. intros (_ & c & Hc & ? & ?). unfold cb_lookup. by rewrite Hc. Qed.

(** Pointwise updates, once more: [id] stays open if its update keeps it open. *)
Lemma opened_since_update b b' id id' f cfg t :
  opened_since id cfg t b → cb_config b' = cb_config b →
  (∀ k, cb_circuits b' !! k = if decide (id' = k) then Some (f (cb_lookup b id')) else cb_circuits b !! k) →
  (id' = id → ∀ c, circuit_get_state c = COpen → t <= bc_opened_at_ms c →
     circuit_get_state (f c) = COpen ∧ t <= bc_opened_at_ms (f c)) →
  opened_since id cfg t b'.
Proof.
  intros Hop Hcf Hlk Hf. pose proof (opened_since_lookup _ _ _ _ Hop) as [? ?].
  destruct Hop as (Hc & c & ? & ? & ?). split; [congruence|].
  rewrite Hlk. case_decide as Heq; [|by eauto]. subst id'. destruct (Hf eq_refl (cb_lookup b id)); eauto.
Qed.

Lemma before_reset_step id cfg t b op :
  0 < wrap 64 (as_millis (cb_reset_timeout cfg)) →
  opened_since id cfg t b → before_reset id t (wrap 64 (as_millis (cb_reset_timeout cfg))) op →
  opened_since id cfg t (cb_apply b op).
Proof.
  intros Hpos Hop Hbr. pose proof Hop as (Hcf & c & Hc & Hs & Ht).
  destruct op as [id' now|id'|id' now|id'|]; simpl in *.
  - destruct (allow_request_spec now b id') as (_ & Hcf' & Hlk).
    apply (opened_since_update b _ id id' (fun c => fst (circuit_allow (cb_config b) now c)) cfg t); try done.
    intros -> c' ??. rewrite Hcf, (circuit_allow_early cfg now c' t) by auto. done.
  - destruct (record_success_spec b id') as (Hcf' & Hlk).
    apply (opened_since_update b _ id id' (circuit_success (cb_config b)) cfg t); try done.
    intros _ c' Hs' ?. unfold circuit_success. by rewrite Hs'.
  - destruct (record_failure_spec now b id') as (Hcf' & Hlk).
    apply (opened_since_update b _ id id' (circuit_failure (cb_config b) now) cfg t); try done.
    intros -> c' Hs' ?. unfold circuit_failure. rewrite Hs'. auto.
  - unfold cb_reset. destruct (cb_circuits b !! id'); [|done].
    split; [done|]. simpl. rewrite lookup_insert_ne by done. eauto.
  - done.
Qed.

(** When the circuit counts as opened after an operation: a failure recorded while it is
    open starts its timeout again. *)
Definition opening (id : string) (t : Z) (op : cb_op) : Z :=
  match op with OpFailure id' now => if decide (id' = id) then now else t | _ => t end.

Lemma opening_step id cfg t b op :
  0 < wrap 64 (as_millis (cb_reset_timeout cfg)) →
  opened_since id cfg t b → before_reset id t (wrap 64 (as_millis (cb_reset_timeout cfg))) op →
  bc_opened_at_ms (cb_lookup (cb_apply b op) id) = opening id (bc_opened_at_ms (cb_lookup b id)) op.
Proof.
  intros Hpos Hop Hbr. destruct (opened_since_lookup _ _ _ _ Hop) as [Hs Ht]. destruct Hop as [Hcf _].
  assert (∀ b' id' f, (∀ i, cb_circuits b' !! i = if decide (id' = i) then Some (f (cb_lookup b id')) else cb_circuits b !! i) →
    cb_lookup b' id = if decide (id' = id) then f (cb_lookup b id) else cb_lookup b id) as Hlk.
  { intros b' id' f Hb'. unfold cb_lookup at 1. rewrite Hb'. case_decide; [by subst|done]. }
  destruct op as [id' now|id'|id' now|id'|]; simpl in *; [| | | |done].
  - destruct (allow_request_spec now b id') as (_ & _ & Ha).
    rewrite (Hlk _ id' (fun c => fst (circuit_allow (cb_config b) now c)) Ha). case_decide; [|done].
    by rewrite Hcf, (circuit_allow_early cfg now _ t) by auto.
  - destruct (record_success_spec b id') as (_ & Ha). rewrite (Hlk _ id' (circuit_success (cb_config b)) Ha).
    case_decide; [|done]. unfold circuit_success. by rewrite Hs.
  - destruct (record_failure_spec now b id') as (_ & Ha). rewrite (Hlk _ id' (circuit_failure (cb_config b) now) Ha).
    case_decide; [|done]. unfold circuit_failure. by rewrite Hs.
  - unfold cb_reset. destruct (cb_circuits b !! id') eqn:E; [|done]. unfold cb_lookup; simpl.
    by rewrite lookup_insert_ne.
Qed.

(** C26: an open circuit blocks.  Let a circuit be open, with its opening at [t] or
    later, and the reset timeout not be zero.  Through any operations in which no
    request for it comes at or after [t + reset_timeout], no failure of it is recorded
    with a time before [t], and nobody resets it by hand, it stays open and refuses
    every request before [t + reset_timeout]; each failure recorded meanwhile becomes
    its opening time; and after them the first request at least [reset_timeout] after
    the opening time it then has is let through and makes it half-open with a clean
    success count, while an earlier one is refused. *)
Theorem open_circuit_blocks_until_timeout b id cfg t ops now :
  let timeout := wrap 64 (as_millis (cb_reset_timeout cfg)) in
  0 < timeout →
  opened_since id cfg t b →
  Forall (before_reset id t timeout) ops →
  let b' := foldl cb_apply b ops in
  let opened := foldl (opening id) (bc_opened_at_ms (cb_lookup b id)) ops in
  cb_get_state b' id = COpen ∧ t <= opened ∧
  (now < opened + timeout →
     snd (allow_request now b' id) = false ∧ cb_get_state (fst (allow_request now b' id)) id = COpen) ∧
  (opened + timeout <= now →
     snd (allow_request now b' id) = true ∧
     cb_get_metrics (fst (allow_request now b' id)) id =
       mkCbMetrics CHalfOpen (bc_failures (cb_lookup b' id)) 0).
Proof.
  intros timeout Hpos Hop Hall b' opened.
  assert (opened_since id cfg t b' ∧ bc_opened_at_ms (cb_lookup b' id) = opened) as [Hop' Ho].
  { unfold b', opened. clear b' opened. revert b Hop. induction Hall as [|op ops Hbr _ IH]; intros b Hop; simpl; [done|].
    rewrite <-(opening_step id cfg t b op Hpos Hop Hbr). by apply IH, before_reset_step. }
  destruct (opened_since_lookup _ _ _ _ Hop') as [Hs Ht]. destruct Hop' as [Hcf _]. rewrite Ho in Ht.
  destruct (allow_request_spec now b' id) as (-> & _ & Hlk). split_and!; [by rewrite cb_get_state_lookup|done|..].
  - intros Hnow. rewrite cb_get_state_lookup, (cb_lookup_insert b' _ id (fun c => fst (circuit_allow (cb_config b') now c)) Hlk), Hcf.
    rewrite (circuit_allow_early cfg now _ opened); [done|done|lia|done|done].
  - intros Hnow. unfold cb_get_metrics. rewrite Hlk, decide_True, Hcf by done.
    unfold circuit_allow. rewrite Hs, Ho, (proj2 (Z.leb_le _ _)); [done|]. unfold saturating_sub. fold timeout. lia.
Qed.

Lemma open_circuit_blocks_witness :
  let b := failure_run (breaker_new cb_config_default) "b" [70000; 71000; 72000; 73000; 74000] in
  snd (allow_request 103999 (foldl cb_apply b [OpAllow "b" 80000; OpSuccess "b"; OpFailure "c" 5]) "b") = false.
Proof.
  intros b. apply (open_circuit_blocks_until_timeout b "b" cb_config_default 74000
    [OpAllow "b" 80000; OpSuccess "b"; OpFailure "c" 5] 103999).
  - vm_compute. reflexivity.
  - split; [vm_compute; reflexivity|]. eexists. split; [vm_compute; reflexivity|].
    split; [reflexivity|simpl; lia].
  - repeat constructor; simpl; intros; vm_compute; congruence.
  - vm_compute. reflexivity.
Defined.

Definition success_run (b : CircuitBreaker) (id : string) (n : nat) : CircuitBreaker :=
  Nat.iter n (fun b => record_success b id) b.

Lemma success_run_lookup b id n :
  cb_lookup (success_run b id n) id = Nat.iter n (circuit_success (cb_config b)) (cb_lookup b id) ∧
  cb_config (success_run b id n) = cb_config b.
Proof.
  induction n as [|n [IH1 IH2]]; simpl; [done|]. fold (success_run b id n) in *.
  destruct (record_success_spec (success_run b id n) id) as [Hc Hl].
  rewrite Hc, (cb_lookup_insert _ _ id _ Hl), IH1, IH2. done.
Qed.

(** After [n] successes a half-open circuit has counted them or has closed. *)
Lemma half_open_run cfg c n :
  0 <= bc_successes c < cb_success_threshold cfg → cb_success_threshold cfg < 2 ^ 32 →
  circuit_get_state c = CHalfOpen →
  let c' := Nat.iter n (circuit_success cfg) c in
  if cb_success_threshold cfg <=? bc_successes c + Z.of_nat n
  then circuit_get_state c' = CClosed ∧ bc_failures c' = 0 ∧ bc_successes c' = 0
  else circuit_get_state c' = CHalfOpen ∧ bc_successes c' = bc_successes c + Z.of_nat n.
Proof.
  intros Hsucc Hthr Hs.
  induction n as [|n IH]; simpl Nat.iter.
  { rewrite (proj2 (Z.leb_gt _ _)) by lia. split; [done|lia]. }
  simpl in IH. set (c' := Nat.iter n (circuit_success cfg) c) in *. revert IH.
  destruct (Z.leb_spec (cb_success_threshold cfg) (bc_successes c + Z.of_nat n)) as [?|?].
  - intros (Hc & ? & ?). rewrite (proj2 (Z.leb_le _ _)) by lia.
    unfold circuit_success. by rewrite Hc.
  - intros (Hc & Hn). unfold circuit_success. rewrite Hc, Hn.
    rewrite wrap_small by (unfold in_range; lia).
    case_match eqn:Ht; case_match eqn:Ht'; zbool; simpl; try lia; [done|]. split; [done|lia].
Qed.

(** C27: a half-open circuit whose count of successes is below [success_threshold] (as
    it is on becoming half-open, at zero, if the threshold is not zero) closes, with
    its counters cleared, exactly when the successes recorded bring the count to
    [success_threshold]; until then it stays half-open and lets requests through, and
    any failure meanwhile re-opens it at the time of the failure. *)
Theorem half_open_recovers_or_reopens b id n now :
  cb_get_state b id = CHalfOpen →
  0 <= bc_successes (cb_lookup b id) < cb_success_threshold (cb_config b) →
  cb_success_threshold (cb_config b) < 2 ^ 32 →
  let b' := success_run b id n in
  if cb_success_threshold (cb_config b) <=? bc_successes (cb_lookup b id) + Z.of_nat n
  then cb_get_state b' id = CClosed ∧ bc_failures (cb_lookup b' id) = 0 ∧
       bc_successes (cb_lookup b' id) = 0
  else snd (allow_request now b' id) = true ∧ cb_get_state b' id = CHalfOpen ∧
       cb_get_state (record_failure now b' id) id = COpen ∧
       bc_opened_at_ms (cb_lookup (record_failure now b' id) id) = now.
Proof.
  rewrite cb_get_state_lookup. intros Hs Hsucc Hthr b'.
  pose proof (half_open_run (cb_config b) (cb_lookup b id) n Hsucc Hthr Hs) as Hrun.
  destruct (success_run_lookup b id n) as [Hlk Hcf]. fold b' in Hlk, Hcf. rewrite <-Hlk in Hrun.
  rewrite !cb_get_state_lookup. case_match; [done|]. destruct Hrun as [Hh _].
  destruct (record_failure_spec now b' id) as [_ Hl]. rewrite (cb_lookup_insert _ _ id _ Hl).
  destruct (allow_request_spec now b' id) as [-> _].
  unfold circuit_allow, circuit_failure. by rewrite Hh.
Qed.

Definition half_open_example : CircuitBreaker :=
  mkBreaker cb_config_default {["b" := mkCircuit 2 5 0 74000 74000]}.

Lemma half_open_recovers_witness :
  cb_get_state (success_run half_open_example "b" 3) "b" = CClosed ∧
  cb_get_state (success_run half_open_example "b" 2) "b" = CHalfOpen.
Proof.
  assert (cb_get_state half_open_example "b" = CHalfOpen) as Hs by (vm_compute; reflexivity).
  assert (0 <= bc_successes (cb_lookup half_open_example "b") < cb_success_threshold (cb_config half_open_example))
    as Hsucc by (vm_compute; split; congruence).
  assert (cb_success_threshold (cb_config half_open_example) < 2 ^ 32) as Hthr by (vm_compute; reflexivity).
  pose proof (half_open_recovers_or_reopens half_open_example "b" 3 0 Hs Hsucc Hthr) as H3.
  pose proof (half_open_recovers_or_reopens half_open_example "b" 2 0 Hs Hsucc Hthr) as H2.
  vm_compute in H2, H3 |- *. split; [apply H3|apply H2].
Defined.

(** With [failure_threshold = 1], a failure that falls outside the window of
    the previous one (as the first failure of a process does: the stored time is 0)
    does not open the circuit: the reset branch stores the count 1 without
    comparing it with the threshold. *)
Lemma threshold_one_first_failure_ignored cfg id now :
  cb_failure_threshold cfg = 1 → wrap 64 (as_millis (cb_failure_window cfg)) < now →
  let b := record_failure now (breaker_new cfg) id in
  cb_get_state b id = CClosed ∧ bc_failures (cb_lookup b id) = cb_failure_threshold cfg.
Proof.
  intros Ht Hnow b. destruct (record_failure_spec now (breaker_new cfg) id) as [_ Hl].
  rewrite cb_get_state_lookup. subst b. rewrite (cb_lookup_insert _ _ id _ Hl). simpl.
  unfold cb_lookup; simpl. rewrite lookup_empty. unfold circuit_failure; simpl.
  pose proof (wrap_range 64 (as_millis (cb_failure_window cfg)) ltac:(lia)) as [? _].
  rewrite (proj2 (Z.ltb_lt _ _)); [done|]. unfold saturating_sub. lia.
Qed.

Lemma threshold_one_witness :
  cb_get_state (record_failure 1700000000000
    (breaker_new (mkCbConfig 1 (from_secs 30) 3 (from_secs 60))) "b") "b" = CClosed.
Proof.
  apply (threshold_one_first_failure_ignored (mkCbConfig 1 (from_secs 30) 3 (from_secs 60)) "b" 1700000000000);
    vm_compute; reflexivity.
Defined.
