(* ===== verification/CircuitRaces.v ===== *)
(** * The circuit breaker under concurrency

    [src/src/infrastructure/circuit_breaker.rs] with each atomic access its own
    step: [CircuitBreaker] takes a whole call as one step, here any number of
    calls on one backend's circuit interleave.  [get_or_create] is three steps
    (does the map have the key, insert, get); the reference it returns holds the
    map's shard for reading until the call ends, so an insertion or [clear_all]
    waits for it (dashmap's documented locking).  The accesses are interleaved
    sequentially; reorderings that [Ordering::Relaxed] would allow on top of that
    are not modelled. *)

From S2P Require Import Prelude Text CircuitBreaker.

Inductive race_op := OpAllow | OpSuccess | OpFailure.

(** The next access of a call. *)
Inductive cb_pc :=
| PContains (op : race_op)              (* circuits.contains_key *)
| PInsert (op : race_op)                (* circuits.insert of a new circuit *)
| PGet (op : race_op)                   (* circuits.get(..).unwrap() *)
| PState (op : race_op)                 (* circuit.get_state *)
| PAllowOpened                        (* opened_at_ms.load, then the clock *)
| PAllowHalf                          (* set_state(HalfOpen) *)
| PAllowClear                         (* successes.store(0) *)
| PSuccAdd                            (* successes.fetch_add *)
| PSuccClose                          (* set_state(Closed) *)
| PSuccFailures                       (* failures.store(0) of the recovery *)
| PSuccClear                          (* successes.store(0) *)
| PSuccClosed                         (* failures.store(0) when closed *)
| PFailLoad (now : Z)                 (* last_failure_ms.load *)
| PFailFirst (now : Z)                (* failures.store(1) *)
| PFailAdd (now : Z)                  (* failures.fetch_add *)
| PFailOpen (now : Z)                 (* set_state(Open) *)
| PFailOpenedAt (now : Z)             (* opened_at_ms.store(now) *)
| PFailLast (now : Z)                 (* last_failure_ms.store(now) *)
| PFailReopen (now : Z)               (* half-open: set_state(Open) *)
| PFailReopenAt (now : Z)
| PFailReopenClear
| PFailExtend (now : Z)               (* open: opened_at_ms.store(now) *)
| PResetGet                           (* [reset]: circuits.get, nothing to do on None *)
| PResetState | PResetFailures | PResetClear
| PDone (answer : option bool)
| PPanicked.

(** A call that holds the reference to the circuit. *)
Definition holding (pc : cb_pc) : bool :=
  match pc with PContains _ | PInsert _ | PGet _ | PResetGet | PDone _ | PPanicked => false | _ => true end.

(** One access of a call that holds the circuit [c], at clock reading [now]. *)
Definition circuit_access (cfg : CircuitBreakerConfig) (now : Z) (c : BackendCircuit) (pc : cb_pc)
    : option (BackendCircuit * cb_pc) :=
  match pc with
  | PState OpAllow =>
      Some (c, match circuit_get_state c with COpen => PAllowOpened | _ => PDone (Some true) end)
  | PAllowOpened =>
      Some (c, if wrap 64 (as_millis (cb_reset_timeout cfg)) <=? saturating_sub now (bc_opened_at_ms c)
               then PAllowHalf else PDone (Some false))
  | PAllowHalf => Some (circuit_set_state CHalfOpen c, PAllowClear)
  | PAllowClear => Some (set_successes 0 c, PDone (Some true))
  | PState OpSuccess =>
      Some (c, match circuit_get_state c with
               | CHalfOpen => PSuccAdd | CClosed => PSuccClosed | COpen => PDone None end)
  | PSuccAdd =>
      let successes := bc_successes c +u32 1 in
      Some (set_successes successes c, if cb_success_threshold cfg <=? successes then PSuccClose else PDone None)
  | PSuccClose => Some (circuit_set_state CClosed c, PSuccFailures)
  | PSuccFailures => Some (set_failures 0 c, PSuccClear)
  | PSuccClear => Some (set_successes 0 c, PDone None)
  | PSuccClosed => Some (set_failures 0 c, PDone None)
  | PState OpFailure =>
      Some (c, match circuit_get_state c with
               | CClosed => PFailLoad now | CHalfOpen => PFailReopen now | COpen => PFailExtend now end)
  | PFailLoad now =>
      Some (c, if wrap 64 (as_millis (cb_failure_window cfg)) <? saturating_sub now (bc_last_failure_ms c)
               then PFailFirst now else PFailAdd now)
  | PFailFirst now => Some (set_failures 1 c, PFailLast now)
  | PFailAdd now =>
      let failures := bc_failures c +u32 1 in
      Some (set_failures failures c, if cb_failure_threshold cfg <=? failures then PFailOpen now else PFailLast now)
  | PFailOpen now => Some (circuit_set_state COpen c, PFailOpenedAt now)
  | PFailOpenedAt now => Some (set_opened_at now c, PFailLast now)
  | PFailLast now => Some (set_last_failure now c, PDone None)
  | PFailReopen now => Some (circuit_set_state COpen c, PFailReopenAt now)
  | PFailReopenAt now => Some (set_opened_at now c, PFailReopenClear)
  | PFailReopenClear => Some (set_successes 0 c, PDone None)
  | PFailExtend now => Some (set_opened_at now c, PDone None)
  | PResetState => Some (circuit_set_state CClosed c, PResetFailures)
  | PResetFailures => Some (set_failures 0 c, PResetClear)
  | PResetClear => Some (set_successes 0 c, PDone None)
  | PContains _ | PInsert _ | PGet _ | PResetGet | PDone _ | PPanicked => None
  end.

(** One backend: its entry in the map, and the calls on it. *)
Record race_state := mkRace {
  rs_entry : option BackendCircuit;
  rs_calls : gmap nat cb_pc
}.

Inductive race_label :=
| BCall (n : nat) (op : race_op)
| BReset (n : nat)
| BStep (n : nat) (now : Z)            (* call [n] goes on; [now] is what its clock would read *)
| BClear.                              (* clear_all *)

#[export] Instance holding_dec (pc : cb_pc) : Decision (holding pc = false).
Proof. apply _. Defined.

(** Nobody holds a reference into the map. *)
Definition unlocked (calls : gmap nat cb_pc) : bool := bool_decide (map_Forall (λ _ pc, holding pc = false) calls).

Section races.
Context (cfg : CircuitBreakerConfig).

Definition call_step (now : Z) (st : race_state) (pc : cb_pc) : option (option BackendCircuit * cb_pc) :=
  match pc with
  | PContains op => Some (rs_entry st, match rs_entry st with Some _ => PGet op | None => PInsert op end)
  | PInsert op => if unlocked (rs_calls st) then Some (Some circuit_new, PGet op) else None
  | PGet op => Some (rs_entry st, match rs_entry st with Some _ => PState op | None => PPanicked end)
  | PResetGet => Some (rs_entry st, match rs_entry st with Some _ => PResetState | None => PDone None end)
  | _ => c ← rs_entry st; '(c', pc') ← circuit_access cfg now c pc; Some (Some c', pc')
  end.

Definition race_exec (l : race_label) (st : race_state) : option race_state :=
  match l with
  | BCall n op =>
      match rs_calls st !! n with
      | None => Some (mkRace (rs_entry st) (<[n := PContains op]> (rs_calls st)))
      | Some _ => None
      end
  | BReset n =>
      match rs_calls st !! n with
      | None => Some (mkRace (rs_entry st) (<[n := PResetGet]> (rs_calls st)))
      | Some _ => None
      end
  | BStep n now =>
      pc ← rs_calls st !! n;
      '(e, pc') ← call_step now st pc;
      Some (mkRace e (<[n := pc']> (rs_calls st)))
  | BClear => if unlocked (rs_calls st) then Some (mkRace None (rs_calls st)) else None
  end.

Fixpoint race_run (ls : list race_label) (st : race_state) : option race_state :=
  match ls with
  | [] => Some st
  | l :: ls' => st' ← race_exec l st; race_run ls' st'
  end.

Definition race_step (ok : race_label → Prop) : relation race_state :=
  λ st st', ∃ l, ok l ∧ race_exec l st = Some st'.

(** ** A call alone is the atomic call *)

Lemma race_run_step n now e e' pc pc' calls ls r :
  call_step now (mkRace e (<[n := pc]> calls)) pc = Some (e', pc') →
  race_run (replicate ls (BStep n now)) (mkRace e' (<[n := pc']> calls)) = r →
  race_run (replicate (S ls) (BStep n now)) (mkRace e (<[n := pc]> calls)) = r.
Proof.
  intros Hs <-. cbn [replicate race_run race_exec rs_calls]. rewrite lookup_insert_eq. cbn [mbind option_bind].
  rewrite Hs. cbn [mbind option_bind rs_calls]. by rewrite insert_insert_eq.
Qed.

(** Run the accesses of a call one after the other, deciding each test by a hypothesis. *)
Ltac run_accesses :=
  repeat (eapply race_run_step; [cbn [call_step circuit_access rs_entry rs_calls mbind option_bind]; repeat match goal with H : ?b = _ |- context [?b] => rewrite H end; reflexivity|]).

(** What the atomic model says of a call. *)
Definition atomic_call (now : Z) (c : BackendCircuit) (op : race_op) : BackendCircuit * option bool :=
  match op with
  | OpAllow => let '(c', ok) := circuit_allow cfg now c in (c', Some ok)
  | OpSuccess => (circuit_success cfg c, None)
  | OpFailure => (circuit_failure cfg now c, None)
  end.

Lemma accesses_atomic n now c calls op :
  ∃ k, race_run (replicate k (BStep n now)) (mkRace (Some c) (<[n := PState op]> calls)) =
    Some (mkRace (Some (fst (atomic_call now c op))) (<[n := PDone (snd (atomic_call now c op))]> calls)).
Proof.
  destruct op; simpl.
  - unfold circuit_allow. destruct (circuit_get_state c) eqn:Hs.
    + exists 1%nat. run_accesses. done.
    + destruct (_ <=? _) eqn:Ht.
      * exists 4%nat. run_accesses. done.
      * exists 2%nat. run_accesses. done.
    + exists 1%nat. run_accesses. done.
  - unfold circuit_success. destruct (circuit_get_state c) eqn:Hs.
    + exists 2%nat. run_accesses. done.
    + exists 1%nat. run_accesses. done.
    + destruct (_ <=? _) eqn:Ht.
      * exists 5%nat. run_accesses. done.
      * exists 2%nat. run_accesses. done.
  - unfold circuit_failure. destruct (circuit_get_state c) eqn:Hs.
    + destruct (_ <? _) eqn:Hw.
      * exists 4%nat. run_accesses. done.
      * destruct (_ <=? _) eqn:Ht.
        -- exists 6%nat. run_accesses. done.
        -- exists 4%nat. run_accesses. done.
    + exists 2%nat. run_accesses. done.
    + exists 4%nat. run_accesses. done.
Qed.

Lemma unlocked_insert calls n pc :
  unlocked calls = true → holding pc = false → unlocked (<[n := pc]> calls) = true.
Proof.
  unfold unlocked. rewrite !bool_decide_eq_true. intros Hu Hp. by apply map_Forall_insert_2.
Qed.

Lemma get_or_create_alone n now e calls op :
  unlocked calls = true →
  ∃ k, race_run (replicate k (BStep n now)) (mkRace e (<[n := PContains op]> calls)) =
    Some (mkRace (Some (default circuit_new e)) (<[n := PState op]> calls)).
Proof.
  intros Hu. destruct e as [c|].
  - exists 2%nat. run_accesses. done.
  - exists 3%nat. assert (unlocked (<[n := PInsert op]> calls) = true) by by apply unlocked_insert.
    run_accesses. done.
Qed.

Lemma race_run_app ls1 ls2 st : race_run (ls1 ++ ls2) st = st' ← race_run ls1 st; race_run ls2 st'.
Proof.
  revert st. induction ls1 as [|l ls1 IH]; intros st; simpl; [done|].
  destruct (race_exec l st); simpl; [apply IH|done].
Qed.

Lemma race_run_rtc (ok : race_label → Prop) ls st st' :
  Forall ok ls → race_run ls st = Some st' → rtc (race_step ok) st st'.
Proof.
  intros Hok. revert st. induction Hok as [|l ls Hl _ IH]; intros st; simpl; [intros [= ->]; apply rtc_refl|].
  destruct (race_exec l st) as [st1|] eqn:Hex; simpl; [|done]. intros Hr.
  eapply rtc_l; [|by apply IH]. by exists l.
Qed.

(** ** Concurrent failures *)

Context (c0 : BackendCircuit).
#[local] Abbreviation window := (wrap 64 (as_millis (cb_failure_window cfg))).

(** Clock readings within one failure window of the circuit's last failure. *)
Definition in_window (now : Z) : Prop :=
  bc_last_failure_ms c0 <= now <= bc_last_failure_ms c0 + window.

Definition failures_only (l : race_label) : Prop :=
  match l with
  | BCall _ op => op = OpFailure
  | BStep _ now => in_window now
  | BReset _ | BClear => False
  end.

(** The phases a failure call goes through, up to its count and after. *)
Definition failing (pc : cb_pc) : Prop :=
  match pc with
  | PContains op | PGet op | PState op => op = OpFailure
  | PFailLoad now | PFailAdd now | PFailOpen now | PFailOpenedAt now | PFailLast now | PFailExtend now => in_window now
  | PDone a => a = None
  | _ => False
  end.

Definition uncounted (pc : cb_pc) : bool :=
  match pc with PContains _ | PGet _ | PState _ | PFailLoad _ | PFailAdd _ => true | _ => false end.

Definition count_uncounted (calls : gmap nat cb_pc) : Z :=
  Z.of_nat (size (filter (fun kv => uncounted (snd kv) = true) calls)).

Lemma count_uncounted_insert n pc (calls : gmap nat cb_pc) :
  count_uncounted (<[n := pc]> calls) =
    count_uncounted calls + (if uncounted pc then 1 else 0)
    - match calls !! n with Some old => if uncounted old then 1 else 0 | None => 0 end.
Proof.
  unfold count_uncounted. rewrite (size_filter_insert (fun kv => uncounted (snd kv) = true)). simpl.
  destruct (calls !! n) as [old|]; [destruct (uncounted old)|]; destruct (uncounted pc); repeat case_decide; done.
Qed.

Lemma count_uncounted_bounds (calls : gmap nat cb_pc) : 0 <= count_uncounted calls <= Z.of_nat (size calls).
Proof. unfold count_uncounted. split; [lia|]. apply inj_le. apply map_subseteq_size, map_filter_subseteq. Qed.

(** While the circuit is closed every call past its count has been counted, and
    once the threshold is reached some call is about to open the circuit. *)
Definition tripping (st : race_state) : Prop :=
  ∃ c, rs_entry st = Some c ∧ bc_last_failure_ms c0 <= bc_last_failure_ms c ∧
    (∀ n pc, rs_calls st !! n = Some pc → failing pc) ∧
    (bc_state c = 1 ∨
     bc_state c = 0 ∧
     bc_failures c = bc_failures c0 + Z.of_nat (size (rs_calls st)) - count_uncounted (rs_calls st) ∧
     (bc_failures c < cb_failure_threshold cfg ∨ ∃ n now, rs_calls st !! n = Some (PFailOpen now))).

Lemma failing_insert (calls : gmap nat cb_pc) n pc :
  (∀ n pc, calls !! n = Some pc → failing pc) → failing pc →
  ∀ n' pc', <[n := pc]> calls !! n' = Some pc' → failing pc'.
Proof. intros Hc Hp n' pc'. rewrite lookup_insert. case_decide; [by intros [= <-]|apply Hc]. Qed.

Lemma opener_insert (calls : gmap nat cb_pc) n pc old :
  calls !! n = Some old → (∀ now, old ≠ PFailOpen now) →
  (∃ m now, calls !! m = Some (PFailOpen now)) → ∃ m now, <[n := pc]> calls !! m = Some (PFailOpen now).
Proof.
  intros Hn Hold (m & now & Hm). exists m, now. rewrite lookup_insert_ne; [done|].
  intros ->. rewrite Hn in Hm. injection Hm as ->. by apply (Hold now).
Qed.

(** A step of a call that neither counts nor opens. *)
Lemma tripping_quiet st n old pc c c' :
  tripping st → rs_entry st = Some c → rs_calls st !! n = Some old → (∀ now, old ≠ PFailOpen now) →
  failing pc → uncounted pc = uncounted old →
  bc_state c' = bc_state c → bc_failures c' = bc_failures c → bc_last_failure_ms c0 <= bc_last_failure_ms c' →
  tripping (mkRace (Some c') (<[n := pc]> (rs_calls st))).
Proof.
  intros (c1 & Hc & _ & Hfail & Hst) Hc' Hn Hold Hpc Hun Hs Hf Hl. rewrite Hc in Hc'. injection Hc' as ->.
  exists c'. split_and!; [done|done|by apply failing_insert|]. simpl. rewrite Hs, Hf.
  destruct Hst as [?|(? & Hcount & Hthr)]; [by left|right].
  rewrite map_size_insert_Some, count_uncounted_insert, Hn, Hun by eauto.
  split_and!; [done|destruct (uncounted old); lia|].
  destruct Hthr; [by left|right]. by eapply opener_insert.
Qed.

Lemma tripping_state st c n : tripping st → rs_entry st = Some c →
  rs_calls st !! n = Some (PState OpFailure) → circuit_get_state c = COpen ∨ circuit_get_state c = CClosed.
Proof.
  intros (c1 & Hc & _ & _ & Hst) Hc' _. rewrite Hc in Hc'. injection Hc' as ->. unfold circuit_get_state.
  destruct Hst as [-> |(-> & _)]; auto.
Qed.

Lemma tripping_count st n now c :
  tripping st → rs_entry st = Some c → rs_calls st !! n = Some (PFailAdd now) →
  0 <= bc_failures c0 → bc_failures c0 + Z.of_nat (size (rs_calls st)) < 2 ^ 32 →
  let failures := bc_failures c +u32 1 in
  tripping (mkRace (Some (set_failures failures c))
    (<[n := if cb_failure_threshold cfg <=? failures then PFailOpen now else PFailLast now]> (rs_calls st))).
Proof.
  intros (c1 & Hc & Hl & Hfail & Hst) Hc' Hn Hf0 Hsize failures. rewrite Hc in Hc'. injection Hc' as ->.
  exists (set_failures failures c). split_and!; [done|done| |].
  { apply failing_insert; [done|]. pose proof (Hfail _ _ Hn). by destruct (_ <=? _). }
  simpl. destruct Hst as [?|(Hs & Hcount & Hthr)]; [by left|right]. split; [done|].
  pose proof (count_uncounted_bounds (rs_calls st)) as Hb.
  assert (1 <= count_uncounted (rs_calls st)) as Hpos.
  { pose proof (count_uncounted_insert n PFailReopenClear (rs_calls st)) as Hi. rewrite Hn in Hi. simpl in Hi.
    pose proof (count_uncounted_bounds (<[n := PFailReopenClear]> (rs_calls st))). lia. }
  assert (failures = bc_failures c + 1) as Hf by (apply wrap_small; unfold in_range; lia).
  rewrite map_size_insert_Some, count_uncounted_insert, Hn by eauto. split.
  - simpl. destruct (_ <=? _); simpl; lia.
  - destruct (Z.leb_spec (cb_failure_threshold cfg) failures); [right|by left].
    exists n, now. apply lookup_insert_eq.
Qed.

Lemma tripping_exec l st st' :
  0 <= bc_failures c0 → bc_failures c0 + Z.of_nat (size (rs_calls st)) < 2 ^ 32 →
  tripping st → failures_only l → race_exec l st = Some st' → tripping st'.
Proof.
  intros Hf0 Hsize Htrip Hl Hex. pose proof Htrip as (c & Hc & Hlast & Hfail & Hst).
  destruct l as [n op|n|n now|]; simpl in Hl, Hex; try done.
  { destruct (rs_calls st !! n) eqn:Hn; simplify_eq. exists c. split_and!; [done|done|by apply failing_insert|]. simpl.
    destruct Hst as [?|(? & Hcount & Hthr)]; [by left|right].
    rewrite map_size_insert_None, count_uncounted_insert, Hn by done. simpl. split_and!; [done|lia|].
    destruct Hthr as [?|(m & now & Hm)]; [by left|right]. exists m, now. rewrite lookup_insert_ne; [done|congruence]. }
  destruct (rs_calls st !! n) as [pc|] eqn:Hn; simpl in Hex; [|done].
  pose proof (Hfail n pc Hn) as Hpc.
  assert (∀ old pc' c', rs_calls st !! n = Some old → (∀ now, old ≠ PFailOpen now) →
    failing pc' → uncounted pc' = uncounted old →
    bc_state c' = bc_state c → bc_failures c' = bc_failures c → bc_last_failure_ms c0 <= bc_last_failure_ms c' →
    tripping (mkRace (Some c') (<[n := pc']> (rs_calls st)))) as Hquiet
    by (intros; by eapply tripping_quiet).
  destruct pc; simpl in Hpc; try done; subst; simpl in Hex; rewrite ?Hc in Hex; simpl in Hex; try done;
    try (injection Hex as <-; by eapply Hquiet; [exact Hn|..]).
  - destruct (tripping_state st c n Htrip Hc Hn) as [Hs|Hs]; rewrite Hs in Hex; injection Hex as <-;
      [|by eapply Hquiet; [exact Hn|..]].
    assert (bc_state c = 1) as Hs1.
    { destruct Hst as [?|(Hz & _)]; [done|]. unfold circuit_get_state in Hs. by rewrite Hz in Hs. }
    exists c. split_and!; [done|done|by apply failing_insert|by left].
  - assert ((window <? saturating_sub now0 (bc_last_failure_ms c)) = false) as Hw.
    { apply Z.ltb_ge. unfold saturating_sub, in_window in *. lia. }
    rewrite Hw in Hex. injection Hex as <-. by eapply Hquiet; [exact Hn|..].
  - injection Hex as <-. by apply tripping_count.
  - injection Hex as <-. eexists. split_and!; [done|done|by apply failing_insert|by left].
  - injection Hex as <-. eapply Hquiet; [exact Hn|done..|]. simpl. unfold in_window in Hpc. lia.
Qed.

Lemma race_exec_size l st st' : race_exec l st = Some st' → (size (rs_calls st) <= size (rs_calls st'))%nat.
Proof.
  assert (∀ n pc (calls : gmap nat cb_pc), (size calls <= size (<[n := pc]> calls))%nat) as Hins.
  { intros. rewrite map_size_insert. unfold id. case_match; lia. }
  destruct l as [n op|n|n now|]; simpl; intros Hex.
  3: { destruct (rs_calls st !! n); simpl in Hex; [|done].
       destruct (call_step _ _ _) as [[]|]; simplify_eq/=. apply Hins. }
  all: repeat case_match; simplify_eq/=; first [apply Hins|lia].
Qed.

Lemma tripping_rtc st st' :
  0 <= bc_failures c0 → rtc (race_step failures_only) st st' →
  bc_failures c0 + Z.of_nat (size (rs_calls st')) < 2 ^ 32 → tripping st → tripping st'.
Proof.
  intros Hf0. induction 1 as [|a b d (l & Hl & Hab) Hbd IH]; [done|]. intros Hsize Htrip. apply IH; [done|].
  assert (size (rs_calls b) <= size (rs_calls d))%nat.
  { clear -Hbd. induction Hbd as [|x y z (l & _ & Hxy)]; [lia|]. apply race_exec_size in Hxy. lia. }
  pose proof (race_exec_size _ _ _ Hab). eapply tripping_exec; [done| |done..]. lia.
Qed.
End races.

(** ** Properties *)

(** A call that runs without interference is the atomic call of the
    [CircuitBreaker] model: it creates the circuit when the backend has none, and
    leaves the circuit and gives the answer that [allow_request], [record_success]
    and [record_failure] are specified to. *)
Lemma call_alone_atomic cfg n now e calls op :
  calls !! n = None → unlocked calls = true →
  ∃ k, race_run cfg (BCall n op :: replicate k (BStep n now)) (mkRace e calls) =
    Some (mkRace (Some (fst (atomic_call cfg now (default circuit_new e) op)))
      (<[n := PDone (snd (atomic_call cfg now (default circuit_new e) op))]> calls)).
Proof.
  intros Hn Hu. destruct (get_or_create_alone cfg n now e calls op Hu) as [k1 Hk1].
  destruct (accesses_atomic cfg n now (default circuit_new e) calls op) as [k2 Hk2].
  exists (k1 + k2)%nat. rewrite replicate_add. cbn [race_run race_exec rs_calls rs_entry]. rewrite Hn. cbn [mbind option_bind].
  by rewrite race_run_app, Hk1.
Qed.

(** C25: concurrent failures trip a circuit that has a recent failure. Let failure calls
    be made on a closed circuit, their accesses interleaved in any way, with all their
    clock readings at or after the last failure stored before them and within one
    failure window of it. If with the failures counted before there are at least as many
    as the threshold, the circuit is open once they have all returned. (Without a recent
    failure they may not count one another: [first_failures_lost].) *)
Theorem concurrent_failures_trip cfg c0 st :
  bc_state c0 = 0 → 0 <= bc_failures c0 < cb_failure_threshold cfg →
  rtc (race_step cfg (failures_only cfg c0)) (mkRace (Some c0) ∅) st →
  (∀ n pc, rs_calls st !! n = Some pc → ∃ a, pc = PDone a) →
  cb_failure_threshold cfg <= bc_failures c0 + Z.of_nat (size (rs_calls st)) < 2 ^ 32 →
  circuit_get_state <$> rs_entry st = Some COpen.
Proof.
  intros Hs Hf Hrtc Hdone Hsize.
  assert (tripping cfg c0 st) as (c & -> & _ & _ & Hst).
  { eapply tripping_rtc; [lia|exact Hrtc|lia|]. exists c0. split_and!; [done|done|by intros ? ?|].
    right. split; [done|]. split; [simpl; unfold count_uncounted; rewrite map_filter_empty; simpl; lia|by left; lia]. }
  simpl. unfold circuit_get_state. destruct Hst as [-> |(_ & Hcount & Hthr)]; [done|]. exfalso.
  assert (count_uncounted (rs_calls st) = 0) as Hzero.
  { unfold count_uncounted. assert (filter (λ kv, uncounted kv.2 = true) (rs_calls st) = ∅) as ->; [|done].
    apply map_empty. intros n. apply map_lookup_filter_None_2. right. intros pc Hn. destruct (Hdone n pc Hn) as [a ->]. done. }
  destruct Hthr as [?|(n & now & Hn)]; [lia|]. destruct (Hdone _ _ Hn) as [a ?]. done.
Qed.

(** Ten seconds to reset, one failure opens. *)
Definition race_config : CircuitBreakerConfig := mkCbConfig 1 (from_secs 10) 1 (from_secs 60).

Definition go_on (n : nat) (t : Z) (k : nat) : list race_label := replicate k (BStep n t).

(** What the interleaving of accesses can break. First, a circuit that has
    just opened does not block: a call that asks between the store of the state
    and the store of the opening time finds the circuit open since time 0, and
    turns it half-open at once instead of after the reset timeout. Second, the
    first calls on a backend can lose one another: a circuit inserted by a call
    that had found none replaces the one another call has meanwhile opened. Third,
    [clear_all] between the insertion and the lookup of a call makes its [unwrap]
    panic. *)
Lemma breaker_races :
  (∃ st, race_run race_config
     (BCall 0 OpFailure :: BCall 1 OpAllow :: go_on 0 20000 6 ++ go_on 1 20000 6 ++ go_on 0 20000 2)
     (mkRace (Some circuit_new) ∅) = Some st ∧
     rs_calls st !! 1%nat = Some (PDone (Some true)) ∧ circuit_get_state <$> rs_entry st = Some CHalfOpen ∧
     bc_opened_at_ms <$> rs_entry st = Some 20000) ∧
  (∃ st1 st2, race_run race_config
     (BCall 0 OpFailure :: BCall 1 OpFailure :: go_on 1 5 1 ++ go_on 0 5 9) (mkRace None ∅) = Some st1 ∧
     circuit_get_state <$> rs_entry st1 = Some COpen ∧ rs_calls st1 !! 0%nat = Some (PDone None) ∧
     race_run race_config (go_on 1 5 1) st1 = Some st2 ∧ circuit_get_state <$> rs_entry st2 = Some CClosed) ∧
  (∃ st, race_run race_config (BCall 0 OpAllow :: go_on 0 5 2 ++ BClear :: go_on 0 5 1) (mkRace None ∅) = Some st ∧
     rs_calls st !! 0%nat = Some PPanicked).
Proof.
  split; [|split].
  - eexists. split; [vm_compute; reflexivity|]. split; [reflexivity|]. split; reflexivity.
  - eexists _, _. split; [vm_compute; reflexivity|]. split; [reflexivity|]. split; [reflexivity|].
    split; [vm_compute; reflexivity|reflexivity].
  - eexists. split; [vm_compute; reflexivity|reflexivity].
Qed.

(** ** Witnesses *)

Lemma call_alone_atomic_witness :
  ∃ k, race_run race_config (BCall 0 OpFailure :: replicate k (BStep 0 7)) (mkRace None ∅) =
    Some (mkRace (Some (mkCircuit 1 1 0 7 7)) {[ 0%nat := PDone None ]}).
Proof.
  destruct (call_alone_atomic race_config 0 7 None ∅ OpFailure) as [k Hk]; [reflexivity|reflexivity|].
  exists k. exact Hk.
Defined.

(** One failure was counted at 100000; of two more, both read the circuit as closed; the
    threshold is three. *)
Definition one_failure : BackendCircuit := mkCircuit 0 1 0 0 100000.
Definition three_failures : CircuitBreakerConfig := mkCbConfig 3 (from_secs 10) 1 (from_secs 60).
Definition two_more : list race_label :=
  BCall 0 OpFailure :: BCall 1 OpFailure :: go_on 0 100005 4 ++ go_on 1 100006 6 ++ go_on 0 100005 4.

Lemma concurrent_failures_trip_witness :
  ∃ st, race_run three_failures two_more (mkRace (Some one_failure) ∅) = Some st ∧
    circuit_get_state <$> rs_entry st = Some COpen.
Proof.
  eexists. split; [vm_compute; reflexivity|].
  apply (concurrent_failures_trip three_failures one_failure).
  - reflexivity.
  - simpl. lia.
  - apply (race_run_rtc _ _ two_more); [|vm_compute; reflexivity].
    repeat (apply Forall_cons; split; [first [reflexivity|vm_compute; split; discriminate]|]). apply Forall_nil. exact I.
  - intros n pc Hn. apply elem_of_map_to_list in Hn. vm_compute in Hn.
    apply elem_of_cons in Hn as [[= -> ->]|Hn]; [by eexists|]. apply elem_of_cons in Hn as [[= -> ->]|Hn]; [by eexists|].
    by apply elem_of_nil in Hn.
  - vm_compute. split; [discriminate|reflexivity].
Defined.

(** The first failures of a circuit, or of a window, can be lost: two calls that both
    find the last failure out of the window each store the count 1, so with a threshold
    of two the circuit stays closed. *)
Lemma first_failures_lost :
  ∃ st, race_run (mkCbConfig 2 (from_secs 10) 1 (from_secs 60))
    (BCall 0 OpFailure :: BCall 1 OpFailure :: go_on 0 100000 4 ++ go_on 1 100000 6 ++ go_on 0 100000 2)
    (mkRace (Some circuit_new) ∅) = Some st ∧
    rs_calls st = {[0%nat := PDone None; 1%nat := PDone None]} ∧
    rs_entry st = Some (mkCircuit 0 1 0 0 100000).
Proof. eexists. split; [vm_compute; reflexivity|]. split; reflexivity. Qed.
