(* ===== verification/RateLimiter.v ===== *)
(** * Rate limiter

    [src/src/infrastructure/rate_limiter.rs]: a token bucket per client address,
    refilled in binary64 arithmetic.  [check_with_cost] holds the map entry of the
    client (and so the lock of its shard) from start to end, so that its loads,
    stores and its compare-and-exchange loop form one step; it reads the millisecond
    clock when it creates the entry ([t_new]) and after that ([now]). *)

From S2P Require Import Prelude Float64 Domain Cas.
From Stdlib Require Import SpecFloat.

Record RateLimitConfig := mkRlConfig {
  rl_max_requests : Z;      (* u64 *)
  rl_window : duration;
  rl_burst_size : Z         (* u64 *)
}.

Definition rl_config_default : RateLimitConfig := mkRlConfig 100 (from_secs 1) 10.

Record ClientState := mkClient { tokens : Z; last_refill_ms : Z }.

Definition client_new (burst_size now : Z) : ClientState := mkClient burst_size now.

Record RateLimiter := mkLimiter {
  rl_config : RateLimitConfig;
  rl_clients : gmap IpAddr ClientState;
  refill_rate_per_ms : f64
}.

Definition limiter_new (cfg : RateLimitConfig) : RateLimiter :=
  mkLimiter cfg ∅ (f64_div (f64_of_Z (rl_max_requests cfg)) (f64_of_Z (as_millis (rl_window cfg)))).

Definition limiter_default : RateLimiter := limiter_new rl_config_default.

(** [(elapsed_ms as f64 * self.refill_rate_per_ms) as u64]. *)
Definition tokens_to_add (rate : f64) (elapsed_ms : Z) : Z :=
  f64_to_u64 (f64_mul (f64_of_Z elapsed_ms) rate).

(** The refill step of [check_with_cost]. *)
Definition rl_refill (burst : Z) (rate : f64) (now : Z) (c : ClientState) : ClientState :=
  let add := tokens_to_add rate (saturating_sub now (last_refill_ms c)) in
  if 0 <? add then mkClient (Z.min (tokens c +u64 add) burst) now else c.

(** What the consuming loop swaps in for the value it read. *)
Definition consume_update (cost current : Z) : option Z :=
  if current <? cost then None else Some (current - cost).

(** [check_with_cost] on the client's entry. *)
Definition client_check (burst : Z) (rate : f64) (now cost : Z) (c : ClientState)
    : ClientState * bool :=
  let c := rl_refill burst rate now c in
  let '(t, ok) := cas_atomic (fun _ => consume_update cost) 0 (tokens c) in
  (mkClient t (last_refill_ms c), ok).

Definition check_with_cost (t_new now : Z) (l : RateLimiter) (ip : IpAddr) (cost : Z)
    : RateLimiter * bool :=
  let c := default (client_new (rl_burst_size (rl_config l)) t_new) (rl_clients l !! ip) in
  let '(c', ok) := client_check (rl_burst_size (rl_config l)) (refill_rate_per_ms l) now cost c in
  (mkLimiter (rl_config l) (<[ip := c']> (rl_clients l)) (refill_rate_per_ms l), ok).

Definition rl_check (t_new now : Z) (l : RateLimiter) (ip : IpAddr) : RateLimiter * bool :=
  check_with_cost t_new now l ip 1.

Definition rl_remaining (l : RateLimiter) (ip : IpAddr) : Z :=
  default (rl_burst_size (rl_config l)) (tokens <$> rl_clients l !! ip).

Definition rl_clear (l : RateLimiter) (ip : IpAddr) : RateLimiter :=
  mkLimiter (rl_config l) (delete ip (rl_clients l)) (refill_rate_per_ms l).

Definition rl_clear_all (l : RateLimiter) : RateLimiter :=
  mkLimiter (rl_config l) ∅ (refill_rate_per_ms l).

Definition rl_client_count (l : RateLimiter) : nat := size (rl_clients l).

(** The predicate of [retain]. *)
Definition rl_fresh (now max_age_ms : Z) (c : ClientState) : Prop :=
  saturating_sub now (last_refill_ms c) < max_age_ms.

#[export] Instance rl_fresh_dec now age c : Decision (rl_fresh now age c).
Proof. unfold rl_fresh. apply _. Defined.

Definition rl_cleanup (now : Z) (l : RateLimiter) (max_age : duration) : RateLimiter :=
  mkLimiter (rl_config l)
    (filter (fun kc => rl_fresh now (wrap 64 (as_millis max_age)) (snd kc)) (rl_clients l))
    (refill_rate_per_ms l).

(** One turn of the task of [start_cleanup_with_arc]: the limiter, and the number
    of entries its log line reports. *)
Definition rl_cleanup_turn (now : Z) (l : RateLimiter) (max_age : duration) : RateLimiter * nat :=
  let before := rl_client_count l in
  let l' := rl_cleanup now l max_age in
  (l', (before - rl_client_count l')%nat).

(** ** Runs *)

Inductive rl_op :=
| RlCheck (ip : IpAddr) (cost t_new now : Z)
| RlClear (ip : IpAddr)
| RlClearAll
| RlCleanup (max_age : duration) (now : Z).

Definition rl_apply (l : RateLimiter) (op : rl_op) : RateLimiter :=
  match op with
  | RlCheck ip cost t_new now => fst (check_with_cost t_new now l ip cost)
  | RlClear ip => rl_clear l ip
  | RlClearAll => rl_clear_all l
  | RlCleanup max_age now => rl_cleanup now l max_age
  end.

(** A run of checks on any clients: the limiter, and the cost let through for [ip]. *)
Fixpoint limiter_run (ip : IpAddr) (reqs : list (IpAddr * (Z * Z * Z))) (l : RateLimiter) (admitted : Z)
    : RateLimiter * Z :=
  match reqs with
  | [] => (l, admitted)
  | (ip', (t_new, now, cost)) :: reqs' =>
      let '(l', ok) := check_with_cost t_new now l ip' cost in
      limiter_run ip reqs' l' (if bool_decide (ip' = ip) && ok then admitted + cost else admitted)
  end.

(** ** Lemmas *)

Definition client_inv (burst : Z) (c : ClientState) : Prop := 0 <= tokens c <= burst.

Definition limiter_inv (l : RateLimiter) : Prop :=
  ∀ ip c, rl_clients l !! ip = Some c → client_inv (rl_burst_size (rl_config l)) c.

Lemma f64_to_u64_nonneg x : 0 <= f64_to_u64 x.
Proof.
  destruct x as [| [] | | [] m e]; simpl; try done.
  apply Z.min_glb; [done|]. apply Z.shiftl_nonneg. lia.
Qed.

Lemma tokens_to_add_0 rate : tokens_to_add rate 0 = 0.
Proof. by destruct rate. Qed.

Lemma rl_refill_inv burst rate now c :
  0 <= burst → client_inv burst c → client_inv burst (rl_refill burst rate now c).
Proof.
  intros Hb [? ?]. unfold rl_refill. case_match; [|done].
  pose proof (wrap_range 64 (tokens c + tokens_to_add rate (saturating_sub now (last_refill_ms c)))
    ltac:(lia)) as [? _].
  split; simpl; lia.
Qed.

(** A check either takes its cost or leaves the refilled bucket as it is. *)
Lemma client_check_spec burst rate now cost c :
  client_check burst rate now cost c =
    let c1 := rl_refill burst rate now c in
    if cost <=? tokens c1 then (mkClient (tokens c1 - cost) (last_refill_ms c1), true) else (c1, false).
Proof.
  unfold client_check, cas_atomic, consume_update. simpl.
  rewrite Z.ltb_antisym. destruct (cost <=? tokens _); simpl; [done|].
  by destruct (rl_refill burst rate now c).
Qed.

Lemma client_check_inv burst rate now cost c :
  0 <= burst → 0 <= cost → client_inv burst c →
  client_inv burst (fst (client_check burst rate now cost c)).
Proof.
  intros Hb Hc Hinv. rewrite client_check_spec.
  destruct (rl_refill_inv burst rate now c Hb Hinv). simpl.
  case_match; zbool; simpl; unfold client_inv; simpl; lia.
Qed.

(** An operation leaves the configuration alone and acts on one client. *)
Lemma check_with_cost_spec t_new now l ip cost :
  let c := default (client_new (rl_burst_size (rl_config l)) t_new) (rl_clients l !! ip) in
  let r := client_check (rl_burst_size (rl_config l)) (refill_rate_per_ms l) now cost c in
  check_with_cost t_new now l ip cost =
    (mkLimiter (rl_config l) (<[ip := fst r]> (rl_clients l)) (refill_rate_per_ms l), snd r).
Proof. simpl. unfold check_with_cost. by destruct (client_check _ _ _ _ _). Qed.

Lemma rl_apply_inv l op :
  0 <= rl_burst_size (rl_config l) → (∀ ip cost t_new now, op = RlCheck ip cost t_new now → 0 <= cost) →
  limiter_inv l → limiter_inv (rl_apply l op) ∧ rl_config (rl_apply l op) = rl_config l.
Proof.
  intros Hb Hcost Hinv. destruct op as [ip cost t_new now|ip| |age now]; simpl.
  - rewrite check_with_cost_spec. split; [|done]. intros ip' c'. simpl.
    rewrite lookup_insert. case_decide; [|by apply Hinv]. intros [= <-].
    apply client_check_inv; [done|by eapply Hcost|].
    destruct (rl_clients l !! ip) as [c|] eqn:Hc; simpl; [by eapply Hinv|].
    unfold client_inv; simpl. lia.
  - split; [|done]. intros ip' c'. simpl. rewrite lookup_delete. case_decide; [done|]. apply Hinv.
  - split; [|done]. intros ip' c'. simpl. by rewrite lookup_empty.
  - split; [|done]. intros ip' c'. simpl. rewrite map_lookup_filter_Some. intros [? _]. by eapply Hinv.
Qed.

(** Whatever the clock readings, the refill rate (infinite, not a number or
    overflowing sums included) and the order of checks, clears and cleanups, no
    client ever holds more tokens than [burst_size]. *)
Lemma tokens_never_exceed_burst cfg ops :
  0 <= rl_burst_size cfg → Forall (fun op => ∀ ip cost t_new now, op = RlCheck ip cost t_new now → 0 <= cost) ops →
  let l := foldl rl_apply (limiter_new cfg) ops in
  limiter_inv l ∧ ∀ ip, rl_remaining l ip <= rl_burst_size cfg.
Proof.
  intros Hb Hops l.
  assert (limiter_inv l ∧ rl_config l = cfg) as [Hinv Hcf].
  { assert (limiter_inv (limiter_new cfg)) as Hinit.
    { intros ip c. simpl. by rewrite lookup_empty. }
    assert (rl_config (limiter_new cfg) = cfg) as Hcf by done.
    subst l. revert Hinit Hcf. generalize (limiter_new cfg) as l.
    induction Hops as [|op ops Hop _ IH]; intros l Hinv Hcf; simpl; [done|].
    destruct (rl_apply_inv l op) as [? Hcf']; [by rewrite Hcf|done|done|].
    apply IH; [done|congruence]. }
  split; [done|]. intros ip. unfold rl_remaining. rewrite <-Hcf in *.
  destruct (rl_clients l !! ip) as [c|] eqn:Hc; simpl; [|lia]. by destruct (Hinv ip c Hc).
Qed.

Lemma tokens_never_exceed_burst_witness :
  limiter_inv (foldl rl_apply limiter_default [RlCheck (V4 1) 3 0 0; RlCheck (V4 1) 8 90 90; RlCleanup 5 7]).
Proof.
  apply (tokens_never_exceed_burst rl_config_default); [simpl; lia|].
  repeat constructor; intros ???? [=]; lia.
Defined.

(** Configurations whose numbers [f64] represents, and whose bucket takes less than
    [2 ^ 50 / max_requests] milliseconds to fill. *)
Definition config_moderate (cfg : RateLimitConfig) : Prop :=
  0 <= rl_burst_size cfg ∧ 0 < rl_max_requests cfg < 2 ^ 53 ∧ 0 < as_millis (rl_window cfg) <= 2 ^ 52 ∧
  rl_burst_size cfg * as_millis (rl_window cfg) <= 2 ^ 50.

(** Two roundings do not lift the refill over the exact quotient's integer part. *)
Lemma tokens_to_add_le M W e :
  0 < M < 2 ^ 53 → 0 < W <= 2 ^ 52 → 0 < e → M * e <= 2 ^ 50 →
  tokens_to_add (f64_div (f64_of_Z M) (f64_of_Z W)) e * W <= M * e.
Proof.
  intros HM HW He Hle. pose proof SCALE_pos. assert (e <= 2 ^ 50) by nia. assert (M <= 2 ^ 50) by nia.
  destruct (f64_div_close _ _ (M * SCALE) (W * SCALE) (f64_of_Z_val M ltac:(lia))
    (f64_of_Z_val W ltac:(lia))) as (r & Hr & Hup & Hdn);
    [nia|nia|rewrite Z.mul_assoc; apply Z.mul_le_mono_nonneg_r; lia..|].
  assert (r * W * 2 ^ 52 <= M * SCALE * (2 ^ 52 + 1)) as Hru
    by (apply (Z.mul_le_mono_pos_r _ _ SCALE); [done|lia]).
  assert (M * SCALE * 2 ^ 52 <= r * W * (2 ^ 52 + 1)) as Hrd'
    by (apply (Z.mul_le_mono_pos_r _ _ SCALE); [done|lia]).
  assert (M * SCALE <= 2 * r * W) as Hrd by lia.
  assert (r <= 2 * M * SCALE) by nia.
  destruct (f64_mul_close (f64_of_Z e) _ (e * SCALE) r (f64_of_Z_val e ltac:(lia)) Hr) as (v & Hv & Hvu);
    [nia|nia| |].
  { transitivity (e * SCALE * (2 * M * SCALE)); [apply Z.mul_le_mono_nonneg_l; nia|].
    transitivity (2 * (M * e) * (SCALE * SCALE)); [lia|]. apply Z.mul_le_mono_nonneg_r; nia. }
  destruct (f64_to_u64_le _ _ Hv) as [Ht0 Ht]. fold (tokens_to_add (f64_div (f64_of_Z M) (f64_of_Z W)) e) in *.
  set (t := tokens_to_add _ e) in *.
  assert (v * 2 ^ 52 <= e * r * (2 ^ 52 + 1)) as Hve
    by (apply (Z.mul_le_mono_pos_r _ _ SCALE); [done|lia]).
  assert (t * SCALE * 2 ^ 52 * W * 2 ^ 52 <= e * (M * SCALE * (2 ^ 52 + 1)) * (2 ^ 52 + 1)) as Hall.
  { transitivity (e * r * (2 ^ 52 + 1) * W * 2 ^ 52).
    - apply Z.mul_le_mono_nonneg_r; [done|]. apply Z.mul_le_mono_nonneg_r; lia.
    - transitivity (e * (r * W * 2 ^ 52) * (2 ^ 52 + 1)); [lia|].
      apply Z.mul_le_mono_nonneg_r; [done|]. apply Z.mul_le_mono_nonneg_l; lia. }
  assert (t * W * 2 ^ 104 <= M * e * (2 ^ 52 + 1) ^ 2).
  { apply (Z.mul_le_mono_pos_r _ _ SCALE); [done|]. change (2 ^ 104) with (2 ^ 52 * 2 ^ 52).
    change ((2 ^ 52 + 1) ^ 2) with ((2 ^ 52 + 1) * (2 ^ 52 + 1)). lia. }
  enough (t * W < M * e + 1) by lia.
  apply (Z.mul_lt_mono_pos_r (2 ^ 104)); [done|]. change ((2 ^ 52 + 1) ^ 2) with (2 ^ 104 + 2 ^ 53 + 1) in *. lia.
Qed.

(** So a refill, as far as it fits in the bucket, does not run ahead of the rate. *)
Lemma refill_capped cfg e :
  config_moderate cfg → 0 <= e →
  Z.min (tokens_to_add (refill_rate_per_ms (limiter_new cfg)) e) (rl_burst_size cfg)
    * as_millis (rl_window cfg) <= rl_max_requests cfg * e.
Proof.
  intros (Hb & HM & HW & Hfit) He. simpl.
  destruct (decide (e = 0)) as [->|Hne]; [rewrite tokens_to_add_0; lia|].
  destruct (Z.le_gt_cases (rl_burst_size cfg * as_millis (rl_window cfg)) (rl_max_requests cfg * e)); [nia|].
  pose proof (tokens_to_add_le (rl_max_requests cfg) (as_millis (rl_window cfg)) e HM HW ltac:(lia) ltac:(lia)).
  nia.
Qed.

(** Tokens held and handed out, against the time the bucket has been refilled for. *)
Definition bucket_bound (cfg : RateLimitConfig) (t0 T admitted : Z) (c : ClientState) : Prop :=
  client_inv (rl_burst_size cfg) c ∧ t0 <= last_refill_ms c <= T ∧
  (admitted + tokens c) * as_millis (rl_window cfg) <=
    rl_burst_size cfg * as_millis (rl_window cfg) + rl_max_requests cfg * (last_refill_ms c - t0).

Lemma rl_refill_bound cfg t0 T now c admitted :
  config_moderate cfg → t0 <= now <= T → bucket_bound cfg t0 T admitted c →
  bucket_bound cfg t0 T admitted
    (rl_refill (rl_burst_size cfg) (refill_rate_per_ms (limiter_new cfg)) now c).
Proof.
  intros Hs Hnow (Hinv & Hlast & Hb). pose proof Hs as (? & ? & ? & _).
  unfold bucket_bound. split; [by apply rl_refill_inv|].
  unfold rl_refill. case_match eqn:Hpos; [|done]. simpl. split; [lia|].
  set (e := saturating_sub now (last_refill_ms c)) in *.
  pose proof (refill_capped cfg e Hs (saturating_sub_nonneg _ _)) as Hadd. zbool. destruct Hinv as [? ?].
  set (add := tokens_to_add _ e) in *.
  destruct (Z.le_gt_cases now (last_refill_ms c)) as [Hn|Hn].
  { assert (e = 0) as He0 by (unfold e, saturating_sub; lia).
    unfold add in Hpos. rewrite He0, tokens_to_add_0 in Hpos. done. }
  assert (e = now - last_refill_ms c) as He by (unfold e, saturating_sub; lia).
  assert (wrap 64 (tokens c + add) <= tokens c + add) as Hw by (apply Z.mod_le; lia).
  assert (Z.min (wrap 64 (tokens c + add)) (rl_burst_size cfg) <= tokens c + Z.min add (rl_burst_size cfg)) by lia.
  rewrite He in Hadd. nia.
Qed.

Lemma client_check_bound cfg t0 T now cost c admitted :
  config_moderate cfg → t0 <= now <= T → 0 <= cost → bucket_bound cfg t0 T admitted c →
  let r := client_check (rl_burst_size cfg) (refill_rate_per_ms (limiter_new cfg)) now cost c in
  bucket_bound cfg t0 T (if snd r then admitted + cost else admitted) (fst r).
Proof.
  intros Hs Hnow Hcost Hb. cbv zeta. rewrite client_check_spec. cbv zeta.
  apply (rl_refill_bound _ _ _ now) in Hb; [|done|done].
  destruct (Z.leb_spec cost (tokens (rl_refill (rl_burst_size cfg)
    (refill_rate_per_ms (limiter_new cfg)) now c))) as [Hle|Hgt]; cbn [fst snd]; [|done].
  destruct Hb as ((? & ?) & ? & Hsum). unfold bucket_bound, client_inv; cbn [tokens last_refill_ms].
  split_and!; try lia.
Qed.

(** C19: over any period [t0, T] in which a client first appears, and however the
    checks of other clients are interleaved, the cost let through for the client
    is at most its burst plus the configured rate times the length of the period:
    [admitted <= burst_size + max_requests * (T - t0) / window]; rounding in the
    refill arithmetic never grants more, for every configuration with
    [burst_size * window_ms <= 2 ^ 50]. *)
Theorem rate_limit_bound cfg ip reqs l t0 T :
  config_moderate cfg →
  rl_config l = cfg → refill_rate_per_ms l = refill_rate_per_ms (limiter_new cfg) →
  rl_clients l !! ip = None → t0 <= T →
  Forall (fun '(_, (t_new, now, cost)) => t0 <= t_new <= T ∧ t0 <= now <= T ∧ 0 <= cost) reqs →
  snd (limiter_run ip reqs l 0) * as_millis (rl_window cfg) <=
    rl_burst_size cfg * as_millis (rl_window cfg) + rl_max_requests cfg * (T - t0).
Proof.
  intros Hs Hcf Hrate Hnone HT Hreqs. pose proof Hs as (? & ? & ? & _).
  enough (∀ adm,
     bucket_bound cfg t0 T adm (default (client_new (rl_burst_size cfg) t0) (rl_clients l !! ip)) →
     ∃ c, bucket_bound cfg t0 T (snd (limiter_run ip reqs l adm)) c) as Hend.
  { destruct (Hend 0) as [c (Hinv & Hlast & Hb)].
    - rewrite Hnone. unfold bucket_bound, client_inv; simpl. lia.
    - destruct Hinv. nia. }
  clear Hnone. intros adm. revert l adm Hcf Hrate.
  induction Hreqs as [|[ip' [[t_new now] cost]] reqs (Hnew & Hnow & Hcost) _ IH];
    intros l adm Hcf Hrate Hb; simpl; [eauto|].
  rewrite check_with_cost_spec, Hcf, Hrate. cbv zeta. cbn [fst snd].
  apply IH; [done|done|]. simpl. rewrite lookup_insert.
  case_bool_decide as Heq; subst; simpl; [|by rewrite decide_False].
  rewrite decide_True by done. simpl. apply client_check_bound; [done..|].
  destruct (rl_clients l !! ip) as [c|]; simpl in *; [done|].
  destruct Hb as (Hinv & Hl & Hb). unfold bucket_bound, client_inv in *; simpl in *. nia.
Qed.

Lemma rate_limit_bound_witness :
  snd (limiter_run (V4 1) ((fun t => (V4 1, (t, t, 1))) <$> seqZ 0 60) limiter_default 0) * 1000
    <= 10 * 1000 + 100 * (59 - 0) ∧
  snd (limiter_run (V4 1) ((fun t => (V4 1, (t, t, 1))) <$> seqZ 0 60) limiter_default 0) = 15.
Proof.
  split; [|vm_compute; reflexivity].
  apply (rate_limit_bound rl_config_default); try done.
  apply Forall_fmap, Forall_forall. intros t. rewrite elem_of_seqZ. simpl. lia.
Defined.

Lemma rl_refill_same_time burst rate now c :
  last_refill_ms c = now → rl_refill burst rate now c = c.
Proof. intros <-. unfold rl_refill. by rewrite saturating_sub_self, tokens_to_add_0. Qed.

(** Unit checks in the same millisecond draw down what the bucket holds. *)
Lemma limiter_run_same_time ip now n l c adm :
  rl_clients l !! ip = Some c → last_refill_ms c = now → 0 <= tokens c →
  snd (limiter_run ip (replicate n (ip, (now, now, 1))) l adm) = adm + Z.min (Z.of_nat n) (tokens c).
Proof.
  revert l c adm. induction n as [|n IH]; intros l c adm Hc Hnow Ht; cbn [replicate limiter_run].
  { simpl. lia. }
  rewrite check_with_cost_spec, Hc. cbv zeta. cbn [default fst snd].
  rewrite client_check_spec, rl_refill_same_time by done. cbv zeta. rewrite bool_decide_true by done. simpl.
  destruct (Z.leb_spec 1 (tokens c)); cbn [fst snd];
    (erewrite IH; [|apply lookup_insert_eq|done|simpl; lia]); simpl; lia.
Qed.

(** A client that has not been seen before gets exactly its burst: of [n]
    requests in one millisecond, [min n burst_size] are let through, at every
    refill rate. *)
Lemma burst_exact l ip now n :
  0 <= rl_burst_size (rl_config l) → rl_clients l !! ip = None →
  snd (limiter_run ip (replicate n (ip, (now, now, 1))) l 0) = Z.min (Z.of_nat n) (rl_burst_size (rl_config l)).
Proof.
  intros Hb Hnone. destruct n as [|n]; [simpl; lia|]. cbn [replicate limiter_run].
  rewrite check_with_cost_spec, Hnone. cbv zeta. cbn [default fst snd].
  rewrite client_check_spec, rl_refill_same_time by done. cbv zeta. rewrite bool_decide_true by done. simpl.
  destruct (Z.leb_spec 1 (rl_burst_size (rl_config l))); cbn [fst snd];
    (erewrite limiter_run_same_time; [|apply lookup_insert_eq|done|simpl; lia]); simpl; lia.
Qed.

Lemma burst_exact_witness :
  snd (limiter_run (V4 1) (replicate 12 (V4 1, (5, 5, 1))) limiter_default 0) = 10.
Proof. rewrite burst_exact; [reflexivity|simpl; lia|reflexivity]. Defined.

(** A cleanup forgets a client whose last refill is [max_age] old even if
    the client is active: requests that arrive before a whole token has
    accumulated do not move [last_refill_ms].  An empty bucket is then full again. *)
Lemma cleanup_refills_active_client l ip c max_age t_new now :
  rl_clients l !! ip = Some c → tokens c = 0 →
  wrap 64 (as_millis max_age) <= saturating_sub now (last_refill_ms c) →
  tokens_to_add (refill_rate_per_ms l) (saturating_sub now (last_refill_ms c)) = 0 →
  snd (rl_check t_new now l ip) = false ∧
  rl_remaining (fst (rl_check t_new now l ip)) ip = 0 ∧
  rl_remaining (rl_cleanup now (fst (rl_check t_new now l ip)) max_age) ip = rl_burst_size (rl_config l).
Proof.
  intros Hc Ht Hage Hadd. unfold rl_check. rewrite check_with_cost_spec, Hc. cbv zeta. cbn [default fst snd].
  assert (rl_refill (rl_burst_size (rl_config l)) (refill_rate_per_ms l) now c = c) as Hre.
  { unfold rl_refill. by rewrite Hadd. }
  rewrite client_check_spec. cbv zeta. change (id c) with c. rewrite Hre, Ht. cbn [Z.leb fst snd].
  split; [done|]. unfold rl_remaining; simpl. rewrite lookup_insert_eq. split; [done|].
  rewrite map_filter_insert, decide_False; [by rewrite map_lookup_filter, lookup_delete_eq|].
  unfold rl_fresh; simpl. lia.
Qed.

(** One request per hour, cleaned up every minute. *)
Lemma cleanup_refills_active_client_witness :
  let cfg := mkRlConfig 1 (from_secs 3600) 1 in
  let l := fst (rl_check 0 0 (limiter_new cfg) (V4 1)) in
  rl_remaining (rl_cleanup 120000 (fst (rl_check 120000 120000 l (V4 1))) (from_secs 60)) (V4 1) = 1.
Proof.
  intros cfg l.
  apply (cleanup_refills_active_client l (V4 1) (mkClient 0 0) (from_secs 60) 120000 120000);
    vm_compute; congruence.
Defined.

Lemma f64_mul_infinity m e b : f64_mul (S754_finite false m e) (S754_infinity b) = S754_infinity b.
Proof. by destruct b. Qed.

(** With a zero [window] the refill rate is infinite, the tokens to add
    saturate at [u64::MAX], and the sum wraps: a refill {e takes} a token from a
    non-empty bucket instead of filling it. *)
Lemma zero_window_refill_drains cfg now c :
  0 < rl_max_requests cfg < 2 ^ 53 → as_millis (rl_window cfg) = 0 →
  last_refill_ms c < now → now - last_refill_ms c < 2 ^ 53 →
  0 < tokens c <= rl_burst_size cfg → rl_burst_size cfg < 2 ^ 64 →
  rl_refill (rl_burst_size cfg) (refill_rate_per_ms (limiter_new cfg)) now c =
    mkClient (tokens c - 1) now.
Proof.
  intros HM HW Hlt Hel Ht Hb. unfold rl_refill.
  replace (saturating_sub now (last_refill_ms c)) with (now - last_refill_ms c)
    by (unfold saturating_sub; lia).
  assert (∀ z, 0 < z < 2 ^ 53 → ∃ m e, f64_of_Z z = S754_finite false m e) as Hfin.
  { intros z Hz. pose proof (f64_of_Z_val z ltac:(lia)) as Hv. pose proof SCALE_pos.
    inversion Hv as [Hz0 H0|m e ? Hm]; [nia|eauto]. }
  assert (tokens_to_add (refill_rate_per_ms (limiter_new cfg)) (now - last_refill_ms c) = U64_MAX) as ->.
  { unfold tokens_to_add. simpl. rewrite HW.
    destruct (Hfin (rl_max_requests cfg) HM) as (m & e & ->).
    destruct (Hfin (now - last_refill_ms c) ltac:(lia)) as (m' & e' & ->). done. }
  assert (wrap 64 (tokens c + U64_MAX) = tokens c - 1) as ->.
  { unfold wrap, U64_MAX. replace (tokens c + (2 ^ 64 - 1)) with (tokens c - 1 + 1 * 2 ^ 64) by lia.
    rewrite Z.mod_add, Z.mod_small; lia. }
  simpl. f_equal. lia.
Qed.

Lemma zero_window_refill_drains_witness :
  let cfg := mkRlConfig 100 0 10 in
  rl_refill 10 (refill_rate_per_ms (limiter_new cfg)) 1 (mkClient 10 0) = mkClient 9 1.
Proof. apply (zero_window_refill_drains (mkRlConfig 100 0 10) 1 (mkClient 10 0)); simpl; try lia; done. Defined.
