(* ===== verification/ConnectionPool.v ===== *)
(** * Connection pool

    [src/src/infrastructure/connection_pool.rs].  The per-backend pools are shared
    objects ([Arc<BackendPool>]): an acquisition that is waiting for a connection
    to be set up, or the cleanup task with its clone of the map, keeps using a pool
    that [clear] has meanwhile taken out of the map.  So the state has a heap of
    pools and a map from backend id to handle.  [acquire] is split at the points
    where other tasks can run; the other calls are one function each.  [PoolRaces]
    has every access to shared state as a step, with the locks; [PoolCalls] shows that
    the calls here are those accesses in a row.  [stream] names a TCP stream.  The
    clock is read once per operation, as its [now] argument. *)

From S2P Require Import Prelude.

Record PoolConfig := mkPoolConfig {
  max_connections : Z;     (* usize *)
  min_idle : Z;
  idle_timeout : duration;
  max_lifetime : duration;
  connect_timeout : duration
}.

Definition pool_config_default : PoolConfig :=
  mkPoolConfig 10 2 (from_secs 300) (from_secs 3600) (from_secs 5).

Record PooledConnection := mkConn {
  pc_stream : nat;
  pc_created_at : instant;
  pc_last_used : instant;
  pc_backend_id : string
}.

Definition conn_new (now : instant) (stream : nat) (backend_id : string) : PooledConnection :=
  mkConn stream now now backend_id.

Definition is_expired (now : instant) (life : duration) (c : PooledConnection) : bool :=
  life <? duration_since now (pc_created_at c).

Definition is_idle_expired (now : instant) (timeout : duration) (c : PooledConnection) : bool :=
  timeout <? duration_since now (pc_last_used c).

Definition conn_touch (now : instant) (c : PooledConnection) : PooledConnection :=
  mkConn (pc_stream c) (pc_created_at c) now (pc_backend_id c).

Record BackendPool := mkBackendPool {
  bp_connections : list PooledConnection;   (* VecDeque behind a mutex *)
  bp_in_use : Z;                            (* AtomicUsize *)
  bp_addr : string
}.

Definition backend_pool_new (addr : string) : BackendPool := mkBackendPool [] 0 addr.

Definition total_connections (bp : BackendPool) : Z := bp_in_use bp.

Definition with_connections (l : list PooledConnection) (bp : BackendPool) : BackendPool :=
  mkBackendPool l (bp_in_use bp) (bp_addr bp).
Definition in_use_add (n : Z) (bp : BackendPool) : BackendPool :=
  mkBackendPool (bp_connections bp) (bp_in_use bp +u64 n) (bp_addr bp).

Inductive PoolError :=
| PoolExhausted
| ConnectError (e : string)
| ConnectTimeout.

Definition pool_error_display (e : PoolError) : string :=
  match e with
  | PoolExhausted => "connection pool exhausted"
  | ConnectError e => "connection error: " +:+ e
  | ConnectTimeout => "connection timeout"
  end.

Record ConnectionPool := mkConnectionPool {
  cp_config : PoolConfig;
  cp_heap : gmap nat BackendPool;      (* the pools that exist *)
  cp_pools : gmap string nat;          (* the map of the manager *)
  cp_fresh : nat                       (* the next handle *)
}.

Definition connection_pool_new (cfg : PoolConfig) : ConnectionPool := mkConnectionPool cfg ∅ ∅ 0.

Definition update_pool (h : nat) (f : BackendPool → BackendPool) (p : ConnectionPool) : ConnectionPool :=
  mkConnectionPool (cp_config p) (alter f h (cp_heap p)) (cp_pools p) (cp_fresh p).

Definition get_or_create_pool (p : ConnectionPool) (id addr : string) : ConnectionPool * nat :=
  match cp_pools p !! id with
  | Some h => (p, h)
  | None =>
      (mkConnectionPool (cp_config p) (<[cp_fresh p := backend_pool_new addr]> (cp_heap p))
         (<[id := cp_fresh p]> (cp_pools p)) (S (cp_fresh p)), cp_fresh p)
  end.

(** The [while let Some(conn) = connections.pop_front()] loop: the valid
    connection it stops at, the queue it leaves, the streams it shuts down. *)
Fixpoint pop_valid (cfg : PoolConfig) (now : instant) (l : list PooledConnection)
    : option PooledConnection * list PooledConnection * list nat :=
  match l with
  | [] => (None, [], [])
  | c :: l' =>
      if is_expired now (max_lifetime cfg) c || is_idle_expired now (idle_timeout cfg) c then
        let '(r, rest, closed) := pop_valid cfg now l' in (r, rest, pc_stream c :: closed)
      else (Some (conn_touch now c), l', [])
  end.

(** First part of [acquire], under the queue's lock. *)
Definition acquire_pop (now : instant) (p : ConnectionPool) (id addr : string)
    : ConnectionPool * nat * option PooledConnection * list nat :=
  let '(p, h) := get_or_create_pool p id addr in
  match cp_heap p !! h with
  | Some bp =>
      let '(r, rest, closed) := pop_valid (cp_config p) now (bp_connections bp) in
      let bp' := with_connections rest bp in
      let bp'' := match r with Some _ => in_use_add 1 bp' | None => bp' end in
      (update_pool h (fun _ => bp'') p, h, r, closed)
  | None => (p, h, None, [])    (* no such handle: does not happen *)
  end.

(** Second part: is there room for one more connection? *)
Definition acquire_admit (p : ConnectionPool) (h : nat) : bool :=
  match cp_heap p !! h with
  | Some bp => negb (max_connections (cp_config p) <=? total_connections bp)
  | None => false
  end.

(** What [timeout(connect_timeout, TcpStream::connect(addr))] gives. *)
Inductive connect_outcome :=
| Connected (stream : nat)
| ConnectFailed (e : string)
| ConnectTimedOut.

(** Last part: the connection attempt has ended. *)
Definition acquire_connect (now : instant) (p : ConnectionPool) (h : nat) (id : string)
    (o : connect_outcome) : ConnectionPool * result PooledConnection PoolError :=
  match o with
  | Connected stream => (update_pool h (in_use_add 1) p, Ok (conn_new now stream id))
  | ConnectFailed e => (p, Err (ConnectError e))
  | ConnectTimedOut => (p, Err ConnectTimeout)
  end.

(** [acquire] when nothing else runs in between. *)
Definition acquire (now : instant) (p : ConnectionPool) (id addr : string) (o : connect_outcome)
    : ConnectionPool * result PooledConnection PoolError :=
  let '(p, h, r, _) := acquire_pop now p id addr in
  match r with
  | Some c => (p, Ok c)
  | None => if acquire_admit p h then acquire_connect now p h id o else (p, Err PoolExhausted)
  end.

(** [release]: the pools, and the streams shut down or dropped. *)
Definition release (now : instant) (p : ConnectionPool) (c : PooledConnection)
    : ConnectionPool * list nat :=
  match cp_pools p !! pc_backend_id c with
  | None => (p, [pc_stream c])
  | Some h =>
      let p := update_pool h (in_use_add (-1)) p in
      if is_expired now (max_lifetime (cp_config p)) c then (p, [pc_stream c])
      else
        let c := conn_touch now c in
        match cp_heap p !! h with
        | Some bp =>
            if Z.of_nat (length (bp_connections bp)) <? max_connections (cp_config p)
            then (update_pool h (fun bp => with_connections (bp_connections bp ++ [c]) bp) p, [])
            else (p, [pc_stream c])
        | None => (p, [pc_stream c])
        end
  end.

Definition discard (p : ConnectionPool) (c : PooledConnection) : ConnectionPool * list nat :=
  match cp_pools p !! pc_backend_id c with
  | Some h => (update_pool h (in_use_add (-1)) p, [pc_stream c])
  | None => (p, [pc_stream c])
  end.

Definition pool_of (p : ConnectionPool) (id : string) : option BackendPool :=
  h ← cp_pools p !! id; cp_heap p !! h.

Record PoolStats := mkPoolStats { st_in_use : Z; st_addr : string }.

Definition pool_stats (p : ConnectionPool) (id : string) : option PoolStats :=
  (fun bp => mkPoolStats (bp_in_use bp) (bp_addr bp)) <$> pool_of p id.

Definition pool_all_stats (p : ConnectionPool) : list (string * PoolStats) :=
  omap (fun kh => (fun st => (fst kh, st)) <$> pool_stats p (fst kh)) (map_to_list (cp_pools p)).

(** What a cleanup keeps. *)
Definition conn_kept (cfg : PoolConfig) (now : instant) (c : PooledConnection) : bool :=
  negb (is_idle_expired now (idle_timeout cfg) c) && negb (is_expired now (max_lifetime cfg) c).

(** One tick of the task of [start_cleanup], which works on the clone of the map
    made when the task was started. *)
Definition pool_cleanup_turn (pools : gmap string nat) (now : instant) (p : ConnectionPool) : ConnectionPool :=
  foldl (fun p kh =>
      update_pool (snd kh) (fun bp => with_connections (List.filter (conn_kept (cp_config p) now) (bp_connections bp)) bp) p)
    p (map_to_list pools).

Definition pool_clear (p : ConnectionPool) : ConnectionPool :=
  let p := foldl (fun p kh => update_pool (snd kh) (with_connections []) p) p (map_to_list (cp_pools p)) in
  mkConnectionPool (cp_config p) (cp_heap p) ∅ (cp_fresh p).

(** ** Well-formed states, and the pool of a backend *)

Record pools_wf (p : ConnectionPool) : Prop := {
  wf_handles : ∀ id h, cp_pools p !! id = Some h → is_Some (cp_heap p !! h);
  wf_inj : ∀ id1 id2 h, cp_pools p !! id1 = Some h → cp_pools p !! id2 = Some h → id1 = id2;
  wf_fresh : ∀ h, is_Some (cp_heap p !! h) → (h < cp_fresh p)%nat
}.

Lemma connection_pool_new_wf cfg : pools_wf (connection_pool_new cfg).
Proof.
  split; simpl; intros *; rewrite lookup_empty; done.
Qed.

Lemma update_pool_wf h f p : pools_wf p → pools_wf (update_pool h f p).
Proof.
  intros [Hh Hi Hf]. split; simpl; [|done|].
  - intros id h' Hid. rewrite lookup_alter. case_decide; [|by eapply Hh].
    subst. by apply fmap_is_Some, (Hh id).
  - intros h'. rewrite lookup_alter. case_decide; subst; [|apply Hf]. intros ?%fmap_is_Some. by apply Hf.
Qed.

Lemma pool_of_update h f p id id' :
  pools_wf p → cp_pools p !! id = Some h →
  pool_of (update_pool h f p) id' = if decide (id = id') then f <$> pool_of p id else pool_of p id'.
Proof.
  intros Hwf Hid. unfold pool_of; simpl. case_decide as Heq; subst.
  - rewrite Hid; simpl. by rewrite lookup_alter_eq.
  - destruct (cp_pools p !! id') as [h'|] eqn:Hid'; simpl; [|done].
    rewrite lookup_alter_ne; [done|]. intros ->. apply Heq. by eapply wf_inj.
Qed.

(** Updating an arbitrary handle: the pools it does not name are untouched. *)
Lemma pool_of_update_any h f p id :
  pool_of (update_pool h f p) id = pool_of p id ∨ pool_of (update_pool h f p) id = f <$> pool_of p id.
Proof.
  unfold pool_of; simpl. destruct (cp_pools p !! id) as [h'|]; simpl; [|by left].
  rewrite lookup_alter. case_decide; subst; auto.
Qed.

Lemma get_or_create_pool_spec p id addr :
  pools_wf p →
  let '(p', h) := get_or_create_pool p id addr in
  pools_wf p' ∧ cp_config p' = cp_config p ∧ cp_pools p' !! id = Some h ∧ cp_pools p ⊆ cp_pools p' ∧
  ∀ id', pool_of p' id' =
    if decide (id = id') then Some (default (backend_pool_new addr) (pool_of p id)) else pool_of p id'.
Proof.
  intros Hwf. unfold get_or_create_pool. destruct (cp_pools p !! id) as [h|] eqn:Hid.
  - split_and!; [done..|]. intros id'. case_decide; [|done]. subst. unfold pool_of. rewrite Hid; simpl.
    by destruct (wf_handles p Hwf id' h Hid) as [bp ->].
  - destruct Hwf as [Hh Hi Hf].
    assert (∀ id' h', cp_pools p !! id' = Some h' → h' ≠ cp_fresh p) as Hne.
    { intros id' h' H ->. pose proof (Hf _ (Hh _ _ H)). lia. }
    split_and!; simpl.
    + split; simpl.
      * intros id' h'. rewrite !lookup_insert. case_decide; simplify_eq/=.
        -- intros [= <-]. rewrite decide_True by done. eauto.
        -- intros H'. rewrite decide_False by (intros <-; by eapply Hne). eauto.
      * intros id1 id2 h'. rewrite !lookup_insert. repeat case_decide; simplify_eq; try done.
        -- intros [= <-] H2. by destruct (Hne _ _ H2).
        -- intros H1 [= <-]. by destruct (Hne _ _ H1).
        -- apply Hi.
      * intros h'. rewrite lookup_insert. case_decide; [lia|]. intros ?%Hf. lia.
    + done.
    + apply lookup_insert_eq.
    + by apply insert_subseteq.
    + intros id'. unfold pool_of; simpl. rewrite lookup_insert. case_decide; subst; simpl.
      * by rewrite Hid, lookup_insert_eq.
      * destruct (cp_pools p !! id') as [h'|] eqn:H'; simpl; [|done].
        rewrite lookup_insert_ne; [done|]. intros <-. by eapply Hne.
Qed.

(** ** The pop loop *)

Lemma pop_valid_spec cfg now l :
  let '(r, rest, closed) := pop_valid cfg now l in
  ∃ dead, Forall (fun c => conn_kept cfg now c = false) dead ∧ closed = pc_stream <$> dead ∧
    match r with
    | Some c' => ∃ c, l = dead ++ c :: rest ∧ conn_kept cfg now c = true ∧ c' = conn_touch now c
    | None => l = dead ∧ rest = []
    end.
Proof.
  induction l as [|c l IH]; simpl; [by exists []|].
  assert (is_expired now (max_lifetime cfg) c || is_idle_expired now (idle_timeout cfg) c =
          negb (conn_kept cfg now c)) as ->.
  { unfold conn_kept. by rewrite <-negb_orb, negb_involutive, orb_comm. }
  destruct (conn_kept cfg now c) eqn:Hk; simpl.
  - exists []. split_and!; [by constructor|done|]. by exists c.
  - destruct (pop_valid cfg now l) as [[r rest] closed]. destruct IH as (dead & Hd & -> & Hr).
    exists (c :: dead). split_and!; [by constructor|done|].
    destruct r; [|destruct Hr; by subst]. destruct Hr as (c' & -> & ? & ?). by exists c'.
Qed.

(** The pool after the first part of [acquire]. *)
Definition popped (r : option PooledConnection) (rest : list PooledConnection) (bp : BackendPool)
    : BackendPool :=
  match r with
  | Some _ => in_use_add 1 (with_connections rest bp)
  | None => with_connections rest bp
  end.

Lemma acquire_pop_spec now p id addr :
  pools_wf p →
  let bp := default (backend_pool_new addr) (pool_of p id) in
  let '(r, rest, closed) := pop_valid (cp_config p) now (bp_connections bp) in
  ∃ p' h, acquire_pop now p id addr = (p', h, r, closed) ∧
    pools_wf p' ∧ cp_config p' = cp_config p ∧ cp_pools p' !! id = Some h ∧ cp_pools p ⊆ cp_pools p' ∧
    ∀ id', pool_of p' id' = if decide (id = id') then Some (popped r rest bp) else pool_of p id'.
Proof.
  intros Hwf bp. pose proof (get_or_create_pool_spec p id addr Hwf) as Hget. unfold acquire_pop.
  destruct (get_or_create_pool p id addr) as [p1 h]. destruct Hget as (Hwf1 & Hcf & Hid & Hsub & Hof).
  fold bp in Hof. pose proof (Hof id) as Hofid. rewrite decide_True in Hofid by done.
  assert (cp_heap p1 !! h = Some bp) as ->.
  { unfold pool_of in Hofid. by rewrite Hid in Hofid. }
  rewrite Hcf. destruct (pop_valid _ now _) as [[r rest] closed].
  eexists _, _. split_and!; [reflexivity|by apply update_pool_wf|done|done|done|].
  intros id'. rewrite (pool_of_update h _ p1 id) by done. rewrite Hof.
  case_decide; [|by rewrite Hof, decide_False]. rewrite decide_True by done. by destruct r.
Qed.

(** ** Acquiring *)

Definition connect_result (now : instant) (id : string) (o : connect_outcome) : result PooledConnection PoolError :=
  match o with
  | Connected stream => Ok (conn_new now stream id)
  | ConnectFailed e => Err (ConnectError e)
  | ConnectTimedOut => Err ConnectTimeout
  end.

Lemma acquire_connect_spec now p h id o :
  pools_wf p → cp_pools p !! id = Some h →
  let '(p', r) := acquire_connect now p h id o in
  r = connect_result now id o ∧ pools_wf p' ∧ cp_config p' = cp_config p ∧ cp_pools p' = cp_pools p ∧
  ∀ id', pool_of p' id' =
    if decide (id = id') then (if is_ok r then in_use_add 1 else fun bp => bp) <$> pool_of p id
    else pool_of p id'.
Proof.
  intros Hwf Hid. destruct o as [stream|e|]; simpl.
  - split_and!; try done; [by apply update_pool_wf|]. intros id'. by apply pool_of_update.
  - split_and!; try done. intros id'. case_decide; subst; [|done]. by destruct (pool_of p id').
  - split_and!; try done. intros id'. case_decide; subst; [|done]. by destruct (pool_of p id').
Qed.

Lemma acquire_admit_spec p id h bp :
  cp_pools p !! id = Some h → pool_of p id = Some bp →
  acquire_admit p h = negb (max_connections (cp_config p) <=? bp_in_use bp).
Proof. unfold pool_of, acquire_admit. intros Hid. rewrite Hid; simpl. by intros ->. Qed.

(** [acquire] discards exactly the connections at the front of the queue
    that are past their lifetime or idle time; it hands out the first one that is
    neither, touched, and only when none is left opens a new one, if fewer than
    [max_connections] are in use.  Every outcome's effect on the backend's pool is
    as stated, and no other backend's pool changes. *)
Lemma acquire_outcomes now p id addr o :
  pools_wf p →
  let bp := default (backend_pool_new addr) (pool_of p id) in
  let '(p', r) := acquire now p id addr o in
  pools_wf p' ∧ (∀ id', id' ≠ id → pool_of p' id' = pool_of p id') ∧
  ∃ dead, Forall (fun c => conn_kept (cp_config p) now c = false) dead ∧
  ((∃ c rest, bp_connections bp = dead ++ c :: rest ∧ conn_kept (cp_config p) now c = true ∧
      r = Ok (conn_touch now c) ∧
      pool_of p' id = Some (mkBackendPool rest (bp_in_use bp +u64 1) (bp_addr bp))) ∨
   (bp_connections bp = dead ∧ max_connections (cp_config p) <= bp_in_use bp ∧ r = Err PoolExhausted ∧
      pool_of p' id = Some (mkBackendPool [] (bp_in_use bp) (bp_addr bp))) ∨
   (bp_connections bp = dead ∧ bp_in_use bp < max_connections (cp_config p) ∧
      r = connect_result now id o ∧
      pool_of p' id = Some (mkBackendPool [] (if is_ok r then bp_in_use bp +u64 1 else bp_in_use bp) (bp_addr bp)))).
Proof.
  intros Hwf bp. unfold acquire.
  pose proof (acquire_pop_spec now p id addr Hwf) as Hpop. cbv zeta in Hpop. fold bp in Hpop.
  pose proof (pop_valid_spec (cp_config p) now (bp_connections bp)) as Hv.
  destruct (pop_valid _ now _) as [[r rest] closed].
  destruct Hpop as (p1 & h & -> & Hwf1 & Hcf & Hid & _ & Hof). destruct Hv as (dead & Hdead & _ & Hr).
  destruct r as [c'|].
  { destruct Hr as (c & Hl & Hk & ->). split_and!; [done|intros; by rewrite Hof, decide_False|].
    exists dead. split; [done|]. left. exists c, rest. by rewrite Hof, decide_True. }
  destruct Hr as [Hl ->]. pose proof (Hof id) as Hofid. rewrite decide_True in Hofid by done.
  rewrite (acquire_admit_spec p1 id h _ Hid Hofid), Hcf. simpl.
  destruct (Z.leb_spec (max_connections (cp_config p)) (bp_in_use bp)); simpl.
  { split_and!; [done|intros; by rewrite Hof, decide_False|]. exists dead. split; [done|]. eauto 10. }
  pose proof (acquire_connect_spec now p1 h id o Hwf1 Hid) as Hc.
  destruct (acquire_connect now p1 h id o) as [p' r]. destruct Hc as (-> & ? & _ & _ & Hof').
  split_and!; [done|intros; by rewrite Hof', decide_False, Hof, decide_False by done|].
  exists dead. split; [done|]. right; right. split_and!; [done..|].
  rewrite Hof', decide_True, Hofid by done. by destruct o.
Qed.

(** Past its lifetime, or idle for too long. *)
Definition stale (cfg : PoolConfig) (now : instant) (c : PooledConnection) : Prop :=
  max_lifetime cfg < duration_since now (pc_created_at c) ∨ idle_timeout cfg < duration_since now (pc_last_used c).

Lemma conn_kept_stale cfg now c : conn_kept cfg now c = false ↔ stale cfg now c.
Proof. unfold conn_kept, is_idle_expired, is_expired, stale. rewrite andb_false_iff, !negb_false_iff, !Z.ltb_lt. tauto. Qed.

(** C21: an undisturbed [acquire], from a manager whose map and pools fit together (as
    every call leaves them), hands out the first idle connection of the backend that is
    neither past its lifetime nor idle for too long, with its last use set to now, and
    takes it and all before it out of the queue; if there is none, the queue is empty
    afterwards, and the call fails with [PoolExhausted] when [max_connections] are in
    use, and otherwise returns what the connection attempt comes to: a new connection of
    this backend, the error, or [ConnectTimeout].  [in_use] goes up by one exactly when
    a connection is handed out; a backend without a pool gets an empty one under the
    given address; no other backend's pool changes. *)
Theorem acquire_correct now p id addr o :
  pools_wf p →
  let cfg := cp_config p in
  let '(idle, in_use, address) :=
    match pool_of p id with Some bp => (bp_connections bp, bp_in_use bp, bp_addr bp) | None => ([], 0, addr) end in
  let '(p', r) := acquire now p id addr o in
  let leaves idle' in_use' := pool_of p' id = Some (mkBackendPool idle' in_use' address) in
  pools_wf p' ∧ (∀ id', id' ≠ id → pool_of p' id' = pool_of p id') ∧
  ∃ dead, Forall (stale cfg now) dead ∧
  ((∃ c rest, idle = dead ++ c :: rest ∧ ¬ stale cfg now c ∧
      r = Ok (mkConn (pc_stream c) (pc_created_at c) now (pc_backend_id c)) ∧ leaves rest (in_use +u64 1)) ∨
   (idle = dead ∧ max_connections cfg <= in_use ∧ r = Err PoolExhausted ∧ leaves [] in_use) ∨
   (idle = dead ∧ in_use < max_connections cfg ∧
      match o with
      | Connected stream => r = Ok (mkConn stream now now id) ∧ leaves [] (in_use +u64 1)
      | ConnectFailed e => r = Err (ConnectError e) ∧ leaves [] in_use
      | ConnectTimedOut => r = Err ConnectTimeout ∧ leaves [] in_use
      end)).
Proof.
  intros Hwf cfg. pose proof (acquire_outcomes now p id addr o Hwf) as H. cbv zeta in H.
  assert (∀ dead, Forall (fun c => conn_kept cfg now c = false) dead → Forall (stale cfg now) dead) as Hdead.
  { intros dead Hd. eapply Forall_impl; [exact Hd|]. intros c. apply conn_kept_stale. }
  assert (∀ c, conn_kept cfg now c = true → ¬ stale cfg now c) as Hlive.
  { intros c Hk Hs. apply conn_kept_stale in Hs. congruence. }
  destruct (acquire now p id addr o) as [p' r].
  destruct (pool_of p id) as [bp|]; simpl in H; destruct H as (? & ? & dead & ? & Hcases); simpl;
    (split_and!; [done|done|]); exists dead; (split; [by apply Hdead|]);
    (destruct Hcases as [(c & rest & ? & ? & -> & ?)|[(? & ? & -> & ?)|(? & ? & -> & Hof)]];
      [left; exists c, rest; auto|right; left; auto|right; right; split_and!; [done|done|by destruct o]]).
Qed.

(** A full queue of two: the first is past its lifetime, the second is handed out. *)
Lemma acquire_outcomes_witness :
  ∃ p', acquire (from_secs 4000)
    (mkConnectionPool pool_config_default
       {[0%nat := mkBackendPool [mkConn 7 0 (from_secs 3999) "b"; mkConn 8 (from_secs 3900) (from_secs 3990) "b"] 1 "a"]}
       {["b" := 0%nat]} 1) "b" "a" ConnectTimedOut
  = (p', Ok (mkConn 8 (from_secs 3900) (from_secs 4000) "b")) ∧ pools_wf p'.
Proof.
  set (p := mkConnectionPool _ _ _ _).
  assert (pools_wf p) as Hwf.
  { split; simpl.
    - intros id h. rewrite lookup_singleton_Some. intros [<- <-]. eauto.
    - intros id1 id2 h. rewrite !lookup_singleton_Some. by intros [<- _] [<- _].
    - intros h [bp Hh]. apply lookup_singleton_Some in Hh as [<- _]. lia. }
  pose proof (acquire_outcomes (from_secs 4000) p "b" "a" ConnectTimedOut Hwf) as H.
  destruct (acquire (from_secs 4000) p "b" "a" ConnectTimedOut) as [p' r] eqn:Ha.
  exists p'. destruct H as (Hwf' & _ & _). split; [|done]. f_equal.
  assert (r = snd (acquire (from_secs 4000) p "b" "a" ConnectTimedOut)) as -> by (by rewrite Ha).
  vm_compute. reflexivity.
Defined.

Lemma acquire_correct_witness :
  ∃ p' c, acquire 7 (connection_pool_new pool_config_default) "b" "a" (Connected 4) = (p', Ok c) ∧
    pool_of p' "b" = Some (mkBackendPool [] 1 "a") ∧ ∀ id, id ≠ "b" → pool_of p' id = None.
Proof.
  pose proof (acquire_correct 7 (connection_pool_new pool_config_default) "b" "a" (Connected 4)
    (connection_pool_new_wf _)) as H. cbv zeta in H.
  destruct (acquire _ _ _ _ _) as [p' r] eqn:Ha. exists p', (mkConn 4 7 7 "b").
  vm_compute in Ha. injection Ha as <- <-. split; [reflexivity|]. split; [vm_compute; reflexivity|].
  intros id Hid. destruct H as (_ & Hof & _). rewrite (Hof id Hid). unfold pool_of; simpl. by rewrite lookup_empty.
Defined.

(** ** Interleaved use

    The tasks that use the manager: connections handed out and not yet given
    back, and acquisitions that wait for a connection to be set up. *)
Record pool_sys := mkSys {
  sys_pool : ConnectionPool;
  sys_held : list PooledConnection;
  sys_pending : list (nat * string)
}.

Inductive pool_op :=
| PBegin (id addr : string) (now : instant)
| PConnect (i : nat) (now : instant) (o : connect_outcome)
| PRelease (i : nat) (now : instant)
| PDiscard (i : nat)
| PCleanup (pools : gmap string nat) (now : instant).

Definition pool_step (s : pool_sys) (op : pool_op) : pool_sys :=
  match op with
  | PBegin id addr now =>
      let '(p, h, r, _) := acquire_pop now (sys_pool s) id addr in
      match r with
      | Some c => mkSys p (c :: sys_held s) (sys_pending s)
      | None => mkSys p (sys_held s)
                  (if acquire_admit p h then (h, id) :: sys_pending s else sys_pending s)
      end
  | PConnect i now o =>
      match sys_pending s !! i with
      | Some (h, id) =>
          let '(p, r) := acquire_connect now (sys_pool s) h id o in
          mkSys p (match r with Ok c => c :: sys_held s | Err _ => sys_held s end)
            (delete i (sys_pending s))
      | None => s
      end
  | PRelease i now =>
      match sys_held s !! i with
      | Some c => mkSys (fst (release now (sys_pool s) c)) (delete i (sys_held s)) (sys_pending s)
      | None => s
      end
  | PDiscard i =>
      match sys_held s !! i with
      | Some c => mkSys (fst (discard (sys_pool s) c)) (delete i (sys_held s)) (sys_pending s)
      | None => s
      end
  | PCleanup pools now => mkSys (pool_cleanup_turn pools now (sys_pool s)) (sys_held s) (sys_pending s)
  end.

Definition sys_new (cfg : PoolConfig) : pool_sys := mkSys (connection_pool_new cfg) [] [].

(** Connections of a backend that are out. *)
Definition held_of (id : string) (l : list PooledConnection) : Z :=
  Z.of_nat (length (filter (fun c => pc_backend_id c = id) l)).

(** What holds of the pool [bp] of a backend with [n] connections out. *)
Definition pool_ok (cfg : PoolConfig) (id : string) (n : Z) (bp : BackendPool) : Prop :=
  bp_in_use bp = wrap 64 n ∧
  Z.of_nat (length (bp_connections bp)) <= max_connections cfg ∧
  Forall (fun c => pc_backend_id c = id) (bp_connections bp).

Record sys_inv (cfg : PoolConfig) (s : pool_sys) : Prop := {
  inv_wf : pools_wf (sys_pool s);
  inv_cfg : cp_config (sys_pool s) = cfg;
  inv_pools : ∀ id bp, pool_of (sys_pool s) id = Some bp → pool_ok cfg id (held_of id (sys_held s)) bp;
  inv_held : ∀ c, c ∈ sys_held s → is_Some (cp_pools (sys_pool s) !! pc_backend_id c);
  inv_pending : ∀ h id, (h, id) ∈ sys_pending s → cp_pools (sys_pool s) !! id = Some h
}.

Lemma held_of_cons id c l :
  held_of id (c :: l) = held_of id l + (if decide (pc_backend_id c = id) then 1 else 0).
Proof. unfold held_of. rewrite filter_cons. case_decide; simpl; lia. Qed.

Lemma held_of_delete id i c l :
  l !! i = Some c →
  held_of id (delete i l) = held_of id l + (if decide (pc_backend_id c = id) then -1 else 0).
Proof.
  intros Hi. rewrite <-(take_drop_middle l i c Hi) at 2.
  rewrite delete_take_drop. unfold held_of. rewrite !filter_app, filter_cons, !length_app.
  case_decide; simpl; lia.
Qed.

Lemma pool_ok_add cfg id n k bp l :
  pool_ok cfg id n bp → Z.of_nat (length l) <= max_connections cfg →
  Forall (fun c => pc_backend_id c = id) l →
  pool_ok cfg id (n + k) (with_connections l (in_use_add k bp)).
Proof. intros (Hn & ? & ?) ??. split_and!; simpl; [|done..]. by rewrite Hn, wrap_add_l. Qed.

Lemma pool_ok_same cfg id n bp l :
  pool_ok cfg id n bp → Z.of_nat (length l) <= max_connections cfg →
  Forall (fun c => pc_backend_id c = id) l → pool_ok cfg id n (with_connections l bp).
Proof. intros (Hn & ? & ?) ??. by split_and!. Qed.

Lemma pool_ok_new cfg id addr : 0 <= max_connections cfg → pool_ok cfg id 0 (backend_pool_new addr).
Proof. intros. split_and!; simpl; [done|lia|by constructor]. Qed.

(** The queue after the pop loop, and whose connection was handed out. *)
Lemma popped_ok cfg id n bp now :
  pool_ok cfg id n bp →
  let '(r, rest, _) := pop_valid cfg now (bp_connections bp) in
  match r with
  | Some c => pc_backend_id c = id ∧ pool_ok cfg id (n + 1) (popped r rest bp)
  | None => pool_ok cfg id n (popped r rest bp)
  end.
Proof.
  intros Hok. pose proof Hok as (Hn & Hlen & Hall). pose proof (pop_valid_spec cfg now (bp_connections bp)) as Hv.
  destruct (pop_valid cfg now _) as [[r rest] closed]. destruct Hv as (dead & _ & _ & Hr).
  destruct r as [c'|].
  - destruct Hr as (c & Hl & _ & ->). rewrite Hl in *.
    apply Forall_app in Hall as [_ Hall]. inversion_clear Hall.
    rewrite length_app in Hlen; simpl in Hlen. split; [done|].
    apply (pool_ok_add cfg id n 1 bp rest); [done|lia|done].
  - destruct Hr as [_ ->]. apply pool_ok_same; [done|simpl; lia|by constructor].
Qed.

Lemma release_spec now p c h bp :
  pools_wf p → cp_pools p !! pc_backend_id c = Some h → pool_of p (pc_backend_id c) = Some bp →
  let p' := fst (release now p c) in
  pools_wf p' ∧ cp_config p' = cp_config p ∧ cp_pools p' = cp_pools p ∧
  ∃ l, (l = bp_connections bp ∨
        l = bp_connections bp ++ [conn_touch now c] ∧
          is_expired now (max_lifetime (cp_config p)) c = false ∧
          Z.of_nat (length (bp_connections bp)) < max_connections (cp_config p)) ∧
    ∀ id', pool_of p' id' =
      if decide (pc_backend_id c = id') then Some (with_connections l (in_use_add (-1) bp)) else pool_of p id'.
Proof.
  intros Hwf Hid Hof p'. subst p'. unfold release. rewrite Hid.
  set (p1 := update_pool h (in_use_add (-1)) p).
  assert (pools_wf p1) as Hwf1 by by apply update_pool_wf.
  assert (∀ id', pool_of p1 id' = if decide (pc_backend_id c = id') then Some (in_use_add (-1) bp) else pool_of p id') as Hof1.
  { intros id'. unfold p1. rewrite (pool_of_update h _ p (pc_backend_id c)) by done. by rewrite Hof. }
  assert (cp_heap p1 !! h = Some (in_use_add (-1) bp)) as Hheap.
  { specialize (Hof1 (pc_backend_id c)). rewrite decide_True in Hof1 by done. unfold pool_of in Hof1.
    simpl in Hof1. by rewrite Hid in Hof1. }
  change (max_lifetime (cp_config p1)) with (max_lifetime (cp_config p)).
  assert (with_connections (bp_connections bp) (in_use_add (-1) bp) = in_use_add (-1) bp) as Hsame by done.
  destruct (is_expired now _ c) eqn:He; cbn [fst].
  { split_and!; try done. exists (bp_connections bp). rewrite Hsame. auto. }
  rewrite Hheap. change (bp_connections (in_use_add (-1) bp)) with (bp_connections bp).
  change (cp_config p1) with (cp_config p).
  destruct (Z.ltb_spec (Z.of_nat (length (bp_connections bp))) (max_connections (cp_config p))); cbn [fst].
  - split_and!; [by apply update_pool_wf|done|done|]. eexists. split; [by right|].
    intros id'. rewrite (pool_of_update h _ p1 (pc_backend_id c)) by done. rewrite !Hof1.
    case_decide; [|done]. by rewrite decide_True.
  - split_and!; try done. exists (bp_connections bp). rewrite Hsame. auto.
Qed.

Lemma discard_spec p c h :
  pools_wf p → cp_pools p !! pc_backend_id c = Some h →
  let p' := fst (discard p c) in
  pools_wf p' ∧ cp_config p' = cp_config p ∧ cp_pools p' = cp_pools p ∧
  ∀ id', pool_of p' id' =
    if decide (pc_backend_id c = id') then in_use_add (-1) <$> pool_of p (pc_backend_id c) else pool_of p id'.
Proof.
  intros Hwf Hid. unfold discard. rewrite Hid. simpl.
  split_and!; [by apply update_pool_wf|done|done|]. intros id'. by apply pool_of_update.
Qed.

(** A cleanup only takes connections out of queues. *)
Lemma pool_cleanup_turn_spec pools now p :
  pools_wf p →
  let p' := pool_cleanup_turn pools now p in
  pools_wf p' ∧ cp_config p' = cp_config p ∧ cp_pools p' = cp_pools p ∧
  ∀ id bp', pool_of p' id = Some bp' →
    ∃ bp l, pool_of p id = Some bp ∧ bp' = with_connections l bp ∧ sublist l (bp_connections bp).
Proof.
  intros Hwf. unfold pool_cleanup_turn. simpl.
  apply (foldl_invariant _ (fun p' => pools_wf p' ∧ cp_config p' = cp_config p ∧ cp_pools p' = cp_pools p ∧
    ∀ id bp', pool_of p' id = Some bp' →
      ∃ bp l, pool_of p id = Some bp ∧ bp' = with_connections l bp ∧ sublist l (bp_connections bp))).
  - intros p1 [k h] (Hwf1 & Hcf & Hpools & Hof). simpl.
    split_and!; [by apply update_pool_wf|done|done|]. intros id bp' Hbp'.
    match type of Hbp' with pool_of (update_pool _ ?f _) _ = _ =>
      destruct (pool_of_update_any h f p1 id) as [Heq|Heq] end.
    + apply Hof. by rewrite <-Heq.
    + rewrite Heq in Hbp'. apply fmap_Some in Hbp' as (bp1 & Hbp1 & ->).
      destruct (Hof id bp1 Hbp1) as (bp & l & ? & -> & Hsub).
      eexists bp, _. split_and!; [done|reflexivity|]. simpl. etrans; [|exact Hsub].
      generalize l. induction l0 as [|x l0 IH]; simpl; [constructor|].
      destruct (conn_kept _ _ x); by constructor.
  - split_and!; try done. intros id bp Hbp. exists bp, (bp_connections bp). split_and!; [done| |done].
    by destruct bp.
Qed.

(** The clone is made once: a pool that is created after the cleanup was started is
    never cleaned up. *)
Lemma cleanup_misses_later_pools p0 id addr :
  pools_wf p0 → cp_pools p0 !! id = None →
  let '(p1, h) := get_or_create_pool p0 id addr in
  cp_pools p1 !! id = Some h ∧
  ∀ now p, cp_heap (pool_cleanup_turn (cp_pools p0) now p) !! h = cp_heap p !! h.
Proof.
  intros Hwf Hid. unfold get_or_create_pool. rewrite Hid. split; [apply lookup_insert_eq|]. intros now p.
  unfold pool_cleanup_turn.
  enough (∀ (l : list (string * nat)) p', (∀ kh, kh ∈ l → snd kh ≠ cp_fresh p0) →
    cp_heap (foldl (fun p kh => update_pool (snd kh) (fun bp =>
      with_connections (List.filter (conn_kept (cp_config p) now) (bp_connections bp)) bp) p) p' l) !! cp_fresh p0 =
    cp_heap p' !! cp_fresh p0) as Hfold.
  { apply Hfold. intros [k h] Hin%elem_of_map_to_list. simpl. intros ->. pose proof (wf_fresh _ Hwf _ (wf_handles _ Hwf _ _ Hin)). lia. }
  induction l as [|kh l IH]; intros p' Hne; simpl; [done|]. rewrite IH by (intros; apply Hne; by right).
  simpl. apply lookup_alter_ne, Hne. by left.
Qed.

(** ** The invariant is preserved *)

Section invariant.
Context (cfg : PoolConfig) (Hmax : 0 <= max_connections cfg).

Lemma held_of_no_pool s id :
  sys_inv cfg s → pool_of (sys_pool s) id = None → held_of id (sys_held s) = 0.
Proof.
  intros Hinv Hof. unfold held_of. destruct (filter _ (sys_held s)) as [|c l] eqn:Hf; [done|].
  assert (c ∈ filter (fun c => pc_backend_id c = id) (sys_held s)) as Hc by (rewrite Hf; left).
  apply list_elem_of_filter in Hc as [<- Hc]. destruct (inv_held cfg s Hinv c Hc) as [h Hh].
  destruct (wf_handles _ (inv_wf cfg s Hinv) _ _ Hh) as [bp Hbp].
  unfold pool_of in Hof. rewrite Hh in Hof; simpl in Hof. congruence.
Qed.

(** A pool that may not exist yet. *)
Lemma pool_ok_default s id addr :
  sys_inv cfg s →
  pool_ok cfg id (held_of id (sys_held s)) (default (backend_pool_new addr) (pool_of (sys_pool s) id)).
Proof using Hmax.
  intros Hinv. destruct (pool_of (sys_pool s) id) as [bp|] eqn:Hof; simpl; [by apply (inv_pools cfg)|].
  rewrite (held_of_no_pool s id) by done. by apply pool_ok_new.
Qed.

(** The pools after an operation that changed one of them. *)
Lemma sys_inv_pools p p' id bp held held' :
  (∀ id' bp', pool_of p id' = Some bp' → pool_ok cfg id' (held_of id' held) bp') →
  (∀ id', pool_of p' id' = if decide (id = id') then Some bp else pool_of p id') →
  pool_ok cfg id (held_of id held') bp →
  (∀ id', id' ≠ id → held_of id' held' = held_of id' held) →
  ∀ id' bp', pool_of p' id' = Some bp' → pool_ok cfg id' (held_of id' held') bp'.
Proof.
  intros Hall Hof Hbp Hheld id' bp'. rewrite Hof. case_decide; subst; [by intros [= <-]|].
  intros. rewrite Hheld by done. by apply Hall.
Qed.

Lemma begin_inv s id addr now : sys_inv cfg s → sys_inv cfg (pool_step s (PBegin id addr now)).
Proof using Hmax.
  intros Hinv. pose proof Hinv as [Hwf Hcf Hpools Hheld Hpend]. simpl.
  pose proof (acquire_pop_spec now (sys_pool s) id addr Hwf) as Hpop. cbv zeta in Hpop.
  pose proof (popped_ok cfg id _ _ now (pool_ok_default s id addr Hinv)) as Hok. rewrite Hcf in Hpop.
  destruct (pop_valid cfg now _) as [[r rest] closed].
  destruct Hpop as (p' & h & -> & Hwf' & Hcf' & Hid & Hsub & Hof).
  assert (∀ id', is_Some (cp_pools (sys_pool s) !! id') → is_Some (cp_pools p' !! id')) as Hmono.
  { intros id' [h' Hh']. exists h'. by eapply lookup_weaken. }
  destruct r as [c|].
  - destruct Hok as [Hc Hok]. split; simpl; [done|congruence| | |].
    + eapply sys_inv_pools; [exact Hpools|exact Hof| |].
      * by rewrite held_of_cons, decide_True.
      * intros id' Hne. rewrite held_of_cons, decide_False by congruence. lia.
    + intros c'. rewrite elem_of_cons. intros [->|?]; [rewrite Hc; eauto|by apply Hmono, Hheld].
    + intros h' id' ?. by eapply lookup_weaken; [apply Hpend|].
  - split; simpl; [done|congruence| | |].
    + by eapply sys_inv_pools; [exact Hpools|exact Hof|done|done].
    + intros c' ?. by apply Hmono, Hheld.
    + intros h' id' Hin. destruct (acquire_admit p' h); [apply elem_of_cons in Hin as [[= -> ->]|Hin]; [done|]|];
        (eapply lookup_weaken; [by apply Hpend|done]).
Qed.

Lemma connect_inv s i now o : sys_inv cfg s → sys_inv cfg (pool_step s (PConnect i now o)).
Proof.
  intros Hinv. pose proof Hinv as [Hwf Hcf Hpools Hheld Hpend]. simpl.
  destruct (sys_pending s !! i) as [[h id]|] eqn:Hi; [|done].
  assert (cp_pools (sys_pool s) !! id = Some h) as Hid.
  { apply Hpend. by eapply list_elem_of_lookup_2. }
  destruct (wf_handles _ Hwf _ _ Hid) as [bp Hbp].
  assert (pool_of (sys_pool s) id = Some bp) as Hofid by (unfold pool_of; by rewrite Hid).
  pose proof (acquire_connect_spec now (sys_pool s) h id o Hwf Hid) as Hc.
  destruct (acquire_connect now (sys_pool s) h id o) as [p' r]. destruct Hc as (-> & Hwf' & Hcf' & Hps & Hof).
  assert (∀ h' id', (h', id') ∈ delete i (sys_pending s) → cp_pools p' !! id' = Some h') as Hpend'.
  { intros h' id' Hin. rewrite Hps. apply Hpend. by apply (elem_of_sublist _ _ _ Hin), sublist_delete. }
  pose proof (Hpools id bp Hofid) as Hok. rewrite Hofid in Hof.
  destruct o as [stream|e|]; simpl in *.
  - split; simpl; [done|congruence| | |done].
    + eapply sys_inv_pools; [exact Hpools|exact Hof| |].
      * rewrite held_of_cons, decide_True by done. destruct bp. destruct Hok as (?&?&?).
        by apply (pool_ok_add cfg id _ 1 _ bp_connections0).
      * intros id' Hne. rewrite held_of_cons. simpl. rewrite decide_False by congruence. lia.
    + intros c. rewrite elem_of_cons, Hps. intros [->|?]; [simpl; eauto|auto].
  - split; simpl; [done|congruence| |by setoid_rewrite Hps|done].
    by eapply sys_inv_pools; [exact Hpools|exact Hof|done|done].
  - split; simpl; [done|congruence| |by setoid_rewrite Hps|done].
    by eapply sys_inv_pools; [exact Hpools|exact Hof|done|done].
Qed.

(** Giving back connection [i], by an operation that counts it out. *)
Lemma give_back_inv s i c p' l bp :
  sys_inv cfg s → sys_held s !! i = Some c → pool_of (sys_pool s) (pc_backend_id c) = Some bp →
  pools_wf p' → cp_config p' = cp_config (sys_pool s) → cp_pools p' = cp_pools (sys_pool s) →
  Z.of_nat (length l) <= max_connections cfg → Forall (fun c' => pc_backend_id c' = pc_backend_id c) l →
  (∀ id', pool_of p' id' = if decide (pc_backend_id c = id')
                           then Some (with_connections l (in_use_add (-1) bp)) else pool_of (sys_pool s) id') →
  sys_inv cfg (mkSys p' (delete i (sys_held s)) (sys_pending s)).
Proof.
  intros [Hwf Hcf Hpools Hheld Hpend] Hi Hbp Hwf' Hcf' Hps Hlen Hl Hof.
  split; simpl; [done|congruence| | |by rewrite Hps].
  - eapply sys_inv_pools; [exact Hpools|exact Hof| |].
    + rewrite (held_of_delete _ _ _ _ Hi), decide_True by done. by apply pool_ok_add; [apply Hpools| |].
    + intros id' Hne. rewrite (held_of_delete _ _ _ _ Hi), decide_False by congruence. lia.
  - intros c' Hin. rewrite Hps. apply Hheld. by apply (elem_of_sublist _ _ _ Hin), sublist_delete.
Qed.

Lemma release_inv s i now : sys_inv cfg s → sys_inv cfg (pool_step s (PRelease i now)).
Proof.
  intros Hinv. pose proof Hinv as [Hwf Hcf Hpools Hheld _]. simpl.
  destruct (sys_held s !! i) as [c|] eqn:Hi; [|done].
  destruct (Hheld c) as [h Hid]; [by eapply list_elem_of_lookup_2|].
  destruct (wf_handles _ Hwf _ _ Hid) as [bp Hbp].
  assert (pool_of (sys_pool s) (pc_backend_id c) = Some bp) as Hof by (unfold pool_of; by rewrite Hid).
  pose proof (Hpools _ _ Hof) as (_ & Hlen & Hall).
  destruct (release_spec now (sys_pool s) c h bp Hwf Hid Hof) as (Hwf' & Hcf' & Hps & l & Hl & Hof').
  apply (give_back_inv s i c _ l bp); try done; destruct Hl as [->|(-> & _ & Hlt)]; try done.
  - rewrite length_app; simpl. rewrite Hcf in Hlt. lia.
  - apply Forall_app. split; [done|]. by constructor.
Qed.

Lemma discard_inv s i : sys_inv cfg s → sys_inv cfg (pool_step s (PDiscard i)).
Proof.
  intros Hinv. pose proof Hinv as [Hwf Hcf Hpools Hheld _]. simpl.
  destruct (sys_held s !! i) as [c|] eqn:Hi; [|done].
  destruct (Hheld c) as [h Hid]; [by eapply list_elem_of_lookup_2|].
  destruct (wf_handles _ Hwf _ _ Hid) as [bp Hbp].
  assert (pool_of (sys_pool s) (pc_backend_id c) = Some bp) as Hof by (unfold pool_of; by rewrite Hid).
  pose proof (Hpools _ _ Hof) as (_ & Hlen & Hall).
  destruct (discard_spec (sys_pool s) c h Hwf Hid) as (Hwf' & Hcf' & Hps & Hof').
  apply (give_back_inv s i c _ (bp_connections bp) bp); try done.
  intros id'. rewrite Hof', Hof. by destruct bp.
Qed.

Lemma cleanup_inv s pools now : sys_inv cfg s → sys_inv cfg (pool_step s (PCleanup pools now)).
Proof.
  intros [Hwf Hcf Hpools Hheld Hpend]. simpl.
  destruct (pool_cleanup_turn_spec pools now (sys_pool s) Hwf) as (Hwf' & Hcf' & Hps & Hof).
  split; simpl; [done|congruence| |by rewrite Hps|by rewrite Hps].
  intros id bp' (bp & l & Hbp & -> & Hsub)%Hof. pose proof (Hpools id bp Hbp) as Hok.
  pose proof Hok as (_ & Hlen & Hall). apply pool_ok_same; [done| |].
  - apply sublist_length in Hsub. lia.
  - apply Forall_forall. intros c Hc. rewrite Forall_forall in Hall. apply Hall.
    by apply (elem_of_sublist _ _ _ Hc).
Qed.

Lemma pool_step_inv s op : sys_inv cfg s → sys_inv cfg (pool_step s op).
Proof using Hmax.
  destruct op; [by apply begin_inv|by apply connect_inv|by apply release_inv|by apply discard_inv|by apply cleanup_inv].
Qed.

Lemma sys_new_inv : sys_inv cfg (sys_new cfg).
Proof.
  split; simpl; [apply connection_pool_new_wf|done| |by intros ? ?%elem_of_nil|by intros ?? ?%elem_of_nil].
  intros id bp. unfold pool_of; simpl. by rewrite lookup_empty.
Qed.
End invariant.

(** Through any interleaving of acquisitions (with their connection attempts
    pending for any time), releases, discards and cleanups, every backend's
    [in_use] counter is the number of its connections that are out, its idle queue
    never exceeds [max_connections], and holds only its own connections. *)
Theorem pool_accounting cfg ops id bp :
  0 <= max_connections cfg →
  let s := foldl pool_step (sys_new cfg) ops in
  pool_of (sys_pool s) id = Some bp →
  bp_in_use bp = wrap 64 (held_of id (sys_held s)) ∧
  Z.of_nat (length (bp_connections bp)) <= max_connections cfg ∧
  Forall (fun c => pc_backend_id c = id) (bp_connections bp).
Proof.
  intros Hmax s Hbp.
  assert (sys_inv cfg s) as Hinv.
  { apply (foldl_invariant pool_step (sys_inv cfg)); [|by apply sys_new_inv].
    intros. by apply pool_step_inv. }
  exact (inv_pools cfg s Hinv id bp Hbp).
Qed.

(** Two acquisitions in flight at once, one released, its connection reused. *)
Lemma pool_accounting_witness :
  let s := foldl pool_step (sys_new pool_config_default)
    [PBegin "b" "a" 0; PBegin "b" "a" 1; PConnect 0 2 (Connected 1); PConnect 0 3 (Connected 2);
     PRelease 0 4; PBegin "b" "a" 5; PDiscard 0] in
  ∃ bp, pool_of (sys_pool s) "b" = Some bp ∧ bp_in_use bp = wrap 64 (held_of "b" (sys_held s)).
Proof.
  eexists. split; [vm_compute; reflexivity|].
  apply (pool_accounting pool_config_default
    [PBegin "b" "a" 0; PBegin "b" "a" 1; PConnect 0 2 (Connected 1); PConnect 0 3 (Connected 2);
     PRelease 0 4; PBegin "b" "a" 5; PDiscard 0]); [vm_compute; congruence|].
  vm_compute. reflexivity.
Defined.

(** The manager with one pool, [k] of its connections in use and none idle. *)
Definition one_pool (cfg : PoolConfig) (id addr : string) (k : Z) : ConnectionPool :=
  mkConnectionPool cfg {[0%nat := mkBackendPool [] k addr]} {[id := 0%nat]} 1.

Lemma begin_one_pool cfg id addr k held pend :
  k < max_connections cfg →
  pool_step (mkSys (one_pool cfg id addr k) held pend) (PBegin id addr 0) =
    mkSys (one_pool cfg id addr k) held ((0%nat, id) :: pend).
Proof.
  intros Hk. unfold pool_step, acquire_pop, get_or_create_pool, one_pool; simpl.
  rewrite lookup_singleton_eq; simpl. rewrite lookup_singleton_eq; simpl. unfold update_pool; simpl. rewrite alter_singleton_eq. unfold acquire_admit; simpl.
  rewrite lookup_singleton_eq. unfold total_connections; simpl. by rewrite (proj2 (Z.leb_gt _ _)).
Qed.

Lemma connect_one_pool cfg id addr k held pend now stream :
  pool_step (mkSys (one_pool cfg id addr k) held ((0%nat, id) :: pend)) (PConnect 0 now (Connected stream)) =
    mkSys (one_pool cfg id addr (k +u64 1)) (conn_new now stream id :: held) pend.
Proof. unfold pool_step; simpl. unfold update_pool, one_pool; simpl. by rewrite alter_singleton_eq. Qed.

Lemma begin_first cfg id addr :
  0 < max_connections cfg →
  pool_step (sys_new cfg) (PBegin id addr 0) = mkSys (one_pool cfg id addr 0) [] [(0%nat, id)].
Proof.
  intros Hmax. rewrite <-(begin_one_pool cfg id addr 0 [] []) by done.
  unfold pool_step, acquire_pop, get_or_create_pool, one_pool, sys_new, connection_pool_new; simpl.
  rewrite lookup_empty, !insert_empty; simpl. by rewrite !lookup_singleton_eq.
Qed.

Lemma begin_many cfg id addr k n held pend :
  k < max_connections cfg →
  foldl pool_step (mkSys (one_pool cfg id addr k) held pend) (replicate n (PBegin id addr 0)) =
    mkSys (one_pool cfg id addr k) held (replicate n (0%nat, id) ++ pend).
Proof.
  intros Hk. revert pend. induction n as [|n IH]; intros pend; cbn [replicate foldl]; [done|].
  rewrite begin_one_pool, IH by done. f_equal. clear. induction n; simpl; [done|]. by f_equal.
Qed.

Lemma connect_many cfg id addr k n held :
  foldl pool_step (mkSys (one_pool cfg id addr (wrap 64 k)) held (replicate n (0%nat, id)))
    (replicate n (PConnect 0 0 (Connected 0))) =
    mkSys (one_pool cfg id addr (wrap 64 (k + Z.of_nat n))) (replicate n (conn_new 0 0 id) ++ held) [].
Proof.
  revert k held. induction n as [|n IH]; intros k held; cbn [replicate foldl].
  { by rewrite Z.add_0_r. }
  rewrite connect_one_pool, wrap_add_l, IH by lia. f_equal.
  - do 2 f_equal. lia.
  - clear. induction n; simpl; [done|]. by f_equal.
Qed.

(** The limit is checked before the connection attempt and counted after it:
    [n] acquisitions that start together on a new pool all get a connection,
    however small the (positive) [max_connections] is. *)
Lemma concurrent_acquires_exceed_limit cfg id addr n :
  0 < max_connections cfg → Z.of_nat (S n) < 2 ^ 64 →
  let s := foldl pool_step (sys_new cfg)
             (replicate (S n) (PBegin id addr 0) ++ replicate (S n) (PConnect 0 0 (Connected 0))) in
  length (sys_held s) = S n ∧
  bp_in_use <$> pool_of (sys_pool s) id = Some (Z.of_nat (S n)).
Proof.
  intros Hmax Hn s. subst s. rewrite foldl_app.
  assert (foldl pool_step (sys_new cfg) (replicate (S n) (PBegin id addr 0)) =
    mkSys (one_pool cfg id addr 0) [] (replicate (S n) (0%nat, id))) as ->.
  { cbn [replicate foldl]. rewrite begin_first, begin_many by done. by rewrite <-replicate_cons_app. }
  pose proof (connect_many cfg id addr 0 (S n) []) as Hmany. change (wrap 64 0) with 0 in Hmany.
  rewrite Hmany.
  cbn [sys_held sys_pool]. rewrite app_nil_r, length_replicate. split; [done|].
  unfold pool_of, one_pool; simpl. rewrite lookup_singleton_eq; simpl. rewrite lookup_singleton_eq; simpl.
  f_equal. apply wrap_small. unfold in_range. lia.
Qed.

Lemma concurrent_acquires_witness :
  length (sys_held (foldl pool_step (sys_new (mkPoolConfig 1 0 0 0 0))
    (replicate 3 (PBegin "b" "a" 0) ++ replicate 3 (PConnect 0 0 (Connected 0))))) = 3%nat.
Proof. apply (concurrent_acquires_exceed_limit (mkPoolConfig 1 0 0 0 0) "b" "a" 2); simpl; lia. Defined.

(** ** One task at a time *)

Inductive seq_op :=
| SAcquire (id addr : string) (now : instant) (o : connect_outcome)
| SRelease (i : nat) (now : instant)
| SDiscard (i : nat)
| SCleanup (pools : gmap string nat) (now : instant).

Definition seq_step (s : pool_sys) (op : seq_op) : pool_sys :=
  match op with
  | SAcquire id addr now o =>
      let '(p, r) := acquire now (sys_pool s) id addr o in
      mkSys p (match r with Ok c => c :: sys_held s | Err _ => sys_held s end) (sys_pending s)
  | SRelease i now => pool_step s (PRelease i now)
  | SDiscard i => pool_step s (PDiscard i)
  | SCleanup pools now => pool_step s (PCleanup pools now)
  end.

(** [acquire] in one go is the two parts one after the other. *)
Lemma seq_acquire_steps s id addr now o :
  sys_pending s = [] →
  ∃ ops, seq_step s (SAcquire id addr now o) = foldl pool_step s ops.
Proof.
  intros Hp. unfold seq_step, acquire. 
  destruct (acquire_pop now (sys_pool s) id addr) as [[[p h] [c|]] closed] eqn:Hpop.
  - exists [PBegin id addr now]. cbn [foldl pool_step]. by rewrite Hpop.
  - destruct (acquire_admit p h) eqn:Ha.
    + exists [PBegin id addr now; PConnect 0 now o]. cbn [foldl pool_step]. rewrite Hpop, Ha. simpl.
      by destruct (acquire_connect now p h id o).
    + exists [PBegin id addr now]. cbn [foldl pool_step]. by rewrite Hpop, Ha.
Qed.

Record seq_inv (cfg : PoolConfig) (s : pool_sys) : Prop := {
  seq_sys : sys_inv cfg s;
  seq_pending : sys_pending s = [];
  seq_bound : ∀ id bp, pool_of (sys_pool s) id = Some bp →
    Z.of_nat (length (bp_connections bp)) + held_of id (sys_held s) <= max_connections cfg
}.

Section sequential.
Context (cfg : PoolConfig) (Hmax : 0 <= max_connections cfg < 2 ^ 64).

Lemma seq_step_sys_inv s op : seq_inv cfg s → sys_inv cfg (seq_step s op) ∧ sys_pending (seq_step s op) = [].
Proof using Hmax.
  intros [Hs Hp _]. destruct op as [id addr now o|i now|i|pools now].
  - split.
    + destruct (seq_acquire_steps s id addr now o Hp) as [ops ->].
      apply foldl_invariant; [|done]. intros. apply pool_step_inv; [lia|done].
    + simpl. by destruct (acquire now (sys_pool s) id addr o).
  - split; [by apply (pool_step_inv cfg ltac:(lia) s (PRelease i now))|]. simpl. by case_match.
  - split; [by apply (pool_step_inv cfg ltac:(lia) s (PDiscard i))|]. simpl. by case_match.
  - split; [by apply (pool_step_inv cfg ltac:(lia) s (PCleanup pools now))|]. done.
Qed.

Lemma seq_acquire_bound s id addr now o :
  seq_inv cfg s →
  ∀ id' bp', pool_of (sys_pool (seq_step s (SAcquire id addr now o))) id' = Some bp' →
  Z.of_nat (length (bp_connections bp')) + held_of id' (sys_held (seq_step s (SAcquire id addr now o)))
    <= max_connections cfg.
Proof using Hmax.
  intros Hinv id' bp'. pose proof Hinv as [Hs _ Hb].
  pose proof (acquire_outcomes now (sys_pool s) id addr o (inv_wf cfg s Hs)) as Hacq.
  pose proof (pool_ok_default cfg ltac:(lia) s id addr Hs) as (Hin & _ & Hown).
  set (bp := default (backend_pool_new addr) (pool_of (sys_pool s) id)) in *.
  assert (Z.of_nat (length (bp_connections bp)) + held_of id (sys_held s) <= max_connections cfg) as Hbid.
  { subst bp. destruct (pool_of (sys_pool s) id) as [bp|] eqn:Hof; simpl; [by apply Hb|].
    rewrite (held_of_no_pool cfg s id) by done. simpl. lia. }
  assert (0 <= held_of id (sys_held s)) as Hnn by (unfold held_of; lia).
  rewrite wrap_small in Hin by (unfold in_range; lia).
  unfold seq_step. destruct (acquire now (sys_pool s) id addr o) as [p' r]. simpl.
  destruct Hacq as (_ & Hother & dead & _ & Hcase).
  destruct (decide (id' = id)) as [->|Hne].
  - destruct Hcase as [(c & rest & Hl & _ & -> & ->)|[(_ & _ & -> & ->)|(_ & Hlt & -> & ->)]]; intros [= <-]; simpl.
    + rewrite held_of_cons. simpl. rewrite Hl in *. apply Forall_app in Hown as [_ Hown].
      inversion_clear Hown. rewrite decide_True by done. rewrite length_app in Hbid; simpl in Hbid. lia.
    + lia.
    + rewrite inv_cfg with (cfg := cfg) in Hlt by done.
      destruct o; simpl; rewrite ?held_of_cons; simpl; [rewrite decide_True by done|..]; lia.
  - rewrite Hother by done. intros Hbp'.
    assert (held_of id' (match r with Ok c => c :: sys_held s | Err _ => sys_held s end) = held_of id' (sys_held s)) as ->;
      [|by apply Hb].
    destruct Hcase as [(c & rest & Hl & _ & -> & _)|[(_ & _ & -> & _)|(_ & _ & -> & _)]]; [|done|].
    + rewrite held_of_cons. simpl. rewrite Hl in *. apply Forall_app in Hown as [_ Hown].
      inversion_clear Hown. rewrite decide_False by congruence. lia.
    + destruct o; simpl; [|done..]. rewrite held_of_cons. simpl. rewrite decide_False by congruence. lia.
Qed.

(** Giving a connection back to, or taking it away from, its pool. *)
Lemma seq_give_back_bound s i c p' l bp :
  seq_inv cfg s → sys_held s !! i = Some c → pool_of (sys_pool s) (pc_backend_id c) = Some bp →
  Z.of_nat (length l) <= Z.of_nat (length (bp_connections bp)) + 1 →
  (∀ id', pool_of p' id' = if decide (pc_backend_id c = id')
                           then Some (with_connections l (in_use_add (-1) bp)) else pool_of (sys_pool s) id') →
  ∀ id' bp', pool_of p' id' = Some bp' →
    Z.of_nat (length (bp_connections bp')) + held_of id' (delete i (sys_held s)) <= max_connections cfg.
Proof.
  intros [_ _ Hb] Hi Hbp Hl Hof id' bp'. rewrite Hof, (held_of_delete _ _ _ _ Hi).
  case_decide; subst.
  - intros [= <-]. simpl. pose proof (Hb _ _ Hbp). lia.
  - rewrite Z.add_0_r. apply Hb.
Qed.

Lemma seq_step_inv s op : seq_inv cfg s → seq_inv cfg (seq_step s op).
Proof using Hmax.
  intros Hinv. destruct (seq_step_sys_inv s op Hinv) as [Hs' Hp']. split; [done..|]. clear Hs' Hp'.
  pose proof Hinv as [[Hwf Hcf Hpools Hheld _] _ Hb].
  destruct op as [id addr now o|i now|i|pools now]; [by apply seq_acquire_bound|..]; simpl.
  - destruct (sys_held s !! i) as [c|] eqn:Hi; [|done].
    destruct (Hheld c) as [h Hid]; [by eapply list_elem_of_lookup_2|].
    destruct (wf_handles _ Hwf _ _ Hid) as [bp Hbp].
    assert (pool_of (sys_pool s) (pc_backend_id c) = Some bp) as Hof by (unfold pool_of; by rewrite Hid).
    destruct (release_spec now (sys_pool s) c h bp Hwf Hid Hof) as (_ & _ & _ & l & Hl & Hof').
    eapply (seq_give_back_bound s i c _ l bp); try done.
    destruct Hl as [->|(-> & _)]; rewrite ?length_app; simpl; lia.
  - destruct (sys_held s !! i) as [c|] eqn:Hi; [|done].
    destruct (Hheld c) as [h Hid]; [by eapply list_elem_of_lookup_2|].
    destruct (wf_handles _ Hwf _ _ Hid) as [bp Hbp].
    assert (pool_of (sys_pool s) (pc_backend_id c) = Some bp) as Hof by (unfold pool_of; by rewrite Hid).
    destruct (discard_spec (sys_pool s) c h Hwf Hid) as (_ & _ & _ & Hof').
    eapply (seq_give_back_bound s i c _ (bp_connections bp) bp); try done; [lia|].
    intros id'. rewrite Hof', Hof. by destruct bp.
  - destruct (pool_cleanup_turn_spec pools now (sys_pool s) Hwf) as (_ & _ & _ & Hof).
    intros id bp' (bp & l & Hbp & -> & Hsub)%Hof. apply sublist_length in Hsub. simpl.
    specialize (Hb _ _ Hbp). lia.
Qed.
End sequential.

(** As long as no two acquisitions overlap, the idle connections of a backend
    and those that are out never exceed [max_connections] together. *)
Lemma sequential_use_respects_limit cfg ops id bp :
  0 <= max_connections cfg < 2 ^ 64 →
  let s := foldl seq_step (sys_new cfg) ops in
  pool_of (sys_pool s) id = Some bp →
  Z.of_nat (length (bp_connections bp)) + held_of id (sys_held s) <= max_connections cfg.
Proof.
  intros Hmax s. assert (seq_inv cfg s) as Hinv; [|by apply (seq_bound cfg s Hinv)].
  apply (foldl_invariant seq_step (seq_inv cfg)); [intros; by apply seq_step_inv|].
  split; [by apply sys_new_inv|done|]. intros id' bp'. unfold pool_of; simpl. by rewrite lookup_empty.
Qed.

Lemma sequential_use_witness :
  let s := foldl seq_step (sys_new (mkPoolConfig 1 0 9 9 9))
    [SAcquire "b" "a" 0 (Connected 1); SAcquire "b" "a" 0 (Connected 2); SRelease 0 1;
     SAcquire "b" "a" 2 (Connected 3)] in
  ∃ bp, pool_of (sys_pool s) "b" = Some bp ∧
    Z.of_nat (length (bp_connections bp)) + held_of "b" (sys_held s) <= 1.
Proof.
  eexists. split; [vm_compute; reflexivity|].
  apply (sequential_use_respects_limit (mkPoolConfig 1 0 9 9 9)
    [SAcquire "b" "a" 0 (Connected 1); SAcquire "b" "a" 0 (Connected 2); SRelease 0 1;
     SAcquire "b" "a" 2 (Connected 3)]); [simpl; lia|vm_compute; reflexivity].
Defined.

(** A connection acquired before a [clear] and released after it is counted out of
    the pool that has taken the old one's place: with nothing in use, its counter
    ends at [usize::MAX]. *)
Example clear_then_release_wraps :
  let '(p, _) := acquire 0 (connection_pool_new pool_config_default) "b" "a" (Connected 1) in
  let '(p, _) := acquire 0 (pool_clear p) "b" "a" (Connected 2) in
  let p := fst (release 0 p (conn_new 0 1 "b")) in
  let p := fst (release 0 p (conn_new 0 2 "b")) in
  bp_in_use <$> pool_of p "b" = Some U64_MAX.
Proof. vm_compute. reflexivity. Qed.
