(* ===== verification/PoolRaces.v ===== *)
(** * The connection pool under concurrency

    [src/src/infrastructure/connection_pool.rs] with each access to shared state a
    step of its own: [ConnectionPool] takes the parts of a call between its
    suspension points as one step, here any number of calls interleave between any
    two accesses.  The shared state is the pool manager (a heap of pools and the
    map from backend ids to them), the streams opened and those closed.

    Two kinds of lock are taken.  The queue of a pool is behind a tokio mutex, whose
    [lock().await] parks the task.  The map is a DashMap: [get] and [iter] return
    references that hold a shard of it for reading until they are dropped, and
    [entry] and [clear] block their thread until nobody reads their shard.  [shard]
    says in which of the [nshards] shards a key is.  What is locked is read off the
    phases of the tasks.

    A future may be dropped where it awaits ([LCancel]), and a connection may be
    dropped instead of given back ([LDrop]).  Clock readings are the [now] of a step. *)

From S2P Require Import Prelude ConnectionPool.

(** The next access of a task. *)
Inductive pool_pc :=
(* acquire *)
| QEnter (id addr : string)                        (* pools.entry(..) *)
| QQueue (h : nat) (id : string)                   (* connections.lock().await *)
| QPop (h : nat) (id : string)                     (* locked: pop_front, expiry *)
| QReuse (h : nat) (c : PooledConnection)          (* locked: in_use.fetch_add *)
| QAdmit (h : nat) (id : string)                   (* in_use.load *)
| QConnect (h : nat) (id : string)                 (* TcpStream::connect(..).await *)
| QCount (h : nat) (c : PooledConnection)          (* in_use.fetch_add *)
| QHolds (c : PooledConnection)                    (* the caller has the connection *)
(* release *)
| QReturn (c : PooledConnection)                   (* pools.get *)
| QUncount (h : nat) (c : PooledConnection)        (* shard held: in_use.fetch_sub, expiry *)
| QBack (h : nat) (c : PooledConnection)           (* shard held: connections.lock().await *)
| QRoom (h : nat) (c : PooledConnection)           (* shard held, locked: connections.len() *)
| QPush (h : nat) (c : PooledConnection)           (* shard held, locked: push_back *)
(* discard *)
| QDiscard (c : PooledConnection)                  (* pools.get *)
| QDiscount (h : nat) (c : PooledConnection)       (* shard held: in_use.fetch_sub *)
(* one tick of the cleanup task, on the pools of its clone of the map *)
| QSweep (hs : list nat)                           (* connections.lock().await *)
| QRetain (h : nat) (hs : list nat)                (* locked: retain *)
(* clear *)
| QShard (n : nat)                                 (* iter: the next shard *)
| QDrain (n : nat) (hs : list nat)                 (* shard held: connections.lock().await *)
| QDrained (n h : nat) (hs : list nat)             (* shard held, locked: drain *)
| QErase (n : nat)                                 (* pools.clear(): the next shard *)
| QDone (r : option PoolError)
| QLost (c : PooledConnection).                    (* dropped by its holder *)

Record pool_race := mkPoolRace {
  pr_pool : ConnectionPool;
  pr_opened : nat;                  (* streams opened so far: their names are the numbers below *)
  pr_closed : list nat;
  pr_tasks : gmap nat pool_pc
}.

Definition goto (t : nat) (pc : pool_pc) (st : pool_race) : pool_race :=
  mkPoolRace (pr_pool st) (pr_opened st) (pr_closed st) (<[t := pc]> (pr_tasks st)).
Definition on_pool (f : ConnectionPool → ConnectionPool) (st : pool_race) : pool_race :=
  mkPoolRace (f (pr_pool st)) (pr_opened st) (pr_closed st) (pr_tasks st).
Definition close_streams (l : list nat) (st : pool_race) : pool_race :=
  mkPoolRace (pr_pool st) (pr_opened st) (pr_closed st ++ l) (pr_tasks st).
Definition open_stream (st : pool_race) : pool_race :=
  mkPoolRace (pr_pool st) (S (pr_opened st)) (pr_closed st) (pr_tasks st).

(** The mutex that a task holds, and whether a mutex is free. *)
Definition locked_queue (pc : pool_pc) : option nat :=
  match pc with
  | QPop h _ | QReuse h _ | QRoom h _ | QPush h _ | QRetain h _ | QDrained _ h _ => Some h
  | _ => None
  end.

Definition queue_free (h : nat) (tasks : gmap nat pool_pc) : bool :=
  bool_decide (map_Forall (λ _ pc, locked_queue pc ≠ Some h) tasks).

Section races.
Context (shard : string → nat) (nshards : nat).

(** The shard of the map that a task holds for reading, and whether it may be written. *)
Definition read_shard (pc : pool_pc) : option nat :=
  match pc with
  | QUncount _ c | QBack _ c | QRoom _ c | QPush _ c | QDiscount _ c => Some (shard (pc_backend_id c))
  | QDrain n _ | QDrained n _ _ => Some n
  | _ => None
  end.

Definition shard_free (n : nat) (tasks : gmap nat pool_pc) : bool :=
  bool_decide (map_Forall (λ _ pc, read_shard pc ≠ Some n) tasks).

Definition queue_of (p : ConnectionPool) (h : nat) : list PooledConnection :=
  from_option bp_connections [] (cp_heap p !! h).

(** One access of [acquire]. *)
Definition acquire_access (t : nat) (now : instant) (st : pool_race) (pc : pool_pc) : option pool_race :=
  let cfg := cp_config (pr_pool st) in
  match pc with
  | QEnter id addr =>
      if shard_free (shard id) (pr_tasks st) then
        let '(p, h) := get_or_create_pool (pr_pool st) id addr in
        Some (goto t (QQueue h id) (on_pool (fun _ => p) st))
      else None
  | QQueue h id => if queue_free h (pr_tasks st) then Some (goto t (QPop h id) st) else None
  | QPop h id =>
      match queue_of (pr_pool st) h with
      | [] => Some (goto t (QAdmit h id) st)
      | c :: rest =>
          let st := on_pool (update_pool h (with_connections rest)) st in
          if is_expired now (max_lifetime cfg) c || is_idle_expired now (idle_timeout cfg) c
          then Some (goto t (QPop h id) (close_streams [pc_stream c] st))
          else Some (goto t (QReuse h (conn_touch now c)) st)
      end
  | QReuse h c => Some (goto t (QHolds c) (on_pool (update_pool h (in_use_add 1)) st))
  | QAdmit h id =>
      Some (goto t (if acquire_admit (pr_pool st) h then QConnect h id else QDone (Some PoolExhausted)) st)
  | QCount h c => Some (goto t (QHolds c) (on_pool (update_pool h (in_use_add 1)) st))
  | _ => None
  end.

(** One access of [release]. *)
Definition release_access (t : nat) (now : instant) (st : pool_race) (pc : pool_pc) : option pool_race :=
  let cfg := cp_config (pr_pool st) in
  match pc with
  | QReturn c =>
      match cp_pools (pr_pool st) !! pc_backend_id c with
      | Some h => Some (goto t (QUncount h c) st)
      | None => Some (goto t (QDone None) (close_streams [pc_stream c] st))
      end
  | QUncount h c =>
      let st := on_pool (update_pool h (in_use_add (-1))) st in
      if is_expired now (max_lifetime cfg) c
      then Some (goto t (QDone None) (close_streams [pc_stream c] st))
      else Some (goto t (QBack h (conn_touch now c)) st)
  | QBack h c => if queue_free h (pr_tasks st) then Some (goto t (QRoom h c) st) else None
  | QRoom h c =>
      if Z.of_nat (length (queue_of (pr_pool st) h)) <? max_connections cfg
      then Some (goto t (QPush h c) st)
      else Some (goto t (QDone None) (close_streams [pc_stream c] st))
  | QPush h c =>
      Some (goto t (QDone None)
        (on_pool (update_pool h (fun bp => with_connections (bp_connections bp ++ [c]) bp)) st))
  | _ => None
  end.

(** One access of [discard]. *)
Definition discard_access (t : nat) (st : pool_race) (pc : pool_pc) : option pool_race :=
  match pc with
  | QDiscard c =>
      match cp_pools (pr_pool st) !! pc_backend_id c with
      | Some h => Some (goto t (QDiscount h c) st)
      | None => Some (goto t (QDone None) (close_streams [pc_stream c] st))
      end
  | QDiscount h c =>
      Some (goto t (QDone None)
        (close_streams [pc_stream c] (on_pool (update_pool h (in_use_add (-1))) st)))
  | _ => None
  end.

(** One access of the cleanup task: [retain] drops the connections it does not keep. *)
Definition cleanup_access (t : nat) (now : instant) (st : pool_race) (pc : pool_pc) : option pool_race :=
  let kept := conn_kept (cp_config (pr_pool st)) now in
  match pc with
  | QSweep [] => Some (goto t (QDone None) st)
  | QSweep (h :: hs) => if queue_free h (pr_tasks st) then Some (goto t (QRetain h hs) st) else None
  | QRetain h hs =>
      let dropped := List.filter (fun c => negb (kept c)) (queue_of (pr_pool st) h) in
      Some (goto t (QSweep hs)
        (close_streams (pc_stream <$> dropped)
          (on_pool (update_pool h (fun bp => with_connections (List.filter kept (bp_connections bp)) bp)) st)))
  | _ => None
  end.

(** The pools of a shard. *)
Definition shard_pools (p : ConnectionPool) (n : nat) : list nat :=
  snd <$> filter (fun kh => shard (fst kh) = n) (map_to_list (cp_pools p)).

(** [pools.clear()] on one shard. *)
Definition erase_shard (n : nat) (p : ConnectionPool) : ConnectionPool :=
  mkConnectionPool (cp_config p) (cp_heap p) (filter (fun kh => shard (fst kh) ≠ n) (cp_pools p)) (cp_fresh p).

(** One access of [clear]. *)
Definition clear_access (t : nat) (st : pool_race) (pc : pool_pc) : option pool_race :=
  match pc with
  | QShard n =>
      Some (goto t (if (n <? nshards)%nat then QDrain n (shard_pools (pr_pool st) n) else QErase 0) st)
  | QDrain n [] => Some (goto t (QShard (S n)) st)
  | QDrain n (h :: hs) => if queue_free h (pr_tasks st) then Some (goto t (QDrained n h hs) st) else None
  | QDrained n h hs =>
      match queue_of (pr_pool st) h with
      | [] => Some (goto t (QDrain n hs) st)
      | c :: rest =>
          Some (goto t (QDrained n h hs)
            (close_streams [pc_stream c] (on_pool (update_pool h (with_connections rest)) st)))
      end
  | QErase n =>
      if (n <? nshards)%nat then
        if shard_free n (pr_tasks st) then Some (goto t (QErase (S n)) (on_pool (erase_shard n) st)) else None
      else Some (goto t (QDone None) st)
  | _ => None
  end.

Definition pool_access (t : nat) (now : instant) (st : pool_race) (pc : pool_pc) : option pool_race :=
  match pc with
  | QEnter _ _ | QQueue _ _ | QPop _ _ | QReuse _ _ | QAdmit _ _ | QCount _ _ => acquire_access t now st pc
  | QReturn _ | QUncount _ _ | QBack _ _ | QRoom _ _ | QPush _ _ => release_access t now st pc
  | QDiscard _ | QDiscount _ _ => discard_access t st pc
  | QSweep _ | QRetain _ _ => cleanup_access t now st pc
  | QShard _ | QDrain _ _ | QDrained _ _ _ | QErase _ => clear_access t st pc
  | QConnect _ _ | QHolds _ | QDone _ | QLost _ => None
  end.

(** A future dropped at an [await]; the connection in its hands goes with it. *)
Definition pool_cancel (t : nat) (st : pool_race) (pc : pool_pc) : option pool_race :=
  match pc with
  | QQueue _ _ | QConnect _ _ | QSweep _ | QDrain _ _ => Some (goto t (QDone None) st)
  | QBack _ c => Some (goto t (QDone None) (close_streams [pc_stream c] st))
  | _ => None
  end.

Inductive pool_label :=
| LAcquire (t : nat) (id addr : string)
| LSweep (t : nat) (pools : list nat)
| LClear (t : nat)
| LStep (t : nat) (now : instant)
| LConnected (t : nat) (now : instant)             (* the connection attempt of [t] succeeds *)
| LRefused (t : nat) (e : string)                  (* fails *)
| LTimedOut (t : nat)                              (* or takes too long *)
| LRelease (t : nat)                               (* the holder gives its connection back *)
| LDiscard (t : nat)                               (* discards it *)
| LDrop (t : nat)                                  (* or just drops it *)
| LCancel (t : nat).

Definition label_task (l : pool_label) : nat :=
  match l with
  | LAcquire t _ _ | LSweep t _ | LClear t | LStep t _ | LConnected t _ | LRefused t _ | LTimedOut t
  | LRelease t | LDiscard t | LDrop t | LCancel t => t
  end.

Definition start_task (t : nat) (pc : pool_pc) (st : pool_race) : option pool_race :=
  match pr_tasks st !! t with None => Some (goto t pc st) | Some _ => None end.

Definition pool_exec (l : pool_label) (st : pool_race) : option pool_race :=
  match l with
  | LAcquire t id addr => start_task t (QEnter id addr) st
  | LSweep t pools => start_task t (QSweep pools) st
  | LClear t => start_task t (QShard 0) st
  | LStep t now => pc ← pr_tasks st !! t; pool_access t now st pc
  | LConnected t now =>
      match pr_tasks st !! t with
      | Some (QConnect h id) => Some (goto t (QCount h (conn_new now (pr_opened st) id)) (open_stream st))
      | _ => None
      end
  | LRefused t e =>
      match pr_tasks st !! t with
      | Some (QConnect _ _) => Some (goto t (QDone (Some (ConnectError e))) st)
      | _ => None
      end
  | LTimedOut t =>
      match pr_tasks st !! t with
      | Some (QConnect _ _) => Some (goto t (QDone (Some ConnectTimeout)) st)
      | _ => None
      end
  | LRelease t => match pr_tasks st !! t with Some (QHolds c) => Some (goto t (QReturn c) st) | _ => None end
  | LDiscard t => match pr_tasks st !! t with Some (QHolds c) => Some (goto t (QDiscard c) st) | _ => None end
  | LDrop t =>
      match pr_tasks st !! t with
      | Some (QHolds c) => Some (goto t (QLost c) (close_streams [pc_stream c] st))
      | _ => None
      end
  | LCancel t => pc ← pr_tasks st !! t; pool_cancel t st pc
  end.

Fixpoint pool_run (ls : list pool_label) (st : pool_race) : option pool_race :=
  match ls with
  | [] => Some st
  | l :: ls' => st' ← pool_exec l st; pool_run ls' st'
  end.

Definition pool_race_step (ok : pool_label → Prop) : relation pool_race :=
  λ st st', ∃ l, ok l ∧ pool_exec l st = Some st'.

Definition pool_race_new (cfg : PoolConfig) : pool_race := mkPoolRace (connection_pool_new cfg) 0 [] ∅.
End races.

(** ** Where a stream is *)

(** The connection in the hands of a task. *)
Definition in_hand (pc : pool_pc) : list nat :=
  match pc with
  | QReuse _ c | QCount _ c | QHolds c | QReturn c | QUncount _ c | QBack _ c | QRoom _ c | QPush _ c
  | QDiscard c | QDiscount _ c => [pc_stream c]
  | _ => []
  end.

Definition idle_streams (bp : BackendPool) : list nat := pc_stream <$> bp_connections bp.

(** Every place a stream can be in: idle in the queue of a pool, with a task, closed. *)
Definition places (st : pool_race) : list nat :=
  map_concat idle_streams (cp_heap (pr_pool st)) ++ map_concat in_hand (pr_tasks st) ++ pr_closed st.

#[local] Abbreviation count l x := (count_occ Nat.eq_dec l x).

(** How the parts of a step move streams between places. *)
Lemma places_goto t pc st x :
  (count (places (goto t pc st)) x + count (from_option in_hand [] (pr_tasks st !! t)) x =
   count (places st) x + count (in_hand pc) x)%nat.
Proof.
  unfold places. cbn [goto pr_pool pr_tasks pr_closed]. rewrite !count_occ_app.
  pose proof (count_map_concat_insert in_hand (pr_tasks st) t pc x). lia.
Qed.

Lemma places_close l st x : count (places (close_streams l st)) x = (count (places st) x + count l x)%nat.
Proof. unfold places. cbn [close_streams pr_pool pr_tasks pr_closed]. rewrite !count_occ_app. lia. Qed.

Lemma places_open st : places (open_stream st) = places st.
Proof. done. Qed.

Lemma places_update h f st bp x :
  cp_heap (pr_pool st) !! h = Some bp →
  (count (places (on_pool (update_pool h f) st)) x + count (idle_streams bp) x =
   count (places st) x + count (idle_streams (f bp)) x)%nat.
Proof.
  intros Hh. unfold places. cbn [on_pool update_pool cp_heap pr_pool pr_tasks pr_closed].
  rewrite !count_occ_app.
  assert (alter f h (cp_heap (pr_pool st)) = <[h := f bp]> (cp_heap (pr_pool st))) as ->.
  { apply map_eq. intros i. rewrite lookup_alter, lookup_insert. case_decide; subst; [by rewrite Hh|done]. }
  pose proof (count_map_concat_insert idle_streams (cp_heap (pr_pool st)) h (f bp) x) as Hc.
  rewrite Hh in Hc. simpl in Hc. lia.
Qed.

(** Entering a new pool into the map moves nothing. *)
Lemma places_get_or_create st id addr p h :
  pools_wf (pr_pool st) → get_or_create_pool (pr_pool st) id addr = (p, h) →
  ∀ x, count (places (on_pool (fun _ => p) st)) x = count (places st) x.
Proof.
  intros Hwf. unfold get_or_create_pool. destruct (cp_pools (pr_pool st) !! id) as [h'|]; intros [= <- <-] x; [done|].
  unfold places. cbn [on_pool cp_heap pr_pool pr_tasks pr_closed]. rewrite !count_occ_app. f_equal.
  pose proof (count_map_concat_insert idle_streams (cp_heap (pr_pool st)) (cp_fresh (pr_pool st))
    (backend_pool_new addr) x) as Hc.
  assert (cp_heap (pr_pool st) !! cp_fresh (pr_pool st) = None) as Hn.
  { destruct (cp_heap (pr_pool st) !! cp_fresh (pr_pool st)) eqn:E; [|done].
    pose proof (wf_fresh _ Hwf (cp_fresh (pr_pool st)) ltac:(eauto)). lia. }
  rewrite Hn in Hc. simpl in Hc. lia.
Qed.

(** Splits a step into its cases. *)
Ltac step_cases :=
  repeat match goal with
         | H : Some _ = Some _ |- _ => injection H as <-
         | H : None = Some _ |- _ => discriminate H
         | H : context [match ?x with _ => _ end] |- _ => destruct x eqn:?
         end.

(** ** The shape of the pools *)

(** The pool [h] exists and was made for backend [id]. *)
Definition made_for (own : nat → string) (p : ConnectionPool) (h : nat) (id : string) : Prop :=
  is_Some (cp_heap p !! h) ∧ own h = id.

(** The pool that a task works on is that of its backend. *)
Definition task_ok (own : nat → string) (p : ConnectionPool) (pc : pool_pc) : Prop :=
  match pc with
  | QQueue h id | QPop h id | QAdmit h id | QConnect h id => made_for own p h id
  | QReuse h c | QCount h c | QUncount h c | QBack h c | QRoom h c | QPush h c | QDiscount h c =>
      made_for own p h (pc_backend_id c)
  | _ => True
  end.

Record pool_shape (cfg : PoolConfig) (own : nat → string) (p : ConnectionPool) (tasks : gmap nat pool_pc) : Prop := {
  sh_wf : pools_wf p;
  sh_cfg : cp_config p = cfg;
  sh_own : ∀ id h, cp_pools p !! id = Some h → own h = id;
  sh_queues : ∀ h bp, cp_heap p !! h = Some bp →
    Z.of_nat (length (bp_connections bp)) <= max_connections cfg ∧
    Forall (fun c => pc_backend_id c = own h) (bp_connections bp);
  sh_tasks : ∀ t pc, tasks !! t = Some pc → task_ok own p pc;
  sh_room : ∀ t h c, tasks !! t = Some (QPush h c) → Z.of_nat (length (queue_of p h)) < max_connections cfg;
  sh_mutex : ∀ t1 t2 pc1 pc2 h, tasks !! t1 = Some pc1 → tasks !! t2 = Some pc2 →
    locked_queue pc1 = Some h → locked_queue pc2 = Some h → t1 = t2
}.

Lemma queue_free_spec h tasks :
  queue_free h tasks = true ↔ ∀ t pc, tasks !! t = Some pc → locked_queue pc ≠ Some h.
Proof. unfold queue_free. by rewrite bool_decide_eq_true. Qed.

Section shape.
Context (cfg : PoolConfig).
Implicit Types (own : nat → string) (p : ConnectionPool) (tasks : gmap nat pool_pc).

(** A task goes on: it holds no mutex that it did not hold and that was not free. *)
Lemma shape_goto own p tasks t pc :
  pool_shape cfg own p tasks → task_ok own p pc →
  (∀ h, locked_queue pc = Some h →
     (∃ old, tasks !! t = Some old ∧ locked_queue old = Some h) ∨ queue_free h tasks = true) →
  (∀ h c, pc = QPush h c → Z.of_nat (length (queue_of p h)) < max_connections cfg) →
  pool_shape cfg own p (<[t := pc]> tasks).
Proof.
  intros [Hwf Hcf Hown Hq Htk Hroom Hmx] Hok Hlock Hpush. split; try done.
  - intros t' pc'. rewrite lookup_insert. case_decide; [by intros [= <-]|apply Htk].
  - intros t' h c. rewrite lookup_insert. case_decide; [intros [= ->]; by eapply Hpush|apply Hroom].
  - assert (∀ t' pc' h, tasks !! t' = Some pc' → t ≠ t' → locked_queue pc = Some h → locked_queue pc' ≠ Some h)
      as Hne.
    { intros t' pc' h Ht' Hne Hl Hl'. destruct (Hlock h Hl) as [(old & Ho & Hlo)|Hfree].
      - by apply Hne, (Hmx t t' old pc' h).
      - by eapply queue_free_spec. }
    intros t1 t2 pc1 pc2 h. rewrite !lookup_insert.
    repeat case_decide; subst; try done; intros; simplify_eq; [exfalso; by eapply Hne..|].
    by eapply Hmx.
Qed.

(** A pool changes: its queue stays within the limit and with its owner. *)
Lemma shape_update own p tasks h f :
  pool_shape cfg own p tasks →
  (∀ bp, cp_heap p !! h = Some bp →
     Z.of_nat (length (bp_connections (f bp))) <= max_connections cfg ∧
     Forall (fun c => pc_backend_id c = own h) (bp_connections (f bp)) ∧
     ((∃ t c, tasks !! t = Some (QPush h c)) → (length (bp_connections (f bp)) <= length (bp_connections bp))%nat)) →
  pool_shape cfg own (update_pool h f p) tasks.
Proof.
  intros [Hwf Hcf Hown Hq Htk Hroom Hmx] Hf.
  assert (∀ k id, made_for own p k id → made_for own (update_pool h f p) k id) as Hmade.
  { intros k id [[bp Hk] ?]. split; [|done]. simpl. rewrite lookup_alter. case_decide; subst; rewrite Hk; eauto. }
  split; try done.
  - by apply update_pool_wf.
  - intros k bp. simpl. rewrite lookup_alter. case_decide as Heq; [subst k|by apply Hq].
    intros (bp0 & Hbp & ->)%fmap_Some. by destruct (Hf bp0 Hbp) as (? & ? & _).
  - intros t pc Ht. pose proof (Htk t pc Ht) as Hok. destruct pc; simpl in *; auto.
  - intros t k c Ht. specialize (Hroom t k c Ht). unfold queue_of in *. simpl. rewrite lookup_alter.
    case_decide as Heq; [subst k|done]. destruct (cp_heap p !! h) as [bp|] eqn:Hbp; simpl in *; [|done].
    destruct (Hf bp eq_refl) as (_ & _ & Hlen). specialize (Hlen (ex_intro _ t (ex_intro _ c Ht))). lia.
Qed.

(** An update that only takes connections out, or only counts. *)
Lemma shape_shrink own p tasks h f :
  pool_shape cfg own p tasks →
  (∀ bp, cp_heap p !! h = Some bp → sublist (bp_connections (f bp)) (bp_connections bp)) →
  pool_shape cfg own (update_pool h f p) tasks.
Proof.
  intros Hsh Hf. apply shape_update; [done|]. intros bp Hbp.
  destruct (sh_queues _ _ _ _ Hsh h bp Hbp) as [Hlen Hall]. specialize (Hf bp Hbp).
  pose proof (sublist_length _ _ Hf). split_and!; [lia| |done].
  apply Forall_forall. intros c Hc. rewrite Forall_forall in Hall. apply Hall. by eapply elem_of_sublist.
Qed.

Lemma shape_in_use own p tasks h k :
  pool_shape cfg own p tasks → pool_shape cfg own (update_pool h (in_use_add k) p) tasks.
Proof. intros Hsh. by apply shape_shrink. Qed.

Lemma shape_enter own p tasks id addr p' h :
  0 <= max_connections cfg → pool_shape cfg own p tasks → get_or_create_pool p id addr = (p', h) →
  ∃ own', pool_shape cfg own' p' tasks ∧ made_for own' p' h id.
Proof.
  intros Hmax Hsh Hget. pose proof Hsh as [Hwf Hcf Hown Hq Htk Hroom Hmx].
  pose proof (get_or_create_pool_spec p id addr Hwf) as Hspec. rewrite Hget in Hspec. destruct Hspec as (Hwf' & _).
  unfold get_or_create_pool in Hget. destruct (cp_pools p !! id) as [h'|] eqn:Hid; injection Hget as <- <-.
  { exists own. split; [done|]. split; [|by apply Hown]. by eapply (wf_handles p). }
  assert (∀ k, is_Some (cp_heap p !! k) → k ≠ cp_fresh p) as Hne.
  { intros k Hk ->. apply (wf_fresh p Hwf) in Hk. lia. }
  exists (fun k => if decide (k = cp_fresh p) then id else own k). split.
  - split; simpl; try done.
    + intros id' k. rewrite lookup_insert. case_decide; [intros [= <-]; by rewrite decide_True|].
      intros Hk. rewrite decide_False by (apply Hne; by eapply wf_handles). by apply Hown.
    + intros k bp. rewrite lookup_insert. case_decide as Heq.
      * intros [= <-]. simpl. split; [lia|constructor].
      * rewrite decide_False by congruence. apply Hq.
    + intros t pc Ht. pose proof (Htk t pc Ht) as Hok.
      assert (∀ k id', made_for own p k id' →
        made_for (fun k => if decide (k = cp_fresh p) then id else own k)
          (mkConnectionPool (cp_config p) (<[cp_fresh p:=backend_pool_new addr]> (cp_heap p))
             (<[id:=cp_fresh p]> (cp_pools p)) (S (cp_fresh p))) k id') as Hmade.
      { intros k id' [Hk Ho]. split; simpl.
        - rewrite lookup_insert. case_decide; eauto.
        - by rewrite decide_False by by apply Hne. }
      destruct pc; simpl in *; auto.
    + intros t k c Ht. specialize (Hroom t k c Ht). unfold queue_of in *. simpl. rewrite lookup_insert.
      case_decide as Heq; [|done]. subst. pose proof (Htk _ _ Ht) as [Hk _]. by apply Hne in Hk.
  - split; simpl; [rewrite lookup_insert_eq; eauto|by rewrite decide_True].
Qed.

Lemma shape_erase own p tasks shard n :
  pool_shape cfg own p tasks → pool_shape cfg own (erase_shard shard n p) tasks.
Proof.
  intros [[Hh Hi Hf] Hcf Hown Hq Htk Hroom Hmx].
  assert (∀ id h, cp_pools (erase_shard shard n p) !! id = Some h → cp_pools p !! id = Some h) as Hsub.
  { intros id h. by intros [? _]%map_lookup_filter_Some. }
  split; try done; [|by eauto]. split; simpl; [by eauto| |done]. intros id1 id2 h H1 H2. by eapply Hi; eapply Hsub.
Qed.
End shape.

(** ** Every access keeps the shape and the streams *)

Section steps.
Context (shard : string → nat) (nshards : nat) (cfg : PoolConfig).

Definition shaped (own : nat → string) (st : pool_race) : Prop := pool_shape cfg own (pr_pool st) (pr_tasks st).

(** The new phase of a task that takes no lock and does not push. *)
Lemma shaped_goto own st t pc :
  shaped own st → task_ok own (pr_pool st) pc → locked_queue pc = None →
  shaped own (goto t pc st).
Proof. intros Hsh Hok Hl. apply shape_goto; [done..|by rewrite Hl|]. by intros ?? ->. Qed.

(** A task that locks a free queue, or keeps the lock it holds. *)
Lemma shaped_lock own st t old pc h :
  shaped own st → task_ok own (pr_pool st) pc → pr_tasks st !! t = Some old → locked_queue pc = Some h →
  queue_free h (pr_tasks st) = true ∨ locked_queue old = Some h → (∀ c, pc ≠ QPush h c) →
  shaped own (goto t pc st).
Proof.
  intros Hsh Hok Hold Hl Hfree Hne. apply shape_goto; [done..| |].
  - intros h' Hl'. rewrite Hl in Hl'. injection Hl' as <-. destruct Hfree; [by right|left]. by exists old.
  - intros h' c ->. simpl in Hl. injection Hl as <-. by destruct (Hne c).
Qed.

Lemma queue_of_Some p h : is_Some (cp_heap p !! h) → ∃ bp, cp_heap p !! h = Some bp ∧ queue_of p h =
  bp_connections bp.
Proof. intros [bp Hbp]. exists bp. unfold queue_of. by rewrite Hbp. Qed.

Lemma queue_cons p h c l : queue_of p h = c :: l → ∃ bp, cp_heap p !! h = Some bp ∧ bp_connections bp = c :: l.
Proof. unfold queue_of. destruct (cp_heap p !! h); [eauto|done]. Qed.

Lemma queue_owner own p tasks h c l :
  pool_shape cfg own p tasks → queue_of p h = c :: l → made_for own p h (pc_backend_id c).
Proof.
  intros Hsh (bp & Hbp & Hl)%queue_cons. destruct (sh_queues _ _ _ _ Hsh h bp Hbp) as [_ Hall].
  rewrite Hl in Hall. inversion_clear Hall. split; eauto.
Qed.

Lemma made_for_update own p h f k id : made_for own p k id → made_for own (update_pool h f p) k id.
Proof.
  intros [[bp Hk] ?]. split; [|done]. simpl. rewrite lookup_alter. case_decide; subst; rewrite Hk; eauto.
Qed.

Lemma acquire_access_shaped own t now st pc st' :
  0 <= max_connections cfg → shaped own st → pr_tasks st !! t = Some pc →
  acquire_access shard t now st pc = Some st' →
  ∃ own', shaped own' st'.
Proof.
  intros Hmax Hsh Ht Hacc. pose proof (sh_tasks _ _ _ _ Hsh t pc Ht) as Hok.
  destruct pc; cbn [acquire_access] in Hacc; try done; simpl in Hok.
  - step_cases. destruct (shape_enter cfg own _ _ _ _ _ _ Hmax Hsh Heqp) as (own' & Hsh' & Hm).
    exists own'. by apply shaped_goto.
  - step_cases. exists own. by eapply shaped_lock; [..|by left|].
  - step_cases; exists own.
    + by apply shaped_goto.
    + eapply (shaped_lock own (close_streams _ (on_pool _ st)) t (QPop h id) (QPop h id)); try done;
        [|by apply made_for_update|by right].
      apply shape_shrink; [done..|]. intros bp Hbp. unfold queue_of in Heql. rewrite Hbp in Heql. simpl in *.
      rewrite Heql. by apply sublist_cons.
    + eapply (shaped_lock own (on_pool _ st) t (QPop h id)); try done; [|apply made_for_update|by right].
      * apply shape_shrink; [done..|]. intros bp Hbp. unfold queue_of in Heql. rewrite Hbp in Heql. simpl in *.
        rewrite Heql. by apply sublist_cons.
      * exact (queue_owner own _ _ h p l Hsh Heql).
  - step_cases. exists own. apply (shaped_goto own (on_pool _ st)); try done. by apply shape_in_use.
  - step_cases. exists own. apply shaped_goto; [done|by case_match|by case_match].
  - step_cases. exists own. apply (shaped_goto own (on_pool _ st)); try done. by apply shape_in_use.
Qed.

Lemma release_access_shaped own t now st pc st' :
  shaped own st → pr_tasks st !! t = Some pc → release_access t now st pc = Some st' →
  shaped own st'.
Proof.
  intros Hsh Ht Hacc. pose proof (sh_tasks _ _ _ _ Hsh t pc Ht) as Hok.
  destruct pc; cbn [release_access] in Hacc; try done; simpl in Hok.
  - step_cases; apply shaped_goto; try done. split; [by eapply wf_handles, Heqo; apply Hsh|by apply Hsh].
  - step_cases.
    + apply (shaped_goto own (close_streams _ (on_pool _ st))); try done. by apply shape_in_use.
    + apply (shaped_goto own (on_pool _ st)); try done; [by apply shape_in_use|]. by apply made_for_update.
  - step_cases. by eapply shaped_lock; [..|by left|].
  - step_cases; [|by apply shaped_goto]. apply shape_goto; try done.
    + intros h' [= <-]. left. by exists (QRoom h c).
    + intros h' c' [= <- _]. apply Z.ltb_lt. by rewrite <-(sh_cfg _ _ _ _ Hsh).
  - step_cases. pose proof (sh_room _ _ _ _ Hsh _ _ _ Ht) as Hroom.
    assert (shaped own (goto t (QDone None) st)) as Hsh1 by by apply shaped_goto.
    apply (shape_update cfg own _ _ _ _ Hsh1). intros bp Hbp. cbn [goto pr_pool] in Hbp. destruct Hok as [_ Ho].
    destruct (sh_queues _ _ _ _ Hsh h bp Hbp) as [Hlen Hall]. unfold queue_of in Hroom. rewrite Hbp in Hroom.
    simpl in *. rewrite length_app. simpl. split_and!; [lia|apply Forall_app; split; [done|by constructor]|].
    intros (t' & c' & Ht'). exfalso. rewrite lookup_insert in Ht'. case_decide as Hne; [done|].
    by apply Hne, (sh_mutex _ _ _ _ Hsh t t' (QPush h c) (QPush h c') h).
Qed.

Lemma discard_access_shaped own t st pc st' :
  shaped own st → pr_tasks st !! t = Some pc → discard_access t st pc = Some st' → shaped own st'.
Proof.
  intros Hsh Ht Hacc. destruct pc; cbn [discard_access] in Hacc; try done.
  - step_cases; apply shaped_goto; try done. split; [by eapply wf_handles, Heqo; apply Hsh|by apply Hsh].
  - step_cases. apply (shaped_goto own (close_streams _ (on_pool _ st))); try done. by apply shape_in_use.
Qed.

Lemma sublist_filter_b {A} (f : A → bool) (l : list A) : sublist (List.filter f l) l.
Proof. induction l as [|a l IH]; simpl; [done|]. destruct (f a); by constructor. Qed.

Lemma cleanup_access_shaped own t now st pc st' :
  shaped own st → pr_tasks st !! t = Some pc → cleanup_access t now st pc = Some st' → shaped own st'.
Proof.
  intros Hsh Ht Hacc. destruct pc; cbn [cleanup_access] in Hacc; try done.
  - step_cases; [by apply shaped_goto|]. by eapply shaped_lock; [..|by left|].
  - step_cases. apply (shaped_goto own (close_streams _ (on_pool _ st))); try done.
    apply shape_shrink; [done..|]. intros. apply sublist_filter_b.
Qed.

Lemma clear_access_shaped own t st pc st' :
  shaped own st → pr_tasks st !! t = Some pc → clear_access shard nshards t st pc = Some st' → shaped own st'.
Proof.
  intros Hsh Ht Hacc. destruct pc; cbn [clear_access] in Hacc; try done.
  - step_cases. apply shaped_goto; [done|by case_match|by case_match].
  - step_cases; [by apply shaped_goto|]. by eapply shaped_lock; [..|by left|].
  - step_cases; [by apply shaped_goto|].
    eapply (shaped_lock own (close_streams _ (on_pool _ st)) t); try done; [|by right].
    apply shape_shrink; [done..|]. intros bp Hbp. unfold queue_of in Heql. rewrite Hbp in Heql. simpl in *.
    rewrite Heql. by apply sublist_cons.
  - step_cases; [|by apply shaped_goto]. apply (shaped_goto own (on_pool _ st)); try done. by apply shape_erase.
Qed.

Lemma pool_exec_shaped own l st st' :
  0 <= max_connections cfg → shaped own st → pool_exec shard nshards l st = Some st' → ∃ own', shaped own' st'.
Proof.
  intros Hmax Hsh Hex. destruct l; cbn [pool_exec] in Hex; unfold start_task in Hex.
  1-3: step_cases; exists own; by apply shaped_goto.
  - apply bind_Some in Hex as (pc & Ht & Hacc). destruct pc; cbn [pool_access] in Hacc; try done;
      eauto using acquire_access_shaped, release_access_shaped, discard_access_shaped, cleanup_access_shaped,
        clear_access_shaped.
  - step_cases. exists own. apply (shaped_goto own (open_stream st)); try done.
    by apply (sh_tasks _ _ _ _ Hsh _ _ Heqo).
  - step_cases; exists own; by apply shaped_goto.
  - step_cases; exists own; by apply shaped_goto.
  - step_cases; exists own; by apply shaped_goto.
  - step_cases; exists own; by apply shaped_goto.
  - step_cases; exists own; by apply shaped_goto.
  - apply bind_Some in Hex as (pc & Ht & Hacc). exists own.
    destruct pc; cbn [pool_cancel] in Hacc; try done; step_cases; by apply shaped_goto.
Qed.
End steps.

(** ** No stream is lost or in two places *)

Section conservation.
Context (shard : string → nat) (nshards : nat) (cfg : PoolConfig).

Definition same_places (st st' : pool_race) : Prop :=
  pr_opened st' = pr_opened st ∧ ∀ x, count (places st') x = count (places st) x.

(** A task moves on with what it has in its hands, less what is closed. *)
Lemma same_places_goto st t old pc l :
  pr_tasks st !! t = Some old → in_hand old = l ++ in_hand pc →
  same_places st (goto t pc (close_streams l st)).
Proof.
  intros Ht Hh. split; [done|]. intros x. pose proof (places_goto t pc (close_streams l st) x) as Hg.
  cbn [close_streams pr_tasks] in Hg. rewrite Ht, places_close in Hg. simpl in Hg. rewrite Hh, count_occ_app in Hg.
  lia.
Qed.

(** It puts [put] into the queue and takes [taken] out of it. *)
Lemma same_places_queue st t old pc h f bp l :
  pr_tasks st !! t = Some old → cp_heap (pr_pool st) !! h = Some bp →
  idle_streams bp ++ in_hand old ≡ₚ idle_streams (f bp) ++ l ++ in_hand pc →
  same_places st (goto t pc (close_streams l (on_pool (update_pool h f) st))).
Proof.
  intros Ht Hbp Hp. split; [done|]. intros x.
  pose proof (places_goto t pc (close_streams l (on_pool (update_pool h f) st)) x) as Hg.
  cbn [close_streams on_pool pr_tasks] in Hg. rewrite Ht, places_close in Hg.
  pose proof (places_update h f st bp x Hbp) as Hu. apply (Permutation_count_occ Nat.eq_dec) with (x := x) in Hp.
  rewrite !count_occ_app in Hp. simpl in Hg. lia.
Qed.

Lemma made_for_bp own p h id : made_for own p h id → ∃ bp, cp_heap p !! h = Some bp.
Proof. intros [[bp ?] _]. eauto. Qed.

(** A count of a pool moves nothing. *)
Lemma same_places_count own st t old pc h k id l :
  pr_tasks st !! t = Some old → made_for own (pr_pool st) h id → in_hand old = l ++ in_hand pc →
  same_places st (goto t pc (close_streams l (on_pool (update_pool h (in_use_add k)) st))).
Proof.
  intros Ht [bp Hbp]%made_for_bp Hh. eapply same_places_queue; [done..|]. by rewrite Hh.
Qed.

Lemma close_nil st : close_streams [] st = st.
Proof. unfold close_streams. rewrite app_nil_r. by destruct st. Qed.

Lemma same_places_move st t old pc :
  pr_tasks st !! t = Some old → in_hand old = in_hand pc → same_places st (goto t pc st).
Proof. intros Ht Hh. rewrite <-(close_nil st) at 2. by eapply same_places_goto. Qed.

Lemma same_places_start st t pc :
  pr_tasks st !! t = None → in_hand pc = [] → same_places st (goto t pc st).
Proof.
  intros Ht Hh. split; [done|]. intros x. pose proof (places_goto t pc st x) as Hg. rewrite Ht, Hh in Hg.
  simpl in Hg. lia.
Qed.

Lemma same_places_use own st t old pc h k id :
  pr_tasks st !! t = Some old → made_for own (pr_pool st) h id → in_hand old = in_hand pc →
  same_places st (goto t pc (on_pool (update_pool h (in_use_add k)) st)).
Proof. intros. rewrite <-(close_nil (on_pool _ st)). by eapply same_places_count. Qed.

Lemma pool_access_places own t now st pc st' :
  shaped cfg own st → pr_tasks st !! t = Some pc → pool_access shard nshards t now st pc = Some st' →
  same_places st st'.
Proof.
  intros Hsh Ht Hacc. pose proof (sh_tasks _ _ _ _ Hsh t pc Ht) as Hok.
  destruct pc; cbn [pool_access acquire_access release_access discard_access cleanup_access clear_access] in Hacc;
    try done; simpl in Hok.
  - destruct (get_or_create_pool (pr_pool st) id addr) as [p h] eqn:Hget. step_cases. split; [done|]. intros x.
    rewrite <-(places_get_or_create st id addr p h (sh_wf _ _ _ _ Hsh) Hget x).
    pose proof (places_goto t (QQueue h id) (on_pool (fun _ => p) st) x) as Hg.
    cbn [on_pool pr_tasks] in Hg. rewrite Ht in Hg. simpl in Hg. lia.
  - step_cases. by eapply same_places_move.
  - step_cases; [by eapply same_places_move|..]; apply queue_cons in Heql as (bp & Hbp & Hl).
    + apply (same_places_queue st t (QPop h id) (QPop h id) h _ bp [_]); [done..|].
      unfold idle_streams; simpl. rewrite Hl. simpl. by rewrite app_nil_r, Permutation_cons_append.
    + rewrite <-(close_nil (on_pool _ st)). eapply same_places_queue; [done..|].
      unfold idle_streams; simpl. rewrite Hl. simpl. by rewrite app_nil_r, Permutation_cons_append.
  - step_cases. by eapply same_places_use.
  - step_cases. eapply same_places_move; [done|]. by case_match.
  - step_cases. by eapply same_places_use.
  - step_cases; [by eapply same_places_move|by eapply same_places_goto].
  - step_cases; [by eapply same_places_count|by eapply same_places_use].
  - step_cases. by eapply same_places_move.
  - step_cases; [by eapply same_places_move|by eapply same_places_goto].
  - step_cases. apply made_for_bp in Hok as [bp Hbp]. rewrite <-(close_nil (on_pool _ st)).
    eapply same_places_queue; [done..|]. unfold idle_streams; simpl. by rewrite fmap_app, app_nil_r.
  - step_cases; [by eapply same_places_move|by eapply same_places_goto].
  - step_cases. by eapply same_places_count.
  - step_cases; by eapply same_places_move.
  - step_cases. destruct (cp_heap (pr_pool st) !! h) as [bp|] eqn:Hbp.
    + eapply same_places_queue; [done..|]. unfold idle_streams, queue_of; simpl. rewrite Hbp. simpl.
      rewrite !app_nil_r. clear. induction (bp_connections bp) as [|c l IH]; simpl; [done|].
      destruct (conn_kept _ _ c); simpl; [by rewrite IH|]. by rewrite IH, Permutation_middle.
    + unfold queue_of. rewrite Hbp. simpl. rewrite close_nil. split; [done|]. intros x.
      pose proof (places_goto t (QSweep hs) (on_pool (update_pool h (fun bp => with_connections
        (List.filter (conn_kept (cp_config (pr_pool st)) now) (bp_connections bp)) bp)) st) x) as Hg.
      cbn [on_pool pr_tasks] in Hg. rewrite Ht in Hg. simpl in Hg.
      assert (alter (fun bp => with_connections (List.filter (conn_kept (cp_config (pr_pool st)) now)
        (bp_connections bp)) bp) h (cp_heap (pr_pool st)) = cp_heap (pr_pool st)) as Halt.
      { apply map_eq. intros i. rewrite lookup_alter. case_decide; subst; by rewrite ?Hbp. }
      unfold places in *. cbn in Hg |- *. rewrite Halt in *. lia.
  - step_cases. eapply same_places_move; [done|]. by case_match.
  - step_cases; by eapply same_places_move.
  - step_cases; [by eapply same_places_move|]. apply queue_cons in Heql as (bp & Hbp & Hl).
    eapply (same_places_queue st t _ _ h _ bp [_]); [done..|].
    unfold idle_streams; simpl. rewrite Hl. simpl. by rewrite app_nil_r, Permutation_cons_append.
  - step_cases; [|by eapply same_places_move]. split; [done|]. intros x.
    pose proof (places_goto t (QErase (S n)) (on_pool (erase_shard shard n) st) x) as Hg.
    cbn [on_pool pr_tasks] in Hg. rewrite Ht in Hg. simpl in Hg. unfold places in *. cbn in Hg |- *. lia.
Qed.

(** The streams opened are those that are somewhere, and each is in one place. *)
Definition conserved (st : pool_race) : Prop := places st ≡ₚ seq 0 (pr_opened st).

Lemma same_places_conserved st st' : same_places st st' → conserved st → conserved st'.
Proof.
  intros [Ho Hp] Hc. unfold conserved in *. rewrite Ho, <-Hc. by apply (Permutation_count_occ Nat.eq_dec).
Qed.

Lemma conserved_open st t old pc :
  pr_tasks st !! t = Some old → in_hand old = [] → in_hand pc = [pr_opened st] →
  conserved st → conserved (goto t pc (open_stream st)).
Proof.
  unfold conserved. intros Ht Hold Hpc Hc. cbn [goto open_stream pr_opened]. rewrite seq_S, <-Hc.
  apply (Permutation_count_occ Nat.eq_dec). intros x. rewrite count_occ_app.
  pose proof (places_goto t pc (open_stream st) x) as Hg. cbn [open_stream pr_tasks] in Hg. rewrite Ht in Hg.
  rewrite places_open in Hg. simpl from_option in Hg. rewrite Hold, Hpc in Hg. simpl in Hg |- *. lia.
Qed.

Lemma pool_exec_conserved own l st st' :
  shaped cfg own st → pool_exec shard nshards l st = Some st' → conserved st → conserved st'.
Proof.
  intros Hsh Hex. destruct l; cbn [pool_exec] in Hex; unfold start_task in Hex.
  1-3: step_cases; by eapply same_places_conserved, same_places_start.
  - apply bind_Some in Hex as (pc & Ht & Hacc). by eapply same_places_conserved, pool_access_places.
  - step_cases. by eapply conserved_open.
  - step_cases; by eapply same_places_conserved, same_places_move.
  - step_cases; by eapply same_places_conserved, same_places_move.
  - step_cases; by eapply same_places_conserved, same_places_move.
  - step_cases; by eapply same_places_conserved, same_places_move.
  - step_cases; by eapply same_places_conserved, same_places_goto.
  - apply bind_Some in Hex as (pc & Ht & Hacc).
    destruct pc; cbn [pool_cancel] in Hacc; try done; step_cases;
      (by eapply same_places_conserved, same_places_move) || (by eapply same_places_conserved, same_places_goto).
Qed.
End conservation.

(** ** Accounting *)

(** The backend whose counter has this task's connection: from its count to its
    uncount, and for ever when the holder drops it. *)
Definition counts (id : string) (pc : pool_pc) : bool :=
  match pc with
  | QHolds c | QReturn c | QUncount _ c | QDiscard c | QDiscount _ c | QLost c => bool_decide (pc_backend_id c = id)
  | _ => false
  end.

Definition counted (id : string) (tasks : gmap nat pool_pc) : Z :=
  Z.of_nat (size (filter (fun kv => counts id (snd kv) = true) tasks)).

Definition unit_of (b : bool) : Z := if b then 1 else 0.

Lemma counted_update id t pc tasks :
  counted id (<[t := pc]> tasks) =
    counted id tasks + unit_of (counts id pc) - from_option (fun old => unit_of (counts id old)) 0 (tasks !! t).
Proof.
  unfold counted. rewrite (size_filter_insert (fun kv => counts id (snd kv) = true)). simpl.
  destruct (tasks !! t) as [old|]; simpl; [destruct (counts id old)|]; destruct (counts id pc); simpl;
    repeat case_decide; done.
Qed.

Lemma counted_none id tasks :
  (∀ t pc, tasks !! t = Some pc → counts id pc = false) → counted id tasks = 0.
Proof.
  intros Hn. unfold counted. rewrite map_empty_filter_2; [by rewrite map_size_empty|].
  intros t pc Ht. simpl. by rewrite (Hn t pc Ht).
Qed.

Section accounting.
Context (shard : string → nat) (nshards : nat) (cfg : PoolConfig).

Record accounted (st : pool_race) : Prop := {
  ac_map : ∀ h, is_Some (cp_heap (pr_pool st) !! h) → ∃ id, cp_pools (pr_pool st) !! id = Some h;
  ac_count : ∀ id h bp, cp_pools (pr_pool st) !! id = Some h → cp_heap (pr_pool st) !! h = Some bp →
    bp_in_use bp = wrap 64 (counted id (pr_tasks st));
  ac_known : ∀ t pc id, pr_tasks st !! t = Some pc → counts id pc = true → is_Some (cp_pools (pr_pool st) !! id)
}.

(** A task moves on, counted as before. *)
Lemma accounted_goto st t pc :
  accounted st → (∀ id, counts id pc = from_option (counts id) false (pr_tasks st !! t)) →
  accounted (goto t pc st).
Proof.
  intros [Hm Hc Hk] Heq. split; simpl; [done| |].
  - intros id h bp Hid Hbp. rewrite (Hc id h bp Hid Hbp), counted_update, Heq.
    destruct (pr_tasks st !! t); simpl; f_equal; lia.
  - intros t' pc' id. rewrite lookup_insert. case_decide; [|apply Hk].
    intros [= <-]. rewrite Heq. destruct (pr_tasks st !! t) as [old|] eqn:Ht; simpl; [|done]. by apply (Hk t).
Qed.

(** The queue of a pool changes. *)
Lemma accounted_queue st h f :
  accounted st → (∀ bp, bp_in_use (f bp) = bp_in_use bp) → accounted (on_pool (update_pool h f) st).
Proof.
  intros [Hm Hc Hk] Hf. split; simpl; [| |done].
  - intros k Hk'. apply Hm. rewrite lookup_alter in Hk'. case_decide; subst; [by eapply fmap_is_Some|done].
  - intros id k bp Hid. rewrite lookup_alter. case_decide; subst; [|by apply Hc].
    intros (bp0 & Hbp & ->)%fmap_Some. rewrite Hf. by apply (Hc id k bp0).
Qed.

(** A task is counted in or out, together with the pool of its backend. *)
Lemma accounted_use st t old pc h id k :
  pools_wf (pr_pool st) → accounted st → pr_tasks st !! t = Some old → cp_pools (pr_pool st) !! id = Some h →
  (∀ id', unit_of (counts id' pc) - unit_of (counts id' old) = if decide (id' = id) then k else 0) →
  accounted (goto t pc (on_pool (update_pool h (in_use_add k)) st)).
Proof.
  intros Hwf [Hm Hc Hk] Ht Hid Hd. split; simpl.
  - intros h' Hk'. apply Hm. rewrite lookup_alter in Hk'. case_decide; subst; [by eapply fmap_is_Some|done].
  - intros id' h' bp Hid'. rewrite lookup_alter, counted_update, Ht. simpl. specialize (Hd id').
    destruct (decide (h = h')) as [<-|Hne].
    + assert (id' = id) as -> by by eapply (wf_inj _ Hwf).
      rewrite decide_True in Hd by done. intros (bp0 & Hbp & ->)%fmap_Some. simpl.
      rewrite (Hc id h bp0 Hid' Hbp), wrap_add_l by lia. f_equal. lia.
    + rewrite decide_False in Hd by congruence. intros Hbp. rewrite (Hc id' h' bp Hid' Hbp). f_equal. lia.
  - intros t' pc' id'. rewrite lookup_insert. case_decide; [|apply Hk]. intros [= <-] Hpc'.
    specialize (Hd id'). rewrite Hpc' in Hd. simpl in Hd. case_decide; [subst; eauto|].
    apply (Hk t old id' Ht). destruct (counts id' old); [done|simpl in Hd; lia].
Qed.

Lemma accounted_close st l : accounted (close_streams l st) ↔ accounted st.
Proof. split; intros [? ? ?]; by split. Qed.

Lemma accounted_enter st id addr p h :
  pools_wf (pr_pool st) → accounted st → get_or_create_pool (pr_pool st) id addr = (p, h) →
  accounted (on_pool (fun _ => p) st).
Proof.
  intros Hwf [Hm Hc Hk]. unfold get_or_create_pool.
  destruct (cp_pools (pr_pool st) !! id) as [h'|] eqn:Hid; intros [= <- <-]; [by split|].
  assert (∀ k, is_Some (cp_heap (pr_pool st) !! k) → k ≠ cp_fresh (pr_pool st)) as Hne.
  { intros k Hs ->. apply (wf_fresh _ Hwf) in Hs. lia. }
  split; simpl.
  - intros k. rewrite lookup_insert. case_decide as Heq; [exists id; by rewrite <-Heq, lookup_insert_eq|].
    intros [id' Hid']%Hm. exists id'. rewrite lookup_insert_ne; [done|]. intros <-. congruence.
  - intros id' k bp. rewrite !lookup_insert. case_decide as Hi; subst.
    + intros [= <-]. rewrite decide_True by done. intros [= <-]. simpl.
      rewrite counted_none; [done|]. intros t pc Ht. destruct (counts id' pc) eqn:Hcn; [|done].
      destruct (Hk t pc id' Ht Hcn). congruence.
    + intros Hk'. rewrite decide_False; [by apply Hc|]. intros <-. by eapply Hne; [eapply wf_handles|].
  - intros t pc id' Ht Hcn. rewrite lookup_insert. case_decide; eauto.
Qed.

(** The pool of a task, when no pool has been taken out of the map. *)
Lemma made_for_map own st h id :
  shaped cfg own st → accounted st → made_for own (pr_pool st) h id → cp_pools (pr_pool st) !! id = Some h.
Proof.
  intros Hsh Hac [Hs Ho]. destruct (ac_map st Hac h Hs) as [id' Hid'].
  pose proof (sh_own _ _ _ _ Hsh id' h Hid'). congruence.
Qed.

Definition clears (pc : pool_pc) : bool :=
  match pc with QShard _ | QDrain _ _ | QDrained _ _ _ | QErase _ => true | _ => false end.

Lemma unit_of_eq c id' : unit_of (bool_decide (pc_backend_id c = id')) = if decide (id' = pc_backend_id c)
  then 1 else 0.
Proof. case_decide; [by rewrite bool_decide_eq_true_2|by rewrite bool_decide_eq_false_2 by congruence]. Qed.

Ltac same_count Ht := apply accounted_goto; [|intros; cbn [pr_tasks close_streams on_pool]; rewrite ?Ht; simpl; done].
Ltac new_count := intros; simpl; rewrite ?unit_of_eq; case_decide; simpl; lia.

Lemma pool_access_accounted own t now st pc st' :
  shaped cfg own st → accounted st → pr_tasks st !! t = Some pc → clears pc = false →
  pool_access shard nshards t now st pc = Some st' → accounted st'.
Proof.
  intros Hsh Hac Ht Hcl Hacc. pose proof (sh_tasks _ _ _ _ Hsh t pc Ht) as Hok.
  pose proof (sh_wf _ _ _ _ Hsh) as Hwf.
  destruct pc; cbn [pool_access acquire_access release_access discard_access cleanup_access] in Hacc;
    try done; simpl in Hok.
  - destruct (get_or_create_pool (pr_pool st) id addr) as [p h] eqn:Hget. step_cases. same_count Ht.
    by eapply accounted_enter.
  - step_cases. by same_count Ht.
  - step_cases; same_count Ht; rewrite ?accounted_close; [done|by apply accounted_queue..].
  - step_cases. eapply accounted_use; [done..|by eapply made_for_map|new_count].
  - step_cases. apply accounted_goto; [done|]. intros. rewrite Ht. by case_match.
  - step_cases. eapply accounted_use; [done..|by eapply made_for_map|new_count].
  - step_cases; [by same_count Ht|]. exfalso.
    destruct (ac_known st Hac t _ (pc_backend_id c) Ht); [by apply bool_decide_eq_true_2|congruence].
  - step_cases; [apply (accounted_close (goto t (QDone None) (on_pool _ st)) [_])|];
      (eapply accounted_use; [done..|by eapply made_for_map|new_count]).
  - step_cases. by same_count Ht.
  - step_cases; same_count Ht; by rewrite ?accounted_close.
  - step_cases. same_count Ht. by apply accounted_queue.
  - step_cases; [by same_count Ht|]. exfalso.
    destruct (ac_known st Hac t _ (pc_backend_id c) Ht); [by apply bool_decide_eq_true_2|congruence].
  - step_cases. apply (accounted_close (goto t (QDone None) (on_pool _ st)) [_]).
    eapply accounted_use; [done..|by eapply made_for_map|new_count].
  - step_cases; by same_count Ht.
  - step_cases. same_count Ht. rewrite accounted_close. by apply accounted_queue.
Qed.
End accounting.

(** ** Reachable states *)

Section reachable.
Context (shard : string → nat) (nshards : nat) (cfg : PoolConfig).

(** No clear is under way. *)
Definition none_clears (st : pool_race) : Prop := ∀ t pc, pr_tasks st !! t = Some pc → clears pc = false.

Lemma pool_exec_accounted own l st st' :
  shaped cfg own st → accounted st → none_clears st → (∀ t, l ≠ LClear t) →
  pool_exec shard nshards l st = Some st' → accounted st' ∧ none_clears st'.
Proof.
  intros Hsh Hac Hnc Hl Hex.
  assert (∀ st1 t pc, none_clears st1 → clears pc = false → none_clears (goto t pc st1)) as Hgoto.
  { intros st1 t pc Hn Hp t' pc'. simpl. rewrite lookup_insert. case_decide; [by intros [= <-]|apply Hn]. }
  destruct l; cbn [pool_exec] in Hex; unfold start_task in Hex; [| |by destruct (Hl t)|..].
  1-2: step_cases; (split; [apply accounted_goto; [done|by rewrite Heqo]|by apply Hgoto]).
  - apply bind_Some in Hex as (pc & Ht & Hacc). pose proof (Hnc t pc Ht) as Hcl.
    split; [by eapply pool_access_accounted|].
    destruct pc; try done; cbn [pool_access acquire_access release_access discard_access cleanup_access] in Hacc;
      step_cases; apply Hgoto; try done; by case_match.
  - step_cases. split; [|by apply (Hgoto (open_stream st))].
    apply (accounted_goto (open_stream st)); [by destruct Hac|]. simpl. by rewrite Heqo.
  - step_cases; (split; [apply accounted_goto; [done|by rewrite Heqo]|by apply Hgoto]).
  - step_cases; (split; [apply accounted_goto; [done|by rewrite Heqo]|by apply Hgoto]).
  - step_cases; (split; [apply accounted_goto; [done|by rewrite Heqo]|by apply Hgoto]).
  - step_cases; (split; [apply accounted_goto; [done|by rewrite Heqo]|by apply Hgoto]).
  - step_cases; (split; [|by apply (Hgoto (close_streams _ st))]).
    apply (accounted_goto (close_streams _ st)); [by apply accounted_close|]. simpl. by rewrite Heqo.
  - apply bind_Some in Hex as (pc & Ht & Hacc).
    destruct pc; cbn [pool_cancel] in Hacc; try done; step_cases;
      (split; [|by apply Hgoto]); (apply accounted_goto; [by rewrite ?accounted_close|by simpl; rewrite Ht]).
Qed.

Lemma pool_race_new_shaped : shaped cfg (fun _ => EmptyString) (pool_race_new cfg).
Proof.
  split; simpl; try done; [apply connection_pool_new_wf|..]; intros *; by rewrite ?lookup_empty.
Qed.

Lemma pool_race_new_accounted : accounted (pool_race_new cfg) ∧ none_clears (pool_race_new cfg).
Proof.
  split; [split|]; simpl; intros *; rewrite ?lookup_empty; try done; by intros [? ?].
Qed.

Lemma reachable_shaped ok st :
  0 <= max_connections cfg →
  rtc (pool_race_step shard nshards ok) (pool_race_new cfg) st → ∃ own, shaped cfg own st ∧ conserved st.
Proof.
  intros Hmax Hrtc. eapply (rtc_invariant _ (fun st => ∃ own, shaped cfg own st ∧ conserved st)); [|exact Hrtc|].
  - intros a b (own & Ha & Hc) (l & _ & Hex).
    destruct (pool_exec_shaped shard nshards cfg own l a b Hmax Ha Hex) as [own' Hb]. eauto using pool_exec_conserved.
  - exists (fun _ => EmptyString). split; [apply pool_race_new_shaped|].
    unfold conserved, places, map_concat, pool_race_new; simpl. by rewrite !map_to_list_empty.
Qed.

Lemma reachable_accounted (ok : pool_label → Prop) st :
  0 <= max_connections cfg → (∀ t, ¬ ok (LClear t)) →
  rtc (pool_race_step shard nshards ok) (pool_race_new cfg) st → accounted st.
Proof.
  intros Hmax Hok Hrtc.
  eapply (rtc_invariant _ (fun st => (∃ own, shaped cfg own st) ∧ accounted st ∧ none_clears st))
    in Hrtc as (_ & ? & _);
    [done| |split; [exists (fun _ => EmptyString); apply pool_race_new_shaped|apply pool_race_new_accounted]].
  intros a b ((own & Ha) & Hac & Hnc) (l & Hl & Hex). split; [by eapply pool_exec_shaped|].
  eapply pool_exec_accounted; try done. intros t ->. by apply (Hok t).
Qed.
End reachable.

(** ** Calls come to an end *)

(** Nothing is left for the task to do by itself: it waits for the network, or its
    call is over. *)
Definition at_rest (pc : pool_pc) : bool :=
  match pc with QConnect _ _ | QHolds _ | QDone _ | QLost _ => true | _ => false end.

Section ending.
Context (shard : string → nat) (nshards : nat).

#[local] Abbreviation access := (pool_access shard nshards).

(** Who holds the lock of a queue can go on. *)
Lemma holder_goes_on t now st pc h : locked_queue pc = Some h → is_Some (access t now st pc).
Proof. destruct pc; try done; intros _; cbn; repeat case_match; eauto. Qed.

Lemma free_or_held h tasks : queue_free h tasks = true ∨ ∃ t pc, tasks !! t = Some pc ∧ locked_queue pc = Some h.
Proof.
  unfold queue_free. case_bool_decide as Hf; [by left|right].
  apply (map_not_Forall _) in Hf as (t & pc & Ht & Hl). exists t, pc. split; [done|].
  destruct (decide (locked_queue pc = Some h)); tauto.
Qed.

Definition can_step (st : pool_race) : Prop := ∃ t, ∀ now, is_Some (pool_exec shard nshards (LStep t now) st).

Lemma can_step_intro st t pc : pr_tasks st !! t = Some pc → (∀ now, is_Some (access t now st pc)) → can_step st.
Proof. intros Ht Hs. exists t. intros now. simpl. rewrite Ht. apply Hs. Qed.

(** Who waits for a queue, or whoever has it, can go on. *)
Lemma queue_waiter st t pc h :
  pr_tasks st !! t = Some pc → (queue_free h (pr_tasks st) = true → ∀ now, is_Some (access t now st pc))
    → can_step st.
Proof.
  intros Ht Hw. destruct (free_or_held h (pr_tasks st)) as [Hf|(t' & pc' & Ht' & Hl)].
  - by eapply can_step_intro; [|apply Hw].
  - eapply can_step_intro; [exact Ht'|]. intros now. by eapply holder_goes_on.
Qed.

(** Who reads the map can go on, or waits for a queue. *)
Lemma reader_goes_on st t pc n : pr_tasks st !! t = Some pc → read_shard shard pc = Some n → can_step st.
Proof.
  intros Ht Hr. destruct pc; try done.
  - eapply can_step_intro; [exact Ht|]. intros. cbn. case_match; eauto.
  - eapply (queue_waiter _ _ _ h); [exact Ht|]. intros Hf now. cbn. rewrite Hf. eauto.
  - eapply can_step_intro; [exact Ht|]. intros. by eapply holder_goes_on.
  - eapply can_step_intro; [exact Ht|]. intros. by eapply holder_goes_on.
  - eapply can_step_intro; [exact Ht|]. intros. cbn. eauto.
  - destruct hs as [|h hs]; [eapply can_step_intro; [exact Ht|]; intros; cbn; eauto|].
    eapply (queue_waiter _ _ _ h); [exact Ht|]. intros Hf now. cbn. rewrite Hf. eauto.
  - eapply can_step_intro; [exact Ht|]. intros. by eapply holder_goes_on.
Qed.

Lemma shard_waiter st t pc n :
  pr_tasks st !! t = Some pc → (shard_free shard n (pr_tasks st) = true → ∀ now, is_Some (access t now st pc))
    → can_step st.
Proof.
  intros Ht Hw. destruct (shard_free shard n (pr_tasks st)) eqn:Hf; [by eapply can_step_intro; [|apply Hw]|].
  unfold shard_free in Hf. apply bool_decide_eq_false in Hf.
  apply (map_not_Forall _) in Hf as (t' & pc' & Ht' & Hl). eapply (reader_goes_on st t' pc' n); [done|].
  destruct (decide (read_shard shard pc' = Some n)); tauto.
Qed.

(** There is no deadlock: while a task is not at rest, some task can go on. *)
Lemma no_deadlock st t pc : pr_tasks st !! t = Some pc → at_rest pc = false → can_step st.
Proof.
  intros Ht Hr. destruct pc; try done;
    try (eapply can_step_intro; [exact Ht|]; intros; cbn; repeat case_match; eauto; done).
  - eapply (shard_waiter _ _ _ (shard id)); [exact Ht|]. intros Hf now. cbn. rewrite Hf. case_match; eauto.
  - eapply (queue_waiter _ _ _ h); [exact Ht|]. intros Hf now. cbn. rewrite Hf. eauto.
  - eapply (queue_waiter _ _ _ h); [exact Ht|]. intros Hf now. cbn. rewrite Hf. eauto.
  - destruct hs as [|h hs]; [eapply can_step_intro; [exact Ht|]; intros; cbn; eauto|].
    eapply (queue_waiter _ _ _ h); [exact Ht|]. intros Hf now. cbn. rewrite Hf. eauto.
  - by eapply reader_goes_on.
  - destruct (n <? nshards)%nat eqn:Hn.
    + eapply (shard_waiter _ _ _ n); [exact Ht|]. intros Hf now. cbn [pool_access clear_access]. rewrite Hn, Hf.
      eauto.
    + eapply can_step_intro; [exact Ht|]. intros now. cbn [pool_access clear_access]. rewrite Hn. eauto.
Qed.

(** *** How long it takes

    [b] bounds the number of pools. *)
Definition pc_rank (b : nat) (pc : pool_pc) : nat :=
  let clearing n := ((nshards - n) * (2 * b + 2) + nshards + 2)%nat in
  match pc with
  | QEnter _ _ => 4 | QQueue _ _ => 3 | QPop _ _ => 2 | QAdmit _ _ => 1 | QReuse _ _ => 1 | QCount _ _ => 1
  | QReturn _ => 6 | QUncount _ _ => 5 | QBack _ _ => 4 | QRoom _ _ => 3 | QPush _ _ => 2
  | QDiscard _ => 2 | QDiscount _ _ => 1
  | QSweep hs => 2 * length hs + 1
  | QRetain _ hs => 2 * length hs + 2
  | QShard n => clearing n
  | QDrain n hs => 2 * length hs + 1 + clearing (S n)
  | QDrained n _ hs => 2 * length hs + 2 + clearing (S n)
  | QErase n => (nshards - n) + 1
  | QConnect _ _ | QHolds _ | QDone _ | QLost _ => 0
  end.

(** Pools, and those that may still be made. *)
Definition pools_bound (st : pool_race) : nat :=
  size (cp_pools (pr_pool st)) + map_sum (fun pc => match pc with QEnter _ _ => 1 | _ => 0 end)%nat (pr_tasks st).

Definition idle_count (p : ConnectionPool) : nat := map_sum (fun bp => length (bp_connections bp)) (cp_heap p).

Definition work (st : pool_race) : nat :=
  idle_count (pr_pool st) + map_sum (pc_rank (pools_bound st)) (pr_tasks st).

Lemma pc_rank_mono b b' pc : (b' <= b)%nat → (pc_rank b' pc <= pc_rank b pc)%nat.
Proof.
  intros Hb. assert (∀ k, (k * (2 * b' + 2) <= k * (2 * b + 2))%nat) as Hk by (intros; apply Nat.mul_le_mono_l; lia).
  destruct pc; cbn [pc_rank]; try lia.
  - specialize (Hk (nshards - n)%nat). lia.
  - specialize (Hk (nshards - S n)%nat). lia.
  - specialize (Hk (nshards - S n)%nat). lia.
Qed.

Lemma work_decreases st t pc st1 pc' :
  pr_tasks st !! t = Some pc → pr_tasks st1 = pr_tasks st →
  (pools_bound (goto t pc' st1) <= pools_bound st)%nat →
  (idle_count (pr_pool st1) + pc_rank (pools_bound st) pc' < idle_count (pr_pool st) + pc_rank (pools_bound st)
    pc)%nat →
  (work (goto t pc' st1) < work st)%nat.
Proof.
  intros Ht Htasks Hb Hr. unfold work. cbn [goto pr_pool pr_tasks]. rewrite Htasks.
  pose proof (map_sum_insert (pc_rank (pools_bound st)) (pr_tasks st) t pc') as Hi. rewrite Ht in Hi. simpl in Hi.
  pose proof (map_sum_mono (pc_rank (pools_bound (goto t pc' st1))) (pc_rank (pools_bound st))
    (<[t := pc']> (pr_tasks st)) (fun pc => pc_rank_mono _ _ pc Hb)). lia.
Qed.

(** The bound does not grow: a pool is made by a task that could have. *)
Lemma bound_goto st t pc st1 pc' k :
  pr_tasks st !! t = Some pc → pr_tasks st1 = pr_tasks st →
  (size (cp_pools (pr_pool st1)) <= size (cp_pools (pr_pool st)) + k)%nat →
  (match pc' with QEnter _ _ => False | _ => True end) →
  (k <= match pc with QEnter _ _ => 1 | _ => 0 end)%nat →
  (pools_bound (goto t pc' st1) <= pools_bound st)%nat.
Proof.
  intros Ht Htasks Hs Hpc Hk. unfold pools_bound. cbn [goto pr_pool pr_tasks]. rewrite Htasks.
  pose proof (map_sum_insert (fun pc => match pc with QEnter _ _ => 1 | _ => 0 end)%nat (pr_tasks st) t pc') as Hi.
  rewrite Ht in Hi. simpl in Hi. destruct pc'; try done; simpl in Hi; lia.
Qed.

(** A step that leaves the map of pools alone. *)
Lemma work_step st t pc st1 pc' :
  pr_tasks st !! t = Some pc → pr_tasks st1 = pr_tasks st → cp_pools (pr_pool st1) = cp_pools (pr_pool st) →
  (match pc' with QEnter _ _ => False | _ => True end) →
  (idle_count (pr_pool st1) + pc_rank (pools_bound st) pc' < idle_count (pr_pool st) + pc_rank (pools_bound st)
    pc)%nat →
  (work (goto t pc' st1) < work st)%nat.
Proof.
  intros Ht Htasks Hp Hpc Hr. eapply work_decreases; [done..| |done].
  eapply (bound_goto _ _ _ _ _ 0); [done..|by rewrite Hp; lia|done|lia].
Qed.

Lemma idle_update h f p k :
  (∀ bp, cp_heap p !! h = Some bp → length (bp_connections (f bp)) <= length (bp_connections bp) + k)%nat →
  (idle_count (update_pool h f p) <= idle_count p + k)%nat.
Proof.
  intros Hf. unfold idle_count. cbn [update_pool cp_heap]. destruct (cp_heap p !! h) as [bp|] eqn:Hbp.
  - assert (alter f h (cp_heap p) = <[h := f bp]> (cp_heap p)) as ->.
    { apply map_eq. intros i. rewrite lookup_alter, lookup_insert. case_decide; subst; [by rewrite Hbp|done]. }
    pose proof (map_sum_insert (fun bp => length (bp_connections bp)) (cp_heap p) h (f bp)) as Hi.
    rewrite Hbp in Hi. simpl in Hi. specialize (Hf bp eq_refl). lia.
  - assert (alter f h (cp_heap p) = cp_heap p) as ->; [|lia].
    apply map_eq. intros i. rewrite lookup_alter. case_decide; subst; by rewrite ?Hbp.
Qed.

Lemma idle_pop h c rest p :
  queue_of p h = c :: rest → S (idle_count (update_pool h (with_connections rest) p)) = idle_count p.
Proof.
  intros (bp & Hbp & Hl)%queue_cons. unfold idle_count. cbn [update_pool cp_heap].
  assert (alter (with_connections rest) h (cp_heap p) = <[h := with_connections rest bp]> (cp_heap p)) as ->.
  { apply map_eq. intros i. rewrite lookup_alter, lookup_insert. case_decide; subst; [by rewrite Hbp|done]. }
  pose proof (map_sum_insert (fun bp => length (bp_connections bp)) (cp_heap p) h (with_connections rest bp)) as Hi.
  rewrite Hbp in Hi. simpl in Hi. rewrite Hl in Hi. simpl in Hi. lia.
Qed.

Lemma idle_enter p id addr p' h :
  get_or_create_pool p id addr = (p', h) →
  (idle_count p' <= idle_count p)%nat ∧ (size (cp_pools p') <= size (cp_pools p) + 1)%nat.
Proof.
  unfold get_or_create_pool. destruct (cp_pools p !! id) eqn:Hid; intros [= <- <-]; [lia|]. split; simpl.
  - unfold idle_count. simpl.
    pose proof (map_sum_insert (fun bp => length (bp_connections bp)) (cp_heap p) (cp_fresh p)
      (backend_pool_new addr)) as Hi.
    simpl in Hi. lia.
  - rewrite map_size_insert_None by done. lia.
Qed.

Lemma shard_pools_length st n : (length (shard_pools shard (pr_pool st) n) <= pools_bound st)%nat.
Proof.
  unfold shard_pools, pools_bound. rewrite length_fmap. etrans; [apply length_filter|]. rewrite length_map_to_list.
  lia.
Qed.

Ltac rank_step Ht := eapply work_step; [exact Ht|done|done|exact I || by repeat case_match|]; cbn [pc_rank].

Lemma access_works t now st pc st' :
  pr_tasks st !! t = Some pc → access t now st pc = Some st' → (work st' < work st)%nat.
Proof.
  intros Ht Hacc. pose proof (fun h k => idle_update h (in_use_add k) (pr_pool st) 0 ltac:(simpl; intros; lia))
    as Huse.
  destruct pc; cbn [pool_access acquire_access release_access discard_access cleanup_access clear_access] in Hacc;
    try done.
  - destruct (get_or_create_pool (pr_pool st) id addr) as [p h] eqn:Hget. step_cases.
    destruct (idle_enter _ _ _ _ _ Hget) as [Hi Hs].
    eapply work_decreases; [done..| |cbn [pc_rank on_pool pr_pool]; lia].
    by eapply (bound_goto _ _ _ _ _ 1).
  - step_cases. rank_step Ht. lia.
  - step_cases; rank_step Ht; cbn [close_streams on_pool pr_pool]; [lia|..];
      apply idle_pop in Heql; lia.
  - step_cases. rank_step Ht. cbn [on_pool pr_pool]. specialize (Huse h 1). lia.
  - step_cases. rank_step Ht. destruct (acquire_admit _ _); cbn [pc_rank]; lia.
  - step_cases. rank_step Ht. cbn [on_pool pr_pool]. specialize (Huse h 1). lia.
  - step_cases; rank_step Ht; cbn [close_streams pr_pool]; lia.
  - step_cases; rank_step Ht; cbn [close_streams on_pool pr_pool]; specialize (Huse h (-1)); lia.
  - step_cases. rank_step Ht. lia.
  - step_cases; rank_step Ht; cbn [close_streams pr_pool]; lia.
  - step_cases. rank_step Ht. cbn [on_pool pr_pool].
    pose proof (idle_update h (fun bp => with_connections (bp_connections bp ++ [c]) bp) (pr_pool st) 1) as Hi.
    simpl in Hi. setoid_rewrite length_app in Hi. simpl in Hi. specialize (Hi ltac:(intros; lia)). lia.
  - step_cases; rank_step Ht; cbn [close_streams pr_pool]; lia.
  - step_cases. rank_step Ht. cbn [close_streams on_pool pr_pool]. specialize (Huse h (-1)). lia.
  - step_cases; rank_step Ht; simpl; lia.
  - step_cases. rank_step Ht. cbn [close_streams on_pool pr_pool].
    pose proof (idle_update h (fun bp => with_connections
      (List.filter (conn_kept (cp_config (pr_pool st)) now) (bp_connections bp)) bp) (pr_pool st) 0) as Hi.
    specialize (Hi ltac:(intros bp _; simpl; pose proof (sublist_length _ _ (sublist_filter_b
      (conn_kept (cp_config (pr_pool st)) now) (bp_connections bp))); lia)). lia.
  - step_cases. rank_step Ht. pose proof (shard_pools_length st n).
    destruct (Nat.ltb_spec n nshards); cbn [pc_rank]; [|lia].
    assert (nshards - n = S (nshards - S n))%nat as -> by lia. lia.
  - step_cases; rank_step Ht; simpl length; lia.
  - step_cases; rank_step Ht; cbn [close_streams on_pool pr_pool]; [lia|]. apply idle_pop in Heql. lia.
  - destruct (n <? nshards)%nat eqn:Hn; [apply Nat.ltb_lt in Hn|]; step_cases; [|rank_step Ht; lia].
    eapply work_decreases; [done..| |cbn [pc_rank on_pool pr_pool]; unfold idle_count; simpl; lia].
    eapply (bound_goto _ _ _ _ _ 0); [done..| |exact I|simpl; lia]. cbn [on_pool pr_pool erase_shard cp_pools].
    rewrite Nat.add_0_r. apply map_subseteq_size, map_filter_subseteq.
Qed.
End ending.

(** ** Properties *)


(** C29: calls on the pool end, as far as the locks go.  Suppose that a task whose next
    access can be made is not kept from making it by tasks that block their thread on the
    map (each task has a thread; on a bounded number of workers there may be a
    standstill, [PoolRuntime.workers_hang]).  Then the steps that tasks take by
    themselves are bounded by what they have to do, whatever the interleaving; and when
    no access can be made any more, every task waits for the network, holds its
    connection, or is done: in no state do tasks only wait for each other's locks. *)
Theorem pool_calls_end shard nshards st :
  (∀ ls st', Forall (fun l => ∃ t now, l = LStep t now) ls →
     pool_run shard nshards ls st = Some st' → (length ls <= work nshards st)%nat) ∧
  ((∀ t now, pool_exec shard nshards (LStep t now) st = None) →
   ∀ t pc, pr_tasks st !! t = Some pc → at_rest pc = true).
Proof.
  split.
  - intros ls st' Hls. revert st. induction Hls as [|l ls (t & now & ->) _ IH]; intros st; simpl; [lia|].
    intros (st1 & (pc & Ht & Hacc)%bind_Some & Hrun)%bind_Some.
    pose proof (access_works shard nshards t now st pc st1 Ht Hacc). specialize (IH st1 Hrun). lia.
  - intros Hstuck t pc Ht. destruct (at_rest pc) eqn:Hr; [done|].
    destruct (no_deadlock shard nshards st t pc Ht Hr) as [t' Hs]. destruct (Hs 0) as [st1 Hst1].
    by rewrite Hstuck in Hst1.
Qed.

Lemma pool_run_rtc shard nshards (ok : pool_label → Prop) ls st st' :
  Forall ok ls → pool_run shard nshards ls st = Some st' → rtc (pool_race_step shard nshards ok) st st'.
Proof.
  intros Hok. revert st. induction Hok as [|l ls Hl _ IH]; intros st; simpl; [intros [= ->]; apply rtc_refl|].
  intros (st1 & Hex & Hrun)%bind_Some. eapply rtc_l; [|by apply IH]. by exists l.
Qed.

(** Two tasks get a connection each; one gives its back, the other drops it; a third
    gets the first one's. *)
Definition race_demo : list pool_label :=
  [LAcquire 0 "b" "a"; LStep 0 0; LAcquire 1 "b" "a"; LStep 1 0; LStep 0 0; LStep 0 0; LStep 0 0;
   LStep 1 0; LStep 1 0; LStep 1 0; LConnected 1 1; LConnected 0 1; LStep 0 1; LStep 1 1;
   LRelease 0; LStep 0 2; LDrop 1; LStep 0 2; LStep 0 2; LStep 0 2; LStep 0 2;
   LAcquire 2 "b" "a"; LStep 2 3; LStep 2 3; LStep 2 3; LStep 2 3].

