(* ===== verification/PoolCalls.v ===== *)
(** * The pool's calls, alone

    [PoolRaces] cuts the calls of the connection pool into single accesses;
    [ConnectionPool] has each as one function.  When nobody else is between two
    accesses, the accesses of a call add up to that function. *)

From S2P Require Import Prelude ConnectionPool PoolRaces.

Section alone.
Context (shard : string → nat) (nshards : nat).

#[local] Abbreviation run := (pool_run shard nshards).

(** Nobody else is between two accesses. *)
Definition quiet (st : pool_race) : Prop := ∀ t pc, pr_tasks st !! t = Some pc → at_rest pc = true.

Lemma quiet_free st t pc h : quiet st → locked_queue pc = None → queue_free h (<[t := pc]> (pr_tasks st)) = true.
Proof.
  intros Hq Hl. apply queue_free_spec. intros t' pc'. rewrite lookup_insert.
  case_decide; [by intros [= <-]; rewrite Hl|].
  intros Ht. apply Hq in Ht. by destruct pc'.
Qed.

Lemma quiet_unread st t pc n :
  quiet st → read_shard shard pc = None → shard_free shard n (<[t := pc]> (pr_tasks st)) = true.
Proof.
  intros Hq Hl. unfold shard_free. apply bool_decide_eq_true. intros t' pc'. rewrite lookup_insert.
  case_decide; [by intros [= <-]; rewrite Hl|]. intros Ht. apply Hq in Ht. by destruct pc'.
Qed.

(** States are built by these four, and the last phase of a task is what counts. *)
Lemma goto_goto t pc pc' st : goto t pc' (goto t pc st) = goto t pc' st.
Proof. unfold goto; simpl. by rewrite insert_insert_eq. Qed.

Lemma update_update h f g p : update_pool h f (update_pool h g p) = update_pool h (f ∘ g) p.
Proof.
  unfold update_pool; simpl. f_equal. apply map_eq. intros i. rewrite !lookup_alter.
  repeat case_decide; try done. by destruct (cp_heap p !! _).
Qed.

Lemma update_ext h f g p :
  (∀ bp, cp_heap p !! h = Some bp → f bp = g bp) → update_pool h f p = update_pool h g p.
Proof. intros Hfg. unfold update_pool. f_equal. by apply alter_ext. Qed.

Lemma close_app l l' st : close_streams l' (close_streams l st) = close_streams (l ++ l') st.
Proof. unfold close_streams; simpl. by rewrite app_assoc. Qed.

(** [n] steps of a task that is at [pc]. *)
Lemma run_step t now pc st st1 n r :
  pool_access shard nshards t now (goto t pc st) pc = Some st1 →
  run (replicate n (LStep t now)) st1 = r →
  run (replicate (S n) (LStep t now)) (goto t pc st) = r.
Proof.
  intros Hacc <-. cbn [replicate pool_run pool_exec].
  assert (pr_tasks (goto t pc st) !! t = Some pc) as -> by apply lookup_insert_eq.
  cbn [mbind option_bind]. by rewrite Hacc.
Qed.

(** The loop of [acquire] over the queue. *)
Lemma run_pop t now st h id bp :
  cp_heap (pr_pool st) !! h = Some bp →
  let '(r, rest, closed) := pop_valid (cp_config (pr_pool st)) now (bp_connections bp) in
  ∃ n, run (replicate n (LStep t now)) (goto t (QPop h id) st) =
    Some (goto t (match r with
                  | Some c => QHolds c
                  | None => if acquire_admit (pr_pool st) h then QConnect h id else QDone (Some PoolExhausted)
                  end)
      (close_streams closed (on_pool (update_pool h (popped r rest)) st))).
Proof.
  remember (bp_connections bp) as l eqn:Hl. revert bp st Hl.
  induction l as [|c l IH]; intros bp st Hl Hbp; cbn [pop_valid].
  - exists 2%nat. eapply run_step.
    { cbn [pool_access acquire_access]. cbn [goto pr_pool]. unfold queue_of. rewrite Hbp. simpl.
      by rewrite <-Hl, goto_goto. }
    eapply run_step; [cbn [pool_access acquire_access]; by rewrite goto_goto|]. cbn [replicate pool_run goto pr_pool].
    rewrite close_nil. f_equal. f_equal. unfold on_pool. rewrite (update_ext h _ (fun bp => bp)).
    + unfold update_pool. rewrite alter_id by done. by destruct st as [[] ? ? ?].
    + intros bp' Hbp'. rewrite Hbp in Hbp'. injection Hbp' as <-. destruct bp. simpl in *. by subst.
  - set (st1 := on_pool (update_pool h (with_connections l)) st).
    assert (cp_heap (pr_pool st1) !! h = Some (with_connections l bp)) as Hbp1.
    { simpl. by rewrite lookup_alter_eq, Hbp. }
    destruct (is_expired now _ c || is_idle_expired now _ c) eqn:Hdead.
    + specialize (IH (with_connections l bp) (close_streams [pc_stream c] st1) eq_refl Hbp1).
      change (cp_config (pr_pool (close_streams [pc_stream c] st1))) with (cp_config (pr_pool st)) in IH.
      destruct (pop_valid (cp_config (pr_pool st)) now l) as [[r rest] closed]. destruct IH as [n Hn].
      exists (S n). eapply run_step.
      { cbn [pool_access acquire_access]. cbn [goto pr_pool]. unfold queue_of. rewrite Hbp. simpl. rewrite <-Hl.
        rewrite Hdead. reflexivity. }
      change (on_pool (update_pool h (with_connections l)) (goto t (QPop h id) st)) with (goto t (QPop h id) st1).
      change (close_streams [pc_stream c] (goto t (QPop h id) st1)) with (goto t (QPop h id)
        (close_streams [pc_stream c] st1)).
      rewrite goto_goto, Hn. f_equal.
      assert (acquire_admit (pr_pool (close_streams [pc_stream c] st1)) h = acquire_admit (pr_pool st) h) as ->.
      { change (acquire_admit (pr_pool st1) h = acquire_admit (pr_pool st) h). unfold acquire_admit.
        by rewrite Hbp1, Hbp. }
      f_equal. change (on_pool ?f (close_streams ?l ?s)) with (close_streams l (on_pool f s)).
      rewrite close_app. f_equal. subst st1. unfold on_pool; simpl. rewrite update_update.
      (f_equal; apply update_ext; by destruct r) || done.
    + exists 2%nat. eapply run_step.
      { cbn [pool_access acquire_access]. cbn [goto pr_pool]. unfold queue_of. rewrite Hbp. simpl. rewrite <-Hl.
        rewrite Hdead. reflexivity. }
      change (on_pool (update_pool h (with_connections l)) (goto t (QPop h id) st)) with (goto t (QPop h id) st1).
      rewrite goto_goto. eapply run_step; [reflexivity|]. cbn [replicate pool_run]. f_equal.
      change (on_pool ?f (goto t ?pc ?s)) with (goto t pc (on_pool f s)). rewrite goto_goto, close_nil. f_equal.
      subst st1. unfold on_pool; simpl. by rewrite update_update.
Qed.

(** [acquire] on a quiet pool does to it what [ConnectionPool.acquire] does. *)
Lemma acquire_alone st t now id addr :
  pools_wf (pr_pool st) → quiet st → pr_tasks st !! t = None →
  let '(p', h, r, closed) := acquire_pop now (pr_pool st) id addr in
  ∃ n, run (LAcquire t id addr :: replicate n (LStep t now)) st =
    Some (goto t (match r with
                  | Some c => QHolds c
                  | None => if acquire_admit p' h then QConnect h id else QDone (Some PoolExhausted)
                  end) (close_streams closed (on_pool (fun _ => p') st))).
Proof.
  intros Hwf Hq Ht. unfold acquire_pop.
  pose proof (get_or_create_pool_spec (pr_pool st) id addr Hwf) as Hget.
  destruct (get_or_create_pool (pr_pool st) id addr) as [p h] eqn:Heq. destruct Hget as (Hwfp & Hcf & Hid & _).
  destruct (wf_handles _ Hwfp _ _ Hid) as [bp Hbp]. rewrite Hbp.
  pose proof (run_pop t now (on_pool (fun _ => p) st) h id bp Hbp) as Hpop. cbn [on_pool pr_pool] in Hpop.
  destruct (pop_valid (cp_config p) now (bp_connections bp)) as [[r rest] closed]. destruct Hpop as [n Hn].
  exists (S (S n)). cbn [pool_run pool_exec]. unfold start_task. rewrite Ht. cbn [mbind option_bind].
  eapply run_step.
  { cbn [pool_access acquire_access]. cbn [goto pr_tasks pr_pool]. rewrite quiet_unread by done. by rewrite Heq. }
  change (goto t (QQueue h id) (on_pool ?f (goto t ?pc st))) with (goto t (QQueue h id) (goto t pc (on_pool f st))).
  rewrite goto_goto. eapply run_step.
  { cbn [pool_access acquire_access]. cbn [goto on_pool pr_tasks]. by rewrite quiet_free. }
  rewrite goto_goto, Hn. f_equal.
  assert (update_pool h (popped r rest) p =
    update_pool h (fun _ => match r with Some _ => in_use_add 1 (with_connections rest bp)
      | None => with_connections rest bp end) p) as Hup.
  { apply update_ext. intros bp' Hbp'. rewrite Hbp in Hbp'. injection Hbp' as <-. by destruct r. }
  unfold on_pool; simpl. rewrite Hup. f_equal. destruct r; [done|].
  unfold acquire_admit; simpl. by rewrite lookup_alter_eq, Hbp.
Qed.

(** The last part of [acquire]: the connection attempt. *)
Lemma connect_alone st t now h id o :
  pr_tasks st !! t = Some (QConnect h id) → (∀ s, o = Connected s → s = pr_opened st) →
  let '(p', r) := acquire_connect now (pr_pool st) h id o in
  ∃ ls st', run ls st = Some (goto t (match r with Ok c => QHolds c | Err e => QDone (Some e) end) st') ∧
    pr_pool st' = p' ∧ pr_tasks st' = pr_tasks st.
Proof.
  intros Ht Ho. destruct o as [s|e|]; simpl.
  - rewrite (Ho s eq_refl). exists [LConnected t now; LStep t now]. simpl. rewrite Ht. simpl.
    rewrite lookup_insert_eq.
    simpl. eexists (on_pool (update_pool h (in_use_add 1)) (open_stream st)). split_and!; [|done..].
    f_equal. unfold goto, on_pool; simpl. by rewrite insert_insert_eq.
  - exists [LRefused t e], st. simpl. by rewrite Ht.
  - exists [LTimedOut t], st. simpl. by rewrite Ht.
Qed.

(** [release] and [discard] on a quiet pool. *)
Lemma release_alone st t now c :
  quiet st → pools_wf (pr_pool st) → pr_tasks st !! t = Some (QHolds c) →
  let '(p', closed) := release now (pr_pool st) c in
  ∃ n, run (LRelease t :: replicate n (LStep t now)) st =
    Some (goto t (QDone None) (close_streams closed (on_pool (fun _ => p') st))).
Proof.
  intros Hq Hwf Ht. unfold release. cbn [pool_run pool_exec]. rewrite Ht. cbn [mbind option_bind].
  destruct (cp_pools (pr_pool st) !! pc_backend_id c) as [h|] eqn:Hid.
  2: { exists 1%nat. eapply run_step; [cbn [pool_access release_access]; cbn [goto pr_pool]; by rewrite Hid|].
       simpl. f_equal. unfold goto; simpl. rewrite insert_insert_eq. by destruct st. }
  destruct (wf_handles _ Hwf _ _ Hid) as [bp Hbp].
  set (st1 := on_pool (update_pool h (in_use_add (-1))) st).
  assert (pr_pool st1 = update_pool h (in_use_add (-1)) (pr_pool st)) as Hst1 by done. rewrite <-Hst1.
  change (max_lifetime (cp_config (pr_pool st1))) with (max_lifetime (cp_config (pr_pool st))).
  change (cp_config (pr_pool st1)) with (cp_config (pr_pool st)).
  assert (cp_heap (pr_pool st1) !! h = Some (in_use_add (-1) bp)) as Hbp1 by (simpl; by rewrite lookup_alter_eq, Hbp).
  rewrite Hbp1. change (bp_connections (in_use_add (-1) bp)) with (bp_connections bp).
  destruct (is_expired now (max_lifetime (cp_config (pr_pool st))) c) eqn:Hexp.
  { exists 2%nat. eapply run_step; [cbn [pool_access release_access]; cbn [goto pr_pool]; by rewrite Hid|].
    rewrite goto_goto. eapply run_step; [cbn [pool_access release_access]; cbn [goto pr_pool]; by rewrite Hexp|].
    simpl. f_equal. unfold goto; simpl. rewrite insert_insert_eq. by destruct st. }
  enough (∃ n, run (replicate n (LStep t now)) (goto t (QRoom h (conn_touch now c)) st1) =
    Some (goto t (QDone None) (close_streams
      (if Z.of_nat (length (bp_connections bp)) <? max_connections (cp_config (pr_pool st))
        then [] else [pc_stream c])
      (on_pool (fun p => if Z.of_nat (length (bp_connections bp)) <? max_connections (cp_config (pr_pool st))
         then update_pool h (fun bp => with_connections (bp_connections bp ++ [conn_touch now c]) bp) p else p)
           st1))))
    as [n Hn].
  { enough (run (replicate (3 + n) (LStep t now)) (goto t (QReturn c) st) =
      run (replicate n (LStep t now)) (goto t (QRoom h (conn_touch now c)) st1)) as Hpre.
    { rewrite Hn in Hpre. destruct (_ <? _); by exists (3 + n)%nat. }
    cbn [Nat.add]. eapply run_step; [cbn [pool_access release_access]; cbn [goto pr_pool]; by rewrite Hid|].
    rewrite goto_goto. eapply run_step; [cbn [pool_access release_access]; cbn [goto pr_pool]; by rewrite Hexp|].
    change (on_pool ?f (goto t ?pc st)) with (goto t pc (on_pool f st)). rewrite goto_goto. fold st1.
    eapply run_step; [cbn [pool_access release_access]; cbn [goto pr_tasks st1 on_pool]; by rewrite quiet_free|].
    by rewrite goto_goto. }
  destruct (_ <? _) eqn:Hlen; [exists 2%nat|exists 1%nat]; (eapply run_step;
    [cbn [pool_access release_access]; change (pr_pool (goto t ?pc st1)) with (pr_pool st1); unfold queue_of;
     rewrite Hbp1; simpl; by rewrite Hlen|]).
  - rewrite goto_goto. eapply run_step; [reflexivity|].
    change (on_pool ?f (goto t ?pc st1)) with (goto t pc (on_pool f st1)). by rewrite goto_goto, close_nil.
  - change (close_streams ?l (goto t ?pc st1)) with (goto t pc (close_streams l st1)). by rewrite goto_goto.
Qed.

Lemma discard_alone st t now c :
  pr_tasks st !! t = Some (QHolds c) →
  let '(p', closed) := discard (pr_pool st) c in
  ∃ n, run (LDiscard t :: replicate n (LStep t now)) st =
    Some (goto t (QDone None) (close_streams closed (on_pool (fun _ => p') st))).
Proof.
  intros Ht. unfold discard. cbn [pool_run pool_exec]. rewrite Ht. cbn [mbind option_bind].
  destruct (cp_pools (pr_pool st) !! pc_backend_id c) as [h|] eqn:Hid.
  - exists 2%nat. eapply run_step; [cbn [pool_access discard_access]; cbn [goto pr_pool]; by rewrite Hid|].
    rewrite goto_goto. eapply run_step; [reflexivity|]. simpl. f_equal. unfold goto; simpl.
    rewrite insert_insert_eq. by destruct st.
  - exists 1%nat. eapply run_step; [cbn [pool_access discard_access]; cbn [goto pr_pool]; by rewrite Hid|].
    simpl. f_equal. unfold goto; simpl. rewrite insert_insert_eq. by destruct st.
Qed.
End alone.
