(* ===== verification/PoolRuntime.v ===== *)
(** * The connection pool on worker threads

    [PoolRaces] lets every task run whenever its next access can be made.  Tokio runs
    tasks on a fixed number of worker threads: a task that waits at an [await] leaves
    its worker, but one that waits for a shard of the map, in [entry] or in [clear],
    blocks it. *)

From S2P Require Import Prelude ConnectionPool PoolRaces.

Record pool_runtime := mkRuntime { rt_race : pool_race; rt_running : gset nat }.

Inductive runtime_label :=
| RTake (t : nat)              (* a free worker takes a task up *)
| RPark (t : nat)              (* a task leaves its worker *)
| RDo (l : pool_label).        (* a running task goes on *)

(** Where a task may leave its worker: at an [await] that is not ready, and in the
    code around the calls. *)
Definition may_park (st : pool_race) (t : nat) : bool :=
  match pr_tasks st !! t with
  | Some (QQueue h _ | QBack h _ | QSweep (h :: _) | QDrain _ (h :: _)) => negb (queue_free h (pr_tasks st))
  | Some pc => at_rest pc
  | None => true
  end.

Section runtime.
Context (shard : string → nat) (nshards workers : nat).

Definition runtime_exec (l : runtime_label) (rt : pool_runtime) : option pool_runtime :=
  let '(mkRuntime st running) := rt in
  match l with
  | RTake t =>
      if bool_decide (t ∉ running) && (size running <? workers)%nat
      then Some (mkRuntime st ({[t]} ∪ running)) else None
  | RPark t =>
      if bool_decide (t ∈ running) && may_park st t then Some (mkRuntime st (running ∖ {[t]})) else None
  | RDo l =>
      if bool_decide (label_task l ∈ running)
      then (fun st' => mkRuntime st' running) <$> pool_exec shard nshards l st else None
  end.

Fixpoint runtime_run (ls : list runtime_label) (rt : pool_runtime) : option pool_runtime :=
  match ls with
  | [] => Some rt
  | l :: ls' => rt' ← runtime_exec l rt; runtime_run ls' rt'
  end.

Lemma runtime_run_app ls1 ls2 rt : runtime_run (ls1 ++ ls2) rt = (rt' ← runtime_run ls1 rt; runtime_run ls2 rt').
Proof.
  revert rt. induction ls1 as [|l ls1 IH]; intros rt; simpl; [done|].
  destruct (runtime_exec l rt); simpl; [apply IH|done].
Qed.

Definition runtime_new (cfg : PoolConfig) : pool_runtime := mkRuntime (pool_race_new cfg) ∅.

(** What runs on workers is an interleaving of [pool_exec]. *)
Lemma runtime_run_race ls rt rt' :
  runtime_run ls rt = Some rt' →
  rtc (pool_race_step shard nshards (fun _ => True)) (rt_race rt) (rt_race rt').
Proof.
  revert rt. induction ls as [|l ls IH]; intros rt; simpl; [by intros [= ->]|].
  intros (rt1 & Hex & Hrun)%bind_Some. apply IH in Hrun. etrans; [|exact Hrun]. destruct rt as [st running].
  destruct l as [t|t|l]; simpl in Hex; case_match; try done.
  - by injection Hex as <-.
  - by injection Hex as <-.
  - apply fmap_Some in Hex as (st' & Hst' & ->). apply rtc_once. by exists l.
Qed.

(** Tasks [a], [a + 1], ... take the free workers and start an acquisition. *)
Fixpoint acquirers (a n : nat) (id addr : string) : list runtime_label :=
  match n with
  | O => []
  | S n' => RTake a :: RDo (LAcquire a id addr) :: acquirers (S a) n' id addr
  end.

Lemma acquirers_run a n id addr rt :
  (size (rt_running rt) + n <= workers)%nat →
  (∀ t, (a <= t)%nat → t ∉ rt_running rt ∧ pr_tasks (rt_race rt) !! t = None) →
  ∃ rt', runtime_run (acquirers a n id addr) rt = Some rt' ∧
    pr_pool (rt_race rt') = pr_pool (rt_race rt) ∧
    (∀ t, pr_tasks (rt_race rt') !! t =
       if decide (a <= t < a + n)%nat then Some (QEnter id addr) else pr_tasks (rt_race rt) !! t) ∧
    (∀ t, t ∈ rt_running rt' ↔ t ∈ rt_running rt ∨ (a <= t < a + n)%nat) ∧
    size (rt_running rt') = (size (rt_running rt) + n)%nat.
Proof.
  revert a rt. induction n as [|n IH]; intros a rt Hsize Hfresh; cbn [acquirers runtime_run].
  { exists rt. split_and!; try done; intros t; [by rewrite decide_False by lia|].
    split; [by left|intros [?|?]; [done|lia]]. }
  destruct (Hfresh a) as [Hrun Hnone]; [lia|]. destruct rt as [st running]. simpl in *.
  rewrite bool_decide_eq_true_2, (proj2 (Nat.ltb_lt _ _)) by (done || lia). simpl.
  rewrite bool_decide_eq_true_2 by set_solver. unfold start_task. rewrite Hnone. simpl.
  assert (size ({[a]} ∪ running) = S (size running)) as Hs.
  { rewrite size_union by set_solver. by rewrite size_singleton. }
  destruct (IH (S a) (mkRuntime (goto a (QEnter id addr) st) ({[a]} ∪ running))) as (rt' & Hr & Hp & Ht & Hrn & Hsz);
    simpl; [lia| |].
  { intros t Hle. destruct (Hfresh t) as [? ?]; [lia|]. split; [set_unfold; naive_solver lia|].
    by rewrite lookup_insert_ne by lia. }
  exists rt'. split_and!; [done|done| | |simpl in Hsz; lia].
  - intros t. rewrite Ht. simpl. rewrite lookup_insert. repeat case_decide; try done; try lia.
  - intros t. rewrite Hrn. simpl. set_unfold. naive_solver lia.
Qed.

End runtime.

(** A release meets the cleanup at the queue's lock and leaves its worker, with its
    reference into the map. *)
Definition hang_prefix : list runtime_label :=
  [RTake 0; RDo (LAcquire 0 "b" "a"); RDo (LStep 0 0); RDo (LStep 0 0); RDo (LStep 0 0); RDo (LStep 0 0);
   RDo (LConnected 0 0); RDo (LStep 0 0); RDo (LRelease 0); RDo (LStep 0 0); RDo (LStep 0 0);
   RTake 1; RDo (LSweep 1 [0%nat]); RDo (LStep 1 0); RPark 0; RDo (LStep 1 0); RDo (LStep 1 0); RPark 1].

Lemma hang_prefix_run k :
  runtime_run (fun _ => 0%nat) 1 (S (S k)) hang_prefix (runtime_new pool_config_default) =
    Some (mkRuntime
      (mkPoolRace (mkConnectionPool pool_config_default {[0%nat := mkBackendPool [] 0 "a"]} {["b" := 0%nat]} 1)
         1 [] {[0%nat := QBack 0 (mkConn 0 0 0 "b"); 1%nat := QDone None]}) ∅).
Proof. vm_compute. reflexivity. Qed.

(** With any number of workers, two at least (for the moment of contention), a program
    that uses the pool can come to a standstill: [release] waits for the queue's lock
    with a reference into the map in its hands; when every worker then starts an
    acquisition of the same backend, each blocks on the map, and there is none left to
    run the release, although the lock it waits for is free. *)
Lemma workers_hang k :
  ∃ rt, runtime_run (fun _ => 0%nat) 1 (S (S k)) (hang_prefix ++ acquirers 2 (S (S k)) "b" "a")
          (runtime_new pool_config_default) = Some rt ∧
    (∀ l, runtime_exec (fun _ => 0%nat) 1 (S (S k)) l rt = None) ∧
    ∃ c, pr_tasks (rt_race rt) !! 0%nat = Some (QBack 0 c) ∧ queue_free 0 (pr_tasks (rt_race rt)) = true.
Proof.
  rewrite runtime_run_app, hang_prefix_run. cbn [mbind option_bind].
  match goal with |- context [runtime_run _ _ _ _ ?r] => set (rt0 := r) end.
  destruct (acquirers_run (fun _ => 0%nat) 1 (S (S k)) 2 (S (S k)) "b" "a" rt0) as (rt & Hrun & _ & Ht & Hrn & Hsz).
  { done. }
  { intros t Hle. split; [set_solver|]. simpl. rewrite lookup_insert_ne by lia.
    by rewrite lookup_singleton_ne by lia. }
  exists rt. split; [done|]. destruct rt as [st running]. simpl in Ht, Hrn, Hsz.
  assert (∀ t, t ∈ running → pr_tasks st !! t = Some (QEnter "b" "a")) as Hent.
  { intros t Hin. apply Hrn in Hin as [Hin|Hin]; [set_solver|]. by rewrite Ht, decide_True. }
  assert (pr_tasks st !! 0%nat = Some (QBack 0 (mkConn 0 0 0 "b"))) as H0.
  { rewrite Ht, decide_False by lia. reflexivity. }
  split.
  - assert (shard_free (fun _ => 0%nat) 0 (pr_tasks st) = false) as Hsf.
    { unfold shard_free. apply bool_decide_eq_false. intros Hall. by apply (Hall _ _ H0). }
    intros [t|t|l]; cbn [runtime_exec].
    + rewrite (proj2 (Nat.ltb_ge _ _)), andb_false_r by lia. done.
    + case_bool_decide as Hin; [|done]. unfold may_park. by rewrite (Hent t Hin).
    + case_bool_decide as Hin; [|done]. specialize (Hent _ Hin).
      destruct l; cbn [label_task] in Hent; cbn [pool_exec]; unfold start_task; rewrite Hent; try done.
      cbn. by rewrite Hsf.
  - exists (mkConn 0 0 0 "b"). split; [done|]. apply queue_free_spec. intros t pc. simpl. rewrite Ht.
    case_decide; [by intros [= <-]|]. rewrite lookup_insert, lookup_singleton.
    repeat case_decide; by intros [= <-].
Qed.
