(* ===== verification/HealthChecker.v ===== *)
(** * Active health checker

    [src/src/infrastructure/health_checker.rs].  The network is a parameter: a
    probe's raw outcome ([tcp_outcome], [http_outcome]) is what [tokio] or
    [reqwest] reported.  [update_status] holds the write lock of the status map
    for its whole body, and so is one step. *)

From S2P Require Import Prelude Domain NetAddr Ports.

Inductive HealthCheckType := HcTcp | HcHttp (path : string).

Record HealthCheckConfig := mkHcConfig {
  hc_interval : duration;
  hc_timeout : duration;
  unhealthy_threshold : Z;   (* u32 *)
  healthy_threshold : Z;     (* u32 *)
  check_type : HealthCheckType
}.

Definition hc_config_default : HealthCheckConfig := mkHcConfig (from_secs 10) (from_secs 5) 3 2 HcTcp.

Record HealthStatus := mkStatus {
  hs_healthy : bool;
  hs_last_check : instant;
  hs_latency_ms : option Z;
  consecutive_failures : Z;    (* u32 *)
  consecutive_successes : Z;   (* u32 *)
  hs_last_error : option string
}.

Definition health_status_default (now : instant) : HealthStatus := mkStatus true now None 0 0 None.

Inductive HealthCheckResult :=
| HcSuccess (latency_ms : Z)
| HcFailure (error : string) (latency_ms : Z).

Definition hcr_is_success (r : HealthCheckResult) : bool :=
  match r with HcSuccess _ => true | HcFailure _ _ => false end.

Definition hcr_latency_ms (r : HealthCheckResult) : Z :=
  match r with HcSuccess l => l | HcFailure _ l => l end.

Definition hcr_error (r : HealthCheckResult) : option string :=
  match r with HcSuccess _ => None | HcFailure e _ => Some e end.

(** ** Probes *)

Definition build_backend_addr (b : Backend) : string := be_wg_ip b +:+ ":" +:+ pretty (be_port b).

(** The probe's target is the text of the backend's socket address for IPv4 only: an
    IPv6 literal gets no brackets, unlike the servers' ([TcpServer.format_backend_addr]). *)
Lemma probe_address b ip :
  parse_ip_addr (be_wg_ip b) = Some ip → 0 <= be_port b < 2 ^ 16 →
  parse_socket_addr (build_backend_addr b) = match ip with V4 a => Some (SockV4 a (be_port b)) | V6 _ => None end.
Proof. apply parse_socket_addr_bare. Qed.

(** [timeout(timeout, TcpStream::connect(addr))]. *)
Inductive tcp_outcome := TcpOpened | TcpError (e : string) | TcpTimeout.

(** [Client::builder()...build()] and [client.get(&url).send()]; a response is its
    status code with the text of its [Display]. *)
Inductive http_outcome :=
| HttpClientError (e : string)
| HttpResponse (status : Z) (text : string)
| HttpRequestError (e : string).

Definition tcp_check (o : tcp_outcome) : result unit string :=
  match o with
  | TcpOpened => Ok tt
  | TcpError e => Err ("connection failed: " +:+ e)
  | TcpTimeout => Err "connection timeout"
  end.

(** [StatusCode::is_success]. *)
Definition status_is_success (status : Z) : bool := (200 <=? status) && (status <? 300).

Definition http_check (o : http_outcome) : result unit string :=
  match o with
  | HttpClientError e => Err ("client error: " +:+ e)
  | HttpResponse status text =>
      if status_is_success status then Ok tt else Err ("unhealthy status: " +:+ text)
  | HttpRequestError e => Err ("request failed: " +:+ e)
  end.

(** The network: what a probe of an address (and URL) meets, and how long it took. *)
Record ProbeNet := mkProbeNet {
  net_tcp : string → tcp_outcome;
  net_http : string → http_outcome;
  net_elapsed : string → duration
}.

Definition check_backend (net : ProbeNet) (cfg : HealthCheckConfig) (b : Backend) : HealthCheckResult :=
  let addr := build_backend_addr b in
  let r := match check_type cfg with
           | HcTcp => tcp_check (net_tcp net addr)
           | HcHttp path => http_check (net_http net ("http://" +:+ addr +:+ path))
           end in
  let latency := wrap 64 (as_millis (net_elapsed net addr)) in
  match r with
  | Ok _ => HcSuccess latency
  | Err e => HcFailure e latency
  end.

(** ** Updating the status map *)

Abbreviation status_map := (gmap string HealthStatus) (only parsing).

(** [update_status]: the map, and the calls of the callback. *)
Definition update_status (m : status_map) (now : instant) (id : string) (r : HealthCheckResult)
    (cfg : HealthCheckConfig) (on_change : bool) : status_map * list (string * bool) :=
  let entry := default (health_status_default now) (m !! id) in
  let was_healthy := hs_healthy entry in
  let entry' :=
    match r with
    | HcSuccess latency_ms =>
        let successes := consecutive_successes entry +u32 1 in
        mkStatus
          (if negb (hs_healthy entry) && (healthy_threshold cfg <=? successes) then true else hs_healthy entry)
          (hs_last_check entry) (Some latency_ms) 0 successes None
    | HcFailure error latency_ms =>
        let failures := consecutive_failures entry +u32 1 in
        mkStatus
          (if hs_healthy entry && (unhealthy_threshold cfg <=? failures) then false else hs_healthy entry)
          (hs_last_check entry) (Some latency_ms) failures 0 (Some error)
    end in
  let entry'' := mkStatus (hs_healthy entry') now (hs_latency_ms entry') (consecutive_failures entry')
                   (consecutive_successes entry') (hs_last_error entry') in
  (<[id := entry'']> m,
   if negb (Bool.eqb was_healthy (hs_healthy entry''))
   then (if on_change then [(id, hs_healthy entry'')] else [])
   else []).

Definition hc_get_status (m : status_map) (id : string) : option HealthStatus := m !! id.

Definition hc_is_healthy (m : status_map) (id : string) : bool := default true (hs_healthy <$> m !! id).

(** One tick of the loop of [start]: every backend of the repository is probed and
    its status updated, one after the other, at the time its probe has ended. *)
Definition health_turn `{BackendRepository R} (repo : R) (net : ProbeNet) (now : Backend → instant)
    (cfg : HealthCheckConfig) (on_change : bool) (m : status_map) : status_map * list (string * bool) :=
  foldl (fun acc b =>
      let '(m, evs) := acc in
      let '(m', ev) := update_status m (now b) (be_id b) (check_backend net cfg b) cfg on_change in
      (m', evs ++ ev))
    (m, []) (get_all repo).

(** ** The sans-IO transition *)

Inductive HealthAction :=
| HealthChanged (backend_id : string) (healthy : bool)
| NoChange.

Definition calculate_health_transition (st : HealthStatus) (r : HealthCheckResult) (cfg : HealthCheckConfig)
    : HealthStatus * HealthAction :=
  let was_healthy := hs_healthy st in
  let new :=
    match r with
    | HcSuccess latency_ms =>
        let successes := consecutive_successes st +u32 1 in
        mkStatus
          (if negb (hs_healthy st) && (healthy_threshold cfg <=? successes) then true else hs_healthy st)
          (hs_last_check st) (Some latency_ms) 0 successes None
    | HcFailure error latency_ms =>
        let failures := consecutive_failures st +u32 1 in
        mkStatus
          (if hs_healthy st && (unhealthy_threshold cfg <=? failures) then false else hs_healthy st)
          (hs_last_check st) (Some latency_ms) failures 0 (Some error)
    end in
  (new, if negb (Bool.eqb was_healthy (hs_healthy new)) then HealthChanged "" (hs_healthy new) else NoChange).

Definition should_mark_unhealthy (st : HealthStatus) (threshold : Z) : bool :=
  hs_healthy st && (threshold <=? consecutive_failures st).

Definition should_mark_healthy (st : HealthStatus) (threshold : Z) : bool :=
  negb (hs_healthy st) && (threshold <=? consecutive_successes st).

(** ** Properties *)

Definition set_last_check (now : instant) (st : HealthStatus) : HealthStatus :=
  mkStatus (hs_healthy st) now (hs_latency_ms st) (consecutive_failures st) (consecutive_successes st)
    (hs_last_error st).

(** [update_status] stores the outcome of the pure transition on the
    backend's entry (a new backend starts healthy), stamped with the time, leaves
    every other entry, and calls the callback exactly when the transition reports
    a change, with the backend's id and its new health. *)
Lemma update_status_refines_transition m now id r cfg on_change :
  let st := default (health_status_default now) (m !! id) in
  let '(st', action) := calculate_health_transition st r cfg in
  update_status m now id r cfg on_change =
    (<[id := set_last_check now st']> m,
     match action with
     | HealthChanged _ healthy => if on_change then [(id, healthy)] else []
     | NoChange => []
     end) ∧
  (action = NoChange ↔ hs_healthy st' = hs_healthy st) ∧
  (∀ i h, action = HealthChanged i h → h = hs_healthy st').
Proof.
  unfold update_status, calculate_health_transition.
  generalize (default (health_status_default now) (m !! id)). intros st.
  destruct r; simpl; destruct (hs_healthy st); simpl; try case_match; simpl;
    (split_and!; [done|done|]); by intros ?? [=].
Qed.

(** A history of probe results of one backend: its status, and the health values
    the callback was given. *)
Fixpoint health_run (cfg : HealthCheckConfig) (st : HealthStatus) (rs : list HealthCheckResult)
    : HealthStatus * list bool :=
  match rs with
  | [] => (st, [])
  | r :: rs' =>
      let '(st1, action) := calculate_health_transition st r cfg in
      let '(st2, evs) := health_run cfg st1 rs' in
      (st2, match action with HealthChanged _ h => h :: evs | NoChange => evs end)
  end.

(** Length of the run of results of one kind that ends a history. *)
Definition trailing (ok : bool) (rs : list HealthCheckResult) : Z :=
  foldl (fun n r => if Bool.eqb (hcr_is_success r) ok then n + 1 else 0) 0 rs.

(** What the thresholds say a history amounts to: at some point it had ended in
    [unhealthy_threshold] failures or more, and at no point from there on in
    [healthy_threshold] successes. *)
Definition tripped (cfg : HealthCheckConfig) (rs : list HealthCheckResult) : Prop :=
  ∃ n, (n <= length rs)%nat ∧ unhealthy_threshold cfg <= trailing false (take n rs) ∧
    ∀ m, (n <= m <= length rs)%nat → trailing true (take m rs) < healthy_threshold cfg.

(** The values of a series that differ from the one before, [h] to begin with. *)
Fixpoint changes (h : bool) (l : list bool) : list bool :=
  match l with
  | [] => []
  | x :: l' => if Bool.eqb x h then changes h l' else x :: changes x l'
  end.

Definition thresholds_ok (cfg : HealthCheckConfig) : Prop :=
  1 <= unhealthy_threshold cfg < 2 ^ 32 ∧ 1 <= healthy_threshold cfg < 2 ^ 32.

(** One result: counters, health and event of the transition. *)
Lemma transition_step cfg st r :
  let '(st', action) := calculate_health_transition st r cfg in
  (if hcr_is_success r
   then consecutive_failures st' = 0 ∧ consecutive_successes st' = consecutive_successes st +u32 1
   else consecutive_failures st' = consecutive_failures st +u32 1 ∧ consecutive_successes st' = 0) ∧
  hs_healthy st' =
    (if hs_healthy st then hcr_is_success r || negb (unhealthy_threshold cfg <=? consecutive_failures st')
     else hcr_is_success r && (healthy_threshold cfg <=? consecutive_successes st')) ∧
  (if Bool.eqb (hs_healthy st') (hs_healthy st) then action = NoChange
   else action = HealthChanged "" (hs_healthy st')).
Proof.
  unfold calculate_health_transition. destruct r; simpl; destruct (hs_healthy st); simpl;
    try case_match; simpl; done.
Qed.

(** The counters of a status against the runs that end the history [rs]. *)
Definition counts_runs (rs : list HealthCheckResult) (st : HealthStatus) : Prop :=
  consecutive_failures st = wrap 32 (trailing false rs) ∧
  consecutive_successes st = wrap 32 (trailing true rs).

Lemma counts_runs_step cfg st r rs :
  counts_runs rs st → counts_runs (rs ++ [r]) (fst (calculate_health_transition st r cfg)).
Proof.
  intros [Hf Hs]. pose proof (transition_step cfg st r) as Ht.
  destruct (calculate_health_transition st r cfg) as [st' a]. destruct Ht as (Hc & _). simpl.
  unfold counts_runs, trailing in *. rewrite !foldl_app; simpl.
  destruct (hcr_is_success r); simpl; destruct Hc as [-> ->]; split;
    rewrite ?Hf, ?Hs, ?wrap_add_l by lia; done.
Qed.

Lemma trailing_snoc ok rs r :
  trailing ok (rs ++ [r]) = if Bool.eqb (hcr_is_success r) ok then trailing ok rs + 1 else 0.
Proof. unfold trailing. by rewrite foldl_app. Qed.

Lemma trailing_nonneg ok rs : 0 <= trailing ok rs.
Proof. induction rs as [|r rs IH] using rev_ind; [done|]. rewrite trailing_snoc. case_match; lia. Qed.

(** A history that ends in a run of one kind does not end in a run of the other. *)
Lemma trailing_exclusive rs : trailing true rs = 0 ∨ trailing false rs = 0.
Proof. destruct rs as [|r rs _] using rev_ind; [by left|]. rewrite !trailing_snoc. destruct (hcr_is_success r); auto. Qed.

Section spec.
Context (cfg : HealthCheckConfig) (Hcfg : thresholds_ok cfg).

Lemma tripped_ends rs : tripped cfg rs → trailing true rs < healthy_threshold cfg.
Proof. intros (n & Hn & _ & Hall). rewrite <-(firstn_all rs). apply Hall. lia. Qed.

Lemma trips rs : unhealthy_threshold cfg <= trailing false rs → tripped cfg rs.
Proof.
  intros Hf. exists (length rs). rewrite firstn_all. split_and!; [done|done|]. intros m Hm.
  rewrite take_ge by lia. destruct Hcfg. destruct (trailing_exclusive rs); lia.
Qed.

(** What one more result makes of a history. *)
Lemma tripped_snoc rs r :
  tripped cfg (rs ++ [r]) ↔
    unhealthy_threshold cfg <= trailing false (rs ++ [r]) ∨
    tripped cfg rs ∧ trailing true (rs ++ [r]) < healthy_threshold cfg.
Proof.
  split.
  - intros (n & Hn & Hf & Hall). rewrite length_app in *. simpl in *.
    destruct (decide (n = length rs + 1)%nat) as [->|Hne]; [left; by rewrite take_ge in Hf by (rewrite length_app; simpl; lia)|].
    right. split.
    + exists n. rewrite take_app_le in Hf by lia. split_and!; [lia|done|]. intros m Hm.
      specialize (Hall m ltac:(lia)). by rewrite take_app_le in Hall by lia.
    + specialize (Hall (length rs + 1)%nat ltac:(lia)). by rewrite take_ge in Hall by (rewrite length_app; simpl; lia).
  - intros [Hf|[(n & Hn & Hf & Hall) Hlast]]; [by apply trips|]. exists n. rewrite length_app. simpl.
    rewrite take_app_le by lia. split_and!; [lia|done|]. intros m Hm.
    destruct (decide (m <= length rs)%nat); [rewrite take_app_le by lia; apply Hall; lia|].
    by rewrite take_ge by (rewrite length_app; simpl; lia).
Qed.

Lemma health_run_snoc st rs r :
  health_run cfg st (rs ++ [r]) =
    let '(st1, evs) := health_run cfg st rs in
    let '(st2, action) := calculate_health_transition st1 r cfg in
    (st2, evs ++ match action with HealthChanged _ h => [h] | NoChange => [] end).
Proof.
  revert st. induction rs as [|r0 rs IH]; intros st; cbn [app health_run].
  { destruct (calculate_health_transition st r cfg) as [st1 [i h|]]; done. }
  destruct (calculate_health_transition st r0 cfg) as [st0 a0]. rewrite IH.
  destruct (health_run cfg st0 rs) as [st1 evs]. destruct (calculate_health_transition st1 r cfg) as [st2 a].
  by destruct a0.
Qed.

(** The status against the history: counters, and health as the thresholds have it. *)
Definition follows (rs : list HealthCheckResult) (st : HealthStatus) : Prop :=
  counts_runs rs st ∧ (hs_healthy st = false ↔ tripped cfg rs).

Lemma follows_step rs r st :
  follows rs st → follows (rs ++ [r]) (fst (calculate_health_transition st r cfg)).
Proof.
  intros [Hc Hh]. pose proof (counts_runs_step cfg st r rs Hc) as Hc'. split; [done|].
  pose proof (transition_step cfg st r) as Ht.
  destruct (calculate_health_transition st r cfg) as [st' a]. destruct Ht as (_ & Hh' & _). cbn [fst] in *. rewrite Hh'.
  destruct Hc' as [-> ->]. rewrite tripped_snoc. pose proof (trailing_nonneg false rs). pose proof (trailing_nonneg true rs).
  rewrite !trailing_snoc. destruct Hcfg as [Hu Hs]. destruct (hs_healthy st) eqn:Hst.
  - assert (trailing false rs < unhealthy_threshold cfg) as Hshort.
    { apply Z.nle_gt. intros Hle%trips. by apply Hh in Hle. }
    destruct (hcr_is_success r); simpl; [split; [done|]; intros [?|[Ht _]]; [lia|by apply Hh in Ht]|].
    rewrite wrap_small by (unfold in_range; lia). rewrite negb_false_iff, Z.leb_le.
    split; [by left|]. intros [?|[Ht _]]; [done|by apply Hh in Ht].
  - assert (trailing true rs < healthy_threshold cfg) as Hshort by by apply tripped_ends, Hh.
    destruct (hcr_is_success r); simpl.
    + rewrite wrap_small by (unfold in_range; lia). rewrite Z.leb_gt. split; [right; split; [by apply Hh|done]|].
      intros [?|[_ ?]]; lia.
    + split; [|done]. intros _. right. split; [by apply Hh|lia].
Qed.
End spec.

Lemma changes_snoc h l x :
  changes h (l ++ [x]) = changes h l ++ (if Bool.eqb x (List.last l h) then [] else [x]).
Proof.
  revert h. induction l as [|y l IH]; intros h; cbn [app changes].
  { done. }
  assert (List.last (y :: l) h = List.last l y) as ->.
  { destruct l as [|z l]; [done|]. change (List.last (z :: l) h = List.last (z :: l) y).
    clear IH. revert z. induction l as [|u l IH]; intros z; [done|]. apply IH. }
  rewrite !IH. destruct (Bool.eqb y h) eqn:Hy; [|done]. apply eqb_prop in Hy. by subst.
Qed.


Definition example_history : list HealthCheckResult :=
  [HcFailure "e" 1; HcFailure "e" 1; HcFailure "e" 1; HcSuccess 1; HcFailure "e" 1; HcSuccess 1; HcSuccess 1].


(** The threshold is exact: [n] failures in a row mark a clean healthy backend
    unhealthy when, and only when, they reach it. *)
Lemma failures_mark_unhealthy cfg st rs :
  thresholds_ok cfg → hs_healthy st = true → 0 <= consecutive_failures st < unhealthy_threshold cfg →
  Forall (fun r => hcr_is_success r = false) rs →
  consecutive_failures st + Z.of_nat (length rs) < 2 ^ 32 →
  hs_healthy (fst (health_run cfg st rs)) =
    (consecutive_failures st + Z.of_nat (length rs) <? unhealthy_threshold cfg).
Proof.
  intros Hcfg. revert st.
  enough (∀ rs st, Forall (fun r => hcr_is_success r = false) rs → hs_healthy st = false →
    hs_healthy (fst (health_run cfg st rs)) = false) as Hstay.
  { induction rs as [|r rs IH]; intros st Hh Hf Hall Hlt; cbn [health_run length] in *.
    { simpl. rewrite Hh. symmetry. apply Z.ltb_lt. lia. }
    inversion_clear Hall as [|? ? Hr Hall'].
    pose proof (transition_step cfg st r) as Ht.
    destruct (calculate_health_transition st r cfg) as [st1 action]. rewrite Hr, Hh in Ht.
    destruct Ht as ((Hcf & _) & Hh1 & _). simpl in Hh1.
    rewrite wrap_small in Hcf by (unfold in_range; lia).
    destruct (health_run cfg st1 rs) as [st2 evs] eqn:Hrun. simpl.
    destruct (Z.leb_spec (unhealthy_threshold cfg) (consecutive_failures st1)); simpl in Hh1.
    - pose proof (Hstay rs st1 Hall' Hh1) as Hd. rewrite Hrun in Hd. simpl in Hd. rewrite Hd.
      symmetry. apply Z.ltb_ge. lia.
    - specialize (IH st1 Hh1 ltac:(lia) Hall' ltac:(lia)). rewrite Hrun in IH. simpl in IH. rewrite IH.
      replace (consecutive_failures st1 + Z.of_nat (length rs))
        with (consecutive_failures st + Z.of_nat (S (length rs))) by lia. done. }
  clear rs. induction rs as [|r rs IH]; intros st Hall Hh; cbn [health_run]; [done|].
  inversion_clear Hall as [|? ? Hr Hall']. pose proof (transition_step cfg st r) as Ht.
  destruct (calculate_health_transition st r cfg) as [st1 action]. rewrite Hr, Hh in Ht.
  destruct Ht as (_ & Hh1 & _). specialize (IH st1 Hall' Hh1).
  by destruct (health_run cfg st1 rs).
Qed.
