(* ===== verification/Shutdown.v ===== *)
(** * Graceful shutdown

    [src/src/infrastructure/shutdown.rs].  The controller's clones share their
    atomics, so its state is one record; tasks are interleaved as sequences of
    steps, each step one access: an atomic with the branch on what it returned, the
    broadcast, or the notification.
    [notify_waiters] wakes the [notified()] futures that exist when it is called
    and stores nothing for later ones. *)

From S2P Require Import Prelude.

Record ShutdownController := mkShutdown {
  shutdown_initiated : bool;
  sd_active_connections : Z;     (* AtomicUsize *)
  sd_signals : nat               (* messages sent on the broadcast channel *)
}.

Definition shutdown_new : ShutdownController := mkShutdown false 0 0.

(** The two accesses of [shutdown]: the [swap], with whether the flag was clear, and the
    broadcast, which only the first call gets to. *)
Definition sd_swap (c : ShutdownController) : ShutdownController * bool :=
  (mkShutdown true (sd_active_connections c) (sd_signals c), negb (shutdown_initiated c)).

Definition sd_send (c : ShutdownController) : ShutdownController :=
  mkShutdown (shutdown_initiated c) (sd_active_connections c) (S (sd_signals c)).

(** [shutdown], undisturbed. *)
Definition sd_shutdown (c : ShutdownController) : ShutdownController :=
  let '(c', first) := sd_swap c in if first then sd_send c' else c'.

Definition is_shutdown (c : ShutdownController) : bool := shutdown_initiated c.

Definition connection_started (c : ShutdownController) : ShutdownController :=
  mkShutdown (shutdown_initiated c) (sd_active_connections c +u64 1) (sd_signals c).

(** [shutdown_signal]: whichever of the two signals comes first; [None] is the panic
    when a handler cannot be installed. *)
Inductive os_signal := CtrlC | SigTerm.

Definition shutdown_signal (received : result os_signal string) (c : ShutdownController) : option ShutdownController :=
  match received with
  | Ok CtrlC | Ok SigTerm => Some (sd_shutdown c)
  | Err _ => None
  end.

(** The [fetch_sub] of [connection_ended]: the controller, and whether the previous
    count was one. *)
Definition ended_sub (c : ShutdownController) : ShutdownController * bool :=
  let prev := sd_active_connections c in
  (mkShutdown (shutdown_initiated c) (prev -u64 1) (sd_signals c), prev =? 1).

(** [connection_ended], undisturbed: the controller, and whether [notify_waiters] is called. *)
Definition connection_ended (c : ShutdownController) : ShutdownController * bool :=
  let '(c', last) := ended_sub c in (c', last && is_shutdown c').

(** A task in [wait_for_drain]. *)
Inductive waiter :=
| WChecked              (* saw a non-zero count; [notified()] not yet created *)
| WWaiting              (* in the [select!] *)
| WDone (drained : bool).

(** The controller with the live guards (a guard is created by [connection_guard]
    and dropped once), the calls that are between two accesses, and the tasks
    waiting for the drain. *)
Record shutdown_sys := mkSdSys {
  sd_ctl : ShutdownController;
  sd_guards : nat;
  sd_tests : nat;        (* drops that took the count from one, about to read the flag *)
  sd_notifies : nat;     (* drops that read it set, about to call notify_waiters *)
  sd_sends : nat;        (* calls of shutdown that found the flag clear, about to send *)
  sd_waiters : gmap nat waiter
}.

Inductive sd_op :=
| SdGuard                    (* connection_guard *)
| SdDrop                     (* a guard goes out of scope: connection_ended's fetch_sub *)
| SdTest                     (* after a count of one: is_shutdown *)
| SdNotify                   (* and notify_waiters *)
| SdSwap                     (* shutdown: the swap *)
| SdSend                     (* shutdown: the broadcast *)
| SdCheck (i : nat)          (* wait_for_drain: the count is read *)
| SdRegister (i : nat)       (* wait_for_drain: the notified() future is created *)
| SdTimeout (i : nat).       (* wait_for_drain: the sleep ends *)

Definition wake (w : waiter) : waiter :=
  match w with WWaiting => WDone true | _ => w end.

Definition sd_step (s : shutdown_sys) (op : sd_op) : shutdown_sys :=
  let '(mkSdSys c guards tests notifies sends waiters) := s in
  match op with
  | SdGuard => mkSdSys (connection_started c) (S guards) tests notifies sends waiters
  | SdDrop =>
      match guards with
      | O => s
      | S n =>
          let '(c', last) := ended_sub c in
          mkSdSys c' n (if last then S tests else tests) notifies sends waiters
      end
  | SdTest =>
      match tests with
      | O => s
      | S n => mkSdSys c guards n (if is_shutdown c then S notifies else notifies) sends waiters
      end
  | SdNotify =>
      match notifies with
      | O => s
      | S n => mkSdSys c guards tests n sends (wake <$> waiters)
      end
  | SdSwap =>
      let '(c', first) := sd_swap c in
      mkSdSys c' guards tests notifies (if first then S sends else sends) waiters
  | SdSend =>
      match sends with
      | O => s
      | S n => mkSdSys (sd_send c) guards tests notifies n waiters
      end
  | SdCheck i =>
      match waiters !! i with
      | Some _ => s
      | None => mkSdSys c guards tests notifies sends
                  (<[i := if sd_active_connections c =? 0 then WDone true else WChecked]> waiters)
      end
  | SdRegister i =>
      match waiters !! i with
      | Some WChecked => mkSdSys c guards tests notifies sends (<[i := WWaiting]> waiters)
      | _ => s
      end
  | SdTimeout i =>
      match waiters !! i with
      | Some WWaiting => mkSdSys c guards tests notifies sends (<[i := WDone false]> waiters)
      | _ => s
      end
  end.

Definition sd_init : shutdown_sys := mkSdSys shutdown_new 0 0 0 0 ∅.

(** ** Properties *)

(** The counter is the number of live guards, and if and only if the shutdown was
    initiated the signal has been sent once or is about to be. *)
Definition sd_inv (s : shutdown_sys) : Prop :=
  sd_active_connections (sd_ctl s) = wrap 64 (Z.of_nat (sd_guards s)) ∧
  (sd_signals (sd_ctl s) + sd_sends s = if shutdown_initiated (sd_ctl s) then 1 else 0)%nat.

Lemma sd_step_inv s op : sd_inv s → sd_inv (sd_step s op).
Proof.
  destruct s as [c g tests k sends ws]. unfold sd_inv; cbn [sd_ctl sd_guards sd_sends]. intros [Ha Hs].
  destruct op as [| | | | | |i|i|i]; simpl.
  - split; [|done]. rewrite Ha, wrap_add_l by lia. f_equal. lia.
  - destruct g as [|n]; [done|]. simpl. split; [|done].
    rewrite Ha. unfold Z.sub. rewrite wrap_add_l by lia. f_equal. lia.
  - by destruct tests.
  - by destruct k.
  - split; [done|]. destruct (shutdown_initiated c); simpl; lia.
  - destruct sends as [|n]; [done|]. simpl. split; [done|lia].
  - by destruct (ws !! i).
  - by destruct (ws !! i) as [[]|].
  - by destruct (ws !! i) as [[]|].
Qed.

(** A task that waits during a shutdown with a connection active, or with a
    notification on its way, or that is done. *)
Definition served (i : nat) (s : shutdown_sys) : Prop :=
  shutdown_initiated (sd_ctl s) = true ∧
  ((∃ b, sd_waiters s !! i = Some (WDone b)) ∨
   sd_waiters s !! i = Some WWaiting ∧ (0 < sd_guards s + sd_tests s + sd_notifies s)%nat).

Lemma served_step i s op : sd_inv s ∧ served i s → sd_inv (sd_step s op) ∧ served i (sd_step s op).
Proof.
  intros [Hinv Hs]. split; [by apply sd_step_inv|].
  destruct s as [c g tests k sends ws]. destruct Hinv as [Ha _]. destruct Hs as [Hd Hw].
  unfold served in *; cbn [sd_ctl sd_guards sd_tests sd_notifies sd_waiters] in *.
  assert (∀ n : nat, (0 < n)%nat → (∃ b, ws !! i = Some (WDone b)) ∨ ws !! i = Some WWaiting ∧ (0 < n)%nat) as Hmore.
  { intros n Hn. destruct Hw as [?|[? _]]; [by left|by right]. }
  destruct op as [| | | | | |j|j|j]; simpl.
  - split; [done|]. apply Hmore. lia.
  - destruct g as [|[|n]]; simpl; (split; [done|]); [done|..].
    + rewrite Ha. apply Hmore. vm_compute. lia.
    + apply Hmore. lia.
  - destruct tests as [|n]; simpl; (split; [done|]); [done|]. unfold is_shutdown. rewrite Hd. apply Hmore. lia.
  - destruct k as [|n]; simpl; (split; [done|]); [done|]. rewrite lookup_fmap.
    left. destruct Hw as [[b ->]|[-> _]]; by eexists.
  - by split.
  - by destruct sends.
  - destruct (ws !! j) eqn:Hj; simpl; [by split|]. split; [done|].
    rewrite lookup_insert_ne; [done|]. intros ->. destruct Hw as [[b Hb]|[Hb _]]; congruence.
  - destruct (ws !! j) as [[]|] eqn:Hj; simpl; try by split. split; [done|].
    rewrite lookup_insert_ne; [done|]. intros ->. destruct Hw as [[b Hb]|[Hb _]]; congruence.
  - destruct (ws !! j) as [[]|] eqn:Hj; simpl; try by split. split; [done|].
    destruct (decide (j = i)) as [->|Hne]; [|by rewrite lookup_insert_ne].
    left. exists false. by rewrite lookup_insert_eq.
Qed.

(** C38: in every interleaving of the accesses of guards being created and dropped,
    shutdown requests and waiting tasks, the active count is the number of live guards
    (below [2^64]), and the shutdown signal is broadcast once if the shutdown was
    initiated, never otherwise: once the flag is set it has been sent, or the one call
    that set it is about to send it.  No wake-up is lost once a task is waiting: if it
    waits during a shutdown with a connection active, then, whatever happens
    next, it is done when no guard is left and every drop has run to its end. *)
Theorem shutdown_accounting ops :
  let s := foldl sd_step sd_init ops in
  (Z.of_nat (sd_guards s) < 2 ^ 64 → sd_active_connections (sd_ctl s) = Z.of_nat (sd_guards s)) ∧
  (sd_signals (sd_ctl s) + sd_sends s = if shutdown_initiated (sd_ctl s) then 1 else 0)%nat ∧
  ∀ i ops',
    shutdown_initiated (sd_ctl s) = true → (0 < sd_guards s)%nat → sd_waiters s !! i = Some WWaiting →
    let s' := foldl sd_step s ops' in
    sd_guards s' = 0%nat → sd_tests s' = 0%nat → sd_notifies s' = 0%nat → ∃ b, sd_waiters s' !! i = Some (WDone b).
Proof.
  intros s. assert (sd_inv s) as Hinv.
  { apply (foldl_invariant sd_step sd_inv); [apply sd_step_inv|done]. }
  split_and!; [|apply Hinv|].
  - intros Hlt. destruct Hinv as [-> _]. rewrite wrap_small; [done|]. unfold in_range. lia.
  - intros i ops' Hd Hg Hw s' Hg' Ht' Hn'.
    assert (sd_inv s' ∧ served i s') as [_ [_ Hs]].
    { apply (foldl_invariant sd_step (fun s => sd_inv s ∧ served i s)); [apply served_step|].
      split; [done|]. split; [done|]. right. split; [done|lia]. }
    destruct Hs as [?|[_ ?]]; [done|]. lia.
Qed.

Definition example_shutdown : list sd_op :=
  [SdGuard; SdGuard; SdSwap; SdCheck 0; SdSwap; SdSend; SdRegister 0; SdDrop].

Lemma shutdown_accounting_witness :
  let s := foldl sd_step sd_init example_shutdown in
  sd_active_connections (sd_ctl s) = 1 ∧ sd_signals (sd_ctl s) = 1%nat ∧
  ∃ b, sd_waiters (foldl sd_step s [SdDrop; SdTest; SdNotify]) !! 0%nat = Some (WDone b).
Proof.
  destruct (shutdown_accounting example_shutdown) as (Ha & Hs & Hw).
  split; [apply Ha; vm_compute; reflexivity|]. split; [change (sd_signals (sd_ctl (foldl sd_step sd_init example_shutdown)) + 0 = 1)%nat in Hs; lia|].
  apply (Hw 0%nat [SdDrop; SdTest; SdNotify]); vm_compute; first [reflexivity|lia].
Defined.

(** Before it waits, a wake-up can be lost: a task that has read a non-zero count but
    has not yet created its [notified()] future misses the notification of the last
    drop, and then waits for the whole timeout and reports a failed drain, although
    nothing is active.  From [WWaiting] with no guard left only the timeout can
    release it. *)
Lemma lost_wakeup i :
  let s := foldl sd_step sd_init [SdGuard; SdSwap; SdSend; SdCheck i; SdDrop; SdTest; SdNotify; SdRegister i] in
  sd_guards s = 0%nat ∧ sd_active_connections (sd_ctl s) = 0 ∧ sd_waiters s !! i = Some WWaiting ∧
  foldl sd_step s [SdDrop; SdTest; SdNotify] = s ∧
  sd_waiters (sd_step s (SdTimeout i)) !! i = Some (WDone false).
Proof.
  cbn. rewrite lookup_empty; simpl.
  rewrite insert_empty, map_fmap_singleton; simpl. rewrite lookup_singleton_eq; simpl.
  rewrite lookup_insert_eq; simpl. by rewrite lookup_insert_eq.
Qed.

(** Between the two accesses of [shutdown]: a second caller returns with the flag set
    and nothing sent yet. *)
Lemma second_caller_before_broadcast :
  let s := foldl sd_step sd_init [SdSwap; SdSwap] in
  is_shutdown (sd_ctl s) = true ∧ sd_signals (sd_ctl s) = 0%nat ∧
  sd_signals (sd_ctl (foldl sd_step s [SdSend; SdSend])) = 1%nat.
Proof. by vm_compute. Qed.
