(* ===== verification/ConfigWatcher.v ===== *)
(** * Configuration hot reload

    [src/src/infrastructure/config_watcher.rs].  Events are the values handed to
    the broadcast channel, in order; a file system gives the modification time
    of a path or nothing.  A path is the text of its components (equal paths are
    equal strings).  [cw_set] is a call of [set] alone; [set_exec] lets calls overlap,
    since the event is sent after the lock has been released. *)

From S2P Require Import Prelude.

Inductive ConfigChange :=
| FileModified (path : string)
| ValueChanged (key : string) (old_value : option string) (new_value : string)
| FullReload.

Inductive ConfigWatchError :=
| FileError (path e : string)
| ParseError (e : string).

Definition config_watch_error_display (debug_path : string → string) (e : ConfigWatchError) : string :=
  match e with
  | FileError path e => "file error for " +:+ debug_path path +:+ ": " +:+ e
  | ParseError e => "parse error: " +:+ e
  end.

Record ConfigWatcher := mkWatcher {
  watched_files : gmap string Z;       (* path, modification time *)
  config_values : gmap string string;
  cw_poll_interval : duration
}.

Definition watcher_new (poll_interval : duration) : ConfigWatcher := mkWatcher ∅ ∅ poll_interval.

(** [std::fs::metadata(path).modified()]. *)
Abbreviation filesystem := (string → result Z string) (only parsing).

Definition watch_file (fs : filesystem) (w : ConfigWatcher) (path : string)
    : result ConfigWatcher ConfigWatchError :=
  match fs path with
  | Ok mtime => Ok (mkWatcher (<[path := mtime]> (watched_files w)) (config_values w) (cw_poll_interval w))
  | Err e => Err (FileError path e)
  end.

Definition unwatch_file (w : ConfigWatcher) (path : string) : ConfigWatcher :=
  mkWatcher (delete path (watched_files w)) (config_values w) (cw_poll_interval w).

(** [set]: the watcher, and the events sent. *)
Definition cw_set (w : ConfigWatcher) (key value : string) : ConfigWatcher * list ConfigChange :=
  let old_value := config_values w !! key in
  (mkWatcher (watched_files w) (<[key := value]> (config_values w)) (cw_poll_interval w),
   if bool_decide (old_value = Some value) then [] else [ValueChanged key old_value value]).

Definition cw_get (w : ConfigWatcher) (key : string) : option string := config_values w !! key.

Definition cw_get_or (w : ConfigWatcher) (key dflt : string) : string := default dflt (config_values w !! key).

Definition cw_get_all (w : ConfigWatcher) : gmap string string := config_values w.

Definition notify_reload : list ConfigChange := [FullReload].

(** One entry of the loop of [check_files]. *)
Definition check_file (fs : filesystem) (acc : gmap string Z * list string) (kv : string * Z)
    : gmap string Z * list string :=
  let '(files, modified) := acc in
  match fs (fst kv) with
  | Ok mtime => if snd kv <? mtime then (<[fst kv := mtime]> files, modified ++ [fst kv]) else acc
  | Err _ => acc
  end.

Definition check_files (fs : filesystem) (w : ConfigWatcher) : ConfigWatcher * list string :=
  let '(files, modified) := foldl (check_file fs) (watched_files w, []) (map_to_list (watched_files w)) in
  (mkWatcher files (config_values w) (cw_poll_interval w), modified).

(** One tick of the task of [start]. *)
Definition watch_turn (fs : filesystem) (w : ConfigWatcher) : ConfigWatcher * list ConfigChange :=
  let '(w', modified) := check_files fs w in (w', FileModified <$> modified).

Definition watched_count (w : ConfigWatcher) : nat := size (watched_files w).

(** [HotValue]: nothing but [set] changes it. *)
Record HotValue (T : Type) := mkHot { hot_value : T; hot_key : string }.
Arguments mkHot {T}. Arguments hot_value {T}. Arguments hot_key {T}.

Definition hot_get {T} (h : HotValue T) : T := hot_value h.
Definition hot_set {T} (h : HotValue T) (v : T) : HotValue T := mkHot v (hot_key h).

(** ** Properties *)

(** What a subscriber can rebuild from the events alone. *)
Definition replay (m : gmap string string) (e : ConfigChange) : gmap string string :=
  match e with
  | ValueChanged k _ v => <[k := v]> m
  | _ => m
  end.

(** A series of [set] calls, with the events. *)
Fixpoint set_run (w : ConfigWatcher) (kvs : list (string * string)) : ConfigWatcher * list ConfigChange :=
  match kvs with
  | [] => (w, [])
  | (k, v) :: kvs' =>
      let '(w1, e) := cw_set w k v in
      let '(w2, es) := set_run w1 kvs' in
      (w2, e ++ es)
  end.

(** An event is truthful at [m] if it reports a change, with the value before it. *)
Definition truthful (m : gmap string string) (e : ConfigChange) : Prop :=
  match e with
  | ValueChanged k old v => old = m !! k ∧ old ≠ Some v
  | _ => False
  end.

Fixpoint truthful_run (m : gmap string string) (es : list ConfigChange) : Prop :=
  match es with
  | [] => True
  | e :: es' => truthful m e ∧ truthful_run (replay m e) es'
  end.

(** The events of any series of [set] calls tell the whole story: replaying
    them over the values at the start gives exactly the values at the end, each
    reports a real change, and each carries the value that was current before it. *)
Lemma events_replay_values w kvs :
  let '(w', es) := set_run w kvs in
  foldl replay (cw_get_all w) es = cw_get_all w' ∧ truthful_run (cw_get_all w) es.
Proof.
  revert w. induction kvs as [|[k v] kvs IH]; intros w; [done|].
  cbn [set_run]. unfold cw_set.
  set (w1 := mkWatcher _ _ _). specialize (IH w1). destruct (set_run w1 kvs) as [w2 es].
  unfold cw_get_all in *. simpl in IH. case_bool_decide as Heq; simpl; [|by destruct IH].
  by rewrite (insert_id _ _ _ Heq) in IH.
Qed.

(** ** Overlapping calls of [set]

    Each call is two steps: storing the value under the lock, sending the event. *)
Record set_race := mkSetRace {
  sr_watcher : ConfigWatcher;
  sr_pending : gmap nat (list ConfigChange);     (* stored, not yet sent *)
  sr_sent : list ConfigChange
}.

Inductive set_label := SStore (t : nat) (key value : string) | SSend (t : nat).

Definition set_exec (st : set_race) (l : set_label) : option set_race :=
  match l with
  | SStore t key value =>
      match sr_pending st !! t with
      | None =>
          let '(w, events) := cw_set (sr_watcher st) key value in
          Some (mkSetRace w (<[t := events]> (sr_pending st)) (sr_sent st))
      | Some _ => None
      end
  | SSend t =>
      events ← sr_pending st !! t;
      Some (mkSetRace (sr_watcher st) (delete t (sr_pending st)) (sr_sent st ++ events))
  end.

Fixpoint set_race_run (st : set_race) (ls : list set_label) : option set_race :=
  match ls with
  | [] => Some st
  | l :: ls' => st' ← set_exec st l; set_race_run st' ls'
  end.

(** The calls of a schedule, in the order in which they store. *)
Fixpoint stores (ls : list set_label) : list (string * string) :=
  match ls with
  | [] => []
  | SStore _ k v :: ls' => (k, v) :: stores ls'
  | SSend _ :: ls' => stores ls'
  end.

(** In any interleaving, the values are those of the calls one after the other, and the
    events sent or still to be sent are theirs, each once. *)
Lemma set_race_run_spec ls st st' :
  set_race_run st ls = Some st' →
  let '(w, events) := set_run (sr_watcher st) (stores ls) in
  sr_watcher st' = w ∧
  sr_sent st' ++ map_concat id (sr_pending st') ≡ₚ sr_sent st ++ map_concat id (sr_pending st) ++ events.
Proof.
  revert st. induction ls as [|l ls IH]; intros st; cbn [set_race_run].
  { intros [= ->]. simpl. by rewrite app_nil_r. }
  intros (st1 & Hex & Hrun)%bind_Some. specialize (IH st1 Hrun).
  destruct l as [t k v|t]; cbn [set_exec] in Hex.
  - destruct (sr_pending st !! t) eqn:Ht; [done|]. cbn [stores set_run].
    destruct (cw_set (sr_watcher st) k v) as [w1 es]. injection Hex as <-. cbn [sr_watcher sr_pending sr_sent] in IH.
    destruct (set_run w1 (stores ls)) as [w2 es2]. destruct IH as [-> Hp]. split; [done|].
    rewrite Hp, map_concat_insert by done. simpl. solve_Permutation.
  - apply bind_Some in Hex as (es & Ht & [= <-]). cbn [sr_watcher sr_pending sr_sent] in IH. cbn [stores].
    destruct (set_run (sr_watcher st) (stores ls)) as [w2 es2]. destruct IH as [-> Hp]. split; [done|].
    rewrite Hp. rewrite <-(insert_delete_id (sr_pending st) t es) at 2 by done.
    rewrite map_concat_insert by apply lookup_delete_eq. simpl. solve_Permutation.
Qed.

(** But not in their order: after two overlapping calls for one key the last event
    names a value that is not the current one, so a subscriber that follows the events
    ends with the old value. *)
Lemma sets_race poll :
  ∃ st, set_race_run (mkSetRace (watcher_new poll) ∅ [])
      [SStore 1 "log" "info"; SStore 2 "log" "debug"; SSend 2; SSend 1] = Some st ∧
    sr_pending st = ∅ ∧ cw_get (sr_watcher st) "log" = Some "debug" ∧
    sr_sent st = [ValueChanged "log" (Some "info") "debug"; ValueChanged "log" None "info"] ∧
    foldl replay ∅ (sr_sent st) !! "log" = Some "info".
Proof. eexists. repeat split; vm_compute; reflexivity. Qed.

(** The newer modification time of a watched entry, if there is one. *)
Definition newer_mtime (fs : filesystem) (kv : string * Z) : option Z :=
  mtime ← result_ok (fs (fst kv)); if snd kv <? mtime then Some mtime else None.

Lemma check_file_newer fs files modified kv :
  check_file fs (files, modified) kv =
    match newer_mtime fs kv with
    | Some mtime => (<[fst kv := mtime]> files, modified ++ [fst kv])
    | None => (files, modified)
    end.
Proof. unfold check_file, newer_mtime. destruct (fs (fst kv)); simpl; [|done]. by case_match. Qed.

Lemma check_files_loop fs (l : list (string * Z)) files modified :
  NoDup l.*1 →
  let '(files', modified') := foldl (check_file fs) (files, modified) l in
  (∀ p last, (p, last) ∈ l →
     files' !! p = match newer_mtime fs (p, last) with Some mtime => Some mtime | None => files !! p end) ∧
  (∀ p, p ∉ l.*1 → files' !! p = files !! p) ∧
  (∀ p, p ∈ modified' ↔ p ∈ modified ∨ ∃ last, (p, last) ∈ l ∧ newer_mtime fs (p, last) ≠ None).
Proof.
  revert files modified. induction l as [|[q last] l IH]; intros files modified Hnd; cbn [foldl].
  { split_and!; [by intros ?? ?%elem_of_nil|done|]. intros p. split; [by left|].
    intros [?|(? & []%elem_of_nil & _)]; done. }
  cbn in Hnd. apply NoDup_cons in Hnd as [Hq Hnd]. rewrite check_file_newer.
  assert (∀ p la, (p, la) ∈ (q, last) :: l ↔ (p = q ∧ la = last) ∨ (p, la) ∈ l) as Hcons.
  { intros p la. rewrite elem_of_cons. naive_solver. }
  destruct (newer_mtime fs (q, last)) as [mtime|] eqn:Hnew; cbn [fst];
    (match goal with |- context [foldl _ (?f, ?m) l] => specialize (IH f m Hnd) end);
    destruct (foldl (check_file fs) _ l) as [files' modified']; destruct IH as (IH1 & IH2 & IH3);
    (split_and!; [intros p la; rewrite Hcons; intros [[-> ->]|Hin]|intros p; cbn; rewrite not_elem_of_cons; intros [? ?]|]).
  - by rewrite Hnew, IH2, lookup_insert_eq.
  - rewrite (IH1 p la Hin). case_match; [done|]. apply lookup_insert_ne. intros <-.
    apply Hq. apply list_elem_of_fmap. by exists (q, la).
  - by rewrite IH2, lookup_insert_ne.
  - intros p. rewrite IH3, elem_of_app, list_elem_of_singleton. setoid_rewrite Hcons.
    split; [intros [[?| ->]|(la & ? & ?)]; eauto 6; right; exists last; rewrite Hnew; auto|].
    intros [?|(la & [[-> ->]|?] & ?)]; eauto.
  - by rewrite Hnew, IH2.
  - by apply IH1.
  - by apply IH2.
  - intros p. rewrite IH3. setoid_rewrite Hcons.
    split; [intros [?|(la & ? & ?)]; eauto 6|]. intros [?|(la & [[-> ->]|?] & ?)]; eauto. congruence.
Qed.

(** A check of the files reports exactly the watched paths whose modification
    time is later than the recorded one, records the later time for them and
    leaves the rest as they are (missing files and clocks set back included);
    checking again without a change on disk reports nothing. *)
Lemma check_files_exact fs w :
  let '(w', modified) := check_files fs w in
  (∀ p, p ∈ modified ↔ ∃ last mtime, watched_files w !! p = Some last ∧ fs p = Ok mtime ∧ last < mtime) ∧
  (∀ p, watched_files w' !! p = 
     last ← watched_files w !! p; Some (default last (newer_mtime fs (p, last)))) ∧
  snd (check_files fs w') = [].
Proof.
  unfold check_files at 1.
  pose proof (check_files_loop fs (map_to_list (watched_files w)) (watched_files w) [] (NoDup_fst_map_to_list _)) as H.
  destruct (foldl (check_file fs) _ _) as [files' modified] eqn:Hf. destruct H as (H1 & H2 & H3).
  assert (∀ p, files' !! p = last ← watched_files w !! p; Some (default last (newer_mtime fs (p, last)))) as Hfiles.
  { intros p. destruct (watched_files w !! p) as [last|] eqn:Hp; simpl.
    - rewrite (H1 p last) by by apply elem_of_map_to_list. by case_match.
    - rewrite H2; [done|]. intros ([? la] & -> & Hin)%list_elem_of_fmap.
      apply elem_of_map_to_list in Hin. simpl in Hp. congruence. }
  assert (∀ p last, newer_mtime fs (p, last) ≠ None ↔ ∃ mtime, fs p = Ok mtime ∧ last < mtime) as Hnew.
  { intros p last. unfold newer_mtime; simpl. destruct (fs p) as [mtime|e]; simpl; [|naive_solver].
    case_match; zbool; split; naive_solver lia. }
  split_and!; [|exact Hfiles|].
  - intros p. rewrite H3. setoid_rewrite elem_of_map_to_list. setoid_rewrite Hnew. set_solver.
  - set (w' := mkWatcher _ _ _). unfold check_files.
    pose proof (check_files_loop fs (map_to_list (watched_files w')) (watched_files w') [] (NoDup_fst_map_to_list _)) as H.
    destruct (foldl (check_file fs) (watched_files w', []) _) as [files'' modified']. simpl.
    destruct H as (_ & _ & H3'). destruct modified' as [|p l]; [done|exfalso].
    destruct (proj1 (H3' p)) as [[]%elem_of_nil|(last & Hin & Hne)]; [left|].
    apply elem_of_map_to_list in Hin. simpl in Hin. rewrite Hfiles in Hin.
    apply bind_Some in Hin as (last0 & Hp & [= <-]). apply Hnew in Hne as (mtime & Hfs & Hlt).
    unfold newer_mtime in Hlt; simpl in Hlt. rewrite Hfs in Hlt; simpl in Hlt.
    case_match; simpl in Hlt; zbool; lia.
Qed.
