(* ===== verification/Channel.v ===== *)
(** * Bounded channels

    [tokio::sync::mpsc::channel(1024)], as [sync.rs] and [gossip.rs] use it: the
    sender awaits room in the queue and ignores the error that a dropped receiver
    gives.  A [send] on a full queue suspends the task ([None]); the modelled part
    of a call that suspends ends there. *)

From S2P Require Import Prelude.

Record chan (A : Type) := mkChan {
  chan_queue : list A;
  chan_open : bool               (* the receiver has not been dropped *)
}.
Arguments mkChan {A}. Arguments chan_queue {A}. Arguments chan_open {A}.

Definition CHANNEL_CAP : Z := 1024.

(** [let _ = event_tx.send(e).await] *)
Definition chan_send {A} (ch : chan A) (e : A) : option (chan A) :=
  if negb (chan_open ch) then Some ch
  else if Z.of_nat (length (chan_queue ch)) <? CHANNEL_CAP
  then Some (mkChan (chan_queue ch ++ [e]) (chan_open ch))
  else None.

Inductive outcome (A : Type) :=
| Finished (a : A)
| Suspended.
Arguments Finished {A} _.
Arguments Suspended {A}.

(** A channel that takes [n] more events without waiting. *)
Definition chan_room {A} (ch : chan A) (n : nat) : Prop :=
  chan_open ch = false ∨ Z.of_nat (length (chan_queue ch)) + Z.of_nat n <= CHANNEL_CAP.

Section channel.
Context {A : Type}.
Implicit Types (ch : chan A).

Lemma chan_send_room ch n e :
  chan_room ch (S n) → ∃ ch', chan_send ch e = Some ch' ∧ chan_room ch' n.
Proof.
  unfold chan_room, chan_send. intros [Hc|Hlen].
  - rewrite Hc. simpl. eauto.
  - destruct (chan_open ch) eqn:Ho; simpl; [|by eauto].
    rewrite (proj2 (Z.ltb_lt _ _)) by lia. eexists. split; [done|]. right. simpl.
    rewrite length_app; simpl. lia.
Qed.

Lemma chan_room_S ch n : chan_room ch (S n) → chan_room ch n.
Proof. unfold chan_room. intros [?|?]; [by left|right; lia]. Qed.
End channel.

#[export] Hint Resolve chan_room_S : edge.
