(* ===== verification/ReplTypes.v ===== *)
(** * Replication types

    [src/src/replication/types.rs] and [src/src/replication/config.rs].  The CRC-32
    function ([crc32fast]) and the binary encoding ([bincode]) are parameters, in
    the class [Digests]; the wall clock is an argument ([now_us] in microseconds,
    [now_ns] in nanoseconds). *)

From S2P Require Import Prelude.

(** ** Nodes and timestamps *)

Record NodeId := mkNodeId { node_str : string }.

#[export] Instance NodeId_eq_dec : EqDecision NodeId.
Proof. solve_decision. Defined.

Record HLCTimestamp := mkHlc {
  wall_time : Z;     (* u64, microseconds *)
  ts_counter : Z;    (* u32 *)
  node_hash : Z      (* u32 *)
}.

#[export] Instance HLCTimestamp_eq_dec : EqDecision HLCTimestamp.
Proof. solve_decision. Defined.

Definition hlc_default : HLCTimestamp := mkHlc 0 0 0.

(** The derived [Ord]: fields in declaration order. *)
Definition hlc_compare (a b : HLCTimestamp) : comparison :=
  match wall_time a ?= wall_time b with
  | Eq => match ts_counter a ?= ts_counter b with
          | Eq => node_hash a ?= node_hash b
          | c => c
          end
  | c => c
  end.

Definition hlc_ltb (a b : HLCTimestamp) : bool :=
  match hlc_compare a b with Lt => true | _ => false end.

Definition hlc_leb (a b : HLCTimestamp) : bool :=
  match hlc_compare a b with Gt => false | _ => true end.

(** ** Changes *)

Inductive ChangeKind := KInsert | KUpdate | KDelete.

#[export] Instance ChangeKind_eq_dec : EqDecision ChangeKind.
Proof. solve_decision. Defined.

(** [format!("{:?}", kind)] *)
Definition change_kind_debug (k : ChangeKind) : string :=
  match k with KInsert => "Insert" | KUpdate => "Update" | KDelete => "Delete" end.

Record Change := mkChange {
  ch_id : Z;
  ch_table : string;
  ch_pk : string;
  ch_kind : ChangeKind;
  ch_data : string;
  ch_timestamp : HLCTimestamp;
  ch_origin : NodeId
}.

#[export] Instance Change_eq_dec : EqDecision Change.
Proof. solve_decision. Defined.

Definition wins_over (c other : Change) : bool := hlc_ltb (ch_timestamp other) (ch_timestamp c).

(** [rand_u32] and [rand_id], from the clock readings they make. *)
Definition rand_u32 (now_ns : Z) : Z := wrap 32 (wrap 32 (wrap 32 now_ns * 1664525) + 1013904223).
Definition rand_id (now_ns now_ns' : Z) : Z := Z.lxor (wrap 64 now_ns) (rand_u32 now_ns').

Record ChangeSet := mkChangeSet {
  cs_source : NodeId;
  cs_seq : Z;
  cs_changes : list Change;
  cs_checksum : Z
}.

#[export] Instance ChangeSet_eq_dec : EqDecision ChangeSet.
Proof. solve_decision. Defined.

Inductive Message :=
| MBroadcast (cs : ChangeSet)
| MSyncRequest (from_seq : Z) (table : option string)
| MSyncResponse (css : list ChangeSet)
| MAck (source : NodeId) (seq : Z)
| MPing
| MPong.

(** Code outside the repository: the checksum and the encoding of a list of changes. *)
Class Digests := {
  crc32 : string → Z;
  serialize_changes : list Change → result string string
}.

Section digests.
Context `{Digests}.

Definition hlc_now (now_us : Z) (node : NodeId) : HLCTimestamp :=
  mkHlc (wrap 64 now_us) 0 (crc32 (node_str node)).

Definition hlc_tick (self : HLCTimestamp) (other : option HLCTimestamp) (now_us : Z) (node : NodeId)
    : HLCTimestamp :=
  let now := wrap 64 now_us in
  match other with
  | Some o =>
      let max_wall := Z.max (Z.max now (wall_time self)) (wall_time o) in
      let counter :=
        if (max_wall =? wall_time self) && (max_wall =? wall_time o)
        then Z.max (ts_counter self) (ts_counter o) +u32 1
        else if max_wall =? wall_time self then ts_counter self +u32 1
        else if max_wall =? wall_time o then ts_counter o +u32 1
        else 0 in
      mkHlc max_wall counter (crc32 (node_str node))
  | None =>
      let max_wall := Z.max now (wall_time self) in
      let counter := if max_wall =? wall_time self then ts_counter self +u32 1 else 0 in
      mkHlc max_wall counter (crc32 (node_str node))
  end.

Definition change_new (now_us now_ns now_ns' : Z) (table pk : string) (kind : ChangeKind) (data : string)
    (node : NodeId) : Change :=
  mkChange (rand_id now_ns now_ns') table pk kind data (hlc_now now_us node) node.

(** [bincode::serialize(changes).unwrap_or_default()]: no bytes on an error. *)
Definition compute_checksum (changes : list Change) : Z :=
  crc32 (match serialize_changes changes with Ok bytes => bytes | Err _ => "" end).

Definition changeset_new (source : NodeId) (seq : Z) (changes : list Change) : ChangeSet :=
  mkChangeSet source seq changes (compute_checksum changes).

Definition cs_verify (cs : ChangeSet) : bool := cs_checksum cs =? compute_checksum (cs_changes cs).
End digests.

(** ** Configuration *)

(** [SocketAddr] as its text. *)
Record ReplicationConfig := mkReplConfig {
  rc_node_id : string;
  rc_gossip_addr : string;
  rc_transport_addr : string;
  rc_bootstrap_peers : list string;
  rc_db_path : string;
  rc_cluster_name : string;
  rc_gossip_interval : duration;
  rc_sync_interval : duration;
  rc_max_pending_changes : Z;
  rc_broadcast_rate_limit : Z;
  rc_tls_enabled : bool
}.

Definition replication_config_default : ReplicationConfig :=
  mkReplConfig "" "0.0.0.0:4001" "0.0.0.0:4002" [] "state.db" "edgeproxy"
    (from_millis 500) (from_millis 100) 1000 (10 * 1024 * 1024) true.

Definition with_gossip_addr (a : string) (c : ReplicationConfig) : ReplicationConfig :=
  mkReplConfig (rc_node_id c) a (rc_transport_addr c) (rc_bootstrap_peers c) (rc_db_path c)
    (rc_cluster_name c) (rc_gossip_interval c) (rc_sync_interval c) (rc_max_pending_changes c)
    (rc_broadcast_rate_limit c) (rc_tls_enabled c).
Definition with_transport_addr (a : string) (c : ReplicationConfig) : ReplicationConfig :=
  mkReplConfig (rc_node_id c) (rc_gossip_addr c) a (rc_bootstrap_peers c) (rc_db_path c)
    (rc_cluster_name c) (rc_gossip_interval c) (rc_sync_interval c) (rc_max_pending_changes c)
    (rc_broadcast_rate_limit c) (rc_tls_enabled c).
Definition with_bootstrap_peers (ps : list string) (c : ReplicationConfig) : ReplicationConfig :=
  mkReplConfig (rc_node_id c) (rc_gossip_addr c) (rc_transport_addr c) ps (rc_db_path c)
    (rc_cluster_name c) (rc_gossip_interval c) (rc_sync_interval c) (rc_max_pending_changes c)
    (rc_broadcast_rate_limit c) (rc_tls_enabled c).
Definition with_db_path (p : string) (c : ReplicationConfig) : ReplicationConfig :=
  mkReplConfig (rc_node_id c) (rc_gossip_addr c) (rc_transport_addr c) (rc_bootstrap_peers c) p
    (rc_cluster_name c) (rc_gossip_interval c) (rc_sync_interval c) (rc_max_pending_changes c)
    (rc_broadcast_rate_limit c) (rc_tls_enabled c).
Definition with_cluster_name (n : string) (c : ReplicationConfig) : ReplicationConfig :=
  mkReplConfig (rc_node_id c) (rc_gossip_addr c) (rc_transport_addr c) (rc_bootstrap_peers c) (rc_db_path c)
    n (rc_gossip_interval c) (rc_sync_interval c) (rc_max_pending_changes c)
    (rc_broadcast_rate_limit c) (rc_tls_enabled c).
Definition replication_config_new (node_id : string) : ReplicationConfig :=
  let c := replication_config_default in
  mkReplConfig node_id (rc_gossip_addr c) (rc_transport_addr c) (rc_bootstrap_peers c) (rc_db_path c)
    (rc_cluster_name c) (rc_gossip_interval c) (rc_sync_interval c) (rc_max_pending_changes c)
    (rc_broadcast_rate_limit c) (rc_tls_enabled c).

Inductive ConfigError := MissingNodeId | MissingClusterName.

Definition rc_validate (c : ReplicationConfig) : result unit ConfigError :=
  if String.eqb (rc_node_id c) "" then Err MissingNodeId
  else if String.eqb (rc_cluster_name c) "" then Err MissingClusterName
  else Ok tt.

(** ** The order of timestamps *)

Ltac zcompare :=
  repeat match goal with
  | H : context [?a ?= ?b] |- _ => destruct (Z.compare_spec a b)
  | |- context [?a ?= ?b] => destruct (Z.compare_spec a b)
  end.

Lemma hlc_ltb_spec a b :
  hlc_ltb a b = true ↔
  wall_time a < wall_time b ∨
  (wall_time a = wall_time b ∧ (ts_counter a < ts_counter b ∨
     (ts_counter a = ts_counter b ∧ node_hash a < node_hash b))).
Proof. unfold hlc_ltb, hlc_compare. zcompare; split; try done; lia. Qed.

Lemma hlc_leb_ltb a b : hlc_leb a b = negb (hlc_ltb b a).
Proof. unfold hlc_leb, hlc_ltb, hlc_compare. zcompare; try done; lia. Qed.

Lemma hlc_ltb_irrefl a : hlc_ltb a a = false.
Proof. apply not_true_iff_false. rewrite hlc_ltb_spec. lia. Qed.

Lemma hlc_ltb_trans a b c : hlc_ltb a b = true → hlc_ltb b c = true → hlc_ltb a c = true.
Proof. rewrite !hlc_ltb_spec. lia. Qed.

(** Trichotomy. *)
Lemma hlc_ltb_total a b : hlc_ltb a b = false → hlc_ltb b a = false → a = b.
Proof.
  rewrite <-!not_true_iff_false, !hlc_ltb_spec. intros H1 H2. destruct a, b; simpl in *. f_equal; lia.
Qed.

(** C37: [tick] gives a timestamp greater than its own and than the other's, never
    behind the wall clock, whatever the clock reads (a clock set back included),
    as long as the two logical counters have not reached [u32::MAX]; and greater
    is a strict order (irreflexive and transitive), total on timestamps. *)
Theorem tick_greater `{Digests} self other now_us node :
  ts_counter self < 2 ^ 32 - 1 → 0 <= ts_counter self →
  (∀ o, other = Some o → 0 <= ts_counter o < 2 ^ 32 - 1) →
  let t := hlc_tick self other now_us node in
  hlc_ltb self t = true ∧ (∀ o, other = Some o → hlc_ltb o t = true) ∧ wrap 64 now_us <= wall_time t ∧
  (∀ a, hlc_ltb a a = false) ∧
  (∀ a b c, hlc_ltb a b = true → hlc_ltb b c = true → hlc_ltb a c = true) ∧
  (∀ a b, hlc_ltb a b = true ∨ a = b ∨ hlc_ltb b a = true).
Proof.
  intros Hs Hs0 Ho t.
  assert (∀ a b, hlc_ltb a b = true ∨ a = b ∨ hlc_ltb b a = true) as Htot.
  { intros a b. destruct (hlc_ltb a b) eqn:H1; [by left|]. destruct (hlc_ltb b a) eqn:H2; [auto|].
    right; left. by apply hlc_ltb_total. }
  assert (∀ n, 0 <= n < 2 ^ 32 - 1 → n +u32 1 = n + 1) as Hw.
  { intros n Hn. apply wrap_small. unfold in_range. lia. }
  subst t. destruct other as [o|]; simpl.
  - specialize (Ho o eq_refl).
    set (w := Z.max (Z.max (wrap 64 now_us) (wall_time self)) (wall_time o)).
    split_and!; [| |simpl; lia|exact hlc_ltb_irrefl|exact hlc_ltb_trans|done].
    + apply hlc_ltb_spec; simpl. rewrite !Hw by lia.
      destruct (Z.eqb_spec w (wall_time self)), (Z.eqb_spec w (wall_time o)); simpl; lia.
    + intros ? [= <-]. apply hlc_ltb_spec; simpl. rewrite !Hw by lia.
      destruct (Z.eqb_spec w (wall_time self)), (Z.eqb_spec w (wall_time o)); simpl; lia.
  - split_and!; [|done|simpl; lia|exact hlc_ltb_irrefl|exact hlc_ltb_trans|done]. apply hlc_ltb_spec; simpl. rewrite Hw by lia.
    destruct (Z.eqb_spec (Z.max (wrap 64 now_us) (wall_time self)) (wall_time self)); lia.
Qed.

(** A stand-in for the external functions, to run the definitions: a checksum that
    adds up the characters, and an encoding that concatenates keys and data. *)
Fixpoint sum_chars (s : string) : Z :=
  match s with
  | EmptyString => 0
  | String a s' => wrap 32 (Z.of_nat (Ascii.nat_of_ascii a) + 31 * sum_chars s')
  end.

Definition demo_digests : Digests := {|
  crc32 := sum_chars;
  serialize_changes cs := Ok (String.concat "," ((fun c => ch_table c +:+ ch_pk c +:+ ch_data c) <$> cs))
|}.

Lemma tick_greater_witness :
  let t := @hlc_tick demo_digests (mkHlc 100 7 1) (Some (mkHlc 100 9 2)) 50 (mkNodeId "n") in
  hlc_ltb (mkHlc 100 7 1) t = true ∧ hlc_ltb (mkHlc 100 9 2) t = true ∧ ts_counter t = 10.
Proof.
  destruct (@tick_greater demo_digests (mkHlc 100 7 1) (Some (mkHlc 100 9 2)) 50 (mkNodeId "n"))
    as (H1 & H2 & _); simpl; [lia|lia|by intros ? [= <-]; simpl; lia|].
  split; [exact H1|]. split; [by apply H2|reflexivity].
Defined.

(** With the counter at [u32::MAX] the increment wraps and [tick] goes backwards. *)
Example tick_overflow `{Digests} w node :
  0 < w < 2 ^ 64 → hlc_ltb (mkHlc w (2 ^ 32 - 1) 0) (hlc_tick (mkHlc w (2 ^ 32 - 1) 0) None 0 node) = false.
Proof.
  intros Hw. apply not_true_iff_false. rewrite hlc_ltb_spec. simpl.
  change (wrap 64 0) with 0. rewrite Z.max_r, Z.eqb_refl by lia.
  change (wrap 32 _) with 0. lia.
Qed.
