(* ===== verification/Sync.v ===== *)
(** * Sync service

    [src/src/replication/sync.rs]: changes are recorded, flushed as numbered change
    sets, and applied with last-write-wins.  The database is any [SqlDb]; JSON
    ([serde_json]) is the class [SerdeJson].  A call that has to wait for room in the
    event channel is [Suspended], with everything done before it in place. *)

From S2P Require Import Prelude Text Channel ReplTypes Sql.

(** ** Version vectors *)

Record VersionVector := mkVV { versions : gmap string Z }.

Definition vv_new : VersionVector := mkVV ∅.

Definition vv_get (v : VersionVector) (node_id : string) : Z := default 0 (versions v !! node_id).

Definition vv_update (v : VersionVector) (node_id : string) (seq : Z) : VersionVector :=
  let current := default 0 (versions v !! node_id) in
  mkVV (<[node_id := if current <? seq then seq else current]> (versions v)).

Definition vv_has_seen (v : VersionVector) (node_id : string) (seq : Z) : bool := seq <=? vv_get v node_id.

Definition vv_merge (v other : VersionVector) : VersionVector :=
  foldl (fun v p => vv_update v (fst p) (snd p)) v (map_to_list (versions other)).

(** ** The event channel *)

Inductive SyncEvent :=
| ChangeApplied (c : Change)
| BroadcastReady (cs : ChangeSet)
| PeerSynced (node_id : NodeId) (changes_applied : Z).

Abbreviation event_chan := (chan SyncEvent) (only parsing).

(** JSON values, as far as the code looks into them. *)
Class SerdeJson := {
  json_value : Type;
  json_from_str : string → result json_value string;
  json_get_str : json_value → string → option string;   (* .get(k).and_then(as_str) *)
  json_get_i64 : json_value → string → option Z          (* .get(k).and_then(as_i64) *)
}.

Record SyncService (D : Type) := mkSync {
  sy_node_id : NodeId;
  sy_db : D;                                  (* the database at db_path *)
  sy_sequence : Z;                            (* AtomicU64 *)
  sy_version_vector : VersionVector;
  sy_pending_changes : list Change;
  sy_last_timestamps : gmap string HLCTimestamp;
  sy_events : event_chan
}.
Arguments mkSync {D}. Arguments sy_node_id {D}. Arguments sy_db {D}. Arguments sy_sequence {D}.
Arguments sy_version_vector {D}. Arguments sy_pending_changes {D}. Arguments sy_last_timestamps {D}.
Arguments sy_events {D}.

Section sync.
Context `{SqlDb D} `{Digests} `{SerdeJson}.
Implicit Types (s : SyncService D) (db : D).

Definition sync_new (node_id : NodeId) (db : D) : SyncService D :=
  mkSync node_id db 0 vv_new [] ∅ (mkChan [] true).

(** [init_db]: the rows that could be read before an error stay merged. *)
Fixpoint load_versions (v : VersionVector) (rows : list (string * Z)) : VersionVector * result unit string :=
  match rows with
  | [] => (v, Ok tt)
  | (node_id, raw) :: rows' =>
      match sql_unsigned 64 raw with
      | Ok seq => load_versions (vv_update v node_id seq) rows'
      | Err e => (v, Err e)
      end
  end.

Definition init_db s : SyncService D * result unit string :=
  match (let? _ := sql_open (sy_db s) in
         let? db := sql_create_tables (sy_db s) in
         let? rows := sql_select_versions db in
         Ok (db, rows)) with
  | Err e =>
      (match (let? _ := sql_open (sy_db s) in sql_create_tables (sy_db s)) with
       | Ok db => mkSync (sy_node_id s) db (sy_sequence s) (sy_version_vector s) (sy_pending_changes s)
                    (sy_last_timestamps s) (sy_events s)
       | Err _ => s
       end, Err e)
  | Ok (db, rows) =>
      let '(v, r) := load_versions (sy_version_vector s) rows in
      let seq := match r with
                 | Ok _ => default (sy_sequence s) (versions v !! node_str (sy_node_id s))
                 | Err _ => sy_sequence s
                 end in
      (mkSync (sy_node_id s) db seq v (sy_pending_changes s) (sy_last_timestamps s) (sy_events s), r)
  end.

Definition record_change s (now_us now_ns now_ns' : Z) (table pk : string) (kind : ChangeKind) (data : string)
    : SyncService D * Change :=
  let change := change_new now_us now_ns now_ns' table pk kind data (sy_node_id s) in
  (mkSync (sy_node_id s) (sy_db s) (sy_sequence s) (sy_version_vector s) (sy_pending_changes s ++ [change])
     (sy_last_timestamps s) (sy_events s), change).

Definition persist_version db (node_id : string) (seq : Z) : result D string :=
  let? _ := sql_open db in
  sql_replace_version db node_id (to_i64 seq).

(** [flush]; a failure to persist is only logged. *)
Definition flush s : SyncService D * outcome (option ChangeSet) :=
  match sy_pending_changes s with
  | [] => (s, Finished None)
  | changes =>
      let seq := sy_sequence s +u64 1 in
      let cs := changeset_new (sy_node_id s) seq changes in
      let v := vv_update (sy_version_vector s) (node_str (sy_node_id s)) seq in
      let db := match persist_version (sy_db s) (node_str (sy_node_id s)) seq with
                | Ok db => db
                | Err _ => sy_db s
                end in
      match chan_send (sy_events s) (BroadcastReady cs) with
      | Some ch => (mkSync (sy_node_id s) db seq v [] (sy_last_timestamps s) ch, Finished (Some cs))
      | None => (mkSync (sy_node_id s) db seq v [] (sy_last_timestamps s) (sy_events s), Suspended)
      end
  end.

(** [format!("{}:{}", change.table, change.pk)] *)
Definition lww_key (c : Change) : string := ch_table c +:+ ":" +:+ ch_pk c.

(** The row of the key, if its three columns read back as [u64], [u32], [u32];
    every error of [query_row] counts as no row ([.ok()]). *)
Definition read_lww db (key : string) : option HLCTimestamp :=
  raw ← sql_select_lww db key;
  let '(w, c, n) := raw in
  result_ok (let? w := sql_unsigned 64 w in
             let? c := sql_unsigned 32 c in
             let? n := sql_unsigned 32 n in
             Ok (mkHlc w c n)).

Definition should_apply_change db (last : gmap string HLCTimestamp) (c : Change) : result bool string :=
  let key := lww_key c in
  if match last !! key with Some last_ts => hlc_leb (ch_timestamp c) last_ts | None => false end
  then Ok false
  else
    let? _ := sql_prepare_lww db in
    match read_lww db key with
    | Some existing_ts => Ok (hlc_ltb existing_ts (ch_timestamp c))
    | None => Ok true
    end.

(** The row an [Insert] or [Update] writes. *)
Definition change_row (c : Change) (data : json_value) : BackendRow :=
  mkBackendRow
    (SqlText (ch_pk c))
    (SqlText (default "" (json_get_str data "app")))
    (SqlText (default "us" (json_get_str data "region")))
    (match json_get_str data "country" with Some s => SqlText s | None => SqlNull end)
    (SqlText (default "" (json_get_str data "wg_ip")))
    (SqlInteger (default 0 (json_get_i64 data "port")))
    (SqlInteger (default 1 (json_get_i64 data "healthy")))
    (SqlInteger (default 2 (json_get_i64 data "weight")))
    (SqlInteger (default 100 (json_get_i64 data "soft_limit")))
    (SqlInteger (default 150 (json_get_i64 data "hard_limit")))
    (SqlInteger 0).

Definition apply_backend_change db (c : Change) : result D string :=
  match ch_kind c with
  | KInsert | KUpdate =>
      let? data := json_from_str (ch_data c) in
      sql_replace_backend db (ch_pk c) (change_row c data)
  | KDelete => sql_delete_backend db (ch_pk c)
  end.

Definition hlc_to_sql (t : HLCTimestamp) : Z * Z * Z := (to_i64 (wall_time t), ts_counter t, node_hash t).

Definition log_row (now_secs : Z) (c : Change) : LogRow :=
  mkLogRow (to_i64 (ch_id c)) (ch_table c) (ch_pk c) (change_kind_debug (ch_kind c)) (ch_data c)
    (to_i64 (wall_time (ch_timestamp c))) (ts_counter (ch_timestamp c)) (node_hash (ch_timestamp c))
    (node_str (ch_origin c)) now_secs.

(** [apply_single_change]: what is in place when a statement fails stays. *)
Definition apply_single_change (now_secs : Z) db (last : gmap string HLCTimestamp) (c : Change)
    : D * gmap string HLCTimestamp * result unit string :=
  let key := lww_key c in
  match sql_replace_lww db key (hlc_to_sql (ch_timestamp c)) with
  | Err e => (db, last, Err e)
  | Ok db1 =>
      match (if String.eqb (ch_table c) "backends" then apply_backend_change db1 c else Ok db1) with
      | Err e => (db1, last, Err e)
      | Ok db2 =>
          let last' := <[key := ch_timestamp c]> last in
          match sql_insert_log db2 (log_row now_secs c) with
          | Err e => (db2, last', Err e)
          | Ok db3 => (db3, last', Ok tt)
          end
      end
  end.

(** The loop of [apply_changeset] over the changes. *)
Fixpoint apply_changes (now_secs : Z) db (last : gmap string HLCTimestamp) (ch : event_chan) (applied : Z)
    (changes : list Change) : D * gmap string HLCTimestamp * event_chan * outcome (result Z string) :=
  match changes with
  | [] => (db, last, ch, Finished (Ok applied))
  | c :: changes' =>
      match should_apply_change db last c with
      | Err e => (db, last, ch, Finished (Err e))
      | Ok false => apply_changes now_secs db last ch applied changes'
      | Ok true =>
          let '(db', last', r) := apply_single_change now_secs db last c in
          match r with
          | Err e => (db', last', ch, Finished (Err e))
          | Ok _ =>
              match chan_send ch (ChangeApplied c) with
              | None => (db', last', ch, Suspended)
              | Some ch' => apply_changes now_secs db' last' ch' (applied + 1) changes'
              end
          end
      end
  end.

Definition apply_changeset (now_secs : Z) s (cs : ChangeSet) : SyncService D * outcome (result Z string) :=
  if negb (cs_verify cs) then (s, Finished (Err "changeset checksum verification failed"))
  else if vv_has_seen (sy_version_vector s) (node_str (cs_source cs)) (cs_seq cs) then (s, Finished (Ok 0))
  else
    match sql_open (sy_db s) with
    | Err e => (s, Finished (Err e))
    | Ok _ =>
        let '(db, last, ch, r) :=
          apply_changes now_secs (sy_db s) (sy_last_timestamps s) (sy_events s) 0 (cs_changes cs) in
        let s' v db := mkSync (sy_node_id s) db (sy_sequence s) v (sy_pending_changes s) last ch in
        match r with
        | Finished (Ok applied) =>
            let v := vv_update (sy_version_vector s) (node_str (cs_source cs)) (cs_seq cs) in
            match persist_version db (node_str (cs_source cs)) (cs_seq cs) with
            | Ok db' => (s' v db', Finished (Ok applied))
            | Err e => (s' v db, Finished (Err e))
            end
        | r => (s' (sy_version_vector s) db, r)
        end
    end.

(** [get_changes_since] answers with nothing. *)
Definition get_changes_since s (node_id : string) (since_seq : Z) : result (list ChangeSet) string :=
  let? _ := sql_open (sy_db s) in Ok [].
End sync.

(** ** Specification: a last-write-wins register per backend

    The row of a backend as a reader of the table sees it, and the timestamp of
    the change that is in force. *)

Abbreviation lww_register := (option HLCTimestamp * option BackendRow)%type (only parsing).

(** A tombstone and an absent row look the same to readers. *)
Definition live_view `{SqlDb D} (db : D) (pk : string) : option BackendRow :=
  r ← sql_backend_row db pk; if row_live r then Some r else None.

Definition register `{SqlDb D} (db : D) (pk : string) : lww_register :=
  (read_lww db ("backends:" +:+ pk), live_view db pk).

(** What a change says the row is. *)
Definition change_value `{SerdeJson} (c : Change) : option BackendRow :=
  match ch_kind c with
  | KDelete => None
  | _ => change_row c <$> result_ok (json_from_str (ch_data c))
  end.

Definition newer (e : option HLCTimestamp) (c : Change) : bool :=
  match e with Some t => hlc_ltb t (ch_timestamp c) | None => true end.

Definition register_step `{SerdeJson} (pk : string) (r : lww_register) (c : Change) : lww_register :=
  if decide (ch_pk c = pk) then
    (if newer (fst r) c then (Some (ch_timestamp c), change_value c) else r)
  else r.

(** Timestamps that fit the columns, and changes to backends that can be parsed. *)
Definition hlc_fits (t : HLCTimestamp) : Prop :=
  0 <= wall_time t < 2 ^ 63 ∧ 0 <= ts_counter t < 2 ^ 32 ∧ 0 <= node_hash t < 2 ^ 32.

Definition change_fits `{SerdeJson} (c : Change) : Prop :=
  ch_table c = "backends" ∧ hlc_fits (ch_timestamp c) ∧
  (ch_kind c ≠ KDelete → is_ok (json_from_str (ch_data c)) = true).

(** A database in which no statement fails. *)
Record sql_total (D : Type) `{SqlDb D} : Prop := {
  total_open : ∀ d : D, is_ok (sql_open d) = true;
  total_prepare : ∀ d : D, is_ok (sql_prepare_lww d) = true;
  total_lww : ∀ (d : D) k t, is_ok (sql_replace_lww d k t) = true;
  total_backend : ∀ (d : D) id r, is_ok (sql_replace_backend d id r) = true;
  total_delete : ∀ (d : D) id, is_ok (sql_delete_backend d id) = true;
  total_log : ∀ (d : D) l, is_ok (sql_insert_log d l) = true;
  total_version : ∀ (d : D) n s, is_ok (sql_replace_version d n s) = true
}.

Lemma is_ok_inv {A E} (r : result A E) : is_ok r = true → ∃ a, r = Ok a.
Proof. destruct r; simpl; [eauto|done]. Qed.

Lemma register_step_comm `{SerdeJson} pk r c1 c2 :
  (ch_pk c1 = ch_pk c2 → ch_timestamp c1 = ch_timestamp c2 → c1 = c2) →
  register_step pk (register_step pk r c1) c2 = register_step pk (register_step pk r c2) c1.
Proof.
  intros Hdist. unfold register_step.
  destruct (decide (ch_pk c1 = pk)) as [H1|], (decide (ch_pk c2 = pk)) as [H2|]; try done.
  destruct (decide (ch_timestamp c1 = ch_timestamp c2)) as [Heq|Hne].
  { rewrite Hdist by congruence. done. }
  unfold newer. destruct r as [e v]; simpl.
  assert (hlc_ltb (ch_timestamp c1) (ch_timestamp c2) = negb (hlc_ltb (ch_timestamp c2) (ch_timestamp c1))) as H12.
  { destruct (hlc_ltb (ch_timestamp c1) _) eqn:Ha, (hlc_ltb (ch_timestamp c2) _) eqn:Hb; try done.
    - pose proof (hlc_ltb_trans _ _ _ Ha Hb) as Hc. by rewrite hlc_ltb_irrefl in Hc.
    - by pose proof (hlc_ltb_total _ _ Ha Hb). }
  destruct e as [t|]; simpl; [|rewrite H12; by destruct (hlc_ltb (ch_timestamp c2) _)].
  destruct (hlc_ltb t (ch_timestamp c1)) eqn:Ht1, (hlc_ltb t (ch_timestamp c2)) eqn:Ht2; simpl;
    rewrite ?Ht1, ?Ht2; try done; try (rewrite H12; by destruct (hlc_ltb (ch_timestamp c2) _)).
  - destruct (hlc_ltb (ch_timestamp c1) (ch_timestamp c2)) eqn:Ha; [|done].
    pose proof (hlc_ltb_trans _ _ _ Ht1 Ha). congruence.
  - destruct (hlc_ltb (ch_timestamp c2) (ch_timestamp c1)) eqn:Ha; [|done].
    pose proof (hlc_ltb_trans _ _ _ Ht2 Ha). congruence.
Qed.

Section refinement.
Context `{SqlDbLaws D} `{SerdeJson} (Htotal : sql_total D).
Implicit Types (db : D) (last : gmap string HLCTimestamp).

(** The cache never runs ahead of the table. *)
Definition cache_ok db last : Prop :=
  ∀ k t, last !! k = Some t → ∃ e, read_lww db k = Some e ∧ hlc_ltb e t = false.

Lemma to_i64_small x : 0 <= x < 2 ^ 63 → to_i64 x = x.
Proof. intros Hx. unfold to_i64. by rewrite (proj2 (Z.ltb_lt _ _)) by lia. Qed.

Lemma read_lww_replace db db' k t k' :
  hlc_fits t → sql_replace_lww db k (hlc_to_sql t) = Ok db' →
  read_lww db' k' = if decide (k = k') then Some t else read_lww db k'.
Proof.
  intros (Hw & Hc & Hn) Hr. unfold read_lww. rewrite (replace_lww_lww _ _ _ _ k' Hr).
  case_decide; [|done]. unfold hlc_to_sql; simpl. rewrite to_i64_small by done.
  unfold sql_unsigned.
  rewrite !(proj2 (Z.leb_le _ _)), !(proj2 (Z.ltb_lt _ _)) by lia. simpl. by destruct t.
Qed.

Lemma read_lww_ext db db' k :
  sql_select_lww db' k = sql_select_lww db k → read_lww db' k = read_lww db k.
Proof. unfold read_lww. by intros ->. Qed.

Lemma should_apply_newer db last c :
  cache_ok db last → should_apply_change db last c = Ok (newer (read_lww db (lww_key c)) c).
Proof using Htotal.
  intros Hcache. unfold should_apply_change, newer.
  destruct (is_ok_inv _ (total_prepare D Htotal db)) as [u ->]. simpl.
  destruct (last !! lww_key c) as [t|] eqn:Hl; [|by destruct (read_lww db _)].
  destruct (Hcache _ _ Hl) as (e & -> & Het). rewrite hlc_leb_ltb.
  destruct (hlc_ltb t (ch_timestamp c)) eqn:Htc; simpl; [done|].
  f_equal. symmetry. apply not_true_iff_false. intros Hec.
  destruct (hlc_ltb (ch_timestamp c) t) eqn:Hct; [pose proof (hlc_ltb_trans _ _ _ Hec Hct); congruence|].
  pose proof (hlc_ltb_total _ _ Htc Hct). congruence.
Qed.

Lemma backend_key_inj pk pk' : "backends:" +:+ pk = "backends:" +:+ pk' ↔ pk = pk'.
Proof. split; [|by intros ->]. by intros [= ?]. Qed.

Lemma lww_key_backends c : ch_table c = "backends" → lww_key c = "backends:" +:+ ch_pk c.
Proof. unfold lww_key. by intros ->. Qed.

Lemma change_row_live c data : row_live (change_row c data) = true.
Proof. done. Qed.

Lemma row_set_deleted_live r : row_live (row_set_deleted r) = false.
Proof. done. Qed.

(** The statement on the [backends] table. *)
Lemma apply_backend_change_spec db c :
  change_fits c →
  ∃ db', apply_backend_change db c = Ok db' ∧
    (∀ k, read_lww db' k = read_lww db k) ∧
    ∀ pk, live_view db' pk = if decide (ch_pk c = pk) then change_value c else live_view db pk.
Proof using Htotal H0.
  intros (_ & _ & Hjson). unfold apply_backend_change, change_value, live_view.
  assert (∀ d, json_from_str (ch_data c) = Ok d → ∃ db',
    sql_replace_backend db (ch_pk c) (change_row c d) = Ok db' ∧ (∀ k, read_lww db' k = read_lww db k) ∧
    ∀ pk, (r ← sql_backend_row db' pk; if row_live r then Some r else None) =
          if decide (ch_pk c = pk) then Some (change_row c d)
          else r ← sql_backend_row db pk; if row_live r then Some r else None) as Hrep.
  { intros d _. destruct (is_ok_inv _ (total_backend D Htotal db (ch_pk c) (change_row c d))) as [db' Hdb'].
    exists db'. split_and!; [done| |].
    - intros k. apply read_lww_ext. by eapply replace_backend_lww.
    - intros pk. rewrite (replace_backend_backend _ _ _ _ pk Hdb'). by case_decide. }
  destruct (ch_kind c) eqn:Hk.
  - destruct (is_ok_inv _ (Hjson ltac:(done))) as [d Hd]. rewrite Hd. simpl. by apply Hrep.
  - destruct (is_ok_inv _ (Hjson ltac:(done))) as [d Hd]. rewrite Hd. simpl. by apply Hrep.
  - destruct (is_ok_inv _ (total_delete D Htotal db (ch_pk c))) as [db' Hdb'].
    exists db'. split_and!; [done| |].
    + intros k. apply read_lww_ext. by eapply delete_backend_lww.
    + intros pk. rewrite (delete_backend_backend _ _ _ pk Hdb'). case_decide; [|done].
      by destruct (sql_backend_row db pk).
Qed.

(** Applying a change writes its register and no other. *)
Lemma apply_single_change_spec now_secs db last c :
  change_fits c → cache_ok db last → newer (read_lww db (lww_key c)) c = true →
  ∃ db' last', apply_single_change now_secs db last c = (db', last', Ok tt) ∧ cache_ok db' last' ∧
    ∀ pk, register db' pk = register_step pk (register db pk) c.
Proof using Htotal H0.
  intros Hfits Hcache Hnew. pose proof Hfits as (Htab & Hts & _). unfold apply_single_change.
  destruct (is_ok_inv _ (total_lww D Htotal db (lww_key c) (hlc_to_sql (ch_timestamp c)))) as [db1 Hdb1].
  rewrite Hdb1, Htab. simpl.
  destruct (apply_backend_change_spec db1 c Hfits) as (db2 & -> & Hlww2 & Hview2). simpl.
  destruct (is_ok_inv _ (total_log D Htotal db2 (log_row now_secs c))) as [db3 Hdb3]. rewrite Hdb3.
  assert (∀ k, read_lww db3 k = if decide (lww_key c = k) then Some (ch_timestamp c) else read_lww db k) as Hlww3.
  { intros k. rewrite <-(read_lww_replace db db1 (lww_key c) (ch_timestamp c) k Hts Hdb1), <-Hlww2.
    apply read_lww_ext. by eapply insert_log_lww. }
  eexists db3, _. split_and!; [reflexivity| |].
  - intros k t. rewrite Hlww3, lookup_insert. case_decide; [|by apply Hcache].
    intros [= <-]. eexists. split; [done|]. apply hlc_ltb_irrefl.
  - intros pk. unfold register, register_step; simpl.
    rewrite Hlww3, lww_key_backends in * by done.
    assert (live_view db3 pk = live_view db2 pk) as ->.
    { unfold live_view. by rewrite (insert_log_backend _ _ _ pk Hdb3). }
    rewrite Hview2. destruct (decide (ch_pk c = pk)) as [<-|Hne].
    + rewrite Hnew. by rewrite decide_True.
    + rewrite decide_False by (by rewrite backend_key_inj). f_equal. unfold live_view.
      by rewrite (replace_lww_backend _ _ _ _ pk Hdb1).
Qed.

(** The loop implements the registers, unless it has to wait for the channel. *)
Lemma apply_changes_registers now_secs db last ch applied l :
  Forall change_fits l → cache_ok db last →
  let '(db', last', ch', r) := apply_changes now_secs db last ch applied l in
  r = Suspended ∨
  (∃ n, r = Finished (Ok n)) ∧ cache_ok db' last' ∧
  ∀ pk, register db' pk = foldl (register_step pk) (register db pk) l.
Proof using Htotal H0.
  intros Hall. revert db last ch applied.
  induction Hall as [|c l Hc _ IH]; intros db last ch applied Hcache; simpl; [by eauto|].
  rewrite should_apply_newer by done. destruct (newer _ c) eqn:Hnew.
  - destruct (apply_single_change_spec now_secs db last c Hc Hcache Hnew) as (db1 & last1 & -> & Hcache1 & Hreg).
    destruct (chan_send ch (ChangeApplied c)) as [ch1|]; [|by left].
    specialize (IH db1 last1 ch1 (applied + 1) Hcache1).
    destruct (apply_changes now_secs db1 last1 ch1 (applied + 1) l) as [[[db' last'] ch'] r].
    destruct IH as [?|(? & ? & Hreg')]; [by left|right]. split_and!; [done|done|].
    intros pk. by rewrite Hreg', Hreg.
  - specialize (IH db last ch applied Hcache).
    destruct (apply_changes now_secs db last ch applied l) as [[[db' last'] ch'] r].
    destruct IH as [?|(? & ? & Hreg')]; [by left|right]. split_and!; [done|done|]. intros pk. rewrite Hreg'. f_equal.
    unfold register_step. case_decide as Hpk; [|done]. subst pk. unfold register; simpl.
    rewrite lww_key_backends in Hnew by apply Hc. by rewrite Hnew.
Qed.

(** With room for its events it does not wait. *)
Lemma apply_changes_room now_secs db last ch applied l :
  chan_room ch (length l) → snd (apply_changes now_secs db last ch applied l) ≠ Suspended.
Proof using.
  revert db last ch applied. induction l as [|c l IH]; intros db last ch applied Hroom; simpl; [done|].
  destruct (should_apply_change db last c) as [[|]|]; [|by apply IH, chan_room_S|done].
  destruct (apply_single_change now_secs db last c) as [[db1 last1] [u|e]]; [|done].
  destruct (chan_send_room ch (length l) (ChangeApplied c) Hroom) as (ch1 & -> & Hroom1). by apply IH.
Qed.

Lemma apply_changes_spec now_secs db last ch applied l :
  Forall change_fits l → cache_ok db last → chan_room ch (length l) →
  ∃ db' last' ch' n, apply_changes now_secs db last ch applied l = (db', last', ch', Finished (Ok n)) ∧
    cache_ok db' last' ∧ ∀ pk, register db' pk = foldl (register_step pk) (register db pk) l.
Proof using Htotal H0.
  intros Hall Hcache Hroom.
  pose proof (apply_changes_registers now_secs db last ch applied l Hall Hcache) as Hreg.
  pose proof (apply_changes_room now_secs db last ch applied l Hroom) as Hsus.
  destruct (apply_changes now_secs db last ch applied l) as [[[db' last'] ch'] r]. simpl in Hsus.
  destruct Hreg as [?|([n ->] & ? & ?)]; [done|]. by eexists _, _, _, _.
Qed.

(** Applying changes leaves the version rows alone. *)
Lemma apply_single_change_versions now_secs db last c :
  sql_select_versions (apply_single_change now_secs db last c).1.1 = sql_select_versions db.
Proof using H0.
  unfold apply_single_change. destruct (sql_replace_lww _ _ _) as [db1|] eqn:Hd1; [|done].
  assert (∀ db2, (if String.eqb (ch_table c) "backends" then apply_backend_change db1 c else Ok db1) = Ok db2 →
    sql_select_versions db2 = sql_select_versions db1) as Hb.
  { intros db2. destruct (String.eqb _ _); [|congruence]. unfold apply_backend_change.
    destruct (ch_kind c); [destruct (json_from_str _); simpl; [|done]..|];
      eauto using replace_backend_versions, delete_backend_versions. }
  rewrite <-(replace_lww_versions _ _ _ _ Hd1).
  destruct (if String.eqb _ _ then _ else _) as [db2|] eqn:Hd2; [|done].
  rewrite <-(Hb db2 eq_refl). destruct (sql_insert_log _ _) as [db3|] eqn:Hd3; [|done]. simpl.
  by eapply insert_log_versions.
Qed.

Lemma apply_changes_versions now_secs db last ch applied l :
  sql_select_versions (apply_changes now_secs db last ch applied l).1.1.1 = sql_select_versions db.
Proof using H0.
  revert db last ch applied. induction l as [|c l IH]; intros db last ch applied; simpl; [done|].
  destruct (should_apply_change db last c) as [[|]|]; [|by apply IH|done].
  pose proof (apply_single_change_versions now_secs db last c) as Hv.
  destruct (apply_single_change now_secs db last c) as [[db1 last1] [u|e]]; simpl in Hv; [|done].
  destruct (chan_send _ _); [|done]. by rewrite IH.
Qed.
End refinement.

(** ** Properties *)

(** Changes to one backend with the same timestamp are the same change. *)
Definition distinct_timestamps (l : list Change) : Prop :=
  ∀ c1 c2, c1 ∈ l → c2 ∈ l → ch_pk c1 = ch_pk c2 → ch_timestamp c1 = ch_timestamp c2 → c1 = c2.

(** What a change set's sequence number tells about its source. *)
Lemma vv_get_update v n seq n' :
  vv_get (vv_update v n seq) n' = if decide (n = n') then Z.max (vv_get v n') seq else vv_get v n'.
Proof.
  unfold vv_get, vv_update; simpl. rewrite lookup_insert. case_decide; subst; [|done]. simpl.
  destruct (Z.ltb_spec (default 0 (versions v !! n')) seq); lia.
Qed.

(** Merging version vectors takes the larger number of each node, so it is
    the least upper bound: everything seen by either side has been seen after the
    merge, and nothing else. *)
Lemma merge_is_join v w n :
  0 <= vv_get v n →
  vv_get (vv_merge v w) n = Z.max (vv_get v n) (vv_get w n) ∧
  ∀ seq, vv_has_seen (vv_merge v w) n seq = vv_has_seen v n seq || vv_has_seen w n seq.
Proof.
  intros Hv.
  assert (vv_get (vv_merge v w) n = Z.max (vv_get v n) (vv_get w n)) as Hget.
  { unfold vv_merge.
    assert (∀ l v, NoDup l.*1 → vv_get (foldl (fun v p => vv_update v (fst p) (snd p)) v l) n =
      match (list_to_map l : gmap string Z) !! n with Some q => Z.max (vv_get v n) q | None => vv_get v n end) as Hfold.
    { clear. induction l as [|[m q] l IH]; intros v Hnd; simpl; [done|].
      apply NoDup_cons in Hnd as [Hm Hnd]. rewrite IH, vv_get_update, lookup_insert by done. simpl.
      case_decide; subst; [|done]. by rewrite not_elem_of_list_to_map_1. }
    rewrite Hfold by apply NoDup_fst_map_to_list. rewrite list_to_map_to_list.
    change (vv_get w n) with (default 0 (versions w !! n)).
    destruct (versions w !! n) as [q|] eqn:Hn; simpl; unfold id; [done|]. lia. }
  split; [done|]. intros seq. unfold vv_has_seen. rewrite Hget.
  destruct (Z.leb_spec seq (Z.max (vv_get v n) (vv_get w n))),
    (Z.leb_spec seq (vv_get v n)), (Z.leb_spec seq (vv_get w n)); simpl; try done; lia.
Qed.

Section properties.
Context `{SqlDbLaws D} `{Digests} `{SerdeJson}.
Implicit Types (s : SyncService D) (db : D).

(** C10: last-write-wins converges.  Let two replicas agree on every backend and apply the
    same changes in any two orders (repetitions included), the statements of their
    databases not failing and their event channels having room; let the changes be of
    backends, their data readable and their timestamps storable, and let no two
    different changes of one backend have the same timestamp (two that do may leave the
    replicas apart, [equal_timestamps_diverge]).  Then all the changes are applied
    without an error, and the replicas agree again on every backend: on the change in
    force and on the row that readers see, which is that of the register
    specification. *)
Theorem lww_convergence now1 now2 db1 db2 last1 last2 ch1 ch2 l1 l2 :
  sql_total D → l1 ≡ₚ l2 → Forall change_fits l1 → distinct_timestamps l1 →
  cache_ok db1 last1 → cache_ok db2 last2 →
  chan_room ch1 (length l1) → chan_room ch2 (length l2) →
  (∀ pk, register db1 pk = register db2 pk) →
  ∃ db1' last1' ch1' n1 db2' last2' ch2' n2,
    apply_changes now1 db1 last1 ch1 0 l1 = (db1', last1', ch1', Finished (Ok n1)) ∧
    apply_changes now2 db2 last2 ch2 0 l2 = (db2', last2', ch2', Finished (Ok n2)) ∧
    ∀ pk, register db1' pk = register db2' pk ∧
          register db1' pk = foldl (register_step pk) (register db1 pk) l1.
Proof.
  intros Htot Hp Hfits Hdist Hc1 Hc2 Hr1 Hr2 Heq.
  destruct (apply_changes_spec Htot now1 db1 last1 ch1 0 l1 Hfits Hc1 Hr1)
    as (db1' & last1' & ch1' & n1 & -> & _ & Hreg1).
  assert (Forall change_fits l2) as Hfits2 by by rewrite <-Hp.
  destruct (apply_changes_spec Htot now2 db2 last2 ch2 0 l2 Hfits2 Hc2 Hr2)
    as (db2' & last2' & ch2' & n2 & -> & _ & Hreg2).
  eexists _, _, _, _, _, _, _, _. split_and!; [reflexivity..|]. intros pk. split; [|apply Hreg1].
  rewrite Hreg1, Hreg2, Heq. apply foldl_permutation; [|done].
  intros r c1 c2 Hin1 Hin2. apply register_step_comm. by apply Hdist.
Qed.

(** C23: a change set with a wrong checksum is rejected and changes nothing; one
    whose number is not above the highest number applied from its source is
    acknowledged and changes nothing, so that delivery may be repeated, and, when
    it comes late, its changes are never applied; and once a change set has been
    applied successfully every change set of its source numbered up to it is of
    that kind. *)
Theorem apply_changeset_once now_secs s cs :
  (cs_verify cs = false →
     apply_changeset now_secs s cs = (s, Finished (Err "changeset checksum verification failed"))) ∧
  (cs_verify cs = true → cs_seq cs <= vv_get (sy_version_vector s) (node_str (cs_source cs)) →
     apply_changeset now_secs s cs = (s, Finished (Ok 0))) ∧
  (∀ s' n, cs_verify cs = true → apply_changeset now_secs s cs = (s', Finished (Ok n)) →
     ∀ now' cs', cs_verify cs' = true → cs_source cs' = cs_source cs → cs_seq cs' <= cs_seq cs →
       apply_changeset now' s' cs' = (s', Finished (Ok 0))).
Proof.
  assert (∀ now s cs, cs_verify cs = true → cs_seq cs <= vv_get (sy_version_vector s) (node_str (cs_source cs)) →
    apply_changeset now s cs = (s, Finished (Ok 0))) as Hseen.
  { intros now s0 cs0 Hv Hle. unfold apply_changeset, vv_has_seen. rewrite Hv. simpl.
    by rewrite (proj2 (Z.leb_le _ _)). }
  split_and!; [|by apply Hseen|].
  - intros Hv. unfold apply_changeset. by rewrite Hv.
  - intros s' n Hv Happ now' cs' Hv' Hsrc Hle. apply Hseen; [done|]. rewrite Hsrc. etrans; [exact Hle|].
    unfold apply_changeset in Happ. rewrite Hv in Happ. simpl in Happ.
    destruct (vv_has_seen _ _ _) eqn:Hs; simplify_eq/=; [by unfold vv_has_seen in Hs; zbool|].
    destruct (sql_open (sy_db s)); [|done].
    destruct (apply_changes _ _ _ _ _ _) as [[[db last] ch] [[applied|e]|]]; simplify_eq/=.
    destruct (persist_version _ _ _); simplify_eq/=. rewrite vv_get_update, decide_True by done. lia.
Qed.

(** The number of a node in the rows of [__replication_versions]. *)
Lemma load_versions_spec v rows v' :
  NoDup rows.*1 → load_versions v rows = (v', Ok tt) →
  ∀ n seq, (n, seq) ∈ rows → versions v' !! n = Some (Z.max (vv_get v n) seq).
Proof.
  revert v. induction rows as [|[m raw] rows IH]; intros v Hnd Hload n seq; simpl in *; [by intros ?%elem_of_nil|].
  apply NoDup_cons in Hnd as [Hm Hnd].
  unfold sql_unsigned in Hload. destruct (_ && _) eqn:Hr; simpl in Hload; [|done].
  assert (∀ v rows n, n ∉ rows.*1 → load_versions v rows = (v', Ok tt) → versions v' !! n = versions v !! n) as Hout.
  { clear. intros v rows n. revert v. induction rows as [|[m raw] rows IH]; intros v Hn Hl; simpl in *; [by simplify_eq|].
    apply not_elem_of_cons in Hn as [??]. unfold sql_unsigned in Hl. destruct (_ && _); [|done].
    rewrite (IH _ H0 Hl). unfold vv_update; simpl. by rewrite lookup_insert_ne. }
  rewrite elem_of_cons. intros [[= -> ->]|Hin].
  - rewrite (Hout _ _ _ Hm Hload). unfold vv_update, vv_get; simpl. rewrite lookup_insert_eq. f_equal.
    destruct (Z.ltb_spec (default 0 (versions v !! m)) raw); lia.
  - rewrite (IH _ Hnd Hload n seq Hin), vv_get_update, decide_False; [done|]. intros ->.
    apply Hm, list_elem_of_fmap. by exists (n, seq).
Qed.

(** Sequence numbers survive a restart: when a flush has produced a change
    set and stored its number, a new service on the same database, once
    initialised, goes on from that number, so no later change set of the node
    re-uses it (peers would drop it as already seen). *)
Lemma restart_resumes_sequence s s' cs s'' :
  0 <= sy_sequence s < 2 ^ 63 - 1 →
  is_ok (persist_version (sy_db s) (node_str (sy_node_id s)) (sy_sequence s + 1)) = true →
  (∀ db, is_ok (sql_select_versions db) = true) →
  flush s = (s', Finished (Some cs)) →
  init_db (sync_new (sy_node_id s) (sy_db s')) = (s'', Ok tt) →
  cs_seq cs = sy_sequence s + 1 ∧ cs_changes cs = sy_pending_changes s ∧ cs_verify cs = true ∧
  sy_pending_changes s' = [] ∧ sy_sequence s'' = cs_seq cs.
Proof.
  intros Hseq Hpers Hsel Hflush Hinit. unfold flush in Hflush.
  assert (sy_sequence s +u64 1 = sy_sequence s + 1) as Hw by (apply wrap_small; unfold in_range; lia).
  destruct (sy_pending_changes s) as [|c l] eqn:Hpend; [done|]. rewrite Hw in Hflush.
  destruct (is_ok_inv _ Hpers) as [db Hdb]. rewrite Hdb in Hflush.
  destruct (chan_send _ _) as [ch|]; simplify_eq/=.
  split_and!; [done|done|by apply Z.eqb_refl|done|].
  unfold persist_version in Hdb. destruct (sql_open (sy_db s)); [|done]. simpl in Hdb.
  rewrite to_i64_small in Hdb by lia. destruct (is_ok_inv _ (Hsel (sy_db s))) as [rows0 Hrows0].
  unfold init_db in Hinit; simpl in Hinit.
  destruct (sql_open db); simpl in Hinit; [|simplify_eq].
  destruct (sql_create_tables db) as [db1|] eqn:Hcreate; simpl in Hinit; [|simplify_eq].
  destruct (sql_select_versions db1) as [rows|] eqn:Hrows; simpl in Hinit; [|simplify_eq].
  destruct (load_versions vv_new rows) as [v r] eqn:Hload. injection Hinit as <- ->. simpl.
  assert ((node_str (sy_node_id s), sy_sequence s + 1) ∈ rows) as Hin.
  { destruct (is_ok_inv _ (Hsel db)) as [rows1 Hrows1].
    apply (create_tables_versions _ _ _ _ Hcreate Hrows1 Hrows).
    apply (replace_version_versions _ _ _ _ _ _ Hdb Hrows0 Hrows1). by left. }
  rewrite (load_versions_spec _ _ _ (versions_keys _ _ Hrows) Hload _ _ Hin). simpl.
  unfold vv_get; simpl. rewrite lookup_empty; simpl. unfold id. lia.
Qed.

(** If the number of a flush cannot be stored, [flush] logs the error and hands the
    change set out all the same; a node that is restarted then gives its next change
    set the same number, and whoever has the first one never applies the second. *)
Lemma failed_persist_reuses_number s s' cs s2 now_us now_ns now_ns' table pk kind data s3 cs' :
  is_ok (persist_version (sy_db s) (node_str (sy_node_id s)) (sy_sequence s +u64 1)) = false →
  flush s = (s', Finished (Some cs)) →
  init_db (sync_new (sy_node_id s) (sy_db s')) = (s2, Ok tt) → sy_sequence s2 = sy_sequence s →
  flush (fst (record_change s2 now_us now_ns now_ns' table pk kind data)) = (s3, Finished (Some cs')) →
  sy_db s' = sy_db s ∧ cs_source cs' = cs_source cs ∧ cs_seq cs' = cs_seq cs.
Proof.
  intros Hp Hf Hinit Hseq Hf'. assert (sy_node_id s2 = sy_node_id s) as Hid.
  { unfold init_db in Hinit. simpl in Hinit. destruct (sql_open _); simpl in Hinit; [|by simplify_eq].
    destruct (sql_create_tables _); simpl in Hinit; [|by simplify_eq].
    destruct (sql_select_versions _); simpl in Hinit; [|by simplify_eq].
    destruct (load_versions _ _); by simplify_eq/=. }
  unfold flush in Hf. destruct (sy_pending_changes s) as [|c l]; [done|].
  destruct (persist_version _ _ _); [done|]. destruct (chan_send _ _); simplify_eq/=.
  unfold flush, record_change in Hf'; simpl in Hf'. rewrite Hid, Hseq in Hf'.
  destruct (sy_pending_changes s2 ++ [_]) as [|c' l']; [done|].
  destruct (chan_send _ _); by simplify_eq/=.
Qed.

(** With 1024 events that nobody has taken, [flush] does not come back: it
    has emptied the pending changes and used up and stored a sequence number, and
    then waits for room in the channel before it can hand out the change set. *)
Lemma flush_suspends_on_full_channel s :
  chan_open (sy_events s) = true → Z.of_nat (length (chan_queue (sy_events s))) = CHANNEL_CAP →
  sy_pending_changes s ≠ [] →
  snd (flush s) = Suspended ∧ sy_pending_changes (fst (flush s)) = [] ∧
  sy_sequence (fst (flush s)) = sy_sequence s +u64 1 ∧ sy_events (fst (flush s)) = sy_events s.
Proof.
  intros Ho Hlen Hp. unfold flush. destruct (sy_pending_changes s); [done|].
  unfold chan_send. rewrite Ho. simpl. by rewrite Hlen, Z.ltb_irrefl.
Qed.

(** Recording and flushing a local change does not register its timestamp: a
    change of a peer to the same row is applied whatever its timestamp, also when
    it is older than the local change, unless the row has a timestamp from an
    earlier remote change. *)
Lemma local_change_does_not_defend s now_us now_ns now_ns' pk kind data s1 c s2 r remote :
  sql_total D →
  record_change s now_us now_ns now_ns' "backends" pk kind data = (s1, c) →
  flush s1 = (s2, Finished r) →
  lww_key remote = lww_key c →
  read_lww (sy_db s) (lww_key c) = None → sy_last_timestamps s !! lww_key c = None →
  should_apply_change (sy_db s2) (sy_last_timestamps s2) remote = Ok true.
Proof.
  intros Htot Hrec Hflush Hkey Hnone Hcache.
  unfold record_change in Hrec. injection Hrec as <- <-. unfold flush in Hflush.
  cbn [sy_pending_changes sy_node_id sy_db sy_sequence sy_version_vector sy_last_timestamps sy_events] in Hflush.
  destruct (sy_pending_changes s ++ _) as [|c0 l] eqn:Hp; [by destruct (sy_pending_changes s)|].
  destruct (chan_send _ _); simplify_eq/=.
  unfold should_apply_change. rewrite Hkey, Hcache. simpl.
  destruct (is_ok_inv _ (total_prepare D Htot (match persist_version (sy_db s) (node_str (sy_node_id s))
    (sy_sequence s +u64 1) with Ok db => db | Err _ => sy_db s end))) as [u ->]. simpl.
  rewrite (read_lww_ext (sy_db s)); [by rewrite Hnone|].
  unfold persist_version. destruct (sql_open (sy_db s)); simpl; [|done].
  destruct (sql_replace_version _ _ _) eqn:Hv; [|done]. by eapply replace_version_lww.
Qed.
End properties.

(** ** Witnesses, on the in-memory database *)

Lemma mem_total : sql_total MemDb.
Proof. split; intros; reflexivity. Qed.

(** A JSON reader that knows one field: the text is the address. *)
Definition demo_json : SerdeJson := {|
  json_value := string;
  json_from_str s := if String.eqb s "" then Err "EOF" else Ok s;
  json_get_str v k := if String.eqb k "wg_ip" then Some v else None;
  json_get_i64 v k := if String.eqb k "port" then Some 8080 else None
|}.

Definition demo_insert : Change := mkChange 1 "backends" "b" KInsert "10.0.0.1" (mkHlc 100 0 7) (mkNodeId "n1").
Definition demo_delete : Change := mkChange 2 "backends" "b" KDelete "" (mkHlc 200 0 8) (mkNodeId "n2").

Lemma demo_fits : Forall (@change_fits demo_json) [demo_insert; demo_delete].
Proof. repeat constructor; simpl; try lia; done. Qed.

Lemma demo_distinct : distinct_timestamps [demo_insert; demo_delete].
Proof.
  intros c1 c2. rewrite !elem_of_cons, !elem_of_nil. intros [->|[->|[]]] [->|[->|[]]] Hp Ht;
    first [reflexivity|cbv in Ht; discriminate Ht].
Qed.

Lemma lww_convergence_witness :
  ∃ db1 db2 last1 last2 ch1 ch2 n1 n2,
    @apply_changes MemDb _ demo_json 0 mem_empty ∅ (mkChan [] true) 0 [demo_insert; demo_delete]
      = (db1, last1, ch1, Finished (Ok n1)) ∧
    @apply_changes MemDb _ demo_json 0 mem_empty ∅ (mkChan [] true) 0 [demo_delete; demo_insert]
      = (db2, last2, ch2, Finished (Ok n2)) ∧
    register db1 "b" = register db2 "b".
Proof.
  destruct (@lww_convergence MemDb _ _ demo_json 0 0 mem_empty mem_empty ∅ ∅ (mkChan [] true) (mkChan [] true)
    [demo_insert; demo_delete] [demo_delete; demo_insert] mem_total)
    as (db1 & last1 & ch1 & n1 & db2 & last2 & ch2 & n2 & H1 & H2 & H3).
  - apply perm_swap.
  - exact demo_fits.
  - exact demo_distinct.
  - intros k t. by rewrite lookup_empty.
  - intros k t. by rewrite lookup_empty.
  - right. simpl. unfold CHANNEL_CAP. lia.
  - right. simpl. unfold CHANNEL_CAP. lia.
  - done.
  - exists db1, db2, last1, last2, ch1, ch2, n1, n2. split; [exact H1|split; [exact H2|apply H3]].
Defined.

(** Two changes of one backend in one reading of a node's clock have equal timestamps,
    since [Change::new] always counts from zero; the one that comes first is kept, so
    replicas that are given them in different orders stay apart. *)
Definition tied_change (n : Z) (ip : string) : Change :=
  mkChange n "backends" "b" KUpdate ip (mkHlc 300 0 7) (mkNodeId "n1").

Lemma equal_timestamps_diverge :
  let apply := @apply_changes MemDb _ demo_json 0 mem_empty ∅ (mkChan [] true) 0 in
  ∃ db1 last1 ch1 db2 last2 ch2,
    apply [tied_change 1 "10.0.0.1"; tied_change 2 "10.0.0.2"] = (db1, last1, ch1, Finished (Ok 1)) ∧
    apply [tied_change 2 "10.0.0.2"; tied_change 1 "10.0.0.1"] = (db2, last2, ch2, Finished (Ok 1)) ∧
    register db1 "b" ≠ register db2 "b".
Proof.
  intros apply. eexists _, _, _, _, _, _. split; [reflexivity|]. split; [reflexivity|].
  vm_compute. discriminate.
Qed.

Lemma merge_is_join_witness :
  vv_get (vv_merge (mkVV {["a" := 5; "b" := 3]}) (mkVV {["b" := 9; "c" := 1]})) "b" = 9.
Proof.
  destruct (merge_is_join (mkVV {["a" := 5; "b" := 3]}) (mkVV {["b" := 9; "c" := 1]}) "b") as [H _].
  - vm_compute. congruence.
  - exact H.
Defined.

Definition demo_service : SyncService MemDb :=
  mkSync (mkNodeId "n1") mem_empty 4 vv_new [demo_insert] ∅ (mkChan [] true).

Lemma restart_resumes_sequence_witness :
  ∃ s' cs s'', @flush MemDb _ demo_digests demo_service = (s', Finished (Some cs)) ∧
    init_db (sync_new (mkNodeId "n1") (sy_db s')) = (s'', Ok tt) ∧ sy_sequence s'' = cs_seq cs.
Proof.
  eexists _, _, _. split; [reflexivity|]. split; [reflexivity|].
  eapply (@restart_resumes_sequence MemDb _ _ demo_digests demo_service); try reflexivity.
  simpl. lia.
Defined.

Lemma flush_suspends_witness :
  let s := mkSync (mkNodeId "n1") mem_empty 4 vv_new [demo_insert] ∅
             (mkChan (replicate 1024 (PeerSynced (mkNodeId "p") 0)) true) in
  snd (@flush MemDb _ demo_digests s) = Suspended.
Proof.
  intros s. apply (@flush_suspends_on_full_channel MemDb _ demo_digests s); [reflexivity| |discriminate].
  vm_compute. reflexivity.
Defined.

Definition demo_remote : Change :=
  mkChange 9 "backends" "x" KUpdate "10.0.0.3" (mkHlc 100 0 0) (mkNodeId "p").

Lemma local_change_does_not_defend_witness :
  ∃ s1 c s2 r, @record_change MemDb demo_digests demo_service 500 1 2 "backends" "x" KInsert "10.0.0.2" = (s1, c) ∧
    @flush MemDb _ demo_digests s1 = (s2, Finished r) ∧ wins_over c demo_remote = true ∧
    should_apply_change (sy_db s2) (sy_last_timestamps s2) demo_remote = Ok true.
Proof.
  eexists _, _, _, _. split; [reflexivity|]. split; [reflexivity|]. split; [reflexivity|].
  eapply (@local_change_does_not_defend MemDb _ _ demo_digests demo_service 500 1 2 "x" KInsert "10.0.0.2");
    [exact mem_total|reflexivity..].
Defined.

(** The same change set delivered twice. *)
Lemma apply_changeset_once_witness :
  let cs := @changeset_new demo_digests (mkNodeId "p") 1 [demo_insert; demo_delete] in
  let '(s', r) := @apply_changeset MemDb _ demo_digests demo_json 0 demo_service cs in
  r = Finished (Ok 2) ∧ @apply_changeset MemDb _ demo_digests demo_json 9 s' cs = (s', Finished (Ok 0)).
Proof.
  intros cs. destruct (@apply_changeset MemDb _ demo_digests demo_json 0 demo_service cs) as [s' r] eqn:Happ.
  assert (r = Finished (Ok 2)) as -> by (vm_compute in Happ; congruence).
  split; [reflexivity|].
  destruct (@apply_changeset_once MemDb _ demo_digests demo_json 0 demo_service cs) as (_ & _ & H).
  apply (H s' 2); [reflexivity|exact Happ|reflexivity|reflexivity|lia].
Defined.
