(* ===== verification/Cluster.v ===== *)
(** * A cluster of sync services

    Several [SyncService]s ([src/src/replication/sync.rs]) exchanging change sets:
    each node records local changes, flushes them as numbered change sets, is
    handed change sets that others flushed, and may be restarted on its database
    (a new service, then [init_db]), losing its memory.  The network keeps every
    change set that was flushed and may hand any of them to any node, in any
    order and any number of times.  [ReplicationAgent] flushes and broadcasts by
    itself; handing a received change set to [apply_changeset] is left to its
    caller ([agent.rs] exposes it as a method), so a delivery here is that call. *)

From S2P Require Import Prelude Text Channel ReplTypes Sql Sync.

Record cluster (D : Type) := mkCluster {
  cl_nodes : gmap string (SyncService D);
  cl_sent : list ChangeSet               (* everything flushed, in order *)
}.
Arguments mkCluster {D}. Arguments cl_nodes {D}. Arguments cl_sent {D}.

Inductive cluster_label :=
| CRecord (n : string) (now_us now_ns now_ns' : Z) (table pk : string) (kind : ChangeKind) (data : string)
| CFlush (n : string)
| CDeliver (n : string) (cs : ChangeSet) (now_secs : Z)
| CTake (n : string)                     (* the owner takes one event *)
| CRestart (n : string).

(** The node that made a change set. *)
Definition cs_from (cs : ChangeSet) : string := node_str (cs_source cs).

(** [event_rx.recv()] on a queue that is not empty. *)
Definition take_event `{SqlDb D} (s : SyncService D) : option (SyncService D) :=
  match chan_queue (sy_events s) with
  | [] => None
  | _ :: q => Some (mkSync (sy_node_id s) (sy_db s) (sy_sequence s) (sy_version_vector s) (sy_pending_changes s)
                      (sy_last_timestamps s) (mkChan q (chan_open (sy_events s))))
  end.

Section cluster.
Context `{SqlDb D} `{Digests} `{SerdeJson}.
#[local] Abbreviation cluster := (cluster D).
Implicit Types (s : SyncService D) (c : cluster).

Definition set_node c (n : string) s : cluster := mkCluster (<[n := s]> (cl_nodes c)) (cl_sent c).

(** One call that comes back; a call that waits for room in the event channel, or
    an initialisation that fails, is no step. *)
Definition cluster_exec (l : cluster_label) c : option cluster :=
  match l with
  | CRecord n now_us now_ns now_ns' table pk kind data =>
      s ← cl_nodes c !! n;
      Some (set_node c n (fst (record_change s now_us now_ns now_ns' table pk kind data)))
  | CFlush n =>
      s ← cl_nodes c !! n;
      match flush s with
      | (s', Finished (Some cs)) => Some (mkCluster (<[n := s']> (cl_nodes c)) (cl_sent c ++ [cs]))
      | (s', Finished None) => Some (set_node c n s')
      | (_, Suspended) => None
      end
  | CDeliver n cs now_secs =>
      s ← cl_nodes c !! n;
      if decide (cs ∈ cl_sent c) then
        match apply_changeset now_secs s cs with
        | (s', Finished _) => Some (set_node c n s')
        | (_, Suspended) => None
        end
      else None
  | CTake n => s ← cl_nodes c !! n; s' ← take_event s; Some (set_node c n s')
  | CRestart n =>
      s ← cl_nodes c !! n;
      match init_db (sync_new (sy_node_id s) (sy_db s)) with
      | (s', Ok _) => Some (set_node c n s')
      | (_, Err _) => None
      end
  end.

Definition cluster_step (ok : cluster → cluster_label → Prop) : relation cluster :=
  λ c c', ∃ l, ok c l ∧ cluster_exec l c = Some c'.

(** New services on the given databases. *)
Definition cluster_start (dbs : gmap string D) : cluster :=
  mkCluster (map_imap (λ n db, Some (sync_new (mkNodeId n) db)) dbs) [].

(** All changes of a list of change sets. *)
Definition all_changes (l : list ChangeSet) : list Change := l ≫= cs_changes.

(** A node has caught up: by its version vector, it has seen every change set of
    the others. *)
Definition up_to_date (n : string) s (sent : list ChangeSet) : Prop :=
  ∀ cs, cs ∈ sent → cs_from cs ≠ n → vv_has_seen (sy_version_vector s) (cs_from cs) (cs_seq cs) = true.

(** Deliveries that skip no change set: the next number of its source, or one
    already seen. *)
Definition in_order s (cs : ChangeSet) : Prop :=
  cs_seq cs <= vv_get (sy_version_vector s) (cs_from cs) + 1.

(** What the convergence theorem asks of the steps: recorded changes are backend
    changes that can be parsed and stored, sequence numbers fit their column, and
    deliveries are in order. *)
Definition orderly c (l : cluster_label) : Prop :=
  match l with
  | CRecord n now_us now_ns now_ns' table pk kind data =>
      change_fits (change_new now_us now_ns now_ns' table pk kind data (mkNodeId n))
  | CFlush n => ∀ s, cl_nodes c !! n = Some s → sy_sequence s < 2 ^ 63 - 1
  | CDeliver n cs _ => ∀ s, cl_nodes c !! n = Some s → in_order s cs
  | _ => True
  end.

(** A database in which initialisation and the version query do not fail. *)
Record sql_init_total : Prop := {
  total_create : ∀ d : D, is_ok (sql_create_tables d) = true;
  total_versions : ∀ d : D, is_ok (sql_select_versions d) = true
}.
End cluster.
Arguments sql_init_total D {_}.

(** ** Lists and registers *)

Lemma filter_none {A} (P : A → Prop) `{!∀ x, Decision (P x)} (l : list A) :
  (∀ x, x ∈ l → ¬ P x) → filter P l = [].
Proof.
  induction l as [|x l IH]; intros Hl; [done|]. rewrite filter_cons, decide_False by (apply Hl; by left).
  apply IH. intros y Hy. apply Hl. by right.
Qed.

Lemma filter_iff_in {A} (P Q : A → Prop) `{!∀ x, Decision (P x), !∀ x, Decision (Q x)} (l : list A) :
  (∀ x, x ∈ l → P x ↔ Q x) → filter P l = filter Q l.
Proof.
  induction l as [|x l IH]; intros Hl; [done|]. rewrite !filter_cons.
  assert (filter P l = filter Q l) as -> by (apply IH; intros; apply Hl; by right).
  pose proof (Hl x ltac:(by left)). repeat case_decide; naive_solver.
Qed.

Lemma NoDup_fmap_same {A K} (f : A → K) (l : list A) x y :
  NoDup (f <$> l) → x ∈ l → y ∈ l → f x = f y → x = y.
Proof.
  intros Hnd [i Hi]%list_elem_of_lookup [j Hj]%list_elem_of_lookup Hf.
  assert (i = j) as -> by (apply (NoDup_lookup _ i j (f x) Hnd); rewrite list_lookup_fmap, ?Hi, ?Hj; simpl; congruence).
  congruence.
Qed.

Lemma filter_extra {A} (P Q : A → Prop) `{!∀ x, Decision (P x), !∀ x, Decision (Q x)} (x : A) (l : list A) :
  NoDup l → x ∈ l → ¬ P x → (∀ y, y ∈ l → Q y ↔ P y ∨ y = x) → filter Q l ≡ₚ x :: filter P l.
Proof.
  intros Hnd Hx HPx HQ. apply NoDup_Permutation.
  - by apply NoDup_filter.
  - apply NoDup_cons. split; [by intros [? _]%list_elem_of_filter|by apply NoDup_filter].
  - intros y. rewrite elem_of_cons, !list_elem_of_filter. split.
    + intros [Hq Hy]. apply HQ in Hq as [?| ->]; auto.
    + intros [-> |[Hp Hy]]; (split; [apply HQ; auto|done]).
Qed.

Section registers.
Context `{SerdeJson}.

Lemma register_step_other pk r ch : ch_pk ch ≠ pk → register_step pk r ch = r.
Proof. intros Hpk. unfold register_step. by rewrite decide_False. Qed.

(** Only the changes to a backend matter to its register. *)
Lemma foldl_register_filter pk r l :
  foldl (register_step pk) r l = foldl (register_step pk) r (filter (λ ch, ch_pk ch = pk) l).
Proof.
  revert r. induction l as [|ch l IH]; intros r; [done|]. cbn [foldl]. rewrite filter_cons. case_decide.
  - cbn [foldl]. apply IH.
  - rewrite register_step_other by done. apply IH.
Qed.

Lemma elem_of_all_changes ch l : ch ∈ all_changes l ↔ ∃ cs, cs ∈ l ∧ ch ∈ cs_changes cs.
Proof. unfold all_changes. rewrite list_elem_of_bind. naive_solver. Qed.

Lemma all_changes_permutation l1 l2 : l1 ≡ₚ l2 → all_changes l1 ≡ₚ all_changes l2.
Proof. intros Hp. unfold all_changes. by rewrite Hp. Qed.

(** Change sets that do not touch a backend can be left out. *)
Lemma all_changes_filter pk (P : ChangeSet → Prop) `{!∀ cs, Decision (P cs)} l :
  (∀ cs ch, cs ∈ l → ¬ P cs → ch ∈ cs_changes cs → ch_pk ch ≠ pk) →
  filter (λ ch, ch_pk ch = pk) (all_changes (filter P l)) = filter (λ ch, ch_pk ch = pk) (all_changes l).
Proof.
  induction l as [|cs l IH]; intros Hl; [done|]. rewrite filter_cons.
  assert (filter (λ ch, ch_pk ch = pk) (all_changes (filter P l)) =
    filter (λ ch, ch_pk ch = pk) (all_changes l)) as IH' by (apply IH; intros; eapply Hl; eauto; by right).
  case_decide.
  - change (all_changes (cs :: ?l)) with (cs_changes cs ++ all_changes l). by rewrite !filter_app, IH'.
  - change (all_changes (cs :: l)) with (cs_changes cs ++ all_changes l). rewrite filter_app, IH'.
    rewrite (filter_none _ (cs_changes cs)); [done|]. intros ch Hch. eapply Hl; [by left|done|done].
Qed.
End registers.

(** ** The invariant *)

Section convergence.
Context `{SqlDbLaws D} `{Digests} `{SerdeJson} (Htotal : sql_total D) (Hinit : sql_init_total D).
Context (r0 : string → lww_register).
Implicit Types (s : SyncService D) (c : cluster D) (sent : list ChangeSet).

(** The change sets of others that a node has seen. *)
Definition delivered (n : string) s sent : list ChangeSet :=
  filter (λ cs, cs_from cs ≠ n ∧ cs_seq cs <= vv_get (sy_version_vector s) (cs_from cs)) sent.

(** The version rows of a database say what the version vector says. *)
Definition rows_ok s : Prop :=
  ∀ rows, sql_select_versions (sy_db s) = Ok rows →
    ∀ m q, (m, q) ∈ rows ↔ versions (sy_version_vector s) !! m = Some q.

Definition vv_range (v : VersionVector) : Prop := ∀ m q, versions v !! m = Some q → 0 <= q < 2 ^ 63.

Record node_ok (n : string) s sent : Prop := {
  node_id_ok : sy_node_id s = mkNodeId n;
  node_seq_ok : sy_sequence s = vv_get (sy_version_vector s) n;
  node_vv_range : vv_range (sy_version_vector s);
  node_rows_ok : rows_ok s;
  (** the highest number seen of a source is that of a change set of its *)
  node_seen_sent : ∀ m, vv_get (sy_version_vector s) m = 0 ∨
    ∃ cs, cs ∈ sent ∧ cs_from cs = m ∧ cs_seq cs = vv_get (sy_version_vector s) m;
  node_pending_fits : Forall change_fits (sy_pending_changes s);
  node_cache_ok : cache_ok (sy_db s) (sy_last_timestamps s);
  (** the registers are what the delivered change sets make of them *)
  node_registers : ∃ applied, applied ≡ₚ delivered n s sent ∧
    ∀ pk, register (sy_db s) pk = foldl (register_step pk) (r0 pk) (all_changes applied)
}.

Record cluster_ok c : Prop := {
  nodes_ok : ∀ n s, cl_nodes c !! n = Some s → node_ok n s (cl_sent c);
  sent_keys : NoDup ((λ cs, (cs_from cs, cs_seq cs)) <$> cl_sent c);
  sent_numbers : ∀ cs, cs ∈ cl_sent c →
    ∃ s, cl_nodes c !! cs_from cs = Some s ∧ 1 <= cs_seq cs <= sy_sequence s;
  sent_fits : ∀ cs, cs ∈ cl_sent c → Forall change_fits (cs_changes cs) ∧ cs_verify cs = true
}.

(** *** Nodes *)

Lemma vv_get_versions v m q : versions v !! m = Some q → vv_get v m = q.
Proof. unfold vv_get. by intros ->. Qed.

Lemma vv_range_get v m : vv_range v → 0 <= vv_get v m < 2 ^ 63.
Proof.
  intros Hv. unfold vv_get. destruct (versions v !! m) as [q|] eqn:Hm; simpl; [by eapply Hv|lia].
Qed.

Lemma versions_update_new v m q : vv_get v m < q →
  ∀ m', versions (vv_update v m q) !! m' = if decide (m = m') then Some q else versions v !! m'.
Proof.
  intros Hq m'. unfold vv_update; simpl. change (default 0 (versions v !! m)) with (vv_get v m).
  rewrite (proj2 (Z.ltb_lt _ _)) by done. apply lookup_insert.
Qed.

(** Storing a node's number changes its version row and nothing else. *)
Lemma persist_version_spec (db : D) m q : 0 <= q < 2 ^ 63 →
  ∃ db', persist_version db m q = Ok db' ∧
    (∀ k, read_lww db' k = read_lww db k) ∧ (∀ pk, register db' pk = register db pk) ∧
    ∀ rows rows', sql_select_versions db = Ok rows → sql_select_versions db' = Ok rows' →
      ∀ m' q', (m', q') ∈ rows' ↔ (m' = m ∧ q' = q) ∨ (m' ≠ m ∧ (m', q') ∈ rows).
Proof.
  intros Hq. unfold persist_version. destruct (is_ok_inv _ (total_open D Htotal db)) as [u ->]. simpl.
  rewrite to_i64_small by done. destruct (is_ok_inv _ (total_version D Htotal db m q)) as [db' Hdb'].
  assert (∀ k, read_lww db' k = read_lww db k) as Hlww
    by (intros k; apply read_lww_ext; by eapply replace_version_lww).
  exists db'. split_and!; [done|done| |].
  - intros pk. unfold register, live_view. by rewrite Hlww, (replace_version_backend _ _ _ _ pk Hdb').
  - intros rows rows' Hr Hr'. by apply (replace_version_versions _ _ _ _ _ _ Hdb').
Qed.

(** The rows and the vector move together when a number is stored. *)
Lemma rows_ok_update s s' m q db' :
  rows_ok s → vv_get (sy_version_vector s) m < q →
  (∀ rows rows', sql_select_versions (sy_db s) = Ok rows → sql_select_versions db' = Ok rows' →
     ∀ m' q', (m', q') ∈ rows' ↔ (m' = m ∧ q' = q) ∨ (m' ≠ m ∧ (m', q') ∈ rows)) →
  sy_db s' = db' → sy_version_vector s' = vv_update (sy_version_vector s) m q → rows_ok s'.
Proof.
  intros Hrows Hq Hdb' Hs Hv rows' Hr' m' q'. rewrite Hs in Hr'.
  destruct (is_ok_inv _ (total_versions Hinit (sy_db s))) as [rows Hr].
  rewrite (Hdb' _ _ Hr Hr'), Hv, (versions_update_new _ _ _ Hq), (Hrows _ Hr).
  case_decide; naive_solver.
Qed.

Lemma vv_range_update v m q : vv_range v → vv_get v m < q → q < 2 ^ 63 → vv_range (vv_update v m q).
Proof.
  intros Hv Hq Hq' m' q'. rewrite versions_update_new by done. case_decide; [|apply Hv].
  intros [= <-]. pose proof (vv_range_get v m Hv). lia.
Qed.

(** A change set that a node made, or has not seen, does not change what it holds. *)
Lemma delivered_snoc n s sent cs :
  (cs_from cs = n ∨ vv_get (sy_version_vector s) (cs_from cs) < cs_seq cs) →
  delivered n s (sent ++ [cs]) = delivered n s sent.
Proof.
  intros Hcs. unfold delivered. rewrite filter_app, filter_cons, decide_False, filter_nil, app_nil_r; [done|].
  intros [? ?]. destruct Hcs; [done|lia].
Qed.

Lemma node_ok_snoc n s sent cs :
  node_ok n s sent → (cs_from cs = n ∨ vv_get (sy_version_vector s) (cs_from cs) < cs_seq cs) →
  node_ok n s (sent ++ [cs]).
Proof.
  intros [] Hcs. split; try done.
  - intros m. destruct (node_seen_sent0 m) as [?|(cs' & ? & ?)]; [by left|right]. exists cs'.
    rewrite elem_of_app. auto.
  - by rewrite delivered_snoc.
Qed.

Lemma node_ok_record n s sent now_us now_ns now_ns' table pk kind data :
  node_ok n s sent → change_fits (change_new now_us now_ns now_ns' table pk kind data (mkNodeId n)) →
  node_ok n (fst (record_change s now_us now_ns now_ns' table pk kind data)) sent.
Proof.
  intros [] Hfits. split; try done. simpl. apply Forall_app. split; [done|].
  rewrite node_id_ok0. by constructor.
Qed.

Lemma node_ok_take n s s' sent : node_ok n s sent → take_event s = Some s' → node_ok n s' sent.
Proof. intros [] Ht. unfold take_event in Ht. destruct (chan_queue _); simplify_eq. by split. Qed.

(** *** Flushing *)
Lemma node_ok_flush n s s' sent cs :
  node_ok n s sent → sy_sequence s < 2 ^ 63 - 1 → flush s = (s', Finished (Some cs)) →
  cs_from cs = n ∧ cs_seq cs = sy_sequence s + 1 ∧ sy_sequence s' = cs_seq cs ∧ 1 <= cs_seq cs ∧
  Forall change_fits (cs_changes cs) ∧ cs_verify cs = true ∧ node_ok n s' (sent ++ [cs]).
Proof.
  intros Hok Hseq Hflush. pose proof Hok as []. pose proof (vv_range_get _ n node_vv_range0) as Hr.
  unfold flush in Hflush. rewrite wrap_small in Hflush by (unfold in_range; lia).
  destruct (sy_pending_changes s) as [|ch l] eqn:Hp; [done|].
  destruct (persist_version_spec (sy_db s) (node_str (sy_node_id s)) (sy_sequence s + 1) ltac:(lia))
    as (db' & Hdb' & Hlww & Hreg & Hrows). rewrite Hdb' in Hflush.
  destruct (chan_send _ _) as [ch'|]; simplify_eq/=. rewrite node_id_ok0 in *; simpl in *.
  split_and!; [done|done|done|lia|done|by apply Z.eqb_refl|].
  assert (vv_get (sy_version_vector s) n < sy_sequence s + 1) as Hlt by lia.
  split; simpl; try done.
  - rewrite vv_get_update, decide_True by done. lia.
  - apply vv_range_update; [done|done|lia].
  - by eapply rows_ok_update.
  - intros m. rewrite vv_get_update. destruct (decide (n = m)) as [<-|].
    + right. eexists. split; [apply elem_of_app; right; by left|]. unfold cs_from; simpl. split; [done|lia].
    + destruct (node_seen_sent0 m) as [?|(cs' & ? & ?)]; [by left|right]. exists cs'. rewrite elem_of_app. auto.
  - intros k t Hk. rewrite Hlww. by apply node_cache_ok0.
  - destruct node_registers0 as (applied & Happ & Hregs). exists applied. split; [|by intros; rewrite Hreg].
    rewrite Happ. unfold delivered. rewrite filter_app, filter_cons, decide_False, filter_nil, app_nil_r.
    2: { unfold cs_from; simpl. by intros []. }
    simpl. erewrite list_filter_iff; [done|]. intros cs. simpl. rewrite vv_get_update.
    case_decide; naive_solver.
Qed.

(** *** Delivery *)

(** What an accepted change set does to a node: an already seen one nothing, a
    new one its changes and its number. *)
Lemma apply_changeset_new now_secs s s' cs r :
  cs_verify cs = true → vv_has_seen (sy_version_vector s) (cs_from cs) (cs_seq cs) = false →
  0 <= cs_seq cs < 2 ^ 63 → Forall change_fits (cs_changes cs) → cache_ok (sy_db s) (sy_last_timestamps s) →
  apply_changeset now_secs s cs = (s', Finished r) →
  sy_node_id s' = sy_node_id s ∧ sy_sequence s' = sy_sequence s ∧
  sy_pending_changes s' = sy_pending_changes s ∧
  sy_version_vector s' = vv_update (sy_version_vector s) (cs_from cs) (cs_seq cs) ∧
  cache_ok (sy_db s') (sy_last_timestamps s') ∧
  (∀ pk, register (sy_db s') pk = foldl (register_step pk) (register (sy_db s) pk) (cs_changes cs)) ∧
  ∀ rows rows', sql_select_versions (sy_db s) = Ok rows → sql_select_versions (sy_db s') = Ok rows' →
    ∀ m' q', (m', q') ∈ rows' ↔ (m' = cs_from cs ∧ q' = cs_seq cs) ∨ (m' ≠ cs_from cs ∧ (m', q') ∈ rows).
Proof.
  intros Hver Hnew Hseq Hfits Hcache. unfold apply_changeset. rewrite Hver. simpl.
  change (node_str (cs_source cs)) with (cs_from cs). rewrite Hnew.
  destruct (is_ok_inv _ (total_open D Htotal (sy_db s))) as [u ->].
  pose proof (apply_changes_registers Htotal now_secs _ _ (sy_events s) 0 _ Hfits Hcache) as Hreg.
  pose proof (apply_changes_versions now_secs (sy_db s) (sy_last_timestamps s) (sy_events s) 0 (cs_changes cs)) as Hvers.
  destruct (apply_changes _ _ _ _ _ _) as [[[db last] ch] r']. simpl in Hvers.
  destruct Hreg as [->|([n ->] & Hc & Hregs)]; [done|].
  destruct (persist_version_spec db (cs_from cs) (cs_seq cs) Hseq) as (db' & -> & Hlww & Hreg' & Hrows).
  intros [= <- _]; simpl. split_and!; try done.
  - intros k t Hk. rewrite Hlww. by apply Hc.
  - intros pk. by rewrite Hreg'.
  - intros rows rows' Hr. apply Hrows. by rewrite Hvers.
Qed.

Lemma delivered_new n s s' sent cs :
  NoDup ((λ cs, (cs_from cs, cs_seq cs)) <$> sent) → cs ∈ sent → cs_from cs ≠ n →
  vv_get (sy_version_vector s) (cs_from cs) < cs_seq cs → in_order s cs →
  sy_version_vector s' = vv_update (sy_version_vector s) (cs_from cs) (cs_seq cs) →
  delivered n s' sent ≡ₚ cs :: delivered n s sent.
Proof.
  intros Hnd Hin Hfrom Hlt Hord Hv. unfold delivered, in_order in *. apply filter_extra.
  - by eapply NoDup_fmap_1.
  - done.
  - intros [_ ?]. lia.
  - intros cs' Hin'. rewrite Hv, vv_get_update. case_decide as Heq.
    + rewrite <-Heq. split; [|intros [?| ->]; (split; [done|lia])].
      intros [? Hle]. destruct (decide (cs_seq cs' = cs_seq cs)) as [Hs|]; [|left; split; [done|lia]].
      right. apply (NoDup_fmap_same (λ cs, (cs_from cs, cs_seq cs)) sent); [done..|]. by rewrite Heq, Hs.
    + split; [by left|]. intros [?| ->]; [done|by destruct Heq].
Qed.

Lemma node_ok_deliver n s s' sent cs now_secs r :
  NoDup ((λ cs, (cs_from cs, cs_seq cs)) <$> sent) → cs ∈ sent →
  Forall change_fits (cs_changes cs) → cs_verify cs = true → 0 <= cs_seq cs < 2 ^ 63 →
  (cs_from cs = n → cs_seq cs <= sy_sequence s) →
  node_ok n s sent → in_order s cs → apply_changeset now_secs s cs = (s', Finished r) →
  node_ok n s' sent ∧ sy_sequence s' = sy_sequence s.
Proof.
  intros Hnd Hin Hfits Hver Hseq Hown Hok Hord Happ. pose proof Hok as [].
  destruct (vv_has_seen (sy_version_vector s) (cs_from cs) (cs_seq cs)) eqn:Hseen.
  { unfold apply_changeset in Happ. change (node_str (cs_source cs)) with (cs_from cs) in Happ.
    rewrite Hver, Hseen in Happ. simpl in Happ. by simplify_eq. }
  destruct (apply_changeset_new _ _ _ _ _ Hver Hseen Hseq Hfits node_cache_ok0 Happ)
    as (Hid & Hsq & Hpend & Hv & Hcache & Hreg & Hrows).
  assert (vv_get (sy_version_vector s) (cs_from cs) < cs_seq cs) as Hlt
    by (unfold vv_has_seen in Hseen; zbool; lia).
  assert (cs_from cs ≠ n) as Hne by (intros <-; specialize (Hown eq_refl); lia).
  split; [|done]. split; try congruence.
  - rewrite Hsq, Hv, vv_get_update, decide_False; done.
  - rewrite Hv. apply vv_range_update; [done|done|lia].
  - by eapply rows_ok_update.
  - intros m. rewrite Hv, vv_get_update. case_decide as Hm; [|apply node_seen_sent0].
    right. exists cs. split_and!; [done|done|]. subst m. lia.
  - done.
  - destruct node_registers0 as (applied & Hperm & Hregs). exists (applied ++ [cs]). split.
    + rewrite (delivered_new n s s' sent cs), Hperm by done. by rewrite Permutation_app_comm.
    + intros pk. rewrite Hreg, Hregs. unfold all_changes. rewrite bind_app, foldl_app. simpl. by rewrite app_nil_r.
Qed.

(** *** Restarts *)

Lemma load_versions_exact v rows :
  NoDup rows.*1 → (∀ m q, (m, q) ∈ rows → 0 <= q < 2 ^ 63) → (∀ m q, (m, q) ∈ rows → versions v !! m = None) →
  ∃ v', load_versions v rows = (v', Ok tt) ∧
    ∀ m q, versions v' !! m = Some q ↔ (m, q) ∈ rows ∨ versions v !! m = Some q.
Proof.
  revert v. induction rows as [|[m q] rows IH]; intros v Hnd Hr Hnew; simpl.
  { exists v. split; [done|]. intros m q. rewrite elem_of_nil. naive_solver. }
  apply NoDup_cons in Hnd as [Hm Hnd]. pose proof (Hr m q ltac:(by left)) as Hq.
  unfold sql_unsigned. rewrite (proj2 (Z.leb_le _ _)), (proj2 (Z.ltb_lt _ _)) by lia. simpl.
  assert (versions v !! m = None) as Hnone by (eapply Hnew; by left).
  assert (∀ m', versions (vv_update v m q) !! m' = if decide (m = m') then Some q else versions v !! m') as Hup.
  { intros m'. unfold vv_update; simpl. rewrite Hnone, lookup_insert. simpl. case_decide; [|done].
    destruct (Z.ltb_spec 0 q); f_equal. lia. }
  destruct (IH (vv_update v m q)) as (v' & -> & Hv').
  - done.
  - intros m' q' Hin. apply (Hr m'). by right.
  - intros m' q' Hin. rewrite Hup, decide_False; [eapply Hnew; by right|].
    intros ->. apply Hm. apply list_elem_of_fmap. by exists (m', q').
  - exists v'. split; [done|]. intros m' q'. rewrite Hv', Hup, elem_of_cons. case_decide; naive_solver.
Qed.

Lemma node_ok_restart n s s' sent u :
  node_ok n s sent → init_db (sync_new (sy_node_id s) (sy_db s)) = (s', Ok u) →
  node_ok n s' sent ∧ sy_sequence s' = sy_sequence s.
Proof.
  intros Hok Hini. pose proof Hok as []. unfold init_db in Hini; simpl in Hini.
  destruct (is_ok_inv _ (total_open D Htotal (sy_db s))) as [u1 Ho]. rewrite Ho in Hini. simpl in Hini.
  destruct (is_ok_inv _ (total_create Hinit (sy_db s))) as [db Hdb]. rewrite Hdb in Hini. simpl in Hini.
  destruct (is_ok_inv _ (total_versions Hinit db)) as [rows Hrows]. rewrite Hrows in Hini. simpl in Hini.
  destruct (is_ok_inv _ (total_versions Hinit (sy_db s))) as [rows0 Hrows0].
  pose proof (create_tables_versions _ _ _ _ Hdb Hrows0 Hrows) as Hsame.
  assert (∀ m q, (m, q) ∈ rows ↔ versions (sy_version_vector s) !! m = Some q) as Hvers
    by (intros m q; by rewrite Hsame, (node_rows_ok0 _ Hrows0)).
  destruct (load_versions_exact vv_new rows (versions_keys _ _ Hrows)) as (v' & Hload & Hv').
  { intros m q Hin. eapply node_vv_range0. by apply Hvers. }
  { intros m q _. apply lookup_empty. }
  assert (∀ m, versions v' !! m = versions (sy_version_vector s) !! m) as Hsamev.
  { intros m. apply option_eq. intros q. rewrite Hv', Hvers. simpl. rewrite lookup_empty. naive_solver. }
  assert (∀ m, vv_get v' m = vv_get (sy_version_vector s) m) as Hget by (intros m; unfold vv_get; by rewrite Hsamev).
  rewrite Hload in Hini. injection Hini as <- _. rewrite node_id_ok0 in *. simpl.
  assert (default 0 (versions v' !! n) = sy_sequence s) as Hseq by (rewrite node_seq_ok0, <-Hget; done).
  split; [|exact Hseq]. split; simpl; try done.
  - intros m q. rewrite Hsamev. apply node_vv_range0.
  - intros rows' Hr' m q. simpl in Hr' |- *. rewrite Hrows in Hr'. injection Hr' as <-. by rewrite Hsamev.
  - intros m. rewrite Hget. apply node_seen_sent0.
  - destruct node_registers0 as (applied & Hperm & Hregs). exists applied. split.
    + rewrite Hperm. unfold delivered; simpl. erewrite list_filter_iff; [done|]. intros cs. simpl. by rewrite Hget.
    + intros pk. rewrite <-Hregs. unfold register, live_view.
      rewrite (create_tables_backend _ _ pk Hdb). f_equal. apply read_lww_ext. by apply create_tables_lww.
Qed.

(** *** The cluster *)

Lemma cluster_ok_set c n s s' :
  cluster_ok c → cl_nodes c !! n = Some s → node_ok n s' (cl_sent c) → sy_sequence s' = sy_sequence s →
  cluster_ok (set_node c n s').
Proof.
  intros [Hn Hk Hs Hf] Hin Hok Hseq. split; simpl; try done.
  - intros m t. rewrite lookup_insert. case_decide; [subst; by intros [= <-]|apply Hn].
  - intros cs Hcs. destruct (Hs cs Hcs) as (t & Ht & Hr). rewrite lookup_insert.
    case_decide; [|by exists t]. exists s'. split; [done|]. simplify_eq. by rewrite Hseq.
Qed.

Lemma cluster_ok_flush c n s s' cs :
  cluster_ok c → cl_nodes c !! n = Some s → sy_sequence s < 2 ^ 63 - 1 → flush s = (s', Finished (Some cs)) →
  cluster_ok (mkCluster (<[n := s']> (cl_nodes c)) (cl_sent c ++ [cs])).
Proof.
  intros Hc Hin Hseq Hflush. pose proof Hc as [Hn Hk Hs Hf].
  destruct (node_ok_flush n s s' (cl_sent c) cs) as (Hfrom & Hcs & Hseq' & Hpos & Hfits & Hver & Hok); [by apply Hn|done|done|].
  assert (∀ cs', cs' ∈ cl_sent c → cs_from cs' = n → cs_seq cs' < cs_seq cs) as Hless.
  { intros cs' Hcs' Hfrom'. destruct (Hs cs' Hcs') as (t & Ht & Hr). rewrite Hfrom' in Ht. simplify_eq. lia. }
  split; simpl.
  - intros m t. rewrite lookup_insert. case_decide as Hm; [subst; by intros [= <-]|]. intros Ht.
    pose proof (Hn m t Ht) as Hokt. apply node_ok_snoc; [done|]. right. rewrite Hfrom.
    destruct (node_seen_sent _ _ _ Hokt n) as [Hz|(cs' & Hcs' & Hfrom' & Hz)]; [rewrite Hz; lia|rewrite <-Hz; by apply Hless].
  - rewrite fmap_app. apply NoDup_app. split_and!; [done| |apply NoDup_singleton].
    intros p (cs' & -> & Hcs')%list_elem_of_fmap Hp. apply list_elem_of_singleton in Hp. injection Hp as Hfr Hsq.
    specialize (Hless cs' Hcs' ltac:(congruence)). lia.
  - intros cs' [Hcs'| ->%list_elem_of_singleton]%elem_of_app.
    + destruct (Hs cs' Hcs') as (t & Ht & Hr). rewrite lookup_insert. case_decide as Hm; [|by exists t].
      exists s'. split; [done|]. rewrite <-Hm in Ht. simplify_eq. lia.
    + rewrite Hfrom, lookup_insert_eq. exists s'. split; [done|]. lia.
  - intros cs' [Hcs'| ->%list_elem_of_singleton]%elem_of_app; [by apply Hf|done].
Qed.

Lemma cluster_ok_exec l c c' : cluster_ok c → orderly c l → cluster_exec l c = Some c' → cluster_ok c'.
Proof.
  intros Hc Hl Hex. pose proof Hc as [Hn Hk Hs Hf].
  destruct l as [n t1 t2 t3 table pk kind data|n|n cs now|n|n]; simpl in Hex, Hl;
    (destruct (cl_nodes c !! n) as [s|] eqn:Hin; simpl in Hex; [|done]); pose proof (Hn n s Hin) as Hok.
  - injection Hex as <-. eapply cluster_ok_set; [done|done| |done]. by apply node_ok_record.
  - destruct (flush s) as [s' [[cs|]|]] eqn:Hflush; simplify_eq.
    + eapply cluster_ok_flush; eauto.
    + unfold flush in Hflush. destruct (sy_pending_changes s); [|by destruct (chan_send _ _)]. simplify_eq.
      by eapply cluster_ok_set.
  - case_decide as Hcs; [|done].
    destruct (apply_changeset now s cs) as [s' [r|]] eqn:Happ; simplify_eq.
    destruct (Hs cs Hcs) as (t & Ht & Hr). destruct (Hf cs Hcs) as [Hfits Hver].
    pose proof (Hn _ t Ht) as [_ Hsq Hvr _ _ _ _ _]. pose proof (vv_range_get _ (cs_from cs) Hvr) as Hget.
    edestruct (node_ok_deliver n s s' (cl_sent c) cs now r) as [Hok' Hseq]; [done..|lia| |done|by apply Hl|done|].
    { intros Hfrom. rewrite Hfrom in Ht. simplify_eq. lia. }
    by eapply cluster_ok_set.
  - destruct (take_event s) as [s'|] eqn:Ht; simplify_eq/=.
    eapply cluster_ok_set; [done|done|by eapply node_ok_take|].
    unfold take_event in Ht. by destruct (chan_queue _); simplify_eq.
  - destruct (init_db _) as [s' [u|]] eqn:Hini; simplify_eq.
    destruct (node_ok_restart n s s' (cl_sent c) u Hok Hini). by eapply cluster_ok_set.
Qed.

Lemma cluster_ok_start (dbs : gmap string D) :
  (∀ n db, dbs !! n = Some db → sql_select_versions db = Ok []) →
  (∀ n db pk, dbs !! n = Some db → register db pk = r0 pk) → cluster_ok (cluster_start dbs).
Proof.
  intros Hvers Hregs. split; simpl.
  - intros n s. rewrite map_lookup_imap. destruct (dbs !! n) as [db|] eqn:Hdb; simpl; [|done].
    intros [= <-]. split; simpl; try done; try (by intros ? ?; rewrite lookup_empty).
    + intros rows Hr m q. simpl in *. rewrite (Hvers _ _ Hdb) in Hr. injection Hr as <-.
      rewrite elem_of_nil, lookup_empty. done.
    + intros m. left. unfold vv_get; simpl. by rewrite lookup_empty.
    + exists []. split; [done|]. intros pk. by apply (Hregs n).
  - constructor.
  - by intros cs ?%elem_of_nil.
  - by intros cs ?%elem_of_nil.
Qed.
End convergence.

(** ** Properties *)

Section properties.
Context `{SqlDbLaws D} `{Digests} `{SerdeJson}.
Implicit Types (c : cluster D) (dbs : gmap string D).

(** Fresh nodes whose databases have no version rows and agree on every backend. *)
Definition agreeing (r0 : string → lww_register) dbs : Prop :=
  ∀ n db, dbs !! n = Some db → sql_select_versions db = Ok [] ∧ ∀ pk, register db pk = r0 pk.

Lemma cluster_reachable_ok r0 dbs c :
  sql_total D → sql_init_total D → agreeing r0 dbs → rtc (cluster_step orderly) (cluster_start dbs) c →
  cluster_ok r0 c.
Proof.
  intros Htot Hini Hagree Hrtc. eapply rtc_invariant; [|exact Hrtc|].
  - intros a b Ha (l & Hl & Hex). by eapply (cluster_ok_exec Htot Hini).
  - apply cluster_ok_start; intros n db; intros; by eapply Hagree.
Qed.

(** C7: the cluster converges. Nodes that start from agreeing databases record (changes
    of backends with readable data), flush, are handed each other's change sets (each
    source's in order, any number of times, sources interleaved in any way) and are
    restarted, losing their memory, any number of times; then any two nodes that have
    caught up, by their version vectors, agree on every backend neither of them changed
    itself, and what they hold is the last-write-wins outcome of all changes ever
    flushed.  Assumed: no statement of a node's database fails (a number that a flush
    cannot store is used again after a restart, [Sync.failed_persist_reuses_number]), and
    no two different changes of one backend that were flushed have the same timestamp
    ([Sync.equal_timestamps_diverge]). *)
Theorem cluster_convergence r0 dbs c a b sa sb pk :
  sql_total D → sql_init_total D → agreeing r0 dbs →
  rtc (cluster_step orderly) (cluster_start dbs) c →
  distinct_timestamps (all_changes (cl_sent c)) →
  cl_nodes c !! a = Some sa → cl_nodes c !! b = Some sb →
  up_to_date a sa (cl_sent c) → up_to_date b sb (cl_sent c) →
  (∀ cs ch, cs ∈ cl_sent c → cs_from cs = a ∨ cs_from cs = b → ch ∈ cs_changes cs → ch_pk ch ≠ pk) →
  register (sy_db sa) pk = register (sy_db sb) pk ∧
  register (sy_db sa) pk = foldl (register_step pk) (r0 pk) (all_changes (cl_sent c)).
Proof.
  intros Htot Hini Hagree Hrtc Hdist Ha Hb Hua Hub Hown.
  pose proof (cluster_reachable_ok _ _ _ Htot Hini Hagree Hrtc) as [Hn _ _ _].
  assert (∀ n s, n = a ∨ n = b → cl_nodes c !! n = Some s → up_to_date n s (cl_sent c) →
    register (sy_db s) pk = foldl (register_step pk) (r0 pk) (all_changes (cl_sent c))) as Hreg.
  { intros n s Hnab Hs Hu. destruct (node_registers _ _ _ _ (Hn n s Hs)) as (applied & Hperm & ->).
    assert (delivered n s (cl_sent c) = filter (λ cs, cs_from cs ≠ n) (cl_sent c)) as Hdel.
    { unfold delivered. apply filter_iff_in. intros cs Hcs. split; [by intros []|]. intros Hne. split; [done|].
      specialize (Hu cs Hcs Hne). unfold vv_has_seen in Hu. by zbool. }
    rewrite Hdel in Hperm. rewrite (foldl_register_filter pk _ (all_changes (cl_sent c))).
    rewrite <-(all_changes_filter pk (λ cs, cs_from cs ≠ n)), <-(foldl_register_filter pk).
    - apply foldl_permutation; [|by apply all_changes_permutation].
      intros r c1 c2 Hc1 Hc2. apply register_step_comm. apply Hdist.
      + apply elem_of_all_changes in Hc1 as (cs & Hcs & Hch). apply elem_of_all_changes.
        rewrite Hperm in Hcs. apply list_elem_of_filter in Hcs as [_ ?]. by exists cs.
      + apply elem_of_all_changes in Hc2 as (cs & Hcs & Hch). apply elem_of_all_changes.
        rewrite Hperm in Hcs. apply list_elem_of_filter in Hcs as [_ ?]. by exists cs.
    - intros cs ch Hcs Hne Hch. eapply Hown; [done| |done].
      destruct (decide (cs_from cs = n)) as [Hf|]; [|done]. destruct Hnab; subst n; auto. }
  rewrite (Hreg a sa), (Hreg b sb); auto.
Qed.

(** C17: change sets stay identifiable, if no statement of a node's database fails (a
    number that a flush cannot store is used again after a restart,
    [Sync.failed_persist_reuses_number]). In every state reachable from agreeing
    databases by steps that keep each source's change sets in order, restarts included,
    and with sequence numbers below [2^63], no two flushed change sets have the same
    source and number, numbers run from 1 to the source's current sequence number, and
    no node claims to have seen a number that its source has not flushed. *)
Theorem cluster_numbers r0 dbs c :
  sql_total D → sql_init_total D → agreeing r0 dbs →
  rtc (cluster_step orderly) (cluster_start dbs) c →
  (∀ cs cs', cs ∈ cl_sent c → cs' ∈ cl_sent c →
     cs_from cs = cs_from cs' → cs_seq cs = cs_seq cs' → cs = cs') ∧
  (∀ cs, cs ∈ cl_sent c → ∃ s, cl_nodes c !! cs_from cs = Some s ∧ 1 <= cs_seq cs <= sy_sequence s) ∧
  (∀ n s m, cl_nodes c !! n = Some s → vv_get (sy_version_vector s) m ≠ 0 →
     ∃ cs, cs ∈ cl_sent c ∧ cs_from cs = m ∧ cs_seq cs = vv_get (sy_version_vector s) m).
Proof.
  intros Htot Hini Hagree Hrtc.
  pose proof (cluster_reachable_ok _ _ _ Htot Hini Hagree Hrtc) as [Hn Hk Hs _].
  split_and!; [|done|].
  - intros cs cs' Hcs Hcs' Hf Hq. apply (NoDup_fmap_same (λ cs, (cs_from cs, cs_seq cs)) (cl_sent c)); [done..|].
    by rewrite Hf, Hq.
  - intros n s m Hin Hne. by destruct (node_seen_sent _ _ _ _ (Hn n s Hin) m).
Qed.
End properties.

(** ** Runs on the in-memory database *)

#[local] Existing Instances demo_digests demo_json.
#[local] Abbreviation mem_cluster := (cluster MemDb).

Fixpoint cluster_run (ls : list cluster_label) (c : mem_cluster) : option mem_cluster :=
  match ls with
  | [] => Some c
  | l :: ls' => c' ← cluster_exec l c; cluster_run ls' c'
  end.

Lemma cluster_run_rtc ok ls c c' :
  (∀ c l, l ∈ ls → ok c l) → cluster_run ls c = Some c' → rtc (cluster_step ok) c c'.
Proof.
  revert c. induction ls as [|l ls IH]; intros c Hok; simpl; [intros [= ->]; apply rtc_refl|].
  destruct (cluster_exec l c) as [c1|] eqn:Hl; simpl; [|done]. intros Hr.
  eapply rtc_l; [exists l; split; [apply Hok; by left|exact Hl]|].
  apply IH; [|done]. intros. apply Hok. by right.
Qed.

Definition mem_start : mem_cluster := cluster_start {["w" := mem_empty; "a" := mem_empty; "b" := mem_empty]}.

(** [w] flushes a change to [x] and then one to [y]. *)
Definition flush_two : list cluster_label :=
  [CRecord "w" 100 1 2 "backends" "x" KInsert "10.0.0.1"; CFlush "w";
   CRecord "w" 200 3 4 "backends" "y" KInsert "10.0.0.2"; CFlush "w"].

Definition after_flushes : mem_cluster := default mem_start (cluster_run flush_two mem_start).
Definition sent_no (i : nat) : ChangeSet := default (mkChangeSet (mkNodeId "") 0 [] 0) (cl_sent after_flushes !! i).

Definition reordered : mem_cluster :=
  default mem_start (cluster_run
    [CDeliver "a" (sent_no 0) 10; CDeliver "a" (sent_no 1) 11;
     CDeliver "b" (sent_no 1) 12; CDeliver "b" (sent_no 0) 13] after_flushes).

Definition node_of (c : mem_cluster) (n : string) : SyncService MemDb :=
  default (sync_new (mkNodeId n) mem_empty) (cl_nodes c !! n).

(** Deliveries, taken events and restarts: nothing new is recorded or flushed. *)
Definition quiet (l : cluster_label) : Prop :=
  match l with CRecord _ _ _ _ _ _ _ _ | CFlush _ => False | _ => True end.

(** What stays of a node that has seen everything. *)
Definition settled_node (c0 c : mem_cluster) (n : string) : Prop :=
  cl_sent c = cl_sent c0 ∧ ∃ s, cl_nodes c !! n = Some s ∧ sy_node_id s = mkNodeId n ∧
    sy_db s = sy_db (node_of c0 n) ∧
    ∀ cs, cs ∈ cl_sent c0 → cs_verify cs = true ∧ vv_has_seen (sy_version_vector s) (cs_from cs) (cs_seq cs) = true.

Lemma settled_node_exec c0 c c' n l :
  (∃ s', init_db (sync_new (mkNodeId n) (sy_db (node_of c0 n))) = (s', Ok tt) ∧ sy_node_id s' = mkNodeId n ∧
     sy_db s' = sy_db (node_of c0 n) ∧
     ∀ cs, cs ∈ cl_sent c0 → cs_verify cs = true ∧ vv_has_seen (sy_version_vector s') (cs_from cs) (cs_seq cs) = true) →
  settled_node c0 c n → quiet l → cluster_exec l c = Some c' → settled_node c0 c' n.
Proof.
  intros (r & Hr & Hrid & Hrdb & Hrseen) (Hsent & s & Hs & Hid & Hdb & Hseen) Hq Hex.
  assert (∀ m t t', cl_nodes c !! m = Some t →
    (m = n → sy_node_id t' = mkNodeId n ∧ sy_db t' = sy_db (node_of c0 n) ∧
      ∀ cs, cs ∈ cl_sent c0 → cs_verify cs = true ∧ vv_has_seen (sy_version_vector t') (cs_from cs) (cs_seq cs) = true) →
    settled_node c0 (set_node c m t') n) as Hset.
  { intros m t t' Ht Hn. split; [done|]. simpl. destruct (decide (m = n)) as [->|Hne].
    - exists t'. split; [apply lookup_insert_eq|]. by apply Hn.
    - exists s. split; [by rewrite lookup_insert_ne|done]. }
  destruct l as [|m|m cs now|m|m]; simpl in Hq, Hex; try done;
    (destruct (cl_nodes c !! m) as [t|] eqn:Ht; simpl in Hex; [|done]).
  - case_decide as Hcs; [|done]. destruct (apply_changeset now t cs) as [t' [x|]] eqn:Happ; simplify_eq.
    apply (Hset m t t' Ht). intros ->. simplify_eq. rewrite Hsent in Hcs.
    destruct (Hseen cs Hcs) as [Hv Hs']. unfold apply_changeset in Happ.
    change (node_str (cs_source cs)) with (cs_from cs) in Happ. rewrite Hv, Hs' in Happ. simpl in Happ.
    by simplify_eq.
  - unfold take_event in Hex. destruct (chan_queue _); simplify_eq/=.
    eapply Hset; [exact Ht|]. intros ->. by simplify_eq.
  - destruct (init_db (sync_new (sy_node_id t) (sy_db t))) as [t' [u|]] eqn:Hini; [|done].
    injection Hex as <-. apply (Hset m t t' Ht). intros ->. rewrite Hs in Ht. injection Ht as <-.
    rewrite Hid, Hdb, Hr in Hini. by injection Hini as <- _.
Qed.

(** In-order delivery is needed, and nothing in the protocol provides it: of
    two nodes that were handed the same two change sets in different orders both
    have caught up by their version vectors, but one has lost a change, and no
    further delivery of anything that was ever flushed, and no restart, brings it
    back. *)
Lemma reordering_loses_changes :
  rtc (cluster_step (λ _ _, True)) mem_start reordered ∧
  up_to_date "a" (node_of reordered "a") (cl_sent reordered) ∧
  up_to_date "b" (node_of reordered "b") (cl_sent reordered) ∧
  is_Some (snd (register (sy_db (node_of reordered "a")) "x")) ∧
  ∀ c', rtc (cluster_step (λ _ l, quiet l)) reordered c' →
    register (sy_db (node_of c' "b")) "x" = (None, None).
Proof.
  assert (cl_sent reordered = [sent_no 0; sent_no 1]) as Hsent by (vm_compute; reflexivity).
  assert (∀ n, n = "a" ∨ n = "b" → Forall (λ cs, vv_has_seen (sy_version_vector (node_of reordered n)) (cs_from cs)
    (cs_seq cs) = true) [sent_no 0; sent_no 1]) as Hcaught.
  { intros n [-> | ->]; repeat constructor. }
  split.
  { apply (cluster_run_rtc _ (flush_two ++ [CDeliver "a" (sent_no 0) 10; CDeliver "a" (sent_no 1) 11;
      CDeliver "b" (sent_no 1) 12; CDeliver "b" (sent_no 0) 13])); [done|]. vm_compute. reflexivity. }
  assert (∀ n, n = "a" ∨ n = "b" → up_to_date n (node_of reordered n) (cl_sent reordered)) as Hup.
  { intros n Hn cs Hcs _. rewrite Hsent in Hcs. exact (proj1 (Forall_forall _ _) (Hcaught n Hn) cs Hcs). }
  split; [by apply Hup; left|]. split; [by apply Hup; right|].
  split; [vm_compute; by eexists|].
  intros c' Hrtc. assert (settled_node reordered c' "b") as (_ & s & Hs & _ & Hdb & _).
  2: { unfold node_of. rewrite Hs. simpl. rewrite Hdb. vm_compute. reflexivity. }
  assert (Forall (λ cs, cs_verify cs = true) [sent_no 0; sent_no 1]) as Hver by (repeat constructor).
  eapply (rtc_invariant _ (λ c, settled_node reordered c "b")); [|exact Hrtc|].
  - intros c1 c2 Hc1 (l & Hl & Hex). eapply settled_node_exec; [|exact Hc1|exact Hl|exact Hex].
    eexists. split; [vm_compute; reflexivity|]. split; [reflexivity|]. split; [vm_compute; reflexivity|].
    rewrite Hsent. apply Forall_forall. repeat constructor.
  - split; [done|]. exists (node_of reordered "b"). split; [vm_compute; reflexivity|].
    split; [vm_compute; reflexivity|]. split; [done|]. rewrite Hsent. intros cs Hcs. split.
    + exact (proj1 (Forall_forall _ _) Hver cs Hcs).
    + exact (proj1 (Forall_forall _ _) (Hcaught "b" ltac:(by right)) cs Hcs).
Qed.

(** ** Witnesses *)

Definition in_order_labels : list cluster_label :=
  flush_two ++ [CDeliver "a" (sent_no 0) 10; CDeliver "b" (sent_no 0) 11; CRestart "b";
                CDeliver "b" (sent_no 1) 12; CDeliver "a" (sent_no 1) 13; CDeliver "a" (sent_no 0) 14].

Definition ordered : mem_cluster := default mem_start (cluster_run in_order_labels mem_start).

(** A decidable check of the steps' conditions, to run them. *)
Definition fits_b (ch : Change) : bool :=
  bool_decide (ch_table ch = "backends") &&
  (0 <=? wall_time (ch_timestamp ch)) && (wall_time (ch_timestamp ch) <? 2 ^ 63) &&
  (0 <=? ts_counter (ch_timestamp ch)) && (ts_counter (ch_timestamp ch) <? 2 ^ 32) &&
  (0 <=? node_hash (ch_timestamp ch)) && (node_hash (ch_timestamp ch) <? 2 ^ 32) &&
  (bool_decide (ch_kind ch = KDelete) || is_ok (json_from_str (ch_data ch))).

Definition orderly_b (c : mem_cluster) (l : cluster_label) : bool :=
  match l with
  | CRecord n t1 t2 t3 table pk kind data => fits_b (change_new t1 t2 t3 table pk kind data (mkNodeId n))
  | CFlush n => sy_sequence (node_of c n) <? 2 ^ 63 - 1
  | CDeliver n cs _ => cs_seq cs <=? vv_get (sy_version_vector (node_of c n)) (cs_from cs) + 1
  | _ => true
  end.

Lemma orderly_b_sound c l : orderly_b c l = true → orderly c l.
Proof.
  destruct l as [n t1 t2 t3 table pk kind data|n|n cs now|n|n]; simpl; try done.
  - unfold fits_b. intros Hf. repeat (apply andb_true_iff in Hf as [Hf ?]). zbool.
    apply bool_decide_eq_true in Hf. split; [done|]. split; [by split_and!|]. intros Hk.
    by destruct (bool_decide_reflect (ch_kind (change_new t1 t2 t3 table pk kind data (mkNodeId n)) = KDelete)).
  - intros Hb s Hs. unfold node_of in Hb. rewrite Hs in Hb. simpl in Hb. by zbool.
  - intros Hb s Hs. unfold node_of in Hb. rewrite Hs in Hb. simpl in Hb. unfold in_order. by zbool.
Qed.

Fixpoint orderly_run (ls : list cluster_label) (c : mem_cluster) : bool :=
  match ls with
  | [] => true
  | l :: ls' => orderly_b c l && match cluster_exec l c with Some c' => orderly_run ls' c' | None => false end
  end.

Lemma orderly_run_rtc ls c : orderly_run ls c = true →
  rtc (cluster_step orderly) c (default c (cluster_run ls c)).
Proof.
  assert (∀ d, orderly_run ls c = true → rtc (cluster_step orderly) c (default d (cluster_run ls c))) as Hrun; [|auto].
  revert c. induction ls as [|l ls IH]; intros c d; simpl; [intros _; apply rtc_refl|].
  intros [Hl Hr]%andb_true_iff. destruct (cluster_exec l c) as [c1|] eqn:Hex; [|done]. simpl.
  eapply rtc_l; [exists l; split; [by apply orderly_b_sound|exact Hex]|]. by apply IH.
Qed.

Lemma mem_init_total : sql_init_total MemDb.
Proof. split; intros; reflexivity. Qed.

Lemma mem_agreeing : agreeing (λ _, (None, None)) ({["w" := mem_empty; "a" := mem_empty; "b" := mem_empty]} : gmap string MemDb).
Proof.
  intros n db Hdb. assert (db = mem_empty) as ->; [|split; [reflexivity|intros pk; reflexivity]].
  apply lookup_insert_Some in Hdb as [[_ <-]|[_ Hdb]]; [done|].
  apply lookup_insert_Some in Hdb as [[_ <-]|[_ Hdb]]; [done|].
  by apply lookup_singleton_Some in Hdb as [_ <-].
Qed.

Lemma cluster_convergence_witness :
  register (sy_db (node_of ordered "a")) "x" = register (sy_db (node_of ordered "b")) "x" ∧
  is_Some (snd (register (sy_db (node_of ordered "b")) "x")).
Proof.
  split; [|vm_compute; by eexists].
  assert (cl_sent ordered = [sent_no 0; sent_no 1]) as Hsent by (vm_compute; reflexivity).
  refine (proj1 (cluster_convergence (λ _, (None, None)) _ ordered "a" "b" (node_of ordered "a") (node_of ordered "b")
    "x" mem_total mem_init_total mem_agreeing _ _ _ _ _ _ _)).
  - apply orderly_run_rtc. vm_compute. reflexivity.
  - rewrite Hsent. intros c1 c2 [cs1 [Hc1 Hh1]]%elem_of_all_changes [cs2 [Hc2 Hh2]]%elem_of_all_changes Hpk _.
    revert Hh1 Hh2 Hpk. apply elem_of_cons in Hc1 as [->|Hc1%list_elem_of_singleton];
      apply elem_of_cons in Hc2 as [->|Hc2%list_elem_of_singleton]; subst;
      vm_compute; intros Hh1%list_elem_of_singleton Hh2%list_elem_of_singleton; subst; congruence.
  - vm_compute. reflexivity.
  - vm_compute. reflexivity.
  - rewrite Hsent. intros cs Hcs _. revert cs Hcs. apply Forall_forall. repeat constructor.
  - rewrite Hsent. intros cs Hcs _. revert cs Hcs. apply Forall_forall. repeat constructor.
  - rewrite Hsent. intros cs ch [->|Hcs%list_elem_of_singleton]%elem_of_cons [Hf|Hf]; subst; vm_compute in Hf; discriminate.
Defined.

Lemma cluster_numbers_witness :
  ∃ s, cl_nodes ordered !! "w" = Some s ∧ 1 <= cs_seq (sent_no 1) <= sy_sequence s.
Proof.
  destruct (cluster_numbers (λ _, (None, None)) _ ordered mem_total mem_init_total mem_agreeing) as (_ & H & _).
  - apply orderly_run_rtc. vm_compute. reflexivity.
  - apply (H (sent_no 1)). vm_compute. right. left.
Defined.
