(* ===== verification/Gossip.v ===== *)
(** * Gossip membership

    [src/src/replication/gossip.rs].  Message processing is a function from the
    member map to the new map and a list of actions, as in the code; the loop of
    [start] is a step per branch of its [select!].  Socket addresses are their
    text, the random index and the clock are arguments, the datagram encoding
    ([bincode]) is the class [GossipCodec]; members of a map are listed in the
    order of [map_to_list] (the code's hash order is unspecified). *)

From S2P Require Import Prelude NetAddr Channel ReplTypes.

Inductive MemberState := MAlive | MSuspect | MDead.

#[export] Instance MemberState_eq_dec : EqDecision MemberState.
Proof. solve_decision. Defined.

Record Member := mkMember {
  mb_node_id : NodeId;
  mb_gossip_addr : string;
  mb_transport_addr : string;
  mb_state : MemberState;
  mb_last_seen : instant;
  mb_incarnation : Z        (* u64 *)
}.

(** [PartialEq for Member]: everything but [last_seen]. *)
Definition member_eqb (a b : Member) : bool :=
  bool_decide (mb_node_id a = mb_node_id b) && bool_decide (mb_gossip_addr a = mb_gossip_addr b)
  && bool_decide (mb_transport_addr a = mb_transport_addr b) && bool_decide (mb_state a = mb_state b)
  && (mb_incarnation a =? mb_incarnation b).

Inductive GossipMessage :=
| GPing (sender_id sender_gossip_addr sender_transport_addr : string) (incarnation : Z)
| GAck (sender_id sender_gossip_addr sender_transport_addr : string) (incarnation : Z)
| GJoin (node_id gossip_addr transport_addr : string)
| GMemberList (members : list (string * string * string * Z)).

Inductive GossipEvent :=
| MemberJoined (m : Member)
| MemberLeft (node_id : NodeId)
| MemberStateChanged (node_id : NodeId) (old_state new_state : MemberState).

Inductive GossipAction :=
| ASend (to : string) (message : GossipMessage)
| AEmit (e : GossipEvent)
| ANone.

Record ProcessResult := mkResult { pr_actions : list GossipAction; pr_member_discovered : bool }.

Definition result_empty : ProcessResult := mkResult [] false.
Definition result_send (to : string) (m : GossipMessage) : ProcessResult := mkResult [ASend to m] false.
Definition with_action (r : ProcessResult) (a : GossipAction) : ProcessResult :=
  mkResult (pr_actions r ++ [a]) (pr_member_discovered r).
Definition with_member_discovered (r : ProcessResult) : ProcessResult := mkResult (pr_actions r) true.

Abbreviation member_map := (gmap string Member) (only parsing).

(** The write-locked insertion of every branch: the map, and [is_new]. *)
Definition insert_member (ms : member_map) (id : string) (m : Member) : member_map * bool :=
  (<[id := m]> ms, bool_decide (ms !! id = None)).

(** A member as a message describes it. *)
Definition alive_member (now : instant) (id ga ta : string) (inc : Z) : Member :=
  mkMember (mkNodeId id) ga ta MAlive now inc.

Record LocalNode := mkLocal {
  ln_node_id : string;
  ln_gossip_addr : string;
  ln_transport_addr : string;
  ln_incarnation : Z
}.

(** The body of the [MemberList] loop. *)
Definition process_entry (now : instant) (local : LocalNode) (acc : member_map * ProcessResult)
    (e : string * string * string * Z) : member_map * ProcessResult :=
  let '(ms, r) := acc in
  let '(id, ga, ta, inc) := e in
  if String.eqb id (ln_node_id local) then acc
  else
    let m := alive_member now id ga ta inc in
    let '(ms', is_new) := insert_member ms id m in
    (ms', if is_new then with_action (with_member_discovered r) (AEmit (MemberJoined m)) else r).

Definition process_message (now : instant) (msg : GossipMessage) (src : string) (ms : member_map)
    (local : LocalNode) : member_map * ProcessResult :=
  match msg with
  | GPing sid ga ta inc =>
      let m := alive_member now sid ga ta inc in
      let '(ms', is_new) := insert_member ms sid m in
      let ack := GAck (ln_node_id local) (ln_gossip_addr local) (ln_transport_addr local) (ln_incarnation local) in
      let r := result_send src ack in
      (ms', if is_new then with_action (with_member_discovered r) (AEmit (MemberJoined m)) else r)
  | GAck sid ga ta inc =>
      let m := alive_member now sid ga ta inc in
      let '(ms', is_new) := insert_member ms sid m in
      (ms', if is_new then with_action (with_member_discovered result_empty) (AEmit (MemberJoined m))
            else result_empty)
  | GJoin id ga ta =>
      let m := alive_member now id ga ta 0 in
      let '(ms', is_new) := insert_member ms id m in
      let member_list := (fun m => (node_str (mb_node_id m), mb_gossip_addr m, mb_transport_addr m, mb_incarnation m))
                           <$> (map_to_list ms').*2 in
      let r := result_send src (GMemberList member_list) in
      (ms', if is_new then with_action (with_member_discovered r) (AEmit (MemberJoined m)) else r)
  | GMemberList l => foldl (process_entry now local) (ms, result_empty) l
  end.

(** A member that has been silent for longer than [timeout]. *)
Definition timed_out (now : instant) (timeout : duration) (m : Member) : bool :=
  bool_decide (mb_state m = MAlive) && (timeout <? duration_since now (mb_last_seen m)).

Definition set_dead (m : Member) : Member :=
  mkMember (mb_node_id m) (mb_gossip_addr m) (mb_transport_addr m) MDead (mb_last_seen m) (mb_incarnation m).

(** The [iter_mut] loop: the map, and the dead members with their old states. *)
Definition mark_dead (now : instant) (timeout : duration) (ms : member_map)
    : member_map * list (string * MemberState) :=
  ((fun m => if timed_out now timeout m then set_dead m else m) <$> ms,
   omap (fun im => if timed_out now timeout (snd im) then Some (fst im, mb_state (snd im)) else None)
     (map_to_list ms)).

Definition death_events (d : string * MemberState) : list GossipEvent :=
  [MemberStateChanged (mkNodeId (fst d)) (snd d) MDead; MemberLeft (mkNodeId (fst d))].

Definition check_member_failures (now : instant) (ms : member_map) (timeout : duration)
    : member_map * list GossipAction :=
  let '(ms', dead) := mark_dead now timeout ms in
  (ms', AEmit <$> concat (death_events <$> dead)).

(** Gossip addresses of the alive members, in map order. *)
Definition alive_addrs (ms : member_map) : list string :=
  mb_gossip_addr <$> filter (fun m => mb_state m = MAlive) (map_to_list ms).*2.

(** [rand::random::<usize>() % len] *)
Definition select_ping_target (random : Z) (ms : member_map) : option string :=
  match alive_addrs ms with
  | [] => None
  | l => l !! Z.to_nat (random mod Z.of_nat (length l))
  end.

Definition create_ping (node_id ga ta : string) (inc : Z) : GossipMessage := GPing node_id ga ta inc.
Definition create_join (node_id ga ta : string) : GossipMessage := GJoin node_id ga ta.

(** ** The service *)

Record GossipService := mkGossip {
  gs_config : ReplicationConfig;
  gs_members : gmap string Member;
  gs_events : chan GossipEvent;
  gs_shutdown : bool
}.

Definition gossip_new (cfg : ReplicationConfig) : GossipService := mkGossip cfg ∅ (mkChan [] true) false.

Definition gs_all_members (g : GossipService) : list Member := (map_to_list (gs_members g)).*2.
Definition alive_members (g : GossipService) : list Member :=
  filter (fun m => mb_state m = MAlive) (map_to_list (gs_members g)).*2.
Definition get_member (g : GossipService) (id : string) : option Member := gs_members g !! id.
Definition gs_is_shutdown (g : GossipService) : bool := gs_shutdown g.
Definition gs_signal_shutdown (g : GossipService) : GossipService :=
  mkGossip (gs_config g) (gs_members g) (gs_events g) true.

(** Datagrams: what [bincode] makes of a message and of bytes. *)
Class GossipCodec := {
  gossip_serialize : GossipMessage → result string string;
  gossip_deserialize : string → result GossipMessage string
}.

Section service.
Context `{GossipCodec}.

(** A datagram to [to], if the message can be encoded. *)
Definition send_to (m : GossipMessage) (to : string) : list (string * string) :=
  match gossip_serialize m with Ok data => [(data, to)] | Err _ => [] end.

(** [execute_actions]: the datagrams, the events' channel, and whether the task got
    to the end or waits for room in the channel. *)
Fixpoint execute_actions (acts : list GossipAction) (ch : chan GossipEvent)
    : list (string * string) * chan GossipEvent * outcome unit :=
  match acts with
  | [] => ([], ch, Finished tt)
  | ASend to m :: acts' => let '(out, ch', r) := execute_actions acts' ch in (send_to m to ++ out, ch', r)
  | AEmit e :: acts' =>
      match chan_send ch e with
      | Some ch' => execute_actions acts' ch'
      | None => ([], ch, Suspended)
      end
  | ANone :: acts' => execute_actions acts' ch
  end.

Definition local_node (cfg : ReplicationConfig) : LocalNode :=
  mkLocal (rc_node_id cfg) (rc_gossip_addr cfg) (rc_transport_addr cfg) 0.

(** The join messages of [start] to the bootstrap peers whose text is a socket
    address; any other text, a host name included, is passed over. *)
Definition join_datagrams (cfg : ReplicationConfig) : list (string * string) :=
  concat ((fun peer => match parse_socket_addr peer with
                       | Some addr => send_to (GJoin (rc_node_id cfg) (rc_gossip_addr cfg) (rc_transport_addr cfg))
                                        (display_socket_addr addr)
                       | None => []
                       end) <$> rc_bootstrap_peers cfg).

(** [start]: [bound] is the result of binding the UDP socket; then a task sends the
    join messages and the loop starts. *)
Definition gossip_start (bound : result unit string) (g : GossipService) : result (list (string * string)) string :=
  let? _ := bound in Ok (join_datagrams (gs_config g)).

(** The events that wake the loop of [start]. *)
Inductive gossip_wake :=
| WRecv (data src : string) (now : instant)
| WGossipTimer (random : Z)
| WFailureTimer (now : instant).

Definition with_members_chan (g : GossipService) (ms : member_map) (ch : chan GossipEvent) : GossipService :=
  mkGossip (gs_config g) ms ch (gs_shutdown g).

Definition FAILURE_TIMEOUT : duration := from_secs 30.

(** [handle_message] *)
Definition handle_message (now : instant) (g : GossipService) (msg : GossipMessage) (src : string)
    : GossipService * list (string * string) * outcome unit :=
  let '(ms, r) := process_message now msg src (gs_members g) (local_node (gs_config g)) in
  let '(out, ch, o) := execute_actions (pr_actions r) (gs_events g) in
  (with_members_chan g ms ch, out, o).

(** The sends of the failure branch, one [await] each. *)
Fixpoint send_events (evs : list GossipEvent) (ch : chan GossipEvent) : chan GossipEvent * outcome unit :=
  match evs with
  | [] => (ch, Finished tt)
  | e :: evs' =>
      match chan_send ch e with
      | Some ch' => send_events evs' ch'
      | None => (ch, Suspended)
      end
  end.

(** The loop tests the flag ([gs_is_shutdown]) and then waits; what wakes it is handled
    whatever the flag has become meanwhile: *)
Definition gossip_turn (g : GossipService) (w : gossip_wake)
    : GossipService * list (string * string) * outcome unit :=
  match w with
  | WRecv data src now =>
      match gossip_deserialize data with
      | Ok msg => handle_message now g msg src
      | Err _ => (g, [], Finished tt)
      end
  | WGossipTimer random =>
      let addrs := alive_addrs (gs_members g) in
      match addrs with
      | [] => (g, [], Finished tt)
      | _ =>
          match addrs !! Z.to_nat (random mod Z.of_nat (length addrs)) with
          | Some target =>
              let l := local_node (gs_config g) in
              (g, send_to (GPing (ln_node_id l) (ln_gossip_addr l) (ln_transport_addr l) (ln_incarnation l)) target,
               Finished tt)
          | None => (g, [], Finished tt)   (* the index is in range *)
          end
      end
  | WFailureTimer now =>
      let '(ms, dead) := mark_dead now FAILURE_TIMEOUT (gs_members g) in
      let '(ch, o) := send_events (concat (death_events <$> dead)) (gs_events g) in
      (with_members_chan g ms ch, [], o)
  end.
End service.

(** ** Properties *)

(** The nodes a message speaks for, as a receiver takes it. *)
Definition mentioned (local : LocalNode) (msg : GossipMessage) : list (string * string * string * Z) :=
  match msg with
  | GPing id ga ta inc | GAck id ga ta inc => [(id, ga, ta, inc)]
  | GJoin id ga ta => [(id, ga, ta, 0)]
  | GMemberList l => filter (fun e => e.1.1.1 ≠ ln_node_id local) l
  end.

(** What to answer. *)
Definition reply (local : LocalNode) (msg : GossipMessage) (ms' : member_map) : option GossipMessage :=
  match msg with
  | GPing _ _ _ _ =>
      Some (GAck (ln_node_id local) (ln_gossip_addr local) (ln_transport_addr local) (ln_incarnation local))
  | GJoin _ _ _ =>
      Some (GMemberList ((fun m => (node_str (mb_node_id m), mb_gossip_addr m, mb_transport_addr m, mb_incarnation m))
              <$> (map_to_list ms').*2))
  | _ => None
  end.

(** Learning about the nodes of a list, one after the other: the map, and the
    members seen for the first time. *)
Fixpoint learn (now : instant) (ms : member_map) (l : list (string * string * string * Z))
    : member_map * list Member :=
  match l with
  | [] => (ms, [])
  | (id, ga, ta, inc) :: l' =>
      let m := alive_member now id ga ta inc in
      let '(ms', joined) := learn now (<[id := m]> ms) l' in
      (ms', if decide (ms !! id = None) then m :: joined else joined)
  end.

Lemma process_list now local l ms r :
  foldl (process_entry now local) (ms, r) l =
    let '(ms', joined) := learn now ms (filter (fun e => e.1.1.1 ≠ ln_node_id local) l) in
    (ms', mkResult (pr_actions r ++ (AEmit <$> (MemberJoined <$> joined)))
            (pr_member_discovered r || negb (bool_decide (joined = [])))).
Proof.
  revert ms r. induction l as [|[[[id ga] ta] inc] l IH]; intros ms r; cbn [foldl].
  { simpl. destruct r; simpl. by rewrite app_nil_r, orb_false_r. }
  unfold process_entry at 2. rewrite filter_cons. simpl.
  destruct (String.eqb_spec id (ln_node_id local)) as [->|Hne].
  { rewrite decide_False by (intros []; done). apply IH. }
  rewrite decide_True by done. cbn [learn]. rewrite IH.
  destruct (learn now _ _) as [ms' joined]. f_equal.
  destruct (decide (ms !! id = None)) as [Hn|Hn].
  - rewrite bool_decide_true by done. simpl. rewrite <-app_assoc. simpl. by rewrite orb_true_r.
  - by rewrite bool_decide_false.
Qed.

(** What [process_message] does, in terms of [learn] and [reply]. *)
Lemma process_message_learns now msg src ms local :
  let '(ms', r) := process_message now msg src ms local in
  let '(ms'', joined) := learn now ms (mentioned local msg) in
  ms' = ms'' ∧
  pr_actions r = option_list ((ASend src) <$> reply local msg ms') ++ (AEmit <$> (MemberJoined <$> joined)) ∧
  pr_member_discovered r = negb (bool_decide (joined = [])).
Proof.
  destruct msg as [id ga ta inc|id ga ta inc|id ga ta|l]; simpl;
    try (destruct (decide (ms !! id = None)); [rewrite bool_decide_true by done|rewrite bool_decide_false by done];
         by split_and!).
  rewrite process_list. by destruct (learn now ms _) as [ms' joined].
Qed.

(** Processing a message records exactly the nodes it speaks for (its sender,
    or the listed members other than the receiver) as alive and seen now, announces
    exactly those among them that were not in the map, each once, and answers a
    ping with an acknowledgement, a join with the member list (the new member
    included) and the other messages with nothing. *)
Lemma process_message_spec now msg src ms local :
  let '(ms', r) := process_message now msg src ms local in
  let '(ms'', joined) := learn now ms (mentioned local msg) in
  ms' = ms'' ∧
  pr_actions r = option_list ((ASend src) <$> reply local msg ms') ++ (AEmit <$> (MemberJoined <$> joined)) ∧
  pr_member_discovered r = negb (bool_decide (joined = [])).
Proof. apply process_message_learns. Qed.

Lemma list_find_app {A} (f : A → bool) l1 l2 :
  List.find f (l1 ++ l2) = match List.find f l1 with Some x => Some x | None => List.find f l2 end.
Proof. induction l1 as [|x l1 IH]; simpl; [done|]. by destruct (f x). Qed.

(** The entry of [id] after learning about a list: the last word on it counts. *)
Lemma learn_lookup now ms l id :
  fst (learn now ms l) !! id =
    match List.find (fun e => String.eqb e.1.1.1 id) (reverse l) with
    | Some (_, ga, ta, inc) => Some (alive_member now id ga ta inc)
    | None => ms !! id
    end.
Proof.
  revert ms. induction l as [|[[[i ga] ta] inc] l IH]; intros ms; simpl; [done|].
  specialize (IH (<[i := alive_member now i ga ta inc]> ms)).
  destruct (learn now _ l) as [ms' joined]. simpl in *. rewrite IH, reverse_cons, list_find_app. simpl.
  destruct (List.find _ (reverse l)) as [[[[? ?] ?] ?]|]; [done|].
  destruct (String.eqb_spec i id) as [->|Hne]; [by rewrite lookup_insert_eq|by rewrite lookup_insert_ne].
Qed.

Lemma timed_out_spec now timeout m :
  timed_out now timeout m = true ↔ mb_state m = MAlive ∧ timeout < duration_since now (mb_last_seen m).
Proof. unfold timed_out. by rewrite andb_true_iff, bool_decide_eq_true, Z.ltb_lt. Qed.

Lemma timed_out_set_dead now timeout m : timed_out now timeout (set_dead m) = false.
Proof. done. Qed.

Lemma elem_of_dead now timeout ms id st :
  (id, st) ∈ snd (mark_dead now timeout ms) ↔
  ∃ m, ms !! id = Some m ∧ st = MAlive ∧ timed_out now timeout m = true.
Proof.
  simpl. rewrite list_elem_of_omap. split.
  - intros ([i m] & Hin%elem_of_map_to_list & Hx). simpl in Hx.
    destruct (timed_out now timeout m) eqn:Ht; simplify_eq/=. exists m. split_and!; [done| |done].
    by apply timed_out_spec in Ht as [? _].
  - intros (m & Hm & -> & Ht). exists (id, m). rewrite elem_of_map_to_list. simpl. rewrite Ht.
    apply timed_out_spec in Ht as [-> _]. done.
Qed.

Lemma elem_of_death_events d id :
  MemberLeft (mkNodeId id) ∈ concat (death_events <$> d) ↔ ∃ st, (id, st) ∈ d.
Proof.
  induction d as [|[i st] d IH]; simpl.
  { split; [by intros ?%elem_of_nil|]. by intros (? & ?%elem_of_nil). }
  rewrite !elem_of_cons, IH. split.
  - intros [[=]|[[= ->]|[st' ?]]]; [exists st; by left|exists st'; by right].
  - intros [st' [[= -> ->]|?]%elem_of_cons]; eauto.
Qed.

(** Emitting events through [execute_actions] is sending them one by one. *)
Lemma execute_emits `{GossipCodec} evs ch :
  execute_actions (AEmit <$> evs) ch = ([], (send_events evs ch).1, (send_events evs ch).2).
Proof.
  revert ch. induction evs as [|e evs IH]; intros ch; simpl; [done|].
  by destruct (chan_send ch e).
Qed.

(** C32: the failure check declares dead exactly the members that are alive and
    have been silent for longer than the timeout, leaves all others as they are,
    reports each death (once: a second check at the same time reports nothing);
    and the copy of it in the service's loop does the same to the members and
    sends the same events. *)
Theorem failure_detector `{GossipCodec} now timeout g :
  let ms := gs_members g in
  let '(ms', acts) := check_member_failures now ms timeout in
  (∀ id m, ms !! id = Some m →
     ms' !! id = Some (if bool_decide (mb_state m = MAlive) && (timeout <? duration_since now (mb_last_seen m))
                       then set_dead m else m)) ∧
  (∀ id, AEmit (MemberLeft (mkNodeId id)) ∈ acts ↔
     ∃ m, ms !! id = Some m ∧ mb_state m = MAlive ∧ timeout < duration_since now (mb_last_seen m)) ∧
  check_member_failures now ms' timeout = (ms', []) ∧
  (timeout = FAILURE_TIMEOUT →
   gossip_turn g (WFailureTimer now) =
     let '(_, ch, o) := execute_actions acts (gs_events g) in (with_members_chan g ms' ch, [], o)).
Proof.
  cbv zeta. unfold check_member_failures at 1.
  destruct (mark_dead now timeout (gs_members g)) as [ms' dead] eqn:Hmd.
  pose proof (f_equal fst Hmd) as Hms. pose proof (f_equal snd Hmd) as Hdead. simpl in Hms, Hdead.
  split_and!.
  - intros id m Hm. subst ms'. rewrite lookup_fmap, Hm. done.
  - intros id.
    assert (AEmit (MemberLeft (mkNodeId id)) ∈ AEmit <$> concat (death_events <$> dead) ↔
            MemberLeft (mkNodeId id) ∈ concat (death_events <$> dead)) as ->.
    { rewrite list_elem_of_fmap. split; [intros (? & [= ->] & ?); done|eauto]. }
    rewrite elem_of_death_events. setoid_rewrite <-timed_out_spec. subst dead.
    split; [intros (st & (m & ? & _ & ?)%elem_of_dead); eauto|].
    intros (m & ? & ?). exists MAlive. apply elem_of_dead. eauto.
  - assert (∀ id m, ms' !! id = Some m → timed_out now timeout m = false) as Hnone.
    { intros id m. subst ms'. rewrite lookup_fmap, fmap_Some. intros (m0 & _ & ->).
      destruct (timed_out now timeout m0) eqn:Ht; [apply timed_out_set_dead|done]. }
    unfold check_member_failures. destruct (mark_dead now timeout ms') as [ms2 dead2] eqn:Hmd2.
    pose proof (f_equal fst Hmd2) as Hms2. pose proof (f_equal snd Hmd2) as Hdead2. simpl in Hms2.
    assert (ms2 = ms') as ->.
    { subst ms2. rewrite <-(map_fmap_id ms') at 2. apply map_fmap_ext. intros id m Hm.
      by rewrite (Hnone id m Hm). }
    assert (dead2 = []) as ->; [|done].
    destruct dead2 as [|[id st] l]; [done|exfalso].
    assert ((id, st) ∈ snd (mark_dead now timeout ms')) as Hin by (rewrite Hdead2; left).
    apply elem_of_dead in Hin as (m & Hm & _ & Ht). rewrite (Hnone id m Hm) in Ht. done.
  - intros ->. unfold gossip_turn. rewrite Hmd, execute_emits.
    by destruct (send_events _ _).
Qed.

(** A member that has been declared dead stays in the map, so (1) when it
    pings again it is alive without any event, although its death was reported;
    and (2) it is still listed to a joining node, which takes it as alive and just
    seen: the incarnation numbers are stored but never compared. *)
Lemma dead_member_resurrected now now' ms local local' src src' id m j jga jta :
  ms !! id = Some m → mb_state m = MDead → node_str (mb_node_id m) = id → j ≠ id → ln_node_id local' ≠ id →
  (∀ ga ta inc, ∃ ms1 a1, process_message now (GPing id ga ta inc) src ms local = (ms1, mkResult [ASend src a1] false) ∧
     ms1 !! id = Some (alive_member now id ga ta inc)) ∧
  (∃ ms2 l r, process_message now (GJoin j jga jta) src ms local = (ms2, r) ∧
     ASend src (GMemberList l) ∈ pr_actions r ∧ ms2 !! id = Some m ∧
     ∀ ms3, ∃ m', fst (process_message now' (GMemberList l) src' ms3 local') !! id = Some m' ∧
       mb_state m' = MAlive ∧ mb_last_seen m' = now').
Proof.
  intros Hm Hdead Hid Hj Hlocal. split.
  - intros ga ta inc. eexists _, _. simpl. rewrite bool_decide_false by (by rewrite Hm).
    split; [reflexivity|]. apply lookup_insert_eq.
  - simpl. set (ms2 := <[j := _]> ms).
    assert (ms2 !! id = Some m) as Hm2 by (unfold ms2; by rewrite lookup_insert_ne).
    eexists ms2, _, _. split_and!; [reflexivity|destruct (bool_decide _); left|done|].
    intros ms3. rewrite process_list.
    set (l := filter _ _). pose proof (learn_lookup now' ms3 l id) as Hl.
    destruct (learn now' ms3 l) as [ms' joined]. simpl in *. rewrite Hl.
    destruct (List.find _ (reverse l)) as [[[[i ga] ta] inc]|] eqn:Hf; [by eexists|exfalso].
    assert ((id, mb_gossip_addr m, mb_transport_addr m, mb_incarnation m) ∈ l) as Hin.
    { apply list_elem_of_filter. split; [simpl; congruence|]. apply list_elem_of_fmap. exists m.
      rewrite Hid. split; [done|]. apply list_elem_of_fmap. exists (id, m).
      by rewrite elem_of_map_to_list. }
    apply elem_of_reverse, list_elem_of_In, (List.find_none _ _ Hf) in Hin.
    simpl in Hin. by rewrite String.eqb_refl in Hin.
Qed.

Definition demo_local : LocalNode := mkLocal "b" "b:4001" "b:4002" 0.
Definition demo_dead : Member := mkMember (mkNodeId "x") "x:4001" "x:4002" MDead 0 3.

Lemma dead_member_resurrected_witness :
  ∃ m', fst (process_message 99 (GMemberList
      [("x", "x:4001", "x:4002", 3); ("j", "j:4001", "j:4002", 0)]) "a" ∅ demo_local) !! "x" = Some m' ∧
    mb_state m' = MAlive ∧
    ∃ ms1 a1, process_message 50 (GPing "x" "p" "q" 0) "s" {["x" := demo_dead]} demo_local
                = (ms1, mkResult [ASend "s" a1] false).
Proof.
  destruct (dead_member_resurrected 50 99 {["x" := demo_dead]} demo_local demo_local "s" "a" "x" demo_dead
    "j" "j:4001" "j:4002") as [H1 (ms2 & l & r & Hp & Hin & Hx & H2)].
  - apply lookup_singleton_eq.
  - reflexivity.
  - reflexivity.
  - discriminate.
  - discriminate.
  - destruct (H1 "p" "q" 0) as (ms1 & a1 & H & _).
    assert (l = [("x", "x:4001", "x:4002", 3); ("j", "j:4001", "j:4002", 0)] ∨
            l = [("j", "j:4001", "j:4002", 0); ("x", "x:4001", "x:4002", 3)]) as [-> | ->].
    { vm_compute in Hp. injection Hp as _ <-. vm_compute in Hin.
      apply elem_of_cons in Hin as [[= ->]|Hin]; [auto|].
      apply elem_of_cons in Hin as [[=]|Hin]. by apply elem_of_nil in Hin. }
    + destruct (H2 ∅) as (m' & Hm' & Hs & _). exists m'. split; [exact Hm'|]. split; [exact Hs|]. eauto.
    + destruct (H2 ∅) as (m' & Hm' & Hs & _). vm_compute in Hm'. exists m'.
      split; [vm_compute; exact Hm'|]. split; [exact Hs|]. eauto.
Defined.
