(* ===== verification/Membership.v ===== *)
(** * Gossip membership as a network

    Several [GossipService]s ([src/src/replication/gossip.rs]) and the datagrams
    between them.  A datagram that was sent stays available: it may be delivered
    late, out of order, several times, or never.  Where a datagram goes is the
    network's business: [route from to] is the node that receives what [from] sends
    to the address [to], and the source address it sees.  Nodes may be restarted,
    losing their memory.

    Shown: what a node holds about another is always true of it
    ([membership_truthful]); the map of a node never holds the node itself if
    addresses lead where they should ([never_own_member]); joining through a
    bootstrap peer is then possible ([joining_possible]).  With the documented
    configuration, whose gossip addresses are the unspecified one, a node pings
    itself ([unspecified_address_pings_itself]). *)

From Stdlib Require Import Ascii.
From S2P Require Import Prelude NetAddr Channel ReplTypes Gossip.

Record gossip_net := mkNet {
  gn_nodes : gmap string GossipService;
  gn_sent : list (string * string * string)       (* sender, data, to *)
}.

Inductive net_label :=
| NStart (n : string)                                           (* the join messages of [start] *)
| NDeliver (from data to : string) (now : instant)
| NPing (n : string) (random : Z)                               (* the gossip timer *)
| NCheck (n : string) (now : instant)                           (* the failure timer *)
| NTake (n : string)                                            (* the owner takes an event *)
| NRestart (n : string).

(** An IPv6 socket address with a scope id, which the encoding leaves out. *)
Definition scoped (addr : string) : bool :=
  match parse_socket_addr addr with Some (SockV6 _ _ scope) => negb (scope =? 0) | _ => false end.

Definition message_addrs (m : GossipMessage) : list string :=
  match m with
  | GPing _ ga ta _ | GAck _ ga ta _ | GJoin _ ga ta => [ga; ta]
  | GMemberList l => concat ((λ '(_, ga, ta, _), [ga; ta]) <$> l)
  end.

Definition unscoped_message (m : GossipMessage) : Prop := Forall (λ a, scoped a = false) (message_addrs m).

(** The law of the encoding. *)
Class GossipCodecLaws `{GossipCodec} : Prop := {
  gossip_roundtrip : ∀ m data,
    unscoped_message m → gossip_serialize m = Ok data → gossip_deserialize data = Ok m
}.

Section net.
Context `{GossipCodec} (route : string → string → option (string * string)).

Definition put_node (c : gossip_net) (n : string) (g : GossipService) (out : list (string * string)) : gossip_net :=
  mkNet (<[n := g]> (gn_nodes c)) (gn_sent c ++ ((λ '(data, to), (n, data, to)) <$> out)).

(** A turn of the loop of [start] that gets to its end.  (Nothing in the network sets the
    flag that the loop tests first, so test and handling are one step.) *)
Definition net_turn (c : gossip_net) (n : string) (w : gossip_wake) : option gossip_net :=
  g ← gn_nodes c !! n;
  if gs_is_shutdown g then None
  else match gossip_turn g w with
       | (g', out, Finished _) => Some (put_node c n g' out)
       | (_, _, Suspended) => None
       end.

Lemma net_turn_inv c n w c' :
  net_turn c n w = Some c' →
  ∃ g g' out u, gn_nodes c !! n = Some g ∧ gossip_turn g w = (g', out, Finished u) ∧ c' = put_node c n g' out.
Proof.
  unfold net_turn. destruct (gn_nodes c !! n) as [g|]; simpl; [|done]. destruct (gs_is_shutdown g); [done|].
  destruct (gossip_turn g w) as [[g' out] [u|]] eqn:Hg; [|done]. intros [= <-]. by exists g, g', out, u.
Qed.

Definition net_exec (l : net_label) (c : gossip_net) : option gossip_net :=
  match l with
  | NStart n => g ← gn_nodes c !! n; Some (put_node c n g (join_datagrams (gs_config g)))
  | NDeliver from data to now =>
      if decide ((from, data, to) ∈ gn_sent c)
      then '(n, src) ← route from to; net_turn c n (WRecv data src now)
      else None
  | NPing n random => net_turn c n (WGossipTimer random)
  | NCheck n now => net_turn c n (WFailureTimer now)
  | NTake n =>
      g ← gn_nodes c !! n;
      Some (put_node c n (mkGossip (gs_config g) (gs_members g)
                            (mkChan (tail (chan_queue (gs_events g))) (chan_open (gs_events g))) (gs_shutdown g)) [])
  | NRestart n => g ← gn_nodes c !! n; Some (put_node c n (gossip_new (gs_config g)) [])
  end.

Fixpoint net_run (ls : list net_label) (c : gossip_net) : option gossip_net :=
  match ls with
  | [] => Some c
  | l :: ls' => c' ← net_exec l c; net_run ls' c'
  end.

Definition net_step (ok : net_label → Prop) : relation gossip_net :=
  λ c c', ∃ l, ok l ∧ net_exec l c = Some c'.

(** The nodes of a set of configurations, before anything is sent. *)
Definition net_start (cfgs : gmap string ReplicationConfig) : gossip_net := mkNet (gossip_new <$> cfgs) [].

(** Addresses that an encoded message carries in full. *)
Definition unscoped_config (cfg : ReplicationConfig) : Prop :=
  scoped (rc_gossip_addr cfg) = false ∧ scoped (rc_transport_addr cfg) = false.

Definition cluster_config (cfgs : gmap string ReplicationConfig) : Prop :=
  map_Forall (λ n cfg, rc_node_id cfg = n ∧ unscoped_config cfg) cfgs.

(** ** True descriptions *)

Section truth.
Context `{!GossipCodecLaws} (cfgs : gmap string ReplicationConfig).

(** A description of a node that is what the node is configured with. *)
Definition truthful (e : string * string * string * Z) : Prop :=
  let '(id, ga, ta, inc) := e in
  ∃ cfg, cfgs !! id = Some cfg ∧ ga = rc_gossip_addr cfg ∧ ta = rc_transport_addr cfg ∧ inc = 0.

Definition describe (m : Member) : string * string * string * Z :=
  (node_str (mb_node_id m), mb_gossip_addr m, mb_transport_addr m, mb_incarnation m).

Definition truthful_message (m : GossipMessage) : Prop :=
  match m with
  | GPing id ga ta inc | GAck id ga ta inc => truthful (id, ga, ta, inc)
  | GJoin id ga ta => truthful (id, ga, ta, 0)
  | GMemberList l => Forall truthful l
  end.

Definition truthful_members (ms : gmap string Member) : Prop :=
  map_Forall (λ id m, node_str (mb_node_id m) = id ∧ truthful (describe m)) ms.

Record net_ok (c : gossip_net) : Prop := {
  ok_nodes n g : gn_nodes c !! n = Some g → cfgs !! n = Some (gs_config g) ∧ truthful_members (gs_members g);
  ok_sent from data to : (from, data, to) ∈ gn_sent c →
    is_Some (cfgs !! from) ∧ ∃ m, gossip_serialize m = Ok data ∧ truthful_message m
}.

Lemma truthful_learn now ms l :
  truthful_members ms → Forall truthful l → truthful_members (fst (learn now ms l)).
Proof.
  revert ms. induction l as [|[[[id ga] ta] inc] l IH]; intros ms Hms Hl; [done|].
  apply Forall_cons in Hl as [He Hl]. cbn [learn].
  specialize (IH (<[id := alive_member now id ga ta inc]> ms)).
  destruct (learn now _ l) as [ms' joined]. simpl in *. apply IH; [|done].
  apply map_Forall_insert_2; [|done]. by split.
Qed.

Lemma truthful_mentioned local m : truthful_message m → Forall truthful (mentioned local m).
Proof.
  destruct m as [id ga ta inc|id ga ta inc|id ga ta|l]; simpl; try (intros ?; by apply Forall_singleton).
  intros Hl. apply Forall_forall. intros e [_ He]%list_elem_of_filter. by eapply Forall_forall.
Qed.

Lemma truthful_local n cfg : cluster_config cfgs → cfgs !! n = Some cfg →
  truthful (rc_node_id cfg, rc_gossip_addr cfg, rc_transport_addr cfg, 0).
Proof. intros Hk Hn. exists cfg. destruct (Hk n cfg Hn) as [<- _]. done. Qed.

(** True descriptions name unscoped addresses only. *)
Lemma truthful_message_unscoped m : cluster_config cfgs → truthful_message m → unscoped_message m.
Proof.
  intros Hk. assert (∀ id ga ta inc, truthful (id, ga, ta, inc) → Forall (λ a, scoped a = false) [ga; ta]) as He.
  { intros id ga ta inc (cfg & Hn & -> & -> & _). destruct (Hk id cfg Hn) as (_ & ? & ?). by repeat constructor. }
  unfold unscoped_message. destruct m as [id ga ta inc|id ga ta inc|id ga ta|l]; simpl; try apply He.
  intros Hl. apply Forall_concat, Forall_fmap. eapply Forall_impl; [exact Hl|]. intros [[[id ga] ta] inc]. apply He.
Qed.

Lemma truthful_reply n cfg msg ms' r : cluster_config cfgs → cfgs !! n = Some cfg →
  truthful_members ms' → reply (local_node cfg) msg ms' = Some r → truthful_message r.
Proof.
  intros Hk Hn Hms. destruct msg; simpl; intros [= <-]; simpl; [by eapply truthful_local|].
  apply Forall_fmap, Forall_forall. intros m Hm. apply list_elem_of_fmap in Hm as ([id m'] & -> & Hm).
  apply elem_of_map_to_list in Hm. destruct (Hms id m' Hm) as [_ Ht]. exact Ht.
Qed.

Lemma put_node_ok c n g' out :
  net_ok c → cfgs !! n = Some (gs_config g') → truthful_members (gs_members g') →
  (∀ data to, (data, to) ∈ out → ∃ m, gossip_serialize m = Ok data ∧ truthful_message m) →
  net_ok (put_node c n g' out).
Proof.
  intros [Hnodes Hsent] Hn Hms Hout. split; simpl.
  - intros n' g. rewrite lookup_insert. case_decide as Heq; [|apply Hnodes]. intros [= <-]. by subst n'.
  - intros from data to. rewrite elem_of_app. intros [Hin|Hin]; [by eapply Hsent|].
    apply list_elem_of_fmap in Hin as ([d t] & [= -> -> ->] & Hin). split; [by eexists|by eapply Hout].
Qed.

Lemma send_to_truthful m to data to' : truthful_message m → (data, to') ∈ send_to m to →
  ∃ m, gossip_serialize m = Ok data ∧ truthful_message m.
Proof.
  intros Hm. unfold send_to. destruct (gossip_serialize m) as [d|] eqn:Hs; [|by intros ?%elem_of_nil].
  intros [= -> ->]%list_elem_of_singleton. eauto.
Qed.

(** What a message makes a node send: the reply, to the source. *)
Lemma handle_message_out now g msg src g' out r :
  handle_message now g msg src = (g', out, r) →
  gs_config g' = gs_config g ∧ gs_shutdown g' = gs_shutdown g ∧
  gs_members g' = fst (learn now (gs_members g) (mentioned (local_node (gs_config g)) msg)) ∧
  out = match reply (local_node (gs_config g)) msg (gs_members g') with Some m => send_to m src | None => [] end.
Proof.
  unfold handle_message. pose proof (process_message_learns now msg src (gs_members g) (local_node (gs_config g))) as Hp.
  destruct (process_message _ _ _ _ _) as [ms pr]. destruct (learn _ _ _) as [ms' joined].
  destruct Hp as (<- & -> & _). destruct (reply _ msg ms) as [m|] eqn:Hr; simpl.
  - rewrite execute_emits. intros [= <- <- <-]. simpl. rewrite Hr, app_nil_r. done.
  - rewrite execute_emits. intros [= <- <- <-]. simpl. by rewrite Hr.
Qed.

Lemma mark_dead_truthful now timeout ms : truthful_members ms → truthful_members (fst (mark_dead now timeout ms)).
Proof.
  intros Hms id m. simpl. rewrite lookup_fmap, fmap_Some. intros (m0 & Hm0 & ->).
  destruct (Hms id m0 Hm0) as [? ?]. by case_match.
Qed.

Lemma gossip_turn_ok c n g w g' out u :
  cluster_config cfgs → net_ok c → gn_nodes c !! n = Some g → gossip_turn g w = (g', out, Finished u) →
  (∀ data src now, w = WRecv data src now → ∃ m, gossip_serialize m = Ok data ∧ truthful_message m) →
  net_ok (put_node c n g' out).
Proof.
  intros Hk Hok Hn Hturn Hw. destruct (ok_nodes _ Hok n g Hn) as [Hcfg Hms].
  unfold gossip_turn in Hturn.
  destruct w as [data src now|random|now].
  - destruct (Hw data src now eq_refl) as (m & Hser & Hm).
    rewrite (gossip_roundtrip _ _ (truthful_message_unscoped m Hk Hm) Hser) in Hturn.
    apply handle_message_out in Hturn as (Hc & _ & Hl & ->).
    assert (truthful_members (gs_members g')) as Hms'.
    { rewrite Hl. apply truthful_learn; [done|]. by apply truthful_mentioned. }
    apply put_node_ok; [done|by rewrite Hc|done|]. intros d t Hin.
    destruct (reply _ m _) as [r|] eqn:Hr; [|by apply elem_of_nil in Hin].
    eapply send_to_truthful; [|exact Hin]. by eapply truthful_reply.
  - assert (g' = g ∧ ∀ d t, (d, t) ∈ out → ∃ m, gossip_serialize m = Ok d ∧ truthful_message m) as [-> Hout].
    { destruct (alive_addrs (gs_members g)) as [|a l]; [injection Hturn as <- <- _; split; [done|by intros ? ? ?%elem_of_nil]|].
      case_match; injection Hturn as <- <- _; (split; [done|]); intros d t Hin; [|by apply elem_of_nil in Hin].
      eapply send_to_truthful; [|exact Hin]. by eapply truthful_local. }
    by apply put_node_ok.
  - destruct (mark_dead now FAILURE_TIMEOUT (gs_members g)) as [ms dead] eqn:Hmd.
    destruct (send_events _ _) as [ch o]. injection Hturn as <- <- _.
    apply put_node_ok; [done|done| |by intros ? ? ?%elem_of_nil]. simpl.
    replace ms with (fst (mark_dead now FAILURE_TIMEOUT (gs_members g))) by (by rewrite Hmd).
    by apply mark_dead_truthful.
Qed.

Lemma net_exec_ok c l c' : cluster_config cfgs → net_ok c → net_exec l c = Some c' → net_ok c'.
Proof.
  intros Hk Hok Hex.
  assert (∀ n w, net_turn c n w = Some c' →
    (∀ data src now, w = WRecv data src now → ∃ m, gossip_serialize m = Ok data ∧ truthful_message m) → net_ok c') as Hturn.
  { intros n w (g & g' & out & u & Hn & Hg & ->)%net_turn_inv Hw. by eapply gossip_turn_ok. }
  destruct l as [n|from data to now|n random|n now|n|n]; simpl in Hex.
  - destruct (gn_nodes c !! n) as [g|] eqn:Hn; simplify_eq/=. destruct (ok_nodes _ Hok n g Hn) as [Hcfg Hms].
    apply put_node_ok; [done..|]. intros data to Hin. unfold join_datagrams in Hin.
    apply list_elem_of_In, in_concat in Hin as (l & Hl & Hin).
    apply list_elem_of_In in Hl, Hin. apply list_elem_of_fmap in Hl as (peer & -> & _).
    destruct (parse_socket_addr peer); [|by apply elem_of_nil in Hin].
    eapply send_to_truthful; [|exact Hin]. by eapply truthful_local.
  - case_decide as Hin; [|done]. destruct (route from to) as [[n src]|]; simpl in Hex; [|done].
    apply (Hturn _ _ Hex). intros ? ? ? [= <- <- <-]. by eapply ok_sent.
  - by apply (Hturn _ _ Hex).
  - by apply (Hturn _ _ Hex).
  - destruct (gn_nodes c !! n) as [g|] eqn:Hn; simplify_eq/=. destruct (ok_nodes _ Hok n g Hn) as [Hcfg Hms].
    apply put_node_ok; [done..|by intros ? ? ?%elem_of_nil].
  - destruct (gn_nodes c !! n) as [g|] eqn:Hn; simplify_eq/=. destruct (ok_nodes _ Hok n g Hn) as [Hcfg Hms].
    apply put_node_ok; [done|done|by intros ? ? ?|by intros ? ? ?%elem_of_nil].
Qed.

Lemma net_start_ok : net_ok (net_start cfgs).
Proof.
  split; simpl; [|by intros ? ? ? ?%elem_of_nil]. intros n g. rewrite lookup_fmap, fmap_Some.
  intros (cfg & Hn & ->). split; [done|]. by intros ? ? ?.
Qed.

(** C33: membership is true. In a cluster without scoped IPv6 addresses (their scope is
    lost in a message), whatever the network does with the datagrams (loss,
    delay, repetition, reordering, delivery to the wrong node) and however often
    nodes restart, every member in a node's map is a node of the cluster under its
    own id, with the gossip and transport addresses it is configured with: nobody
    is invented, and nobody's address is confused with another's. *)
Theorem membership_truthful c n g id m :
  cluster_config cfgs → rtc (net_step (λ _, True)) (net_start cfgs) c →
  gn_nodes c !! n = Some g → gs_members g !! id = Some m →
  ∃ cfg, cfgs !! id = Some cfg ∧ node_str (mb_node_id m) = id ∧
    mb_gossip_addr m = rc_gossip_addr cfg ∧ mb_transport_addr m = rc_transport_addr cfg.
Proof.
  intros Hk Hrtc Hn Hm.
  assert (net_ok c) as Hok.
  { eapply rtc_invariant; [|exact Hrtc|apply net_start_ok]. intros a b Ha (l & _ & Hex). by eapply net_exec_ok. }
  destruct (ok_nodes _ Hok n g Hn) as [_ Hms]. destruct (Hms id m Hm) as [Hid (cfg & Hcfg & Hga & Hta & _)].
  rewrite Hid in Hcfg. by exists cfg.
Qed.

(** ** Addresses that lead where they should *)

Record addresses_lead : Prop := {
  al_addr from id cfg n src : cfgs !! id = Some cfg → route from (rc_gossip_addr cfg) = Some (n, src) → n = id;
  al_src from to n src cfg : cfgs !! from = Some cfg → route from to = Some (n, src) → src = rc_gossip_addr cfg;
  al_boot n cfg peer addr src : cfgs !! n = Some cfg → peer ∈ rc_bootstrap_peers cfg →
    parse_socket_addr peer = Some addr → route n (display_socket_addr addr) ≠ Some (n, src)
}.

(** The node a message speaks for as its sender. *)
Definition speaker (m : GossipMessage) : option string :=
  match m with
  | GPing id _ _ _ | GAck id _ _ _ | GJoin id _ _ => Some id
  | GMemberList _ => None
  end.

(** What is sent in a node's own name does not come back to it. *)
Definition outward (from : string) (m : GossipMessage) (to : string) : Prop :=
  unscoped_message m ∧ (speaker m = None ∨ (speaker m = Some from ∧ ∀ n src, route from to = Some (n, src) → n ≠ from)).

Record net_outward (c : gossip_net) : Prop := {
  ow_ok : net_ok c;
  ow_self n g : gn_nodes c !! n = Some g → gs_members g !! n = None;
  ow_sent from data to : (from, data, to) ∈ gn_sent c → ∃ m, gossip_serialize m = Ok data ∧ outward from m to
}.

Lemma learn_none now ms l id :
  ms !! id = None → Forall (λ e, e.1.1.1 ≠ id) l → fst (learn now ms l) !! id = None.
Proof.
  revert ms. induction l as [|[[[i ga] ta] inc] l IH]; intros ms Hms Hl; [done|].
  apply Forall_cons in Hl as [He Hl]. cbn [learn]. specialize (IH (<[i := alive_member now i ga ta inc]> ms)).
  destruct (learn now _ l) as [ms' joined]. simpl in *. apply IH; [|done]. by rewrite lookup_insert_ne.
Qed.

Lemma put_node_outward c n g' out :
  net_outward c → net_ok (put_node c n g' out) → gs_members g' !! n = None →
  (∀ data to, (data, to) ∈ out → ∃ m, gossip_serialize m = Ok data ∧ outward n m to) →
  net_outward (put_node c n g' out).
Proof.
  intros [Hok Hself Hsent] Hok' Hn Hout. split; [done| |]; simpl.
  - intros n' g. rewrite lookup_insert. case_decide as Heq; [|apply Hself]. intros [= <-]. by subst n'.
  - intros from data to. rewrite elem_of_app. intros [Hin|Hin]; [by eapply Hsent|].
    apply list_elem_of_fmap in Hin as ([d t] & [= -> -> ->] & Hin). by eapply Hout.
Qed.

Lemma send_to_outward n m data to to' : outward n m to → (data, to') ∈ send_to m to →
  ∃ m, gossip_serialize m = Ok data ∧ outward n m to'.
Proof.
  intros Hm. unfold send_to. destruct (gossip_serialize m) as [d|] eqn:Hs; [|by intros ?%elem_of_nil].
  intros [= -> ->]%list_elem_of_singleton. eauto.
Qed.

(** What a node says of itself, and to whom. *)
Lemma outward_own n cfg m to :
  cluster_config cfgs → cfgs !! n = Some cfg → speaker m = Some (rc_node_id cfg) →
  message_addrs m = [rc_gossip_addr cfg; rc_transport_addr cfg] → (∀ n' src, route n to = Some (n', src) → n' ≠ n) →
  outward n m to.
Proof.
  intros Hk Hn Hs Ha Hto. destruct (Hk n cfg Hn) as (Hid & ? & ?). split.
  - unfold unscoped_message. rewrite Ha. by repeat constructor.
  - right. by rewrite Hs, Hid.
Qed.

(** The alive members' addresses lead to other nodes. *)
Lemma ping_outward c n g target inc : cluster_config cfgs → addresses_lead → net_outward c → gn_nodes c !! n = Some g →
  target ∈ alive_addrs (gs_members g) →
  outward n (GPing (rc_node_id (gs_config g)) (rc_gossip_addr (gs_config g)) (rc_transport_addr (gs_config g)) inc) target.
Proof.
  intros Hk Hal How Hn Ht. destruct (ok_nodes _ (ow_ok _ How) n g Hn) as [Hcfg Hms].
  apply (outward_own n (gs_config g)); [done..|]. intros n' src Hr ->. apply list_elem_of_fmap in Ht as (m & -> & Hm). apply list_elem_of_filter in Hm as [_ Hm].
  apply list_elem_of_fmap in Hm as ([id m'] & -> & Hm). apply elem_of_map_to_list in Hm. simpl in Hr.
  destruct (Hms id m' Hm) as [Hid (cfg & Hcfg' & Hga & _)]. rewrite Hid in Hcfg'.
  rewrite Hga in Hr. apply (al_addr Hal _ _ _ _ _ Hcfg') in Hr as <-.
  by rewrite (ow_self _ How n g Hn) in Hm.
Qed.

Lemma deliver_outward c from data to now n src c' :
  cluster_config cfgs → addresses_lead → net_outward c → net_ok c' → (from, data, to) ∈ gn_sent c → route from to = Some (n, src) →
  net_turn c n (WRecv data src now) = Some c' → net_outward c'.
Proof.
  intros Hk Hal How Hok' Hin Hr (g & g' & out & u & Hn & Hg & ->)%net_turn_inv.
  destruct (ok_nodes _ (ow_ok _ How) n g Hn) as [Hcfg Hms].
  destruct (ow_sent _ How _ _ _ Hin) as (m & Hser & Hout).
  destruct (ok_sent _ (ow_ok _ How) _ _ _ Hin) as ([cfrom Hfrom] & _).
  unfold gossip_turn in Hg. destruct Hout as [Hun Hout].
  rewrite (gossip_roundtrip _ _ Hun Hser) in Hg. apply handle_message_out in Hg as (Hc & _ & Hl & ->).
  assert (speaker m = None ∨ n ≠ from) as Hne by (destruct Hout as [?|[_ Hne]]; [by left|right; by apply (Hne n src)]).
  apply put_node_outward; [done|done| |].
  - rewrite Hl. apply learn_none; [by apply ow_self with c|].
    assert (rc_node_id (gs_config g) = n) as Hidn by (by destruct (Hk n _ Hcfg)).
    destruct Hout as [Hs|[Hs _]]; destruct m; simplify_eq/=;
      try (destruct Hne as [?|Hne]; [done|]; apply Forall_singleton; simpl; congruence).
    apply Forall_forall. intros e [He _]%list_elem_of_filter. simpl in He. congruence.
  - intros d t Hd. destruct (reply _ m _) as [r|] eqn:Hreply; [|by apply elem_of_nil in Hd].
    eapply send_to_outward; [|exact Hd].
    assert (unscoped_message r) as Hur.
    { apply truthful_message_unscoped; [done|]. eapply truthful_reply; [done|exact Hcfg| |exact Hreply].
      destruct (ok_nodes _ Hok' n g') as [_ ?]; [simpl; apply lookup_insert_eq|done]. }
    destruct m; simplify_eq/=; [|by split; [|left]].
    apply (outward_own n (gs_config g)); [done..|]. intros n' src' Hr' ->.
    rewrite (al_src Hal _ _ _ _ _ Hfrom Hr) in Hr'. apply (al_addr Hal _ _ _ _ _ Hfrom) in Hr'.
    destruct Hne as [?|Hne]; [done|]. by apply Hne.
Qed.

Lemma net_exec_outward c l c' :
  cluster_config cfgs → addresses_lead → net_outward c → net_exec l c = Some c' → net_outward c'.
Proof.
  intros Hk Hal How Hex. pose proof (net_exec_ok c l c' Hk (ow_ok _ How) Hex) as Hok'.
  destruct l as [n|from data to now|n random|n now|n|n]; simpl in Hex.
  - destruct (gn_nodes c !! n) as [g|] eqn:Hn; simplify_eq/=.
    destruct (ok_nodes _ (ow_ok _ How) n g Hn) as [Hcfg Hms].
    apply put_node_outward; [done|done|by eapply ow_self|]. intros data to Hin. unfold join_datagrams in Hin.
    apply list_elem_of_In, in_concat in Hin as (l & Hl & Hin).
    apply list_elem_of_In in Hl, Hin. apply list_elem_of_fmap in Hl as (peer & -> & Hpeer).
    destruct (parse_socket_addr peer) as [addr|] eqn:Hp; [|by apply elem_of_nil in Hin].
    eapply send_to_outward; [|exact Hin]. apply (outward_own n (gs_config g)); [done..|].
    intros n' src Hr ->. by apply (al_boot Hal n _ peer addr src Hcfg Hpeer Hp) in Hr.
  - case_decide as Hin; [|done]. destruct (route from to) as [[n src]|] eqn:Hr; simpl in Hex; [|done].
    by eapply deliver_outward.
  - apply net_turn_inv in Hex as (g & g' & out & u & Hn & Hg & ->). unfold gossip_turn in Hg. cbv zeta in Hg.
    pose proof (ping_outward c n g) as Hping. specialize (Hping).
    destruct (alive_addrs (gs_members g)) as [|a l] eqn:Ha.
    { injection Hg as <- <- _. apply put_node_outward; [done|done|by eapply ow_self|by intros ? ? ?%elem_of_nil]. }
    destruct ((a :: l) !! Z.to_nat (random mod Z.of_nat (length (a :: l)))) as [target|] eqn:Ht;
      injection Hg as <- <- _;
      (apply put_node_outward; [done|done|by eapply ow_self|]); [|by intros ? ? ?%elem_of_nil].
    intros d t Hin. eapply send_to_outward; [|exact Hin]. apply Hping; try done.
    by eapply list_elem_of_lookup_2.
  - apply net_turn_inv in Hex as (g & g' & out & u & Hn & Hg & ->). unfold gossip_turn in Hg.
    destruct (mark_dead now FAILURE_TIMEOUT (gs_members g)) as [ms dead] eqn:Hmd.
    destruct (send_events _ _) as [ch o]. injection Hg as <- <- _.
    apply put_node_outward; [done|done| |by intros ? ? ?%elem_of_nil]. simpl.
    replace ms with (fst (mark_dead now FAILURE_TIMEOUT (gs_members g))) by (by rewrite Hmd). simpl.
    by rewrite lookup_fmap, (ow_self _ How n g Hn).
  - destruct (gn_nodes c !! n) as [g|] eqn:Hn; simplify_eq/=.
    apply put_node_outward; [done|done|by apply (ow_self _ How n g)|by intros ? ? ?%elem_of_nil].
  - destruct (gn_nodes c !! n) as [g|] eqn:Hn; simplify_eq/=.
    apply put_node_outward; [done|done|done|by intros ? ? ?%elem_of_nil].
Qed.

Lemma net_start_outward : net_outward (net_start cfgs).
Proof.
  split; [apply net_start_ok| |by intros ? ? ? ?%elem_of_nil]. intros n g. simpl. rewrite lookup_fmap, fmap_Some.
  by intros (cfg & Hn & ->).
Qed.

(** If addresses lead where they should and no node is its own bootstrap peer, no
    node is ever a member of its own map, so none pings itself. *)
Lemma never_own_member c n g :
  cluster_config cfgs → addresses_lead → rtc (net_step (λ _, True)) (net_start cfgs) c →
  gn_nodes c !! n = Some g → gs_members g !! n = None.
Proof.
  intros Hk Hal Hrtc. assert (net_outward c) as How; [|apply (ow_self _ How)].
  eapply rtc_invariant; [|exact Hrtc|apply net_start_outward]. intros a b Ha (l & _ & Hex). by eapply net_exec_outward.
Qed.
(** ** Joining *)

(** A message from one node is taken to the end, and its sender recorded, when there
    is room for the event. *)
Lemma turn_from_peer g m id ga ta data src now :
  gs_shutdown g = false → chan_room (gs_events g) 1 → unscoped_message m → gossip_serialize m = Ok data →
  mentioned (local_node (gs_config g)) m = [(id, ga, ta, 0)] →
  ∃ g' out, gossip_turn g (WRecv data src now) = (g', out, Finished tt) ∧
    gs_config g' = gs_config g ∧ gs_shutdown g' = false ∧ gs_members g' = <[id := alive_member now id ga ta 0]> (gs_members g).
Proof.
  intros Hs Hroom Hun Hser Hm. unfold gossip_turn. rewrite (gossip_roundtrip _ _ Hun Hser). unfold handle_message.
  pose proof (process_message_learns now m src (gs_members g) (local_node (gs_config g))) as Hp.
  destruct (process_message _ _ _ _ _) as [ms r]. rewrite Hm in Hp. cbn [learn] in Hp.
  assert (∃ joined, (length joined <= 1)%nat ∧ ms = <[id := alive_member now id ga ta 0]> (gs_members g) ∧
    pr_actions r = option_list ((ASend src) <$> reply (local_node (gs_config g)) m ms) ++ (AEmit <$> (MemberJoined <$> joined)))
    as (joined & Hlen & -> & ->).
  { destruct Hp as (-> & -> & _). eexists. split_and!; [|done|done]. case_decide; simpl; lia. }
  assert (∃ ch, send_events (MemberJoined <$> joined) (gs_events g) = (ch, Finished tt)) as [ch Hch].
  { destruct joined as [|j [|]]; simpl in *; [by eexists| |lia].
    destruct (chan_send_room _ _ (MemberJoined j) Hroom) as (ch & -> & _). by eexists. }
  destruct (reply _ m _) as [a|]; simpl; rewrite execute_emits, Hch; simpl; by eexists _, _.
Qed.

(** The timer can pick any alive member. *)
Lemma ping_reaches g id m data :
  gs_members g !! id = Some m → mb_state m = MAlive →
  gossip_serialize (GPing (rc_node_id (gs_config g)) (rc_gossip_addr (gs_config g)) (rc_transport_addr (gs_config g)) 0) = Ok data →
  ∃ random, gossip_turn g (WGossipTimer random) = (g, [(data, mb_gossip_addr m)], Finished tt).
Proof.
  intros Hm Ha Hser. assert (mb_gossip_addr m ∈ alive_addrs (gs_members g)) as Hin.
  { apply list_elem_of_fmap. exists m. split; [done|]. apply list_elem_of_filter. split; [done|].
    apply list_elem_of_fmap. exists (id, m). split; [done|]. by apply elem_of_map_to_list. }
  apply list_elem_of_lookup in Hin as [i Hi]. exists (Z.of_nat i).
  unfold gossip_turn. cbv zeta. pose proof (lookup_lt_Some _ _ _ Hi) as Hlt.
  destruct (alive_addrs (gs_members g)) as [|a l]; [done|].
  rewrite Z.mod_small by lia. rewrite Nat2Z.id, Hi. simpl. unfold send_to. by rewrite Hser.
Qed.

Lemma turn_put c n g w g' out :
  gn_nodes c !! n = Some g → gs_shutdown g = false → gossip_turn g w = (g', out, Finished tt) →
  net_turn c n w = Some (put_node c n g' out).
Proof. intros Hn Hs Hg. unfold net_turn, gs_is_shutdown. rewrite Hn. simpl. by rewrite Hs, Hg. Qed.

Lemma put_node_sent c n g out data to : (data, to) ∈ out → (n, data, to) ∈ gn_sent (put_node c n g out).
Proof. intros Hin. simpl. apply elem_of_app. right. apply list_elem_of_fmap. by exists (data, to). Qed.

Lemma put_node_keeps_sent c n g out d : d ∈ gn_sent c → d ∈ gn_sent (put_node c n g out).
Proof. intros Hin. simpl. apply elem_of_app. by left. Qed.

Lemma deliver_exec c from data to now n src c' :
  (from, data, to) ∈ gn_sent c → route from to = Some (n, src) → net_turn c n (WRecv data src now) = Some c' →
  net_exec (NDeliver from data to now) c = Some c'.
Proof. intros Hin Hr Ht. simpl. rewrite decide_True by done. by rewrite Hr. Qed.

Lemma join_sent n g peer addr data :
  peer ∈ rc_bootstrap_peers (gs_config g) → parse_socket_addr peer = Some addr →
  gossip_serialize (GJoin (rc_node_id (gs_config g)) (rc_gossip_addr (gs_config g)) (rc_transport_addr (gs_config g))) = Ok data →
  ∀ c, (n, data, display_socket_addr addr) ∈ gn_sent (put_node c n g (join_datagrams (gs_config g))).
Proof.
  intros Hpeer Hp Hser c. apply put_node_sent. unfold join_datagrams. apply list_elem_of_In, in_concat.
  exists [(data, display_socket_addr addr)]. split; [|by left]. apply list_elem_of_In, list_elem_of_fmap.
  exists peer. split; [|done]. by rewrite Hp; unfold send_to; rewrite Hser.
Qed.

(** What a member's entry says of a node. *)
Definition knows (c : gossip_net) (n id : string) (t : instant) (cfg : ReplicationConfig) : Prop :=
  ∃ g, gn_nodes c !! n = Some g ∧
    gs_members g !! id = Some (alive_member t id (rc_gossip_addr cfg) (rc_transport_addr cfg) 0).

(** C34: joining works when the network lets it. If the bootstrap text of a node is
    a socket address that leads to another running node, and the joining node's
    own gossip address leads back to it, then (for addresses that a message carries)
    four steps (the join message of start, its delivery, a turn of the other node's
    gossip timer, the delivery of its ping) make each of the two know the other,
    alive and under the addresses it is configured with; neither event queue may be
    full. *)
Theorem joining_possible c n p gn gp peer addr src_n src_p t1 t2 :
  n ≠ p → unscoped_config (gs_config gn) → unscoped_config (gs_config gp) →
  is_ok (gossip_serialize (GJoin n (rc_gossip_addr (gs_config gn)) (rc_transport_addr (gs_config gn)))) = true →
  is_ok (gossip_serialize (GPing p (rc_gossip_addr (gs_config gp)) (rc_transport_addr (gs_config gp)) 0)) = true →
  gn_nodes c !! n = Some gn → rc_node_id (gs_config gn) = n → gs_shutdown gn = false → chan_room (gs_events gn) 1 →
  gn_nodes c !! p = Some gp → rc_node_id (gs_config gp) = p → gs_shutdown gp = false → chan_room (gs_events gp) 1 →
  peer ∈ rc_bootstrap_peers (gs_config gn) → parse_socket_addr peer = Some addr →
  route n (display_socket_addr addr) = Some (p, src_n) →
  route p (rc_gossip_addr (gs_config gn)) = Some (n, src_p) →
  ∃ join ping random c',
    net_run [NStart n; NDeliver n join (display_socket_addr addr) t1; NPing p random;
             NDeliver p ping (rc_gossip_addr (gs_config gn)) t2] c = Some c' ∧
    knows c' p n t1 (gs_config gn) ∧ knows c' n p t2 (gs_config gp).
Proof.
  intros Hne [Hugn Hutn] [Hugp Hutp] Hjoin' Hping' Hn Hidn Hsn Hrn Hp Hidp Hsp Hrp Hpeer Haddr Hto Hback.
  destruct (gossip_serialize (GJoin _ _ _)) as [join|] eqn:Hjoin; [clear Hjoin'|done].
  destruct (gossip_serialize (GPing _ _ _ _)) as [ping|] eqn:Hping; [clear Hping'|done].
  assert (unscoped_message (GJoin n (rc_gossip_addr (gs_config gn)) (rc_transport_addr (gs_config gn)))) as Huj
    by (by repeat constructor).
  assert (unscoped_message (GPing p (rc_gossip_addr (gs_config gp)) (rc_transport_addr (gs_config gp)) 0)) as Hup
    by (by repeat constructor).
  destruct (turn_from_peer gp _ n _ _ join src_n t1 Hsp Hrp Huj Hjoin eq_refl) as (gp' & out1 & Hturn1 & Hc1 & Hs1 & Hm1).
  destruct (ping_reaches gp' n _ ping ltac:(rewrite Hm1; apply lookup_insert_eq) eq_refl
    ltac:(by rewrite Hc1, Hidp)) as [random Hturn2].
  destruct (turn_from_peer gn _ p _ _ ping src_p t2 Hsn Hrn Hup Hping eq_refl) as (gn' & out3 & Hturn3 & Hc3 & Hs3 & Hm3).
  set (c1 := put_node c n gn (join_datagrams (gs_config gn))).
  set (c2 := put_node c1 p gp' out1). set (c3 := put_node c2 p gp' [(ping, rc_gossip_addr (gs_config gn))]).
  exists join, ping, random, (put_node c3 n gn' out3). split_and!.
  - cbn [net_run].
    assert (net_exec (NStart n) c = Some c1) as -> by (simpl; by rewrite Hn). cbn [mbind option_bind].
    assert (net_exec (NDeliver n join (display_socket_addr addr) t1) c1 = Some c2) as ->.
    { apply (deliver_exec _ _ _ _ _ p src_n); [|done|].
      - apply (join_sent _ _ peer); [done..|]. by rewrite Hidn.
      - apply (turn_put _ _ gp); [|done|done]. simpl. by rewrite lookup_insert_ne. }
    cbn [mbind option_bind].
    assert (net_exec (NPing p random) c2 = Some c3) as ->.
    { apply (turn_put _ _ gp'); [|done|done]. simpl. apply lookup_insert_eq. }
    cbn [mbind option_bind].
    assert (net_exec (NDeliver p ping (rc_gossip_addr (gs_config gn)) t2) c3 = Some (put_node c3 n gn' out3)) as ->; [|done].
    apply (deliver_exec _ _ _ _ _ n src_p); [|done|].
    + apply put_node_sent. by left.
    + apply (turn_put _ _ gn); [|done|done]. simpl. rewrite !lookup_insert_ne by done. apply lookup_insert_eq.
  - exists gp'. split; [|by rewrite Hm1, lookup_insert_eq]. simpl. rewrite lookup_insert_ne by done. apply lookup_insert_eq.
  - exists gn'. split; [apply lookup_insert_eq|by rewrite Hm3, lookup_insert_eq].
Qed.
End truth.
End net.

(** ** A concrete encoding and network *)

#[export] Instance GossipMessage_eq_dec : EqDecision GossipMessage.
Proof. solve_decision. Defined.

(** Ping, ack and join as four fields and a tag; a list of members as itself. *)
Definition message_code (m : GossipMessage) : (Z * (string * string * string * Z)) + list (string * string * string * Z) :=
  match m with
  | GPing id ga ta inc => inl (0, (id, ga, ta, inc))
  | GAck id ga ta inc => inl (1, (id, ga, ta, inc))
  | GJoin id ga ta => inl (2, (id, ga, ta, 0))
  | GMemberList l => inr l
  end.

Definition message_decode (c : (Z * (string * string * string * Z)) + list (string * string * string * Z)) : GossipMessage :=
  match c with
  | inl (t, (id, ga, ta, inc)) => if t =? 0 then GPing id ga ta inc else if t =? 1 then GAck id ga ta inc else GJoin id ga ta
  | inr l => GMemberList l
  end.

#[export] Instance GossipMessage_countable : Countable GossipMessage.
Proof. refine (inj_countable' message_code message_decode _). by intros []. Defined.

Fixpoint bits_text (p : positive) : string :=
  match p with
  | xH => ""
  | xO p' => String "0"%char (bits_text p')
  | xI p' => String "1"%char (bits_text p')
  end.

Fixpoint text_bits (s : string) : positive :=
  match s with
  | EmptyString => xH
  | String c s' => if decide (c = "0"%char) then xO (text_bits s') else xI (text_bits s')
  end.

Lemma bits_roundtrip p : text_bits (bits_text p) = p.
Proof. induction p as [p IH|p IH|]; simpl; [by rewrite IH..|done]. Qed.

#[local] Instance bits_codec : GossipCodec := {|
  gossip_serialize m := Ok (bits_text (encode m));
  gossip_deserialize s := match decode (text_bits s) with Some m => Ok m | None => Err "invalid" end
|}.

#[local] Instance bits_codec_laws : GossipCodecLaws.
Proof. split. intros m data _ [= <-]. simpl. by rewrite bits_roundtrip, decode_encode. Qed.

Definition wire (m : GossipMessage) : string := bits_text (encode m).

(** The three hosts of the documented cluster: [10.50.1.1] is the first one's,
    and so on; the unspecified address is the sender's own host. *)
Definition host_addr (n : string) : string :=
  if decide (n = "pop-sa") then "10.50.1.1:4001" else if decide (n = "pop-us") then "10.50.2.1:4001" else "10.50.3.1:4001".

Definition wan (from to : string) : option (string * string) :=
  if decide (to = "0.0.0.0:4001") then Some (from, "127.0.0.1:4001")
  else n ← head (filter (λ n, host_addr n = to) ["pop-sa"; "pop-us"; "pop-eu"]); Some (n, host_addr from).

Definition pop (id gossip : string) (peers : list string) : ReplicationConfig :=
  mkReplConfig id gossip "0.0.0.0:4002" peers "/opt/edgeproxy/state.db" "edgeproxy" (from_secs 1) (from_secs 5) 1000 1000 true.

(** The example of [docs/markdown/configuration/replication.md]. *)
Definition documented_cluster : gmap string ReplicationConfig :=
  list_to_map [("pop-sa", pop "pop-sa" "0.0.0.0:4001" []);
               ("pop-us", pop "pop-us" "0.0.0.0:4001" ["10.50.1.1:4001"])].

Definition members_of (n : string) (c : gossip_net) : option (list (string * string)) :=
  g ← gn_nodes c !! n; Some ((λ m, (node_str (mb_node_id m), mb_gossip_addr m)) <$> (map_to_list (gs_members g)).*2).

Definition documented_run : list net_label := [
  NStart "pop-us";
  NDeliver "pop-us" (wire (GJoin "pop-us" "0.0.0.0:4001" "0.0.0.0:4002")) "10.50.1.1:4001" 0;
  NDeliver "pop-sa" (wire (GMemberList [("pop-us", "0.0.0.0:4001", "0.0.0.0:4002", 0)])) "10.50.2.1:4001" 1;
  NPing "pop-sa" 0;
  NDeliver "pop-sa" (wire (GPing "pop-sa" "0.0.0.0:4001" "0.0.0.0:4002" 0)) "0.0.0.0:4001" 2
].

(** With the documented addresses the node that was asked to let another in pings
    itself and becomes a member of its own map, and the node that joined knows nobody. *)
Lemma unspecified_address_pings_itself :
  (c ← net_run wan documented_run (net_start documented_cluster);
   a ← members_of "pop-sa" c; b ← members_of "pop-us" c; Some (a, b))
  = Some ([("pop-sa", "0.0.0.0:4001"); ("pop-us", "0.0.0.0:4001")], []).
Proof. vm_compute. reflexivity. Qed.

(** ** Witnesses *)

Lemma net_run_rtc `{GossipCodec} route ls c c' :
  net_run route ls c = Some c' → rtc (net_step route (λ _, True)) c c'.
Proof.
  revert c. induction ls as [|l ls IH]; intros c; simpl; [by intros [= ->]|].
  destruct (net_exec route l c) as [c1|] eqn:Hl; simpl; [|done]. intros Hr. eapply rtc_l; [by exists l|by apply IH].
Qed.

(** The same cluster with addresses that lead to the nodes. *)
Definition addressed_cluster : gmap string ReplicationConfig :=
  list_to_map [("pop-sa", pop "pop-sa" "10.50.1.1:4001" []);
               ("pop-us", pop "pop-us" "10.50.2.1:4001" ["10.50.1.1:4001"])].

Definition addressed_run : list net_label := [
  NStart "pop-us"; NDeliver "pop-us" (wire (GJoin "pop-us" "10.50.2.1:4001" "0.0.0.0:4002")) "10.50.1.1:4001" 0
].

Definition addressed_end : gossip_net := default (net_start ∅) (net_run wan addressed_run (net_start addressed_cluster)).
Definition pop_sa_end : GossipService := default (gossip_new (pop "" "" [])) (gn_nodes addressed_end !! "pop-sa").
Definition member_end : Member := alive_member 0 "pop-us" "10.50.2.1:4001" "0.0.0.0:4002" 0.

Lemma membership_truthful_witness :
  gs_members pop_sa_end !! "pop-us" = Some member_end ∧
  ∃ cfg, addressed_cluster !! "pop-us" = Some cfg ∧ node_str (mb_node_id member_end) = "pop-us" ∧
    mb_gossip_addr member_end = rc_gossip_addr cfg ∧ mb_transport_addr member_end = rc_transport_addr cfg.
Proof.
  split; [vm_compute; reflexivity|].
  apply (membership_truthful wan addressed_cluster addressed_end "pop-sa" pop_sa_end "pop-us" member_end).
  - apply (bool_decide_unpack _). vm_compute. exact I.
  - apply (net_run_rtc wan addressed_run). vm_compute. reflexivity.
  - vm_compute. reflexivity.
  - vm_compute. reflexivity.
Defined.

Lemma joining_possible_witness :
  ∃ join ping random c',
    net_run wan [NStart "pop-us"; NDeliver "pop-us" join "10.50.1.1:4001" 5; NPing "pop-sa" random;
                 NDeliver "pop-sa" ping "10.50.2.1:4001" 9] (net_start addressed_cluster) = Some c' ∧
    knows c' "pop-sa" "pop-us" 5 (pop "pop-us" "10.50.2.1:4001" ["10.50.1.1:4001"]) ∧
    knows c' "pop-us" "pop-sa" 9 (pop "pop-sa" "10.50.1.1:4001" []).
Proof.
  apply (joining_possible wan (net_start addressed_cluster) "pop-us" "pop-sa"
    (gossip_new (pop "pop-us" "10.50.2.1:4001" ["10.50.1.1:4001"])) (gossip_new (pop "pop-sa" "10.50.1.1:4001" []))
    "10.50.1.1:4001" (SockV4 171049217 4001) "10.50.2.1:4001" "10.50.1.1:4001" 5 9); try (vm_compute; reflexivity).
  - done.
  - split; vm_compute; reflexivity.
  - split; vm_compute; reflexivity.
  - right. vm_compute. congruence.
  - right. vm_compute. congruence.
  - by left.
Defined.
