(* ===== verification/Transport.v ===== *)
(** * Peer transport

    [src/src/replication/transport.rs].  Messages travel as a four-byte big-endian
    length and the [bincode] encoding (class [WireCodec]); a QUIC stream is the
    bytes the peer wrote on it, and the QUIC library's verdicts (is a connection
    open, does a send succeed) are the record [QuicNet]. *)

From S2P Require Import Prelude Tls Channel ReplTypes.

(** Bytes are numbers below 256. *)
Abbreviation bytes := (list Z) (only parsing).

Class WireCodec := {
  wire_serialize : Message → result (list Z) string;
  wire_deserialize : list Z → result Message string
}.

(** [u32::to_be_bytes], [u32::from_be_bytes]. *)
Definition to_be_bytes (n : Z) : bytes :=
  [Z.shiftr n 24; Z.land (Z.shiftr n 16) 255; Z.land (Z.shiftr n 8) 255; Z.land n 255].

Definition decode_length (b : bytes) : Z :=
  foldl (fun acc x => Z.lor (Z.shiftl acc 8) x) 0 b.

Definition MAX_MESSAGE : Z := 10 * 1024 * 1024.

Section framing.
Context `{WireCodec}.

Definition encode_message (msg : Message) : result bytes string :=
  let? data := wire_serialize msg in
  let len := wrap 32 (Z.of_nat (length data)) in
  Ok (to_be_bytes len ++ data).

Definition decode_message (data : bytes) : result Message string := wire_deserialize data.

(** [read_exact(n)]: the bytes read and the rest, if there are enough. *)
Definition read_exact (n : nat) (s : bytes) : option (bytes * bytes) :=
  if (length s <? n)%nat then None else Some (take n s, drop n s).

(** The task of [handle_connection] for one incoming stream. *)
Definition read_stream (stream : bytes) : option Message :=
  '(len_buf, rest) ← read_exact 4 stream;
  let len := decode_length len_buf in
  if MAX_MESSAGE <? len then None
  else
    '(data, _) ← read_exact (Z.to_nat len) rest;
    result_ok (wire_deserialize data).
End framing.

(** ** Message helpers *)

Definition validate_broadcast `{Digests} (cs : ChangeSet) : bool := cs_verify cs.
Definition create_broadcast (cs : ChangeSet) : Message := MBroadcast cs.
Definition create_sync_request (from_seq : Z) (table : option string) : Message := MSyncRequest from_seq table.
Definition create_sync_response (css : list ChangeSet) : Message := MSyncResponse css.

Definition extract_broadcast (m : Message) : option ChangeSet :=
  match m with MBroadcast cs => Some cs | _ => None end.
Definition extract_sync_request (m : Message) : option (Z * option string) :=
  match m with MSyncRequest from_seq table => Some (from_seq, table) | _ => None end.
Definition extract_sync_response (m : Message) : option (list ChangeSet) :=
  match m with MSyncResponse css => Some css | _ => None end.

Definition is_broadcast (m : Message) : bool := match m with MBroadcast _ => true | _ => false end.
Definition is_sync_request (m : Message) : bool := match m with MSyncRequest _ _ => true | _ => false end.
Definition is_sync_response (m : Message) : bool := match m with MSyncResponse _ => true | _ => false end.

Definition message_type_name (m : Message) : string :=
  match m with
  | MBroadcast _ => "Broadcast"
  | MSyncRequest _ _ => "SyncRequest"
  | MSyncResponse _ => "SyncResponse"
  | MAck _ _ => "Ack"
  | MPing => "Ping"
  | MPong => "Pong"
  end.

Definition validate_sync_request (from_seq : Z) : bool := true.
Definition count_sync_response_changesets (m : Message) : nat :=
  match m with MSyncResponse css => length css | _ => 0%nat end.
Definition count_broadcast_changes (m : Message) : nat :=
  match m with MBroadcast cs => length (cs_changes cs) | _ => 0%nat end.
Definition get_broadcast_seq (m : Message) : option Z :=
  match m with MBroadcast cs => Some (cs_seq cs) | _ => None end.
Definition get_sync_request_from_seq (m : Message) : option Z :=
  match m with MSyncRequest from_seq _ => Some from_seq | _ => None end.

(** ** Peers *)

(** A connection of the QUIC library is a handle. *)
Record PeerConnection := mkPeer {
  peer_node_id : NodeId;
  peer_addr : string;
  peer_conn : nat
}.

Record QuicNet := mkQuic {
  quic_alive : nat → bool;                  (* close_reason().is_none() *)
  quic_send : nat → bytes → bool;           (* open_uni, the two writes and finish all succeed *)
  quic_request : nat → bytes → result bytes string;  (* the same on open_bi, and what the peer writes back *)
  quic_connect : string → string → result nat string
}.

Inductive TransportEvent :=
| MessageReceived (from : NodeId) (message : Message)
| PeerConnected (id : NodeId)
| PeerDisconnected (id : NodeId).

Record TransportService := mkTransport {
  ts_config : ReplicationConfig;
  ts_started : bool;                         (* endpoint.is_some() *)
  ts_peers : gmap string PeerConnection;
  ts_events : chan TransportEvent;
  ts_shutdown : bool
}.

Definition transport_new (cfg : ReplicationConfig) : TransportService :=
  mkTransport cfg false ∅ (mkChan [] true) false.

Definition ts_all_peers (t : TransportService) : list PeerConnection := (map_to_list (ts_peers t)).*2.
Definition get_peer (t : TransportService) (id : string) : option PeerConnection := ts_peers t !! id.
Definition ts_signal_shutdown (t : TransportService) : TransportService :=
  mkTransport (ts_config t) (ts_started t) (ts_peers t) (ts_events t) true.
Definition ts_is_shutdown (t : TransportService) : bool := ts_shutdown t.

(** The certificate verifier of outgoing connections: everything passes. *)
Inductive SignatureScheme :=
| RSA_PKCS1_SHA256 | RSA_PKCS1_SHA384 | RSA_PKCS1_SHA512
| ECDSA_NISTP256_SHA256 | ECDSA_NISTP384_SHA384 | ECDSA_NISTP521_SHA512
| RSA_PSS_SHA256 | RSA_PSS_SHA384 | RSA_PSS_SHA512 | ED25519.

(** [ServerCertVerifier]: certificates, messages and signatures are bytes. *)
Record ServerCertVerifier := mkVerifier {
  verify_server_cert (end_entity : bytes) (intermediates : list bytes) (server_name : string)
    (ocsp_response : bytes) (now : Z) : result unit string;
  verify_tls12_signature (message cert dss : bytes) : result unit string;
  verify_tls13_signature (message cert dss : bytes) : result unit string;
  supported_verify_schemes : list SignatureScheme
}.

Definition SkipServerVerification : ServerCertVerifier :=
  mkVerifier (fun _ _ _ _ _ => Ok tt) (fun _ _ _ => Ok tt) (fun _ _ _ => Ok tt)
    [RSA_PKCS1_SHA256; RSA_PKCS1_SHA384; RSA_PKCS1_SHA512;
     ECDSA_NISTP256_SHA256; ECDSA_NISTP384_SHA384; ECDSA_NISTP521_SHA512;
     RSA_PSS_SHA256; RSA_PSS_SHA384; RSA_PSS_SHA512; ED25519].

(** What [quinn] makes of a TLS configuration, of a verifier and of an address. *)
Class QuicLib `{TlsLib} := {
  quic_server_config : ServerConfig → result unit string;
  quic_client_config : ServerCertVerifier → result unit string;
  endpoint_server : string → result unit string
}.

(** [start], up to the endpoint; the accept loop it spawns tests the flag, waits
    for a connection and hands it to an [incoming_task]. *)
Definition transport_start `{QuicLib} (t : TransportService) : TransportService * result unit string :=
  match
    let? (cert_der, key_der) := generate_simple_self_signed [rc_node_id (ts_config t); "localhost"] in
    let? private_key := map_err (fun e => "failed to parse private key: " +:+ e) (private_key_der key_der) in
    let? server_crypto := with_single_cert [cert_der] private_key in
    let? _ := quic_server_config server_crypto in
    let? _ := quic_client_config SkipServerVerification in
    endpoint_server (rc_transport_addr (ts_config t))
  with
  | Ok _ => (mkTransport (ts_config t) true (ts_peers t) (ts_events t) (ts_shutdown t), Ok tt)
  | Err e => (t, Err e)
  end.

(** What the two insertions of a peer (accept and connect) do. *)
Definition add_peer (t : TransportService) (key : string) (p : PeerConnection) : TransportService * outcome unit :=
  let peers := <[key := p]> (ts_peers t) in
  match chan_send (ts_events t) (PeerConnected (peer_node_id p)) with
  | Some ch => (mkTransport (ts_config t) (ts_started t) peers ch (ts_shutdown t), Finished tt)
  | None => (mkTransport (ts_config t) (ts_started t) peers (ts_events t) (ts_shutdown t), Suspended)
  end.

(** The accept branch: the peer is named after its address. *)
Definition accept_peer (t : TransportService) (remote_addr : string) (conn : nat)
    : TransportService * outcome unit :=
  let id := "peer-" +:+ remote_addr in
  add_peer t id (mkPeer (mkNodeId id) remote_addr conn).

(** The task that the accept loop of [start] spawns for an incoming connection, once the
    handshake has failed or there is a connection from an address. *)
Definition incoming_task (t : TransportService) (handshake : result (string * nat) string)
    : TransportService * outcome unit :=
  match handshake with
  | Ok (remote_addr, conn) => accept_peer t remote_addr conn
  | Err _ => (t, Finished tt)
  end.

Definition ts_connect (net : QuicNet) (t : TransportService) (addr node_id : string)
    : TransportService * outcome (result PeerConnection string) :=
  if negb (ts_started t) then (t, Finished (Err "transport not started"))
  else
    match quic_connect net addr (rc_node_id (ts_config t)) with
    | Err e => (t, Finished (Err e))
    | Ok conn =>
        let p := mkPeer (mkNodeId node_id) addr conn in
        match add_peer t node_id p with
        | (t', Finished _) => (t', Finished (Ok p))
        | (t', Suspended) => (t', Suspended)
        end
    end.

(** What [handle_connection] does with a finished stream, and at the end. *)
Definition receive_stream `{WireCodec} (t : TransportService) (from : NodeId) (stream : bytes)
    : TransportService * outcome unit :=
  match read_stream stream with
  | None => (t, Finished tt)
  | Some msg =>
      match chan_send (ts_events t) (MessageReceived from msg) with
      | Some ch => (mkTransport (ts_config t) (ts_started t) (ts_peers t) ch (ts_shutdown t), Finished tt)
      | None => (t, Suspended)
      end
  end.

(** The connection has ended; the peer stays in the map. *)
Definition connection_closed (t : TransportService) (from : NodeId) : TransportService * outcome unit :=
  match chan_send (ts_events t) (PeerDisconnected from) with
  | Some ch => (mkTransport (ts_config t) (ts_started t) (ts_peers t) ch (ts_shutdown t), Finished tt)
  | None => (t, Suspended)
  end.

Section broadcast.
Context `{WireCodec}.

(** [PeerConnection::send]: open, serialise, write. *)
Definition peer_send (net : QuicNet) (p : PeerConnection) (msg : Message) : bool :=
  match encode_message msg with
  | Ok data => quic_send net (peer_conn p) data
  | Err _ => false
  end.

(** What [request] reads back: the length, then that many bytes. *)
Definition read_response (stream : bytes) : result Message string :=
  match read_exact 4 stream with
  | None => Err "early eof"
  | Some (len_buf, rest) =>
      match read_exact (Z.to_nat (decode_length len_buf)) rest with
      | None => Err "early eof"
      | Some (data, _) => wire_deserialize data
      end
  end.

(** [PeerConnection::request] *)
Definition peer_request (net : QuicNet) (p : PeerConnection) (msg : Message) : result Message string :=
  let? data := encode_message msg in
  let? stream := quic_request net (peer_conn p) data in
  read_response stream.

Definition is_alive (net : QuicNet) (p : PeerConnection) : bool := quic_alive net (peer_conn p).

Definition broadcast (net : QuicNet) (t : TransportService) (msg : Message) : nat :=
  foldl (fun sent p => if is_alive net p then (if peer_send net p msg then S sent else sent) else sent)
    0%nat (ts_all_peers t).

Definition broadcast_changeset (net : QuicNet) (t : TransportService) (cs : ChangeSet) : nat :=
  broadcast net t (MBroadcast cs).
End broadcast.

(** ** Properties *)

Lemma land_255 x : Z.land x 255 = x mod 256.
Proof. exact (Z.land_ones x 8 ltac:(lia)). Qed.

Lemma lor_byte a b : 0 <= b < 256 → Z.lor (Z.shiftl a 8) b = a * 256 + b.
Proof.
  intros Hb. assert (Z.land (Z.shiftl a 8) b = 0) as Hd.
  { replace b with (Z.land 255 b) by (rewrite Z.land_comm, land_255; apply Z.mod_small; lia).
    rewrite Z.land_assoc, land_255, Z.shiftl_mul_pow2 by lia. by rewrite Z.mod_mul. }
  rewrite <-Z.lxor_lor, <-Z.add_nocarry_lxor by done. by rewrite Z.shiftl_mul_pow2 by lia.
Qed.

Lemma decode_length_be n : 0 <= n < 2 ^ 32 → decode_length (to_be_bytes n) = n.
Proof.
  intros Hn. unfold decode_length, to_be_bytes. cbn [foldl].
  rewrite !land_255, !Z.shiftr_div_pow2 by lia.
  assert (0 <= n / 2 ^ 24 < 256).
  { split; [apply Z.div_pos; lia|apply Z.div_lt_upper_bound; lia]. }
  rewrite !lor_byte; try (apply Z.mod_pos_bound; lia); [|done].
  change (2 ^ 24) with (256 * 256 * 256). change (2 ^ 16) with (256 * 256). change (2 ^ 8) with 256.
  rewrite <-!Z.div_div by lia.
  pose proof (Z.div_mod n 256 ltac:(lia)). pose proof (Z.div_mod (n / 256) 256 ltac:(lia)).
  pose proof (Z.div_mod (n / 256 / 256) 256 ltac:(lia)). lia.
Qed.

(** The relied-on law of the encoding: decoding what was encoded gives the message. *)
Class WireCodecLaws `{WireCodec} : Prop := {
  wire_roundtrip : ∀ m data, wire_serialize m = Ok data → wire_deserialize data = Ok m
}.

Lemma read_exact_app n (s t : bytes) : length s = n → read_exact n (s ++ t) = Some (s, t).
Proof.
  intros <-. unfold read_exact. rewrite (proj2 (Nat.ltb_ge _ _)) by (rewrite length_app; lia).
  by rewrite take_app_length, drop_app_length.
Qed.

Lemma read_exact_short n (s : bytes) : (length s < n)%nat → read_exact n s = None.
Proof. intros Hl. unfold read_exact. by rewrite (proj2 (Nat.ltb_lt _ _)). Qed.

(** What [encode_message] makes of a message whose encoding is below 4 GiB. *)
Lemma encode_message_frame `{WireCodec} msg stream data :
  wire_serialize msg = Ok data → Z.of_nat (length data) < 2 ^ 32 → encode_message msg = Ok stream →
  ∃ hdr, stream = hdr ++ data ∧ length hdr = 4%nat ∧ decode_length hdr = Z.of_nat (length data).
Proof.
  intros Hser Hlen Henc. unfold encode_message in Henc. rewrite Hser in Henc. simpl in Henc.
  rewrite wrap_small in Henc by (unfold in_range; lia). injection Henc as <-.
  exists (to_be_bytes (Z.of_nat (length data))). split_and!; [done|done|apply decode_length_be; lia].
Qed.

Lemma read_stream_encoded `{WireCodecLaws} msg stream data tail :
  wire_serialize msg = Ok data → Z.of_nat (length data) < 2 ^ 32 → encode_message msg = Ok stream →
  read_stream (stream ++ tail) = (if Z.of_nat (length data) <=? MAX_MESSAGE then Some msg else None).
Proof.
  intros Hser Hlen Henc. destruct (encode_message_frame _ _ _ Hser Hlen Henc) as (hdr & -> & Hhdr & Hdec).
  unfold read_stream. rewrite <-app_assoc, (read_exact_app 4 hdr _ Hhdr). simpl.
  rewrite Hdec, Z.ltb_antisym. destruct (_ <=? MAX_MESSAGE); simpl; [|done].
  rewrite Nat2Z.id, read_exact_app by done. simpl. by rewrite (wire_roundtrip _ _ Hser).
Qed.


(** An encoding of pings, to run the definitions: one byte. *)
Definition demo_wire : WireCodec := {|
  wire_serialize m := match m with MPing => Ok [7] | _ => Err "unsupported" end;
  wire_deserialize b := match b with [7] => Ok MPing | _ => Err "unsupported" end
|}.

Lemma demo_wire_laws : @WireCodecLaws demo_wire.
Proof. split. by intros [] data [= <-]. Qed.


(** The count [broadcast] returns. *)
Lemma broadcast_count `{WireCodec} net t msg :
  broadcast net t msg =
    length (filter (fun p => is_alive net p && peer_send net p msg = true) (ts_all_peers t)).
Proof.
  unfold broadcast. generalize (ts_all_peers t) as l.
  enough (∀ l n, foldl (fun sent p => if is_alive net p then (if peer_send net p msg then S sent else sent) else sent) n l =
    (n + length (filter (fun p => is_alive net p && peer_send net p msg = true) l))%nat) as He by (intros; by rewrite He).
  induction l as [|p l IH]; intros n; cbn [foldl]; [simpl; lia|].
  rewrite IH, filter_cons. destruct (is_alive net p); simpl; [destruct (peer_send net p msg); simpl|]; lia.
Qed.

(** A response is read whatever its length below 4 GiB; [read_stream] stops at 10 MiB. *)
Lemma request_roundtrip `{WireCodecLaws} net p msg request resp data tail :
  encode_message msg = Ok request → wire_serialize resp = Ok data → Z.of_nat (length data) < 2 ^ 32 →
  quic_request net (peer_conn p) request = Ok (to_be_bytes (Z.of_nat (length data)) ++ data ++ tail) →
  peer_request net p msg = Ok resp.
Proof.
  intros Hreq Hser Hlen Hnet. unfold peer_request. rewrite Hreq. cbn [result_bind]. rewrite Hnet. cbn [result_bind].
  unfold read_response. rewrite (read_exact_app 4) by done. rewrite decode_length_be, Nat2Z.id by lia.
  rewrite read_exact_app by done. by apply wire_roundtrip.
Qed.
