(* ===== verification/ApiServer.v ===== *)
(** * Registration API

    [src/src/adapters/inbound/api_server.rs]: backends register, send heartbeats
    and deregister over HTTP; the state is a map from id to registration.  A
    handler's answer is its status code and body; the JSON text itself is
    [serde_json]'s. *)

From S2P Require Import Prelude Text Domain.
From Stdlib Require Import Ascii.

(** ** axum

    The HTTP library as far as [run] relies on it: the method and path of a request;
    matching a path against the pattern of a route, which yields the parameters the
    path gives; and the [Json<RegisterRequest>] extractor with the deserializer
    that serde derives, or the status with which it refuses a body. *)

Record RegisterRequest := mkRegisterRequest {
  rq_id : string; rq_app : string; rq_region : string; rq_country : option string;
  rq_ip : string; rq_port : Z; rq_weight : Z; rq_soft_limit : Z; rq_hard_limit : Z
}.

Class Axum := {
  http_request : Type;
  http_method : http_request → string;
  http_path : http_request → string;
  path_params : string → string → option (list string);
  json_register : http_request → result RegisterRequest Z
}.

(** An id that stands for itself in a path. *)
Definition plain_id (id : string) : bool :=
  negb (str_eqb id "" || str_contains "/"%char id || str_contains "%"%char id).

(** Its documentation: a pattern without [:] matches itself only; [:id] at the end
    of one matches one segment. *)
Class AxumLaws `{Axum} : Prop := {
  path_literal pattern path :
    str_contains ":"%char pattern = false →
    path_params pattern path = if str_eqb path pattern then Some [] else None;
  path_capture pattern id :
    str_contains ":"%char pattern = false → plain_id id = true →
    path_params (pattern +:+ ":id") (pattern +:+ id) = Some [id];
  path_capture_other pattern path params :
    str_contains ":"%char pattern = false →
    path_params (pattern +:+ ":id") path = Some params → String.prefix pattern path = true
}.

Definition default_weight : Z := 2.
Definition default_soft_limit : Z := 100.
Definition default_hard_limit : Z := 150.

Record RegisteredBackend := mkRegistered {
  rg_backend : Backend;
  rg_registered_at : instant;
  rg_last_heartbeat : instant
}.

Record ApiState := mkApi {
  api_backends : gmap string RegisteredBackend;
  api_heartbeat_ttl : duration
}.

Definition api_new (heartbeat_ttl_secs : Z) : ApiState := mkApi ∅ (from_secs heartbeat_ttl_secs).

Record ApiServer := mkApiServer { as_listen_addr : string; as_state : ApiState }.

Definition api_server_new (listen_addr : string) (heartbeat_ttl_secs : Z) : ApiServer :=
  mkApiServer listen_addr (api_new heartbeat_ttl_secs).

(** [now.duration_since(last_heartbeat) < heartbeat_ttl] *)
Definition api_fresh (now : instant) (ttl : duration) (r : RegisteredBackend) : bool :=
  duration_since now (rg_last_heartbeat r) <? ttl.

Definition get_healthy_backends (now : instant) (a : ApiState) : list Backend :=
  (fun r => set_healthy true (rg_backend r)) <$>
    filter (fun r => api_fresh now (api_heartbeat_ttl a) r = true) (map_to_list (api_backends a)).*2.

Record BackendStatus := mkBackendStatus {
  bs_id : string; bs_app : string; bs_region : string; bs_ip : string; bs_port : Z;
  bs_healthy : bool; bs_last_heartbeat_secs : Z; bs_registered_secs : Z
}.

Definition backend_status (now : instant) (ttl : duration) (r : RegisteredBackend) : BackendStatus :=
  mkBackendStatus (be_id (rg_backend r)) (be_app (rg_backend r)) (region_as_str (be_region (rg_backend r)))
    (be_wg_ip (rg_backend r)) (be_port (rg_backend r)) (api_fresh now ttl r)
    (as_secs (duration_since now (rg_last_heartbeat r))) (as_secs (duration_since now (rg_registered_at r))).

Definition get_all_backends (now : instant) (a : ApiState) : list BackendStatus :=
  backend_status now (api_heartbeat_ttl a) <$> (map_to_list (api_backends a)).*2.

Definition api_register (now : instant) (a : ApiState) (req : RegisterRequest) : ApiState * RegisteredBackend :=
  let region := region_from_str (rq_region req) in
  let country := default (default_country region) (rq_country req) in
  let backend := mkBackend (rq_id req) (rq_app req) region country (rq_ip req) (rq_port req) true
                   (rq_weight req) (rq_soft_limit req) (rq_hard_limit req) in
  let registered := mkRegistered backend now now in
  (mkApi (<[rq_id req := registered]> (api_backends a)) (api_heartbeat_ttl a), registered).

Definition heartbeat (now : instant) (a : ApiState) (id : string) : ApiState * bool :=
  match api_backends a !! id with
  | Some r => (mkApi (<[id := mkRegistered (rg_backend r) (rg_registered_at r) now]> (api_backends a))
                 (api_heartbeat_ttl a), true)
  | None => (a, false)
  end.

Definition deregister (a : ApiState) (id : string) : ApiState * bool :=
  (mkApi (delete id (api_backends a)) (api_heartbeat_ttl a),
   match api_backends a !! id with Some _ => true | None => false end).

(** The keys [cleanup_expired] gathers before it removes them. *)
Definition expired_ids (now : instant) (a : ApiState) : list string :=
  fst <$> filter (fun ir => (api_heartbeat_ttl a <=? duration_since now (rg_last_heartbeat (snd ir))) = true)
            (map_to_list (api_backends a)).

Definition remove_ids (a : ApiState) (ids : list string) : ApiState :=
  mkApi (delete_keys ids (api_backends a)) (api_heartbeat_ttl a).

Definition api_cleanup_expired (now : instant) (a : ApiState) : ApiState * Z :=
  let expired := expired_ids now a in
  (remove_ids a expired, Z.of_nat (length expired)).

(** ** Handlers *)

Inductive ApiBody :=
| BodyHealth (status version : string) (registered_backends : Z)
| BodyRegister (id : string) (registered : bool) (message : string)
| BodyIdStatus (id status : string)
| BodyIdError (id error : string)
| BodyDeregistered (id : string) (deregistered : bool)
| BodyList (backends : list BackendStatus) (total : Z)
| BodyStatus (status : BackendStatus)
| BodyError (error : string).

Definition health_handler (version : string) (a : ApiState) : Z * ApiBody :=
  (200, BodyHealth "ok" version (Z.of_nat (size (api_backends a)))).

Definition register_handler (now : instant) (a : ApiState) (req : RegisterRequest) : ApiState * (Z * ApiBody) :=
  (fst (api_register now a req), (201, BodyRegister (rq_id req) true "Backend registered successfully")).

Definition heartbeat_handler (now : instant) (a : ApiState) (id : string) : ApiState * (Z * ApiBody) :=
  let '(a', ok) := heartbeat now a id in
  (a', if ok then (200, BodyIdStatus id "ok") else (404, BodyIdError id "backend not registered")).

Definition deregister_handler (a : ApiState) (id : string) : ApiState * (Z * ApiBody) :=
  let '(a', ok) := deregister a id in
  (a', if ok then (200, BodyDeregistered id true) else (404, BodyIdError id "backend not found")).

Definition list_backends_handler (now : instant) (a : ApiState) : Z * ApiBody :=
  let backends := get_all_backends now a in
  (200, BodyList backends (Z.of_nat (length backends))).

Definition get_backend_handler (now : instant) (a : ApiState) (id : string) : Z * ApiBody :=
  match api_backends a !! id with
  | Some r => (200, BodyStatus (backend_status now (api_heartbeat_ttl a) r))
  | None => (404, BodyError "backend not found")
  end.

(** ** The router *)

Inductive api_route := RHealth | RRegister | RHeartbeat | RDeregister | RList | RGet.

(** [Router::new().route(..)] of [run]: pattern, method, handler. *)
Definition api_routes : list (string * string * api_route) :=
  [("/health", "GET", RHealth);
   ("/api/v1/register", "POST", RRegister);
   ("/api/v1/heartbeat/:id", "POST", RHeartbeat);
   ("/api/v1/backends/:id", "DELETE", RDeregister);
   ("/api/v1/backends", "GET", RList);
   ("/api/v1/backends/:id", "GET", RGet)].

(** A route for [GET] answers [HEAD] as well. *)
Definition route_serves (route_method method : string) : bool :=
  str_eqb method route_method || (str_eqb route_method "GET" && str_eqb method "HEAD").

Section router.
Context `{Axum}.

(** The route of a request with its path parameters; the status when there is none. *)
Definition api_route_of (req : http_request) : result (api_route * list string) Z :=
  let matching := omap (fun pmr => (fun params => (snd (fst pmr), (snd pmr, params)))
                                   <$> path_params (fst (fst pmr)) (http_path req)) api_routes in
  match matching with
  | [] => Err 404
  | _ => match List.find (fun mr => route_serves (fst mr) (http_method req)) matching with
         | Some (_, r) => Ok r
         | None => Err 405
         end
  end.

(** A request, answered with a status and, by a handler of this file, a body. *)
Definition api_serve (version : string) (now : instant) (a : ApiState) (req : http_request)
    : ApiState * (Z * option ApiBody) :=
  let reply (r : Z * ApiBody) := (fst r, Some (snd r)) in
  match api_route_of req with
  | Err status => (a, (status, None))
  | Ok (RHealth, _) => (a, reply (health_handler version a))
  | Ok (RRegister, _) =>
      match json_register req with
      | Ok r => let '(a', res) := register_handler now a r in (a', reply res)
      | Err status => (a, (status, None))
      end
  | Ok (RHeartbeat, [id]) => let '(a', res) := heartbeat_handler now a id in (a', reply res)
  | Ok (RDeregister, [id]) => let '(a', res) := deregister_handler a id in (a', reply res)
  | Ok (RList, _) => (a, reply (list_backends_handler now a))
  | Ok (RGet, [id]) => (a, reply (get_backend_handler now a id))
  | Ok (_, _) => (a, (500, None))
  end.

(** What reaches the state: requests, and the ticks of [start_cleanup_task]. *)
Inductive api_event :=
| ApiRequest (req : http_request) (now : instant)
| ApiTick (now : instant).

Definition api_event_step (version : string) (a : ApiState) (ev : api_event) : ApiState :=
  match ev with
  | ApiRequest req now => fst (api_serve version now a req)
  | ApiTick now => fst (api_cleanup_expired now a)
  end.
End router.

(** ** Operations on the registrations *)

Inductive api_op :=
| ApiRegister (req : RegisterRequest) (now : instant)
| ApiHeartbeat (id : string) (now : instant)
| ApiDeregister (id : string)
| ApiCleanup (now : instant).

Definition api_apply (a : ApiState) (op : api_op) : ApiState :=
  match op with
  | ApiRegister req now => fst (api_register now a req)
  | ApiHeartbeat id now => fst (heartbeat now a id)
  | ApiDeregister id => fst (deregister a id)
  | ApiCleanup now => fst (api_cleanup_expired now a)
  end.

(** ** What the interface promises

    Written from the documented interface, not from the handlers: which requests
    are operations, and what an operation does to the registration of one id. *)

Definition request_op `{Axum} (req : http_request) (now : instant) : option api_op :=
  let path := http_path req in
  if str_eqb (http_method req) "POST" then
    if str_eqb path "/api/v1/register" then (fun r => ApiRegister r now) <$> result_ok (json_register req)
    else match path_params "/api/v1/heartbeat/:id" path with
         | Some [id] => Some (ApiHeartbeat id now)
         | _ => None
         end
  else if str_eqb (http_method req) "DELETE" then
    match path_params "/api/v1/backends/:id" path with
    | Some [id] => Some (ApiDeregister id)
    | _ => None
    end
  else None.

Definition event_op `{Axum} (ev : api_event) : option api_op :=
  match ev with
  | ApiTick now => Some (ApiCleanup now)
  | ApiRequest req now => request_op req now
  end.

(** The backend that a request describes: healthy, in the region it names, and in the
    country it names or else in its region's default one. *)
Definition described (req : RegisterRequest) : Backend := {|
  be_id := rq_id req;
  be_app := rq_app req;
  be_region := region_from_str (rq_region req);
  be_country := match rq_country req with
                | Some country => country
                | None => default_country (region_from_str (rq_region req))
                end;
  be_wg_ip := rq_ip req;
  be_port := rq_port req;
  be_healthy := true;
  be_weight := rq_weight req;
  be_soft_limit := rq_soft_limit req;
  be_hard_limit := rq_hard_limit req
|}.

(** A registration lasts for [ttl] after its last heartbeat. *)
Definition lasts (ttl : duration) (now : instant) (r : RegisteredBackend) : Prop :=
  duration_since now (rg_last_heartbeat r) < ttl.

#[export] Instance lasts_dec ttl now r : Decision (lasts ttl now r).
Proof. unfold lasts. apply _. Defined.

(** The registration of [id] after an operation. *)
Definition lease_step (ttl : duration) (id : string) (l : option RegisteredBackend) (op : api_op)
    : option RegisteredBackend :=
  match op with
  | ApiRegister req now =>
      if decide (rq_id req = id)
      then Some {| rg_backend := described req; rg_registered_at := now; rg_last_heartbeat := now |}
      else l
  | ApiHeartbeat id' now =>
      if decide (id' = id) then (fun r => mkRegistered (rg_backend r) (rg_registered_at r) now) <$> l else l
  | ApiDeregister id' => if decide (id' = id) then None else l
  | ApiCleanup now => r ← l; if decide (lasts ttl now r) then Some r else None
  end.

(** ** Lemmas and properties *)

Lemma fresh_lasts now ttl r : api_fresh now ttl r = bool_decide (lasts ttl now r).
Proof. unfold api_fresh. case_bool_decide as Hl; unfold lasts in Hl; [by apply Z.ltb_lt|apply Z.ltb_ge; lia]. Qed.

Lemma elem_of_expired_ids now a id :
  id ∈ expired_ids now a ↔
  ∃ r, api_backends a !! id = Some r ∧ api_fresh now (api_heartbeat_ttl a) r = false.
Proof.
  unfold expired_ids, api_fresh. rewrite list_elem_of_fmap. split.
  - intros ([i r] & -> & [He Hin]%list_elem_of_filter). exists r. simpl in *.
    split; [by apply elem_of_map_to_list|]. rewrite Z.ltb_antisym, He. done.
  - intros (r & Hr & He). exists (id, r). split; [done|]. apply list_elem_of_filter.
    rewrite Z.ltb_antisym in He. apply negb_false_iff in He. split; [done|]. by apply elem_of_map_to_list.
Qed.

Lemma lookup_cleanup now a id :
  api_backends (fst (api_cleanup_expired now a)) !! id =
    r ← api_backends a !! id; if decide (lasts (api_heartbeat_ttl a) now r) then Some r else None.
Proof.
  assert (∀ r, (if decide (lasts (api_heartbeat_ttl a) now r) then Some r else None) =
    if api_fresh now (api_heartbeat_ttl a) r then Some r else None) as Hlasts.
  { intros r. rewrite fresh_lasts. by case_decide; case_bool_decide. }
  simpl. rewrite lookup_delete_keys. case_decide as Hin.
  - apply elem_of_expired_ids in Hin as (r & -> & Hf). simpl. by rewrite Hlasts, Hf.
  - destruct (api_backends a !! id) as [r|] eqn:Hr; simpl; [|done].
    rewrite Hlasts. destruct (api_fresh _ _ r) eqn:Hf; [done|]. destruct Hin. apply elem_of_expired_ids. eauto.
Qed.

Lemma api_apply_lookup a op id :
  api_backends (api_apply a op) !! id = lease_step (api_heartbeat_ttl a) id (api_backends a !! id) op ∧
  api_heartbeat_ttl (api_apply a op) = api_heartbeat_ttl a.
Proof.
  destruct op as [req now|id' now|id'|now]; simpl.
  - split; [|done]. rewrite lookup_insert. by case_decide.
  - unfold heartbeat_handler, heartbeat. destruct (api_backends a !! id') as [r|] eqn:Hr; simpl.
    + split; [|done]. rewrite lookup_insert. case_decide; [subst; by rewrite Hr|done].
    + split; [|done]. case_decide; [subst; by rewrite Hr|done].
  - split; [|done]. rewrite lookup_delete. by case_decide.
  - split; [|done]. exact (lookup_cleanup now a id).
Qed.

(** Registrations follow the history of their id. *)
Lemma lease_history ttl_secs ops id :
  let a := foldl api_apply (api_new ttl_secs) ops in
  api_backends a !! id = foldl (lease_step (from_secs ttl_secs) id) None ops ∧
  api_heartbeat_ttl a = from_secs ttl_secs.
Proof.
  intros a. subst a. assert (api_heartbeat_ttl (api_new ttl_secs) = from_secs ttl_secs) as Ht by done.
  assert (api_backends (api_new ttl_secs) !! id = None) as Hn by apply lookup_empty.
  rewrite <-Hn. clear Hn. revert Ht. generalize (api_new ttl_secs) as a.
  induction ops as [|op ops IH]; intros a Ht; simpl; [done|].
  destruct (api_apply_lookup a op id) as [Hl Ht']. rewrite Ht in Ht', Hl. rewrite <-Hl. by apply IH.
Qed.

(** A cleanup returns how many registrations it removed. *)
Lemma cleanup_count now a :
  snd (api_cleanup_expired now a) =
    Z.of_nat (size (api_backends a)) - Z.of_nat (size (api_backends (fst (api_cleanup_expired now a)))).
Proof.
  unfold api_cleanup_expired; simpl.
  assert (NoDup (expired_ids now a)) as Hnd.
  { unfold expired_ids. apply (NoDup_fmap_fst); [|apply NoDup_filter, NoDup_map_to_list].
    intros x y1 y2 [_ H1]%list_elem_of_filter [_ H2]%list_elem_of_filter.
    apply elem_of_map_to_list in H1, H2. congruence. }
  rewrite <-(size_delete_keys (expired_ids now a) (api_backends a) Hnd); [lia|].
  intros i (r & ? & _)%elem_of_expired_ids. eauto.
Qed.

Section routes.
Context `{AxumLaws}.

Lemma path_literal_eq pattern : str_contains ":"%char pattern = false → path_params pattern pattern = Some [].
Proof. intros Hp. rewrite path_literal by done. by rewrite str_eqb_refl. Qed.

Lemma path_literal_ne pattern path :
  str_contains ":"%char pattern = false → str_eqb path pattern = false → path_params pattern path = None.
Proof. intros Hp Hne. rewrite path_literal by done. by rewrite Hne. Qed.

Lemma path_capture_ne pattern path :
  str_contains ":"%char pattern = false → String.prefix pattern path = false →
  path_params (pattern +:+ ":id") path = None.
Proof.
  intros Hc Hp. destruct (path_params _ path) as [params|] eqn:E; [|done].
  apply path_capture_other in E; congruence.
Qed.

Lemma route_serves_other r m : str_eqb r "GET" = false → route_serves r m = str_eqb m r.
Proof. intros Hr. unfold route_serves. rewrite Hr. apply orb_false_r. Qed.

(** Where the requests that concern one id go. *)
Lemma heartbeat_route req id :
  plain_id id = true → http_path req = "/api/v1/heartbeat/" +:+ id →
  api_route_of req = if str_eqb (http_method req) "POST" then Ok (RHeartbeat, [id]) else Err 405.
Proof.
  intros Hid Hpath. unfold api_route_of, api_routes. rewrite Hpath. cbn [omap list_omap fst snd].
  rewrite (path_literal_ne "/health"), (path_literal_ne "/api/v1/register"), (path_literal_ne "/api/v1/backends") by done.
  rewrite (path_capture "/api/v1/heartbeat/" id eq_refl Hid), (path_capture_ne "/api/v1/backends/") by done.
  cbn -[route_serves str_eqb]. rewrite (route_serves_other "POST") by done. by destruct (str_eqb _ "POST").
Qed.

Lemma backend_route req id :
  plain_id id = true → http_path req = "/api/v1/backends/" +:+ id →
  api_route_of req = if str_eqb (http_method req) "DELETE" then Ok (RDeregister, [id])
                     else if route_serves "GET" (http_method req) then Ok (RGet, [id]) else Err 405.
Proof.
  intros Hid Hpath. unfold api_route_of, api_routes. rewrite Hpath. cbn [omap list_omap fst snd].
  rewrite (path_literal_ne "/health"), (path_literal_ne "/api/v1/register"), (path_literal_ne "/api/v1/backends") by done.
  rewrite (path_capture "/api/v1/backends/" id eq_refl Hid), (path_capture_ne "/api/v1/heartbeat/") by done.
  cbn -[route_serves str_eqb]. rewrite (route_serves_other "DELETE") by done. destruct (str_eqb _ "DELETE"); [done|].
  by destruct (route_serves _ _).
Qed.

Lemma register_route req :
  http_path req = "/api/v1/register" →
  api_route_of req = if str_eqb (http_method req) "POST" then Ok (RRegister, []) else Err 405.
Proof.
  intros Hpath. unfold api_route_of, api_routes. rewrite Hpath. cbn [omap list_omap fst snd].
  rewrite (path_literal_ne "/health"), (path_literal_ne "/api/v1/backends"), (path_literal_eq "/api/v1/register") by done.
  rewrite (path_capture_ne "/api/v1/backends/"), (path_capture_ne "/api/v1/heartbeat/") by done.
  cbn -[route_serves str_eqb]. rewrite (route_serves_other "POST") by done. by destruct (str_eqb _ "POST").
Qed.

Lemma health_route req :
  http_path req = "/health" →
  api_route_of req = if route_serves "GET" (http_method req) then Ok (RHealth, []) else Err 405.
Proof.
  intros Hpath. unfold api_route_of, api_routes. rewrite Hpath. cbn [omap list_omap fst snd].
  rewrite (path_literal_ne "/api/v1/register"), (path_literal_ne "/api/v1/backends"), (path_literal_eq "/health") by done.
  rewrite (path_capture_ne "/api/v1/backends/"), (path_capture_ne "/api/v1/heartbeat/") by done.
  cbn -[route_serves str_eqb]. by destruct (route_serves _ _).
Qed.

(** Two prefixes of a text: one is a prefix of the other. *)
Lemma prefix_either p q path :
  String.prefix p path = true → String.prefix q path = true → String.prefix p q = true ∨ String.prefix q p = true.
Proof.
  revert q path. induction p as [|c p IH]; intros [|d q] [|e path]; cbn [String.prefix]; try (by auto).
  destruct (ascii_dec c e), (ascii_dec d e); try done. subst. destruct (ascii_dec e e); [|done]. apply IH.
Qed.

(** A path that a capture matches is matched by none of the other patterns. *)
Lemma capture_apart pattern pattern' path params :
  str_contains ":"%char pattern = false → path_params (pattern +:+ ":id") path = Some params →
  String.prefix pattern pattern' = false → String.prefix pattern' pattern = false →
  str_eqb path pattern' = false ∧ String.prefix pattern' path = false.
Proof.
  intros Hc Hp%path_capture_other H1 H2; [|done]. split.
  - apply str_eqb_neq. intros ->. congruence.
  - apply not_true_iff_false. intros Hq. destruct (prefix_either _ _ _ Hp Hq); congruence.
Qed.

(** A request is the operation that the interface documents. *)
Lemma serve_op version now a req :
  fst (api_serve version now a req) = match request_op req now with Some op => api_apply a op | None => a end.
Proof.
  unfold api_serve, api_route_of, api_routes, request_op. cbn [omap list_omap fst snd].
  rewrite (path_literal "/health"), (path_literal "/api/v1/register"), (path_literal "/api/v1/backends") by done.
  set (m := http_method req). set (path := http_path req).
  assert (∀ s, str_eqb m "POST" = true → str_eqb s "POST" = false → str_eqb m s = false) as Hpost.
  { intros s ->%str_eqb_eq Hs. apply str_eqb_neq. intros <-. done. }
  destruct (path_params "/api/v1/heartbeat/:id" path) as [ph|] eqn:Eh.
  - destruct (capture_apart "/api/v1/heartbeat/" "/health" path ph) as [-> _]; [done..|].
    destruct (capture_apart "/api/v1/heartbeat/" "/api/v1/register" path ph) as [-> _]; [done..|].
    destruct (capture_apart "/api/v1/heartbeat/" "/api/v1/backends" path ph) as [-> _]; [done..|].
    destruct (capture_apart "/api/v1/heartbeat/" "/api/v1/backends/" path ph) as [_ Hb]; [done..|].
    pose proof (path_capture_ne "/api/v1/backends/" path eq_refl Hb) as Eb.
    change (path_params "/api/v1/backends/:id" path = None) in Eb. rewrite Eb.
    cbn -[route_serves str_eqb]. rewrite (route_serves_other "POST") by done.
    destruct (str_eqb m "POST"); [|by destruct (str_eqb m "DELETE")].
    destruct ph as [|id [|]]; try done. cbn -[heartbeat]. unfold heartbeat_handler. by destruct (heartbeat now a id).
  - destruct (path_params "/api/v1/backends/:id" path) as [pb|] eqn:Eb.
    + destruct (capture_apart "/api/v1/backends/" "/health" path pb) as [-> _]; [done..|].
      destruct (capture_apart "/api/v1/backends/" "/api/v1/register" path pb) as [-> _]; [done..|].
      assert (str_eqb path "/api/v1/backends" = false) as ->.
      { apply str_eqb_neq. intros Hp. rewrite Hp in Eb.
        by apply (path_capture_other "/api/v1/backends/") in Eb. }
      cbn -[route_serves str_eqb]. rewrite (route_serves_other "DELETE") by done.
      destruct (str_eqb m "POST") eqn:Em; [rewrite Hpost by done|destruct (str_eqb m "DELETE"); [by destruct pb as [|id [|]]|]];
        destruct (route_serves "GET" m); by destruct pb as [|id [|]].
    + destruct (str_eqb path "/health") eqn:E1; [apply str_eqb_eq in E1; rewrite E1|];
        [|destruct (str_eqb path "/api/v1/register") eqn:E2; [apply str_eqb_eq in E2; rewrite E2|]];
        [| |destruct (str_eqb path "/api/v1/backends") eqn:E3];
        cbn -[route_serves str_eqb];
        [destruct (route_serves "GET" m)|rewrite (route_serves_other "POST") by done|destruct (route_serves "GET" m)|];
        destruct (str_eqb m "POST"), (str_eqb m "DELETE"); try done; by destruct (json_register req).
Qed.

Lemma event_step_op version a ev :
  api_event_step version a ev = match event_op ev with Some op => api_apply a op | None => a end.
Proof. destruct ev as [req now|now]; [apply serve_op|done]. Qed.

Lemma events_apply version evs a :
  foldl (api_event_step version) a evs = foldl api_apply a (omap event_op evs).
Proof.
  revert a. induction evs as [|ev evs IH]; intros a; [done|]. cbn [foldl omap list_omap].
  rewrite event_step_op, IH. by destruct (event_op ev).
Qed.
End routes.

(** C35: a registration is a lease.  After any series of HTTP requests and cleanup
    ticks, at any times, a backend is known exactly when its own history says so (the
    last registration of its id, as the request described it, not deregistered since,
    and not silent for [heartbeat_ttl] at any cleanup in between), with the times of its
    registration and of its last heartbeat.  That is what a GET of the backend is
    answered, with whether the lease lasts still; heartbeats and deregistrations are
    answered 200 or 404 accordingly; a cleanup removes exactly the leases that last no
    longer, and returns their number; and a health request answers the number
    registered. *)
Theorem registration_lease `{AxumLaws} version ttl_secs events id now req :
  let ttl := from_secs ttl_secs in
  let a := foldl (api_event_step version) (api_new ttl_secs) events in
  let lease := foldl (lease_step ttl id) None (omap event_op events) in
  let answer := snd (api_serve version now a req) in
  api_backends a !! id = lease ∧
  (plain_id id = true → http_path req = "/api/v1/backends/" +:+ id → http_method req = "GET" →
   answer =
     match lease with
     | Some r =>
         let b := rg_backend r in
         (200, Some (BodyStatus {|
            bs_id := be_id b; bs_app := be_app b; bs_region := region_as_str (be_region b);
            bs_ip := be_wg_ip b; bs_port := be_port b; bs_healthy := bool_decide (lasts ttl now r);
            bs_last_heartbeat_secs := as_secs (duration_since now (rg_last_heartbeat r));
            bs_registered_secs := as_secs (duration_since now (rg_registered_at r)) |}))
     | None => (404, Some (BodyError "backend not found"))
     end) ∧
  (plain_id id = true →
   (http_path req = "/api/v1/heartbeat/" +:+ id ∧ http_method req = "POST" ∨
    http_path req = "/api/v1/backends/" +:+ id ∧ http_method req = "DELETE") →
   fst answer = match lease with Some _ => 200 | None => 404 end) ∧
  (api_backends (fst (api_cleanup_expired now a)) !! id =
     r ← lease; if decide (lasts ttl now r) then Some r else None) ∧
  snd (api_cleanup_expired now a) =
    Z.of_nat (size (api_backends a)) - Z.of_nat (size (api_backends (fst (api_cleanup_expired now a)))) ∧
  (http_path req = "/health" → http_method req = "GET" →
   answer = (200, Some (BodyHealth "ok" version (Z.of_nat (size (api_backends a)))))).
Proof.
  intros ttl a lease answer. subst a lease answer. rewrite events_apply.
  destruct (lease_history ttl_secs (omap event_op events) id) as [Hl Ht]. fold ttl in Hl, Ht.
  set (a := foldl api_apply _ _) in *. set (lease := foldl (lease_step _ _) _ _) in *. clearbody a lease.
  split_and!; [done| | | | |].
  - intros Hid Hpath Hget. unfold api_serve.
    assert (api_route_of req = Ok (RGet, [id])) as -> by (by rewrite (backend_route _ id), Hget).
    unfold get_backend_handler. rewrite Hl, Ht. destruct lease as [r|]; [|done].
    cbn. unfold backend_status. by rewrite fresh_lasts.
  - intros Hid [[Hpath Hm]|[Hpath Hm]]; unfold api_serve.
    + assert (api_route_of req = Ok (RHeartbeat, [id])) as -> by (by rewrite (heartbeat_route _ id), Hm).
      unfold heartbeat_handler, heartbeat. rewrite Hl. by destruct lease.
    + assert (api_route_of req = Ok (RDeregister, [id])) as -> by (by rewrite (backend_route _ id), Hm).
      unfold deregister_handler, deregister. rewrite Hl. by destruct lease.
  - rewrite lookup_cleanup, Hl, Ht. done.
  - apply cleanup_count.
  - intros Hpath Hget. unfold api_serve.
    assert (api_route_of req = Ok (RHealth, [])) as -> by (by rewrite (health_route _ Hpath), Hget). done.
Qed.

(** An instance of the library for requests without percent encoding and flat JSON
    bodies; the fields that [RegisterRequest] gives a default may be left out. *)
Inductive json_scalar := JsonString (s : string) | JsonNumber (n : Z).

Record plain_request := mkPlainRequest {
  pl_method : string; pl_path : string; pl_body : list (string * json_scalar)
}.

Fixpoint match_path (pattern path : string) : option (list string) :=
  match pattern, path with
  | "", "" => Some []
  | String c pattern', String d path' =>
      if bool_decide (c = ":"%char) then if plain_id path then Some [path] else None
      else if bool_decide (c = d) then match_path pattern' path' else None
  | _, _ => None
  end.

Section body.
Variable fields : list (string * json_scalar).

Definition body_field (name : string) : option json_scalar :=
  snd <$> List.find (fun kv => str_eqb (fst kv) name) fields.

Definition string_field (name : string) : option string :=
  match body_field name with Some (JsonString s) => Some s | _ => None end.

Definition uint_field (w : Z) (name : string) (missing : option Z) : option Z :=
  match body_field name with
  | None => missing
  | Some (JsonNumber n) => if (0 <=? n) && (n <? 2 ^ w) then Some n else None
  | Some (JsonString _) => None
  end.

Definition register_of_fields : option RegisterRequest :=
  id ← string_field "id"; app ← string_field "app"; region ← string_field "region";
  country ← match body_field "country" with
            | None => Some None
            | Some (JsonString s) => Some (Some s)
            | Some (JsonNumber _) => None
            end;
  ip ← string_field "ip"; port ← uint_field 16 "port" None;
  weight ← uint_field 8 "weight" (Some default_weight);
  soft_limit ← uint_field 32 "soft_limit" (Some default_soft_limit);
  hard_limit ← uint_field 32 "hard_limit" (Some default_hard_limit);
  Some (mkRegisterRequest id app region country ip port weight soft_limit hard_limit).
End body.

#[export] Instance plain_axum : Axum := {|
  http_request := plain_request;
  http_method := pl_method;
  http_path := pl_path;
  path_params := match_path;
  json_register req := match register_of_fields (pl_body req) with Some r => Ok r | None => Err 422 end
|}.

#[export] Instance plain_axum_laws : AxumLaws.
Proof.
  split; cbn [path_params plain_axum].
  - intros pattern. induction pattern as [|c pattern IH]; intros [|d path]; try done.
    cbn [str_contains match_path]. intros [Hc Hp]%orb_false_iff.
    rewrite bool_decide_false by (intros ->; done). case_bool_decide as Hd.
    + rewrite IH by done. subst. unfold str_eqb.
      by rewrite (bool_decide_ext (path = pattern) (String d path = String d pattern)) by naive_solver.
    + unfold str_eqb. by rewrite bool_decide_false by naive_solver.
  - intros pattern id. induction pattern as [|c pattern IH]; cbn [str_contains].
    + intros _ Hid. destruct id as [|d id]; [done|]. change (match_path ":id" (String d id) = Some [String d id]).
      cbn [match_path]. by rewrite bool_decide_true, Hid.
    + intros [Hc Hp]%orb_false_iff Hid.
      change (match_path (String c (pattern +:+ ":id")) (String c (pattern +:+ id)) = Some [id]). cbn [match_path].
      rewrite bool_decide_false by (intros ->; done).
      rewrite bool_decide_true by done. by apply IH.
  - intros pattern. induction pattern as [|c pattern IH]; intros path params; [by destruct path|]. cbn [str_contains].
    intros [Hc Hp]%orb_false_iff. destruct path as [|d path]; [done|].
    change (match_path (String c (pattern +:+ ":id")) (String d path) = Some params →
            String.prefix (String c pattern) (String d path) = true). cbn [match_path].
    rewrite bool_decide_false by (intros ->; done).
    case_bool_decide; [|done]. cbn [String.prefix]. intros Hm%IH; [|done]. subst. by destruct (ascii_dec d d).
Qed.

Lemma registration_lease_witness :
  let body id := [("id", JsonString id); ("app", JsonString "myapp"); ("region", JsonString "eu");
                  ("ip", JsonString "10.0.0.1"); ("port", JsonNumber 8080)] in
  let events := [ApiRequest (mkPlainRequest "POST" "/api/v1/register" (body "eu-1")) 0;
                 ApiRequest (mkPlainRequest "POST" "/api/v1/register" (body "eu-2")) 0;
                 ApiRequest (mkPlainRequest "POST" "/api/v1/heartbeat/eu-2" []) (from_secs 50);
                 ApiTick (from_secs 70);
                 ApiRequest (mkPlainRequest "DELETE" "/api/v1/backends/eu-3" []) (from_secs 71)] in
  let status id method := fst (snd (api_serve "0.2.0" (from_secs 80)
                            (foldl (api_event_step "0.2.0") (api_new 60) events)
                            (mkPlainRequest method ("/api/v1/backends/" +:+ id) []))) in
  (status "eu-1" "GET" = 404 ∧ status "eu-2" "GET" = 200 ∧ status "eu-2" "PUT" = 405) ∧
  snd (api_serve "0.2.0" (from_secs 80) (foldl (api_event_step "0.2.0") (api_new 60) events)
         (mkPlainRequest "GET" "/api/v1/backends/eu-2" [])) =
    (200, Some (BodyStatus (mkBackendStatus "eu-2" "myapp" "eu" "10.0.0.1" 8080 true 30 80))).
Proof.
  intros body events status. split; [by vm_compute|].
  destruct (registration_lease "0.2.0" 60 events "eu-2" (from_secs 80)
              (mkPlainRequest "GET" "/api/v1/backends/eu-2" [])) as (_ & Hget & _).
  rewrite Hget by done. vm_compute. reflexivity.
Defined.

(** A heartbeat that comes between the gathering and the removal is lost: the
    backend it was sent for is removed all the same. *)
Lemma cleanup_race now now' a id r :
  api_backends a !! id = Some r → api_fresh now (api_heartbeat_ttl a) r = false →
  snd (heartbeat_handler now' a id) = (200, BodyIdStatus id "ok") ∧
  api_backends (remove_ids (fst (heartbeat_handler now' a id)) (expired_ids now a)) !! id = None.
Proof.
  intros Hr Hf. unfold heartbeat_handler, heartbeat. rewrite Hr. simpl. split; [done|].
  rewrite lookup_delete_keys, decide_True; [done|]. apply elem_of_expired_ids. eauto.
Qed.
