(* ===== verification/DnsServer.v ===== *)
(** * DNS server

    [src/src/adapters/inbound/dns_server.rs].  A request is its query name (as
    [LowerName::to_string] prints it: lower case, with the final dot of a full
    name), its type and the client's address; the wire format is the DNS
    library's, the class [DnsWire].  The UDP loop and [resolve_internal], a client for
    it, come last. *)

From S2P Require Import Prelude Text NetAddr Parse Domain LoadBalancer Ports ProxyService.
From S2P Require Import Geo BindingRepo Metrics BackendRepos.
From Stdlib Require Import Ascii.

Record DnsConfig := mkDnsConfig { dns_domain : string; dns_ttl : Z }.

Definition dns_config_default : DnsConfig := mkDnsConfig "internal" 30.

(** [DnsServer]: the handler shares the proxy service with the other servers. *)
Record DnsServer (G : Type) := mkDnsServer {
  ds_listen_addr : string;
  ds_geo_resolver : option G;
  ds_config : DnsConfig
}.
Arguments mkDnsServer {G}. Arguments ds_listen_addr {G}. Arguments ds_geo_resolver {G}. Arguments ds_config {G}.

Definition dns_server_new {G} (listen_addr : string) (geo_resolver : option G) (domain : string) : DnsServer G :=
  mkDnsServer listen_addr geo_resolver (mkDnsConfig domain 30).

Inductive RecordType := RecordA | RecordOther (code : Z).

Inductive ResponseCode := NoError | NXDomain | NotImp.

Record DnsRequest := mkDnsRequest {
  dq_name : string;
  dq_type : RecordType;
  dq_src : IpAddr
}.

(** The header fields the handler sets, and the answer record: name, TTL, address. *)
Record DnsResponse := mkDnsResponse {
  dr_authoritative : bool;
  dr_code : ResponseCode;
  dr_answer : option (string * Z * Z)
}.

Section dns.
Context {R B M G : Type}
  `{!BackendRepository R, !BindingRepository B, !MetricsStore M, !GeoResolver G}.
#[local] Abbreviation service := (ProxyService R B M G).

(** [DnsHandler::resolve]: the service afterwards and the address.  The app name
    is compared with the backend's only to write a log line. *)
Definition dns_resolve (cfg : DnsConfig) (geo_resolver : option G) (t_touch t_new : instant) (s : service)
    (name : string) (client_ip : IpAddr) : service * option Z :=
  let query_str := trim_end_matches "."%char name in
  let suffix := "." +:+ dns_domain cfg in
  if negb (ends_with query_str suffix) && negb (str_eqb query_str (dns_domain cfg)) then (s, None)
  else
    let client_geo := if is_loopback client_ip then None else (g ← geo_resolver; geo_resolve g client_ip) in
    let '(s', backend) := resolve_backend_with_geo t_touch t_new s client_ip client_geo in
    (s', b ← backend; parse_ipv4 (be_wg_ip b)).

Definition handle_request (cfg : DnsConfig) (geo_resolver : option G) (t_touch t_new : instant) (s : service)
    (req : DnsRequest) : service * DnsResponse :=
  match dq_type req with
  | RecordOther _ => (s, mkDnsResponse true NotImp None)
  | RecordA =>
      let '(s', r) := dns_resolve cfg geo_resolver t_touch t_new s (dq_name req) (dq_src req) in
      (s', match r with
           | Some ip => mkDnsResponse true NoError (Some (dq_name req, dns_ttl cfg, ip))
           | None => mkDnsResponse true NXDomain None
           end)
  end.

(** ** Properties *)

(** A name of the domain: the domain itself or something before it, with any
    final dots. *)
Definition in_domain (cfg : DnsConfig) (name : string) : Prop :=
  let q := trim_end_matches "."%char name in
  q = dns_domain cfg ∨ ∃ app, q = app +:+ "." +:+ dns_domain cfg.

#[export] Instance in_domain_dec cfg name : Decision (in_domain cfg name).
Proof.
  refine (cast_if (decide (
    str_eqb (trim_end_matches "."%char name) (dns_domain cfg)
    || ends_with (trim_end_matches "."%char name) ("." +:+ dns_domain cfg) = true)));
    unfold in_domain; cbv zeta; rewrite <-str_eqb_eq, <-ends_with_spec, <-orb_true_iff; done.
Defined.

Definition dns_geo (geo_resolver : option G) (ip : IpAddr) : option GeoInfo :=
  if is_loopback ip then None else (g ← geo_resolver; geo_resolve g ip).

(** C36: a query of another type than A is answered NOTIMP, an A query for a name
    outside the domain NXDOMAIN, both without touching the service; an A query for
    any name of the domain is answered with the IPv4 address of the backend the
    proxy service routes this client to (NXDOMAIN when there is none or its
    address is not IPv4), and leaves the service bound as a connection would.  The
    application part of the name does not matter. *)
Theorem handle_request_spec `{!BackendRepositoryLaws R, !BindingRepositoryLaws B}
    cfg geo_resolver t_touch t_new (s : service) req :
  let '(s', resp) := handle_request cfg geo_resolver t_touch t_new s req in
  dr_authoritative resp = true ∧
  match dq_type req with
  | RecordOther _ => s' = s ∧ dr_code resp = NotImp ∧ dr_answer resp = None
  | RecordA =>
      if decide (in_domain cfg (dq_name req)) then
        let g := dns_geo geo_resolver (dq_src req) in
        let ip := b ← route s (dq_src req) g; parse_ipv4 (be_wg_ip b) in
        s' = fst (resolve_backend_with_geo t_touch t_new s (dq_src req) g) ∧
        dr_answer resp = (fun a => (dq_name req, dns_ttl cfg, a)) <$> ip ∧
        dr_code resp = (match ip with Some _ => NoError | None => NXDomain end)
      else s' = s ∧ dr_code resp = NXDomain ∧ dr_answer resp = None
  end.
Proof.
  unfold handle_request. destruct (dq_type req); [|done].
  unfold dns_resolve.
  assert (negb (ends_with (trim_end_matches "."%char (dq_name req)) ("." +:+ dns_domain cfg))
          && negb (str_eqb (trim_end_matches "."%char (dq_name req)) (dns_domain cfg)) =
          negb (bool_decide (in_domain cfg (dq_name req)))) as ->.
  { rewrite <-negb_orb, orb_comm. f_equal. apply eq_true_iff_eq.
    rewrite bool_decide_eq_true. unfold in_domain; cbv zeta.
    by rewrite orb_true_iff, str_eqb_eq, ends_with_spec. }
  destruct (decide (in_domain cfg (dq_name req))) as [Hin|Hout].
  - rewrite bool_decide_true by done. simpl. fold (dns_geo geo_resolver (dq_src req)).
    destruct (resolve_backend_with_geo t_touch t_new s (dq_src req) _) as [s' r] eqn:Hr.
    pose proof (binding_after_resolve t_touch t_new s (dq_src req) _ s' r Hr) as (-> & _).
    destruct (route s (dq_src req) _) as [b|]; simpl; [|done]. by destruct (parse_ipv4 (be_wg_ip b)).
  - by rewrite bool_decide_false.
Qed.
End dns.

(** ** The UDP front, and a client for it *)

Inductive MessageType := MQuery | MResponse.

(** The fields of [hickory_proto]'s [Message] that the program sets or reads: id,
    type, recursion flag, queries (name and type), answers (an address when the
    record is of type A). *)
Record DnsMessage := mkDnsMessage {
  dm_id : Z;
  dm_type : MessageType;
  dm_recursion_desired : bool;
  dm_queries : list (string * RecordType);
  dm_answers : list (option Z)
}.

Class DnsWire := {
  dns_to_bytes : DnsMessage → result (list Z) string;
  dns_from_bytes : list Z → result DnsMessage string;
  name_from_str : string → result string string
}.

Section wire.
Context `{DnsWire}.

(** [handle_packet]: the packet is parsed and its queries logged; the handler is not
    called and nothing is sent.  The datagrams sent, and the result. *)
Definition handle_packet (data : list Z) : list (list Z) * result unit string :=
  ([], let? message := dns_from_bytes data in Ok tt).

(** One turn of the loop of [run]: what [recv_from] gives, cut to the buffer, and
    what the spawned task sends. *)
Definition dns_run_turn (received : result (list Z) string) : list (list Z) :=
  match received with
  | Ok data => fst (handle_packet (take 512 data))
  | Err _ => []
  end.

(** [run] up to its loop: the address must be one, and free. *)
Definition dns_run_start (bind : SocketAddr → result unit string) (listen_addr : string) : result unit string :=
  match parse_socket_addr listen_addr with
  | Some addr => bind addr
  | None => Err "invalid socket address syntax"
  end.

(** The query [resolve_internal] sends: an id made of the clock and the process id. *)
Definition query_for (nanos pid : Z) (name : string) : DnsMessage :=
  mkDnsMessage (Z.lxor (wrap 16 nanos) (wrap 16 pid)) MQuery true [(name, RecordA)] [].

(** [resolve_internal]: [exchange] sends a datagram and waits five seconds for one. *)
Definition resolve_internal (bound : result unit string) (exchange : list Z → result (list Z) string)
    (nanos pid : Z) (name : string) : result (option Z) string :=
  let? _ := bound in
  let? name := name_from_str name in
  let? bytes := dns_to_bytes (query_for nanos pid name) in
  let? answer := exchange bytes in
  let? response := dns_from_bytes (take 512 answer) in
  Ok (head (omap id (dm_answers response))).

(** Asking this server: its first datagram in answer to the query, if there is one. *)
Definition exchange_with_server (query : list Z) : result (list Z) string :=
  match dns_run_turn (Ok query) with
  | answer :: _ => Ok answer
  | [] => Err "deadline has elapsed"
  end.

(** The program's own client never gets an answer from the program's own server. *)
Lemma server_never_answers bound nanos pid name :
  is_ok (resolve_internal bound exchange_with_server nanos pid name) = false.
Proof.
  unfold resolve_internal. destruct bound; simpl; [|done]. destruct (name_from_str name); simpl; [|done].
  by destruct (dns_to_bytes _).
Qed.

(** Against a server that answers with one record, the client returns its address. *)
Lemma resolve_internal_answer exchange nanos pid name n query answer response ip :
  name_from_str name = Ok n → dns_to_bytes (query_for nanos pid n) = Ok query → exchange query = Ok answer →
  (length answer <= 512)%nat → dns_from_bytes answer = Ok response → dm_answers response = [Some ip] →
  resolve_internal (Ok tt) exchange nanos pid name = Ok (Some ip).
Proof.
  intros Hn Hq Ha Hl Hr Hip. unfold resolve_internal. rewrite Hn. cbn [result_bind]. rewrite Hq. cbn [result_bind].
  rewrite Ha. cbn [result_bind]. rewrite take_ge, Hr by done. cbn [result_bind]. by rewrite Hip.
Qed.
End wire.

(** ** Witness *)

Lemma handle_request_spec_witness :
  let req := mkDnsRequest "shop.internal." RecordA (V4 16909060) in
  let '(s', resp) := handle_request dns_config_default None 10 11 example_service req in
  dr_code resp = NoError ∧ dr_answer resp = Some ("shop.internal.", 30, 167772161) ∧
  s' = fst (resolve_backend_with_geo 10 11 example_service (V4 16909060) None).
Proof.
  pose proof (handle_request_spec dns_config_default None 10 11 example_service
    (mkDnsRequest "shop.internal." RecordA (V4 16909060))) as H.
  cbv zeta. destruct (handle_request _ _ _ _ _ _) as [s' resp].
  destruct H as (_ & Hs & Ha & Hc). split; [exact Hc|]. split; [exact Ha|exact Hs].
Defined.
