(* ===== verification/Config.v ===== *)
(** * Configuration from the environment

    [src/src/config.rs]: [env name] is the value of an environment variable, if it
    is set and valid Unicode ([std::env::var]). *)

From S2P Require Import Prelude Text Parse.
From Stdlib Require Import Ascii.

Record Config := mkConfig {
  cfg_listen_addr : string; cfg_db_path : string; cfg_region : string; cfg_db_reload_secs : Z;
  cfg_geoip_path : option string; cfg_binding_ttl_secs : Z; cfg_binding_gc_interval_secs : Z;
  cfg_debug : bool;
  cfg_tls_enabled : bool; cfg_tls_cert_path : option string; cfg_tls_key_path : option string;
  cfg_tls_listen_addr : option string;
  cfg_api_enabled : bool; cfg_api_listen_addr : string; cfg_heartbeat_ttl_secs : Z;
  cfg_dns_enabled : bool; cfg_dns_listen_addr : string; cfg_dns_domain : string;
  cfg_replication_enabled : bool; cfg_replication_node_id : option string;
  cfg_replication_gossip_addr : string; cfg_replication_transport_addr : string;
  cfg_replication_bootstrap_peers : list string; cfg_replication_db_path : string;
  cfg_replication_cluster_name : string
}.

Definition config_default : Config :=
  mkConfig "0.0.0.0:8080" "routing.db" "sa" 5 None 600 60 false
    false None None None
    false "0.0.0.0:8081" 60
    false "0.0.0.0:5353" "internal"
    false None "0.0.0.0:4001" "0.0.0.0:4002" [] "state.db" "edgeproxy".

Definition env_or (env : string → option string) (name dflt : string) : string := default dflt (env name).

(** [.unwrap_or_else(|_| "N".to_string()).parse().unwrap_or(N)] *)
Definition env_u64 (env : string → option string) (name text : string) (dflt : Z) : Z :=
  default dflt (parse_uint 64 (env_or env name text)).

(** [.map(|v| v == "1" || v.to_lowercase() == "true").unwrap_or(false)] *)
Definition env_flag (env : string → option string) (name : string) : bool :=
  match env name with
  | Some v => str_eqb v "1" || str_eqb (to_lowercase v) "true"
  | None => false
  end.

(** [v.split(',').map(|s| s.trim().to_string())] *)
Definition env_list (env : string → option string) (name : string) : list string :=
  match env name with
  | Some v => trim <$> split_on ","%char v
  | None => []
  end.

Definition load_config (env : string → option string) : Config :=
  mkConfig
    (env_or env "EDGEPROXY_LISTEN_ADDR" "0.0.0.0:8080")
    (env_or env "EDGEPROXY_DB_PATH" "routing.db")
    (env_or env "EDGEPROXY_REGION" "sa")
    (env_u64 env "EDGEPROXY_DB_RELOAD_SECS" "5" 5)
    (env "EDGEPROXY_GEOIP_PATH")
    (env_u64 env "EDGEPROXY_BINDING_TTL_SECS" "600" 600)
    (env_u64 env "EDGEPROXY_BINDING_GC_INTERVAL_SECS" "60" 60)
    (match env "DEBUG" with Some _ => true | None => false end)
    (env_flag env "EDGEPROXY_TLS_ENABLED")
    (env "EDGEPROXY_TLS_CERT")
    (env "EDGEPROXY_TLS_KEY")
    (env "EDGEPROXY_TLS_LISTEN_ADDR")
    (env_flag env "EDGEPROXY_API_ENABLED")
    (env_or env "EDGEPROXY_API_LISTEN_ADDR" "0.0.0.0:8081")
    (env_u64 env "EDGEPROXY_HEARTBEAT_TTL_SECS" "60" 60)
    (env_flag env "EDGEPROXY_DNS_ENABLED")
    (env_or env "EDGEPROXY_DNS_LISTEN_ADDR" "0.0.0.0:5353")
    (env_or env "EDGEPROXY_DNS_DOMAIN" "internal")
    (env_flag env "EDGEPROXY_REPLICATION_ENABLED")
    (env "EDGEPROXY_REPLICATION_NODE_ID")
    (env_or env "EDGEPROXY_REPLICATION_GOSSIP_ADDR" "0.0.0.0:4001")
    (env_or env "EDGEPROXY_REPLICATION_TRANSPORT_ADDR" "0.0.0.0:4002")
    (env_list env "EDGEPROXY_REPLICATION_BOOTSTRAP_PEERS")
    (env_or env "EDGEPROXY_REPLICATION_DB_PATH" "state.db")
    (env_or env "EDGEPROXY_REPLICATION_CLUSTER_NAME" "edgeproxy").

(** An empty environment gives the built-in defaults. *)
Lemma load_config_empty : load_config (fun _ => None) = config_default.
Proof. reflexivity. Qed.

Lemma env_u64_range env name text dflt :
  0 <= dflt < 2 ^ 64 → 0 <= env_u64 env name text dflt < 2 ^ 64.
Proof.
  intros Hd. unfold env_u64, parse_uint.
  assert (∀ s acc n, 0 <= acc → parse_digits acc s = Some n → 0 <= n) as Hnn.
  { induction s as [|c s IH]; intros acc n Ha; simpl; [by intros [= <-]|].
    unfold digit_of. destruct (_ && _)%bool eqn:Hc; simpl; [|done].
    apply andb_prop in Hc as [Hc _]. apply N.leb_le in Hc. apply IH. lia. }
  generalize (strip_plus (env_or env name text)) as body. intros body.
  case_match; [exact Hd|]. destruct (parse_digits 0 body) as [n|] eqn:Hp; [|exact Hd].
  change (0 <= default dflt (if n <? 2 ^ 64 then Some n else None) < 2 ^ 64).
  destruct (Z.ltb_spec n (2 ^ 64)); [|exact Hd]. split; [|done]. by apply (Hnn body 0 n).
Qed.

(** The variables the program reads. *)
Definition config_names : list string :=
  ["EDGEPROXY_LISTEN_ADDR"; "EDGEPROXY_DB_PATH"; "EDGEPROXY_REGION"; "EDGEPROXY_DB_RELOAD_SECS";
   "EDGEPROXY_GEOIP_PATH"; "EDGEPROXY_BINDING_TTL_SECS"; "EDGEPROXY_BINDING_GC_INTERVAL_SECS"; "DEBUG";
   "EDGEPROXY_TLS_ENABLED"; "EDGEPROXY_TLS_CERT"; "EDGEPROXY_TLS_KEY"; "EDGEPROXY_TLS_LISTEN_ADDR";
   "EDGEPROXY_API_ENABLED"; "EDGEPROXY_API_LISTEN_ADDR"; "EDGEPROXY_HEARTBEAT_TTL_SECS";
   "EDGEPROXY_DNS_ENABLED"; "EDGEPROXY_DNS_LISTEN_ADDR"; "EDGEPROXY_DNS_DOMAIN";
   "EDGEPROXY_REPLICATION_ENABLED"; "EDGEPROXY_REPLICATION_NODE_ID"; "EDGEPROXY_REPLICATION_GOSSIP_ADDR";
   "EDGEPROXY_REPLICATION_TRANSPORT_ADDR"; "EDGEPROXY_REPLICATION_BOOTSTRAP_PEERS";
   "EDGEPROXY_REPLICATION_DB_PATH"; "EDGEPROXY_REPLICATION_CLUSTER_NAME"].

(** No other variable has an effect: those that the documentation names for rate
    limiting, circuit breaking and health checks among them. *)
Lemma load_config_reads_only env env' :
  Forall (λ n, env n = env' n) config_names → load_config env = load_config env'.
Proof.
  intros Hall. unfold config_names in Hall. rewrite !Forall_cons in Hall. destruct_and! Hall.
  unfold load_config, env_or, env_u64, env_or, env_flag, env_list.
  repeat match goal with Hn : env _ = env' _ |- _ => rewrite Hn; clear Hn end. done.
Qed.

Example undocumented_unread :
  Forall (λ n, n ∉ config_names)
    ["EDGEPROXY_RATE_LIMIT_ENABLED"; "EDGEPROXY_CIRCUIT_BREAKER_ENABLED"; "EDGEPROXY_HEALTH_CHECK_ENABLED"].
Proof. by apply (bool_decide_unpack _). Qed.
