(* ===== verification/Agent.v ===== *)
(** * Replication agent

    [src/src/replication/agent.rs]: gossip, sync and transport put together.  The
    loops it starts are a flush loop and a loop that only looks at the member
    list; received messages and the other services' events are not consumed. *)

From S2P Require Import Prelude Tls Channel ReplTypes Sql Sync Gossip Transport.

Inductive ReplicationEvent :=
| ClusterJoined (members : Z)
| PeerJoined (id : NodeId)
| PeerLeft (id : NodeId)
| RChangeApplied (c : Change)
| RError (e : string).

Record ReplicationAgent (D : Type) := mkAgent {
  ag_config : ReplicationConfig;
  ag_node_id : NodeId;
  ag_gossip : GossipService;
  ag_sync : SyncService D;
  ag_transport : TransportService;
  ag_events : chan ReplicationEvent;
  ag_shutdown : bool
}.
Arguments mkAgent {D}. Arguments ag_config {D}. Arguments ag_node_id {D}. Arguments ag_gossip {D}.
Arguments ag_sync {D}. Arguments ag_transport {D}. Arguments ag_events {D}. Arguments ag_shutdown {D}.

Section agent.
Context `{SqlDb D} `{Digests} `{SerdeJson} `{WireCodec} `{GossipCodec} `{QuicLib}.
Implicit Types (a : ReplicationAgent D).

Definition agent_new (cfg : ReplicationConfig) (db : D) : result (ReplicationAgent D) ConfigError :=
  let? _ := rc_validate cfg in
  let node_id := mkNodeId (rc_node_id cfg) in
  Ok (mkAgent cfg node_id (gossip_new cfg) (sync_new node_id db) (transport_new cfg) (mkChan [] true) false).

Definition ag_members a : list Member := gs_all_members (ag_gossip a).
Definition ag_alive_members a : list Member := alive_members (ag_gossip a).
Definition is_running a : bool := negb (ag_shutdown a).

Definition with_sync a (s : SyncService D) : ReplicationAgent D :=
  mkAgent (ag_config a) (ag_node_id a) (ag_gossip a) s (ag_transport a) (ag_events a) (ag_shutdown a).

Definition with_transport a (t : TransportService) : ReplicationAgent D :=
  mkAgent (ag_config a) (ag_node_id a) (ag_gossip a) (ag_sync a) t (ag_events a) (ag_shutdown a).

(** [start]: [bound] is the result of binding the gossip socket; the loops that the
    services, [start_event_loop] and [start_flush_loop] spawn are the turns modelled
    elsewhere.  The count announced is that of the members known by then.  The
    datagrams are the join messages. *)
Definition agent_start (bound : result unit string) a
    : ReplicationAgent D * outcome (result (list (string * string)) string) :=
  let '(s, r) := init_db (ag_sync a) in
  let a := with_sync a s in
  match r with
  | Err e => (a, Finished (Err e))
  | Ok _ =>
      let '(t, r) := transport_start (ag_transport a) in
      let a := with_transport a t in
      match (let? _ := r in gossip_start bound (ag_gossip a)) with
      | Err e => (a, Finished (Err e))
      | Ok joins =>
          match chan_send (ag_events a) (ClusterJoined (Z.of_nat (length (ag_alive_members a)))) with
          | Some ch =>
              (mkAgent (ag_config a) (ag_node_id a) (ag_gossip a) (ag_sync a) (ag_transport a) ch (ag_shutdown a),
               Finished (Ok joins))
          | None => (a, Suspended)
          end
      end
  end.

Definition agent_stop a : ReplicationAgent D :=
  mkAgent (ag_config a) (ag_node_id a) (gs_signal_shutdown (ag_gossip a)) (ag_sync a)
    (ts_signal_shutdown (ag_transport a)) (ag_events a) true.

Definition record_backend_change a (now_us now_ns now_ns' : Z) (id : string) (kind : ChangeKind) (data : string)
    : ReplicationAgent D :=
  with_sync a (fst (record_change (ag_sync a) now_us now_ns now_ns' "backends" id kind data)).

(** [flush]: the change set, and how many peers it was sent to. *)
Definition agent_flush (net : QuicNet) a : ReplicationAgent D * outcome (option (ChangeSet * nat)) :=
  let '(s, r) := flush (ag_sync a) in
  (with_sync a s,
   match r with
   | Finished (Some cs) => Finished (Some (cs, broadcast_changeset net (ag_transport a) cs))
   | Finished None => Finished None
   | Suspended => Suspended
   end).

Definition agent_apply_changeset (now_secs : Z) a (cs : ChangeSet) : ReplicationAgent D * outcome (result Z string) :=
  let '(s, r) := apply_changeset now_secs (ag_sync a) cs in (with_sync a s, r).

(** The loops test the flag ([ag_shutdown]) and then wait for their timer; what they do
    after the tick, whatever the flag has become meanwhile: *)
Definition flush_turn (net : QuicNet) a : ReplicationAgent D * outcome unit :=
  let '(a', r) := agent_flush net a in
  (a', match r with Finished _ => Finished tt | Suspended => Suspended end).

(** The event loop only logs the alive members without a connection. *)
Definition event_turn a : list string :=
  omap (fun m => let id := node_str (mb_node_id m) in
                 match get_peer (ag_transport a) id with
                 | Some _ => None
                 | None => if String.eqb id "self" then None else Some id
                 end) (ag_alive_members a).
End agent.

(** The builder collects a configuration and hands it to [agent_new]. *)
Definition builder_new (node_id : string) : ReplicationConfig := replication_config_new node_id.
Definition builder_gossip_addr := with_gossip_addr.
Definition builder_transport_addr := with_transport_addr.
Definition builder_bootstrap_peers := with_bootstrap_peers.
Definition builder_db_path := with_db_path.
Definition builder_cluster_name := with_cluster_name.
Definition builder_build `{SqlDb D} (cfg : ReplicationConfig) (db : D) : result (ReplicationAgent D) ConfigError :=
  agent_new cfg db.

Section properties.
Context `{SqlDb D} `{Digests} `{SerdeJson} `{WireCodec} `{GossipCodec} `{QuicLib}.

Lemma agent_new_config cfg (db : D) a : agent_new cfg db = Ok a → ag_config a = cfg.
Proof. unfold agent_new. destruct (rc_validate cfg); simpl; [|done]. by intros [= <-]. Qed.

Lemma agent_start_config bound (a : ReplicationAgent D) : ag_config (fst (agent_start bound a)) = ag_config a.
Proof.
  unfold agent_start. destruct (init_db (ag_sync a)) as [s r]. destruct r; [|done].
  destruct (transport_start _) as [t r]. simpl. destruct r as [u|e]; simpl; [|done].
  destruct (gossip_start bound _) as [joins|e]; simpl; [|done]. by destruct (chan_send _ _).
Qed.

(** An agent is built exactly from configurations with both names. *)
Lemma agent_new_ok cfg (db : D) :
  is_ok (agent_new cfg db) = negb (String.eqb (rc_node_id cfg) "") && negb (String.eqb (rc_cluster_name cfg) "").
Proof.
  unfold agent_new, rc_validate. destruct (String.eqb _ _); [done|]. by destruct (String.eqb _ _).
Qed.

(** The number of events waiting in the sync service's channel, with the sequence
    number, as flushes go by without anybody receiving. *)
Lemma flush_fills_channel (s : SyncService D) s' cs :
  chan_open (sy_events s) = true → flush s = (s', Finished (Some cs)) →
  chan_open (sy_events s') = true ∧
  chan_queue (sy_events s') = chan_queue (sy_events s) ++ [BroadcastReady cs].
Proof.
  intros Ho. unfold flush, chan_send. rewrite Ho. simpl.
  destruct (sy_pending_changes s); [done|]. destruct (_ <? CHANNEL_CAP); [|done]. by intros [= <- <-].
Qed.

(** A fresh agent starts exactly when its database can be initialised, its endpoint
    made and the gossip socket bound, and then has announced the (empty) cluster
    once and asked the bootstrap peers to join. *)
Lemma agent_start_fresh cfg (db : D) a bound :
  agent_new cfg db = Ok a →
  let '(a', r) := agent_start bound a in
  ∃ e, r = Finished e ∧
  is_ok e = is_ok (snd (init_db (sync_new (mkNodeId (rc_node_id cfg)) db)))
            && is_ok (snd (transport_start (transport_new cfg))) && is_ok bound ∧
  (e = Ok (join_datagrams cfg) ∨ is_ok e = false) ∧ ts_started (ag_transport a') = is_ok (snd (transport_start
    (transport_new cfg))) && is_ok (snd (init_db (sync_new (mkNodeId (rc_node_id cfg)) db))) ∧
  chan_queue (ag_events a') = if is_ok e then [ClusterJoined 0] else [].
Proof.
  unfold agent_new. destruct (rc_validate cfg); simpl; [|done]. intros [= <-].
  unfold agent_start; simpl. destruct (init_db _) as [s [u|e]]; simpl.
  2: { exists (Err e). by rewrite andb_false_r; auto. }
  assert (ts_started (fst (transport_start (transport_new cfg))) = is_ok (snd (transport_start (transport_new cfg)))) as Hst.
  { unfold transport_start. by case_match. }
  destruct (transport_start _) as [t [v|e]]; simpl in *; [|by exists (Err e); auto].
  destruct bound as [w|e]; simpl; [|by exists (Err e); auto]. exists (Ok (join_datagrams cfg)). auto 10.
Qed.
End properties.
