(* ===== verification/Main.v ===== *)
(** * The composition root

    [src/src/main.rs]: builds every component from the configuration.  [main] is a
    function of the environment variables and of what the rest of the world
    answers ([World]): files, the databases behind their paths, the GeoIP reader,
    the random node suffix, the sockets of replication.  Its result is the running
    process, as it is when [TcpServer::run] is reached, or the error that ended it.

    [edge_of] is the state in which [Resolutions] takes over: the proxy service with
    empty repositories, shared by the servers, and no task. *)

From S2P Require Import Prelude Text Domain NetAddr AddrText Config LoadBalancer Ports Sql Geo BindingRepo Metrics BackendRepos.
From S2P Require Import ProxyService TcpServer Tls Resolutions Channel ReplTypes Sync Gossip Transport Agent.
From S2P Require Import ApiServer DnsServer.

Record World (D : Type) := mkWorld {
  w_open_db : string → D;                                     (* the SQLite database behind a path *)
  w_open_file : string → result (list Z) string;
  w_geoip_file : string → result (IpAddr → result CountryResp string) string;
  w_geoip_embedded : result (IpAddr → result CountryResp string) string;
  w_uuid : string;                                            (* Uuid::new_v4().to_string() *)
  w_gossip_bound : result unit string
}.
Arguments mkWorld {D}. Arguments w_open_db {D}. Arguments w_open_file {D}. Arguments w_geoip_file {D}.
Arguments w_geoip_embedded {D}. Arguments w_uuid {D}. Arguments w_gossip_bound {D}.

Section main.
Context `{SqlDb D} `{Digests} `{SerdeJson} `{GossipCodec} `{QuicLib}.
Implicit Types (w : World D) (cfg : Config).

Record Process := mkProcess {
  pr_debug : bool;                                            (* the log level: DEBUG or INFO *)
  pr_sync : string * Z;                                       (* start_sync(path, interval) *)
  pr_gc : duration * duration;                                (* start_gc(ttl, interval) *)
  pr_agent : option (ReplicationAgent D * result (list (string * string)) string);
  pr_service : EdgeService;
  pr_api : option (ApiServer * Z);                            (* and start_cleanup_task's interval *)
  pr_dns : option (DnsServer MaxMindGeoResolver);
  pr_tls : option (TlsServer MaxMindGeoResolver TlsConfig);
  pr_tcp : TcpServer MaxMindGeoResolver
}.

Definition config_error_text (e : ConfigError) : string :=
  match e with
  | MissingNodeId => "node_id is required"
  | MissingClusterName => "cluster_name is required"
  end.

Definition ok_or {A E} (e : E) (o : option A) : result A E :=
  match o with Some a => Ok a | None => Err e end.

(** The configuration of replication: the first eight characters of a random UUID
    make a node id unique when none is given. *)
Definition replication_config_of cfg (uuid : string) : result ReplicationConfig string :=
  let node_id := match cfg_replication_node_id cfg with
                 | Some id => id
                 | None => cfg_region cfg +:+ "-" +:+ String.substring 0 8 uuid
                 end in
  let? gossip := ok_or "invalid socket address syntax" (parse_socket_addr (cfg_replication_gossip_addr cfg)) in
  let? transport := ok_or "invalid socket address syntax" (parse_socket_addr (cfg_replication_transport_addr cfg)) in
  Ok (with_cluster_name (cfg_replication_cluster_name cfg)
       (with_db_path (cfg_replication_db_path cfg)
         (with_bootstrap_peers (cfg_replication_bootstrap_peers cfg)
           (with_transport_addr (display_socket_addr transport)
             (with_gossip_addr (display_socket_addr gossip)
               (replication_config_new node_id)))))).

(** The replication block: a wrong configuration ends the process, a start that
    fails is only logged. *)
Definition start_replication cfg w
    : outcome (result (option (ReplicationAgent D * result (list (string * string)) string)) string) :=
  if negb (cfg_replication_enabled cfg) then Finished (Ok None)
  else
    match (let? rc := replication_config_of cfg (w_uuid w) in
           map_err config_error_text (agent_new rc (w_open_db w (rc_db_path rc)))) with
    | Err e => Finished (Err e)
    | Ok agent =>
        match agent_start (w_gossip_bound w) agent with
        | (agent, Finished r) => Finished (Ok (Some (agent, r)))
        | (_, Suspended) => Suspended
        end
    end.

(** The GeoIP resolver: without a readable database there is none. *)
Definition load_geo cfg w : option MaxMindGeoResolver :=
  result_ok match cfg_geoip_path cfg with
            | Some path => maxmind_from_file (w_geoip_file w) path
            | None => maxmind_embedded (w_geoip_embedded w)
            end.

(** Certificate and key files if both are given, else a self-signed certificate. *)
Definition load_tls cfg w : result TlsConfig string :=
  match cfg_tls_cert_path cfg, cfg_tls_key_path cfg with
  | Some cert, Some key => from_pem_files (w_open_file w) cert key
  | _, _ => self_signed "edgeproxy.internal"
  end.

Definition main (env : string → option string) w : outcome (result Process string) :=
  let cfg := load_config env in
  match start_replication cfg w with
  | Suspended => Suspended
  | Finished (Err e) => Finished (Err e)
  | Finished (Ok agent) =>
      let geo_resolver := load_geo cfg w in
      let proxy_service := mkProxy sqlite_new binding_repo_new geo_resolver dm_store_new
                             (region_from_str (cfg_region cfg)) in
      let api := if cfg_api_enabled cfg
                 then Some (api_server_new (cfg_api_listen_addr cfg) (cfg_heartbeat_ttl_secs cfg), 30) else None in
      let dns := if cfg_dns_enabled cfg
                 then Some (dns_server_new (cfg_dns_listen_addr cfg) geo_resolver (cfg_dns_domain cfg)) else None in
      Finished (
        let? tls := (if cfg_tls_enabled cfg then
                       let? tls_config := load_tls cfg w in
                       Ok (Some (tls_server_new (default "0.0.0.0:8443" (cfg_tls_listen_addr cfg))
                                   geo_resolver tls_config))
                     else Ok None) in
        Ok (mkProcess (cfg_debug cfg) (cfg_db_path cfg, cfg_db_reload_secs cfg)
              (from_secs (cfg_binding_ttl_secs cfg), from_secs (cfg_binding_gc_interval_secs cfg))
              agent proxy_service api dns tls (tcp_server_new (cfg_listen_addr cfg) geo_resolver)))
  end.

(** What the servers share, before the first connection. *)
Definition edge_of (p : Process) :
    edge_state SqliteBackendRepository DashMapBindingRepository DashMapMetricsStore MaxMindGeoResolver :=
  mkEdge (pr_service p) (tcp_public_ip_geo (pr_tcp p)) (tls ← pr_tls p; tls_public_ip_geo tls) [] ∅.

(** ** When the process comes up *)

Lemma replication_config_of_Ok cfg uuid :
  is_ok (replication_config_of cfg uuid) =
    bool_decide (is_Some (parse_socket_addr (cfg_replication_gossip_addr cfg)))
    && bool_decide (is_Some (parse_socket_addr (cfg_replication_transport_addr cfg))).
Proof.
  unfold replication_config_of.
  destruct (parse_socket_addr (cfg_replication_gossip_addr cfg)), (parse_socket_addr (cfg_replication_transport_addr cfg));
    done.
Qed.

Definition replication_accepted cfg : bool :=
  negb (cfg_replication_enabled cfg)
  || (bool_decide (is_Some (parse_socket_addr (cfg_replication_gossip_addr cfg)))
      && bool_decide (is_Some (parse_socket_addr (cfg_replication_transport_addr cfg)))
      && negb (bool_decide (cfg_replication_node_id cfg = Some ""))
      && negb (str_eqb (cfg_replication_cluster_name cfg) "")).

Lemma start_replication_outcome cfg w :
  ∃ r, start_replication cfg w = Finished r ∧ is_ok r = replication_accepted cfg ∧
    ∀ agent, r = Ok agent → (agent = None ↔ cfg_replication_enabled cfg = false).
Proof.
  unfold start_replication, replication_accepted.
  destruct (cfg_replication_enabled cfg); simpl; [|by exists (Ok None); split_and!; [..|intros ? [= <-]]].
  pose proof (replication_config_of_Ok cfg (w_uuid w)) as Hok.
  destruct (replication_config_of cfg (w_uuid w)) as [rc|e] eqn:Hrc; simpl in Hok; rewrite <-Hok; simpl;
    [|by exists (Err e)].
  assert (rc_node_id rc = default (cfg_region cfg +:+ "-" +:+ String.substring 0 8 (w_uuid w)) (cfg_replication_node_id cfg)
          ∧ rc_cluster_name rc = cfg_replication_cluster_name cfg) as [Hid Hcl].
  { revert Hrc. unfold replication_config_of. destruct (parse_socket_addr _); simpl; [|done].
    destruct (parse_socket_addr _); simpl; [|done]. intros [= <-]. simpl.
    by destruct (cfg_replication_node_id cfg). }
  pose proof (agent_new_ok rc (w_open_db w (rc_db_path rc))) as Hnew. rewrite Hid, Hcl in Hnew.
  assert (String.eqb (default (cfg_region cfg +:+ "-" +:+ String.substring 0 8 (w_uuid w)) (cfg_replication_node_id cfg)) ""
          = bool_decide (cfg_replication_node_id cfg = Some "")) as Hn.
  { destruct (cfg_replication_node_id cfg) as [id|]; simpl.
    - apply eq_true_iff_eq. rewrite String.eqb_eq, bool_decide_eq_true. split; [by intros ->|by intros [= ->]].
    - by destruct (cfg_region cfg). }
  rewrite Hn in Hnew.
  replace (str_eqb (cfg_replication_cluster_name cfg) "") with (String.eqb (cfg_replication_cluster_name cfg) "")
    by (apply eq_true_iff_eq; by rewrite String.eqb_eq, str_eqb_eq).
  destruct (agent_new rc _) as [a|e] eqn:Ha; simpl in Hnew; rewrite <-Hnew; simpl.
  - pose proof (agent_start_fresh rc _ a (w_gossip_bound w) Ha) as Hs.
    destruct (agent_start _ a) as [a' r]. destruct Hs as (r' & -> & _).
    exists (Ok (Some (a', r'))). by split_and!; [..|intros ? [= <-]].
  - by exists (Err (config_error_text e)).
Qed.

(** The texts that the agent keeps are the addresses configured. *)
Definition same_addrs (rc : ReplicationConfig) cfg : Prop :=
  parse_socket_addr (rc_gossip_addr rc) = parse_socket_addr (cfg_replication_gossip_addr cfg) ∧
  parse_socket_addr (rc_transport_addr rc) = parse_socket_addr (cfg_replication_transport_addr cfg).

Lemma replication_config_addrs cfg uuid rc : replication_config_of cfg uuid = Ok rc → same_addrs rc cfg.
Proof.
  unfold replication_config_of, same_addrs.
  destruct (parse_socket_addr (cfg_replication_gossip_addr cfg)) as [g|] eqn:Hg; simpl; [|done].
  destruct (parse_socket_addr (cfg_replication_transport_addr cfg)) as [t|] eqn:Ht; simpl; [|done].
  intros [= <-]. split; [by apply display_parsed in Hg|by apply display_parsed in Ht].
Qed.

Lemma start_replication_addrs cfg w a r : start_replication cfg w = Finished (Ok (Some (a, r))) → same_addrs (ag_config a) cfg.
Proof.
  unfold start_replication. destruct (cfg_replication_enabled cfg); simpl; [|done].
  destruct (replication_config_of cfg (w_uuid w)) as [rc|e] eqn:Hrc; simpl; [|done].
  destruct (agent_new rc (w_open_db w (rc_db_path rc))) as [a0|e] eqn:Ha; simpl; [|done].
  pose proof (agent_start_config (w_gossip_bound w) a0) as Hc.
  destruct (agent_start (w_gossip_bound w) a0) as [a' o]. simpl in Hc.
  destruct o as [r'|]; intros Heq; [|done]. injection Heq as <- _. rewrite Hc, (agent_new_config _ _ _ Ha).
  by eapply replication_config_addrs.
Qed.

(** C16: start-up.  The process never hangs before its servers; it comes up exactly
    if replication is off or well configured (both addresses are IP socket addresses,
    node id and cluster name not empty) and TLS is off or its certificate can be made.
    A replication agent that cannot start, or a GeoIP database that cannot be read,
    does not stop it.  What runs is what the flags ask for, with the configured
    addresses and intervals: the replication addresses, which are kept as printed
    from the parsed ones, read back as those configured.  TLS uses the files only if
    both are named. *)
Theorem startup_spec env w :
  let cfg := load_config env in
  ∃ r, main env w = Finished r ∧
  is_ok r = replication_accepted cfg && (negb (cfg_tls_enabled cfg) || is_ok (load_tls cfg w)) ∧
  ∀ p, r = Ok p →
    (pr_agent p = None ↔ cfg_replication_enabled cfg = false) ∧
    (∀ a started, pr_agent p = Some (a, started) → same_addrs (ag_config a) cfg) ∧
    (as_listen_addr ∘ fst <$> pr_api p) = (if cfg_api_enabled cfg then Some (cfg_api_listen_addr cfg) else None) ∧
    (ds_listen_addr <$> pr_dns p) = (if cfg_dns_enabled cfg then Some (cfg_dns_listen_addr cfg) else None) ∧
    (tls_listen_addr <$> pr_tls p) =
      (if cfg_tls_enabled cfg then Some (default "0.0.0.0:8443" (cfg_tls_listen_addr cfg)) else None) ∧
    (∀ tls, pr_tls p = Some tls →
       match cfg_tls_cert_path cfg, cfg_tls_key_path cfg with
       | Some cert, Some key => from_pem_files (w_open_file w) cert key
       | _, _ => self_signed "edgeproxy.internal"
       end = Ok (tls_config tls)) ∧
    tcp_listen_addr (pr_tcp p) = cfg_listen_addr cfg ∧
    pr_sync p = (cfg_db_path cfg, cfg_db_reload_secs cfg) ∧
    pr_gc p = (from_secs (cfg_binding_ttl_secs cfg), from_secs (cfg_binding_gc_interval_secs cfg)) ∧
    ps_local_region (pr_service p) = region_from_str (cfg_region cfg).
Proof.
  cbv zeta. unfold main. generalize (load_config env). intros cfg.
  destruct (start_replication_outcome cfg w) as (r & Hr & Hok & Hag). rewrite Hr.
  rewrite <-Hok. destruct r as [agent|e]; [|by exists (Err e)].
  eexists. split; [reflexivity|]. specialize (Hag agent eq_refl).
  assert (∀ a started, agent = Some (a, started) → same_addrs (ag_config a) cfg) as Haddr
    by (intros a started ->; by eapply start_replication_addrs).
  destruct (cfg_tls_enabled cfg); simpl.
  - destruct (load_tls cfg w) as [tls|e] eqn:Htls; simpl; (split; [done|]); intros p Hp; [|done].
    injection Hp as <-. simpl. split; [done|].
    destruct (cfg_api_enabled cfg), (cfg_dns_enabled cfg);
      (split_and!; try done; by intros ? [= <-]).
  - split; [done|]. intros p Hp. injection Hp as <-. simpl. split; [done|].
    by destruct (cfg_api_enabled cfg), (cfg_dns_enabled cfg).
Qed.

(** ** The process at work *)

(** The sync loop reloads from some state the database file is in. *)
Definition reloads_from (history : D → Prop)
    (st : edge_state SqliteBackendRepository DashMapBindingRepository DashMapMetricsStore MaxMindGeoResolver)
    (l : label SqliteBackendRepository) : Prop :=
  match l with
  | LReload r => ∃ join_ok db, history db ∧ r = sqlite_sync_turn (ps_backend_repo (es_service st)) (spawn_load join_ok db)
  | _ => True
  end.

(** A healthy backend of some state of the database. *)
Definition on_file (history : D → Prop) (b : Backend) : Prop :=
  be_healthy b = true ∧ ∃ db, history db ∧ listed db b.

(** C2: the running process, end to end.  From the process [main] builds, under any
    interleaving of connections, queries, reloads and collections: a client is
    connected to, a DNS query answered with and a client bound to nothing but healthy
    live rows of a state the database file was in at a reload (so, before the first
    reload, to nothing); and the connection counts are those being proxied. *)
Theorem process_serves_listed `{!SqlDbLaws D} (history : D → Prop) env w p st :
  main env w = Finished (Ok p) →
  rtc (edge_step (ps_geo_resolver (pr_service p)) (reloads_from history)) (edge_of p) st →
  (∀ n c b, es_tasks st !! n = Some (TConnect c b) ∨ es_tasks st !! n = Some (TReplied c (Some b)) →
     on_file history b) ∧
  (∀ k bd, binding_get (ps_binding_repo (es_service st)) k = Some bd →
     ∃ b, be_id b = bd_backend_id bd ∧ on_file history b) ∧
  (Z.of_nat (size (es_tasks st)) < 2 ^ 64 → ∀ id,
     get_connection_count (ps_metrics (es_service st)) id = counted_tasks id (es_tasks st)).
Proof.
  intros Hmain Hrtc.
  assert (edge_of p = mkEdge (mkProxy sqlite_new binding_repo_new (ps_geo_resolver (pr_service p)) dm_store_new
            (ps_local_region (pr_service p))) None None [] ∅) as Hp.
  { revert Hmain. unfold main. generalize (load_config env). intros cfg.
    destruct (start_replication cfg w) as [[agent|]|]; [|done..]. intros Hp. injection Hp as Hp. revert Hp.
    destruct (cfg_tls_enabled cfg); [destruct (load_tls cfg w)|]; simpl; intros Hp; try done; by injection Hp as <-. }
  rewrite Hp in Hrtc.
  assert (sound_state (λ b, ∃ db, history db ∧ listed db b) st) as (_ & Hb & Hts).
  { eapply rtc_invariant; [|exact Hrtc|].
    - intros a b Ha (l & Hl & Hex). refine (sound_exec _ _ l a b Ha _ Hex).
      intros r -> b' Hb'. destruct Hl as (j & db & Hdb & ->).
      apply sqlite_sync_turn_listed in Hb' as [Hb'|Hb']; [by apply Ha|eauto].
    - split_and!; simpl; [by intros b ?%elem_of_nil|by intros ? ?|by intros ? ?; rewrite lookup_empty]. }
  split_and!.
  - intros n c b [Hn|Hn]; exact (Hts _ _ Hn).
  - exact Hb.
  - intros Hsize. eapply (counts_exact_rtc _ _ _ _ Hrtc Hsize). intros id. simpl.
    unfold counted_tasks. by rewrite map_filter_empty, map_size_empty.
Qed.
End main.

(** ** Witness: the default configuration on a small database *)

Definition demo_tls : TlsLib := {|
  ServerConfig := list Z;
  generate_simple_self_signed _ := Err "no entropy";
  private_key_der := Ok;
  with_single_cert certs key := Ok key;
  pem_certs f := [Ok f];
  pem_private_key f := Ok (Some f)
|}.

Definition demo_quic : @QuicLib demo_tls :=
  @Build_QuicLib demo_tls (fun _ => Ok tt) (fun _ => Ok tt) (fun _ => Ok tt).

Definition demo_codec : GossipCodec := {|
  gossip_serialize _ := Ok "message";
  gossip_deserialize _ := Err "unsupported"
|}.

Definition demo_world : World MemDb :=
  mkWorld (fun _ => example_db) (fun _ => Err "no such file") (fun _ => Err "no such file") (Err "no database")
    "67e55044-10b1-426f-9247-bb680e5fe0c8" (Ok tt).

Definition demo_process : @Process MemDb demo_tls :=
  mkProcess false ("routing.db", 5) (from_secs 600, from_secs 60) None
    (mkProxy sqlite_new binding_repo_new None dm_store_new SouthAmerica) None None None
    (tcp_server_new "0.0.0.0:8080" None).

Definition demo_reload : SqliteBackendRepository := sqlite_sync_turn sqlite_new (spawn_load true example_db).

Definition demo_served : edge_state SqliteBackendRepository DashMapBindingRepository DashMapMetricsStore MaxMindGeoResolver :=
  default (edge_of demo_process)
    (run None (LReload demo_reload :: LAccept 0%nat KTcp (V4 16909060) :: steps 0%nat (replicate 6 1)) (edge_of demo_process)).

Lemma process_serves_listed_witness :
  ∃ b, es_tasks demo_served !! 0%nat = Some (TConnect (V4 16909060) b) ∧
    on_file (eq example_db) b.
Proof.
  exists (mkBackend "b1" "app" SouthAmerica "BR" "10.0.0.1" 8080 true 2 100 150).
  split; [vm_compute; reflexivity|].
  refine (proj1 (@process_serves_listed MemDb _ demo_codec demo_tls demo_quic _ (eq example_db) (fun _ => None) demo_world
    demo_process demo_served _ _) 0%nat (V4 16909060) _ _); [reflexivity| |left; vm_compute; reflexivity].
  eapply rtc_l; [exists (LReload demo_reload); split; [by exists true, example_db|reflexivity]|].
  apply (run_rtc None (reloads_from (eq example_db))
    (LAccept 0%nat KTcp (V4 16909060) :: steps 0%nat (replicate 6 1))); [|vm_compute; reflexivity].
  repeat (apply Forall_cons; split; [intros st; exact I|]). apply Forall_nil. exact I.
Defined.
