(* ===== verification/Fleet.v ===== *)
(** * Running agents

    A [ReplicationAgent] ([src/src/replication/agent.rs]) as it runs after [start]:
    its flush loop and event loop, the gossip loop, the transport's accept loop and
    the tasks that read streams, with everything the rest of the world may do to
    it, each turn a step of [agent_exec].

    Shown: what the loops amount to.  A change set that is flushed reaches a
    connected peer's event queue intact ([flushed_set_delivered]); but nothing takes
    it from there, and no loop ever opens a connection, so a running agent's data
    depend on nobody else, and an agent to which nobody connects sends nothing
    ([agents_isolated]). *)

From S2P Require Import Prelude Text Tls Channel ReplTypes Sql Sync Gossip Transport Agent BackendRepos Main.

(** The loops of an agent, and where a loop is: about to test the flag that ends it,
    waiting for its timer, socket or endpoint, suspended in the middle of a turn on a
    full event channel (which nothing empties), or over. *)
Inductive agent_loop := FlushLoop | EventLoop | GossipLoop | AcceptLoop.

#[export] Instance agent_loop_eq_dec : EqDecision agent_loop.
Proof. solve_decision. Defined.

Inductive loop_phase := AtHead | AtWait | Stuck | Ended.

Inductive agent_label :=
| AgRecord (now_us now_ns now_ns' : Z) (id : string) (kind : ChangeKind) (data : string)   (* by the owner *)
| AgTest (lp : agent_loop)                                  (* a loop reads its flag *)
| AgFlush (net : QuicNet)                                   (* the flush loop after its tick *)
| AgEvent                                                   (* the event loop after its tick *)
| AgGossip (w : gossip_wake)                                (* the gossip loop, woken *)
| AgAccept (incoming : bool)                                (* the accept loop, woken; or the endpoint is closed *)
| AgHandshake (r : result (string * nat) string)            (* an incoming connection is set up, or not *)
| AgStream (from : NodeId) (stream : list Z)                (* a stream of a peer has been read *)
| AgClosed (from : NodeId)                                  (* a peer's connection has ended *)
| AgStop.

(** A running agent: its loops, and the incoming connections not yet set up. *)
Record running_agent (D : Type) := mkRunning {
  ra_agent : ReplicationAgent D;
  ra_loops : agent_loop → loop_phase;
  ra_incoming : nat
}.
Arguments mkRunning {D}. Arguments ra_agent {D}. Arguments ra_loops {D}. Arguments ra_incoming {D}.

Section agents.
Context `{SqlDb D} `{Digests} `{SerdeJson} `{WireCodec} `{GossipCodec} `{QuicLib}.
Implicit Types (a : ReplicationAgent D) (s : SyncService D).

Definition with_gossip a (g : GossipService) : ReplicationAgent D :=
  mkAgent (ag_config a) (ag_node_id a) g (ag_sync a) (ag_transport a) (ag_events a) (ag_shutdown a).

(** After [start]: every loop is about to begin. *)
Definition agent_running a : running_agent D := mkRunning a (λ _, AtHead) 0.

(** The flag that a loop tests. *)
Definition loop_flag a (lp : agent_loop) : bool :=
  match lp with
  | FlushLoop | EventLoop => ag_shutdown a
  | GossipLoop => gs_is_shutdown (ag_gossip a)
  | AcceptLoop => ts_is_shutdown (ag_transport a)
  end.

Definition set_loop (lp : agent_loop) (ph : loop_phase) (loops : agent_loop → loop_phase) : agent_loop → loop_phase :=
  λ lp', if decide (lp' = lp) then ph else loops lp'.

(** A turn of loop [lp], if it is waiting, that leaves the agent [a'] and ends, or is
    suspended. *)
Definition turn_of (r : running_agent D) (lp : agent_loop) (a' : ReplicationAgent D) (o : outcome unit)
    : option (running_agent D) :=
  match ra_loops r lp with
  | AtWait => Some (mkRunning a'
      (set_loop lp (match o with Finished _ => AtHead | Suspended => Stuck end) (ra_loops r)) (ra_incoming r))
  | _ => None
  end.

Definition with_agent (r : running_agent D) a' : running_agent D := mkRunning a' (ra_loops r) (ra_incoming r).

Definition agent_exec (l : agent_label) (r : running_agent D) : option (running_agent D) :=
  let a := ra_agent r in
  match l with
  | AgRecord now_us now_ns now_ns' id kind data =>
      Some (with_agent r (record_backend_change a now_us now_ns now_ns' id kind data))
  | AgTest lp =>
      match ra_loops r lp with
      | AtHead => Some (mkRunning a (set_loop lp (if loop_flag a lp then Ended else AtWait) (ra_loops r)) (ra_incoming r))
      | _ => None
      end
  | AgFlush net => let '(a', o) := flush_turn net a in turn_of r FlushLoop a' o
  | AgEvent => turn_of r EventLoop a (Finished tt)
  | AgGossip w => let '(g, _, o) := gossip_turn (ag_gossip a) w in turn_of r GossipLoop (with_gossip a g) o
  | AgAccept incoming =>
      match ra_loops r AcceptLoop with
      | AtWait =>
          Some (if incoming then mkRunning a (set_loop AcceptLoop AtHead (ra_loops r)) (S (ra_incoming r))
                else mkRunning a (set_loop AcceptLoop Ended (ra_loops r)) (ra_incoming r))
      | _ => None
      end
  | AgHandshake res =>
      match ra_incoming r with
      | O => None
      | S n => Some (mkRunning (with_transport a (fst (incoming_task (ag_transport a) res))) (ra_loops r) n)
      end
  | AgStream from stream => Some (with_agent r (with_transport a (fst (receive_stream (ag_transport a) from stream))))
  | AgClosed from => Some (with_agent r (with_transport a (fst (connection_closed (ag_transport a) from))))
  | AgStop => Some (with_agent r (agent_stop a))
  end.

Fixpoint agent_run (ls : list agent_label) (r : running_agent D) : option (running_agent D) :=
  match ls with
  | [] => Some r
  | l :: ls' => r' ← agent_exec l r; agent_run ls' r'
  end.

(** Whether a step is a connection from outside. *)
Definition is_connection (l : agent_label) : bool :=
  match l with AgHandshake (Ok _) => true | _ => false end.

(** ** Data *)

(** The replicated data of two databases are the same: the backends, and the
    timestamps that decide between writes. *)
Record same_data (d d' : D) : Prop := {
  same_rows id : sql_backend_row d' id = sql_backend_row d id;
  same_lww k : sql_select_lww d' k = sql_select_lww d k
}.

(** And the node has taken nothing from another. *)
Definition same_others s s' : Prop :=
  sy_node_id s' = sy_node_id s ∧ sy_last_timestamps s' = sy_last_timestamps s ∧
  ∀ n, n ≠ node_str (sy_node_id s) → vv_get (sy_version_vector s') n = vv_get (sy_version_vector s) n.

Context `{!SqlDbLaws D}.

Lemma same_data_refl d : same_data d d.
Proof. by split. Qed.

Lemma same_data_trans d1 d2 d3 : same_data d1 d2 → same_data d2 d3 → same_data d1 d3.
Proof. intros [Hr1 Hl1] [Hr2 Hl2]. split; intros; by rewrite ?Hr2, ?Hl2. Qed.

Lemma same_others_refl s : same_others s s.
Proof. done. Qed.

Lemma same_others_trans s1 s2 s3 : same_others s1 s2 → same_others s2 s3 → same_others s1 s3.
Proof.
  intros (E1 & L1 & V1) (E2 & L2 & V2). split_and!; [congruence..|]. intros n Hn. rewrite V2, V1; congruence.
Qed.

Lemma create_tables_same d d' : sql_create_tables d = Ok d' → same_data d d'.
Proof. intros Hc. split; intros; [by eapply create_tables_backend|by eapply create_tables_lww]. Qed.

Lemma init_db_same s : same_data (sy_db s) (sy_db (fst (init_db s))).
Proof.
  unfold init_db. destruct (sql_open (sy_db s)); simpl; [|apply same_data_refl].
  destruct (sql_create_tables (sy_db s)) as [d|] eqn:Hc; simpl; [|apply same_data_refl].
  apply create_tables_same in Hc. destruct (sql_select_versions d); simpl; [|done].
  by destruct (load_versions _ _).
Qed.

Lemma flush_same s : same_data (sy_db s) (sy_db (fst (flush s))) ∧ same_others s (fst (flush s)).
Proof.
  unfold flush. destruct (sy_pending_changes s) as [|c l]; [by split; [apply same_data_refl|]|].
  set (seq := sy_sequence s +u64 1). set (v := vv_update _ _ seq).
  assert (same_data (sy_db s) match persist_version (sy_db s) (node_str (sy_node_id s)) seq with
                              | Ok db => db | Err _ => sy_db s end) as Hd.
  { unfold persist_version. destruct (sql_open (sy_db s)); simpl; [|apply same_data_refl].
    destruct (sql_replace_version _ _ _) as [d|] eqn:Hr; [|apply same_data_refl].
    split; intros; [by eapply replace_version_backend|by eapply replace_version_lww]. }
  assert (∀ n, n ≠ node_str (sy_node_id s) → vv_get v n = vv_get (sy_version_vector s) n) as Hv.
  { intros n Hn. unfold v, vv_get, vv_update. simpl. by rewrite lookup_insert_ne. }
  destruct (chan_send _ _); by split.
Qed.

(** ** One step *)

(** What a step leaves alone, and the peers it may add. *)
Record step_frame a a' : Prop := {
  sf_data : same_data (sy_db (ag_sync a)) (sy_db (ag_sync a'));
  sf_others : same_others (ag_sync a) (ag_sync a')
}.

Lemma receive_stream_peers t from stream : ts_peers (fst (receive_stream t from stream)) = ts_peers t.
Proof. unfold receive_stream. destruct (read_stream stream); [|done]. by destruct (chan_send _ _). Qed.

Lemma connection_closed_peers t from : ts_peers (fst (connection_closed t from)) = ts_peers t.
Proof. unfold connection_closed. by destruct (chan_send _ _). Qed.

Lemma turn_of_agent r lp a o r' : turn_of r lp a o = Some r' → ra_agent r' = a.
Proof. unfold turn_of. destruct (ra_loops r lp); [done| |done..]. by intros [= <-]. Qed.

Lemma agent_exec_frame l r r' : agent_exec l r = Some r' → step_frame (ra_agent r) (ra_agent r').
Proof.
  assert (∀ a, step_frame a a) as Hrefl by (split; [apply same_data_refl|apply same_others_refl]).
  destruct l as [? ? ? ? ? ?|lp|net| |w|inc|res|from st|from|]; cbn [agent_exec].
  - intros [= <-]. split; simpl; [apply same_data_refl|done].
  - destruct (ra_loops r lp); [|done..]. by intros [= <-].
  - unfold flush_turn, agent_flush. pose proof (flush_same (ag_sync (ra_agent r))) as [Hd Ho].
    destruct (flush (ag_sync (ra_agent r))) as [s o]. intros ->%turn_of_agent. by split.
  - by intros ->%turn_of_agent.
  - destruct (gossip_turn _ w) as [[g o] u]. intros ->%turn_of_agent. split; [apply same_data_refl|apply same_others_refl].
  - destruct (ra_loops r AcceptLoop); [done| |done..]. intros [= <-]. by destruct inc.
  - destruct (ra_incoming r); [done|]. intros [= <-]. split; [apply same_data_refl|apply same_others_refl].
  - intros [= <-]. split; [apply same_data_refl|apply same_others_refl].
  - intros [= <-]. split; [apply same_data_refl|apply same_others_refl].
  - intros [= <-]. split; [apply same_data_refl|apply same_others_refl].
Qed.

#[local] Abbreviation peers_of r := (ts_peers (ag_transport (ra_agent r))).

Lemma agent_exec_peers l r r' :
  agent_exec l r = Some r' → is_connection l = false → peers_of r' = peers_of r.
Proof.
  destruct l as [? ? ? ? ? ?|lp|net| |w|inc|res|from st|from|]; cbn [agent_exec]; intros Hex Hc.
  - by simplify_eq.
  - destruct (ra_loops r lp); by simplify_eq.
  - revert Hex. unfold flush_turn, agent_flush. destruct (flush (ag_sync (ra_agent r))) as [s o].
    by intros ->%turn_of_agent.
  - by apply turn_of_agent in Hex as ->.
  - revert Hex. destruct (gossip_turn _ w) as [[g o] u]. by intros ->%turn_of_agent.
  - destruct (ra_loops r AcceptLoop), inc; by simplify_eq.
  - destruct (ra_incoming r); [done|]. destruct res as [[? ?]|?]; by simplify_eq/=.
  - simplify_eq/=. apply receive_stream_peers.
  - simplify_eq/=. apply connection_closed_peers.
  - by simplify_eq.
Qed.

Lemma agent_run_frame ls r r' : agent_run ls r = Some r' →
  step_frame (ra_agent r) (ra_agent r') ∧ (Forall (λ l, is_connection l = false) ls → peers_of r' = peers_of r).
Proof.
  revert r. induction ls as [|l ls IH]; intros r; cbn [agent_run].
  { intros [= <-]. split; [split; [apply same_data_refl|apply same_others_refl]|done]. }
  destruct (agent_exec l r) as [r1|] eqn:Hex; simpl; [|done]. intros Hr. destruct (IH r1 Hr) as [[Hd Ho] Hp].
  pose proof (agent_exec_frame _ _ _ Hex) as [Hd1 Ho1]. split.
  - split; [by eapply same_data_trans|by eapply same_others_trans].
  - intros [Hl Hls]%Forall_cons. rewrite Hp by done. by eapply agent_exec_peers.
Qed.

(** ** From construction *)

Lemma init_db_meta s :
  sy_node_id (fst (init_db s)) = sy_node_id s ∧ sy_last_timestamps (fst (init_db s)) = sy_last_timestamps s.
Proof.
  unfold init_db. destruct (sql_open (sy_db s)); simpl; [|done].
  destruct (sql_create_tables (sy_db s)) as [d|]; simpl; [|done].
  destruct (sql_select_versions d); simpl; [|done]. by destruct (load_versions _ _).
Qed.

Lemma transport_start_peers t : ts_peers (fst (transport_start t)) = ts_peers t.
Proof. unfold transport_start. by case_match. Qed.

Lemma agent_start_frame bound a :
  let a' := fst (agent_start bound a) in
  ag_sync a' = fst (init_db (ag_sync a)) ∧ ts_peers (ag_transport a') = ts_peers (ag_transport a).
Proof.
  unfold agent_start. destruct (init_db (ag_sync a)) as [s [u|e]]; [|done]. cbn [with_sync ag_transport].
  pose proof (transport_start_peers (ag_transport a)) as Hp.
  destruct (transport_start (ag_transport a)) as [t [v|e]]; simpl in *; [|done].
  destruct (gossip_start bound (ag_gossip a)); [|done]. by destruct (chan_send _ _).
Qed.

Lemma broadcast_nobody net t msg : ts_peers t = ∅ → broadcast net t msg = 0%nat.
Proof. intros Hp. unfold broadcast, ts_all_peers. by rewrite Hp, map_to_list_empty. Qed.

(** C18: running agents are isolated. Whatever an agent's loops do after it is built and
    started, and whatever other nodes send it (gossip, connections, change sets on
    streams), its backends and their write timestamps stay those of its database, it
    has seen no change set of any other node, and has recorded no write of one; and
    as long as nobody outside connects to it, it has no peers and every change set
    it flushes is broadcast to none. As no loop of an agent connects to anybody, a
    cluster of nothing but agents replicates nothing. *)
Theorem agents_isolated cfg (db : D) a bound ls r :
  agent_new cfg db = Ok a → agent_run ls (agent_running (fst (agent_start bound a))) = Some r →
  let a' := ra_agent r in
  let started := ag_sync (fst (agent_start bound a)) in
  (∀ id, sql_backend_row (sy_db (ag_sync a')) id = sql_backend_row db id) ∧
  (∀ k, sql_select_lww (sy_db (ag_sync a')) k = sql_select_lww db k) ∧
  (∀ n, n ≠ rc_node_id cfg → vv_get (sy_version_vector (ag_sync a')) n = vv_get (sy_version_vector started) n) ∧
  sy_last_timestamps (ag_sync a') = ∅ ∧
  (Forall (λ l, is_connection l = false) ls →
     ts_peers (ag_transport a') = ∅ ∧
     ∀ net cs n, snd (agent_flush net a') = Finished (Some (cs, n)) → n = 0%nat).
Proof.
  intros Hnew Hrun a'. destruct (agent_start_frame bound a) as [Hs0 Hp0].
  assert (sy_db (ag_sync a) = db ∧ ts_peers (ag_transport a) = ∅ ∧ node_str (sy_node_id (ag_sync a)) = rc_node_id cfg ∧
          sy_last_timestamps (ag_sync a) = ∅) as (Hdb & Hp & Hid & Hlast).
  { revert Hnew. unfold agent_new. destruct (rc_validate cfg); simpl; [|done]. by intros [= <-]. }
  destruct (agent_run_frame _ _ _ Hrun) as [[Hd (Hn & Hl & Hv)] Hpeers]. fold a' in Hd, Hn, Hl, Hv, Hpeers.
  cbn [agent_running ra_agent] in Hd, Hn, Hl, Hv, Hpeers.
  rewrite Hs0 in *. destruct (init_db_meta (ag_sync a)) as [Hid1 Hlast1]. pose proof (init_db_same (ag_sync a)) as Hd0.
  rewrite Hdb in Hd0. pose proof (same_data_trans _ _ _ Hd0 Hd) as [Hrows Hlww]. cbv zeta.
  split_and!; [done|done|intros n Hne; apply Hv; by rewrite Hid1, Hid|congruence|].
  intros Hls. rewrite Hp0, Hp in Hpeers. split; [by apply Hpeers|]. intros net cs n.
  unfold agent_flush. destruct (flush (ag_sync a')) as [s [[c|]|]]; simpl; intros Hf; simplify_eq.
  apply broadcast_nobody. by apply Hpeers.
Qed.
(** ** The way of a change set to a connected peer *)

(** What a flush broadcasts verifies, is sent as one frame to every live peer, and on
    the other side goes into the event queue as it was, if it encodes to at most
    10 MiB; a longer one is sent, and counted as sent, and dropped. *)
Lemma flushed_set_delivered `{!WireCodecLaws} net a a' cs n t from frame data :
  agent_flush net a = (a', Finished (Some (cs, n))) →
  wire_serialize (MBroadcast cs) = Ok data → Z.of_nat (length data) < 2 ^ 32 →
  encode_message (MBroadcast cs) = Ok frame → chan_open (ts_events t) = true → chan_room (ts_events t) 1 →
  cs_verify cs = true ∧
  n = length (filter (λ p, is_alive net p && quic_send net (peer_conn p) frame = true) (ts_all_peers (ag_transport a))) ∧
  ∃ t', receive_stream t from frame = (t', Finished tt) ∧
    chan_queue (ts_events t') = chan_queue (ts_events t) ++
      (if Z.of_nat (length data) <=? MAX_MESSAGE then [MessageReceived from (MBroadcast cs)] else []).
Proof.
  intros Hf Hser Hlen Henc Hopen Hroom. unfold agent_flush in Hf.
  destruct (flush (ag_sync a)) as [s r] eqn:Hfl. destruct r as [[c|]|]; simplify_eq. split_and!.
  - unfold flush in Hfl. destruct (sy_pending_changes (ag_sync a)) as [|ch l]; [by simplify_eq|].
    destruct (chan_send _ _); simplify_eq. unfold cs_verify, changeset_new. simpl. apply Z.eqb_refl.
  - unfold broadcast_changeset. rewrite broadcast_count. f_equal. apply list_filter_iff. intros p.
    unfold peer_send. by rewrite Henc.
  - unfold receive_stream. pose proof (read_stream_encoded _ _ _ [] Hser Hlen Henc) as Hrd. rewrite app_nil_r in Hrd.
    rewrite Hrd. destruct (_ <=? MAX_MESSAGE); [|by exists t; rewrite app_nil_r].
    unfold chan_send. rewrite Hopen. simpl. destruct Hroom as [Hc|Hl]; [by rewrite Hc in Hopen|].
    rewrite (proj2 (Z.ltb_lt _ _)) by lia. by eexists.
Qed.
End agents.

(** ** Witness: an agent on a database with one backend, told to delete it *)

Definition fleet_remote : ChangeSet :=
  @changeset_new demo_digests (mkNodeId "pop-us") 1
    [mkChange 2 "backends" "b1" KDelete "" (mkHlc 200 0 8) (mkNodeId "pop-us")].

Definition fleet_wire : WireCodec := {|
  wire_serialize m := match m with MBroadcast _ => Ok [7] | _ => Err "unsupported" end;
  wire_deserialize b := match b with [7] => Ok (MBroadcast fleet_remote) | _ => Err "unsupported" end
|}.

Definition fleet_tls : TlsLib := {|
  ServerConfig := list Z;
  generate_simple_self_signed _ := Ok ([1], [2]);
  private_key_der := Ok;
  with_single_cert certs key := Ok key;
  pem_certs f := [Ok f];
  pem_private_key f := Ok (Some f)
|}.

Definition fleet_quic : @QuicLib fleet_tls :=
  @Build_QuicLib fleet_tls (fun _ => Ok tt) (fun _ => Ok tt) (fun _ => Ok tt).

Definition fleet_config : ReplicationConfig := with_cluster_name "edge" (replication_config_new "pop-sa").

Definition fleet_agent : ReplicationAgent MemDb :=
  mkAgent fleet_config (mkNodeId "pop-sa") (gossip_new fleet_config) (sync_new (mkNodeId "pop-sa") example_db)
    (transport_new fleet_config) (mkChan [] true) false.

Definition fleet_net : QuicNet :=
  mkQuic (fun _ => true) (fun _ _ => true) (fun _ _ => Err "closed") (fun _ _ => Err "refused").

(** The accept loop takes a connection, a change set arrives on it; the agent is stopped
    while its flush loop waits for the tick, which still flushes once. *)
Definition fleet_run : list agent_label :=
  [AgTest AcceptLoop; AgTest FlushLoop; AgAccept true; AgHandshake (Ok ("10.50.2.1:4002", 3%nat));
   AgStream (mkNodeId "peer-10.50.2.1:4002") [0; 0; 0; 1; 7];
   AgRecord 1 2 3 "b2" KDelete ""; AgStop; AgFlush fleet_net; AgTest FlushLoop; AgTest EventLoop].

Definition fleet_start : running_agent MemDb :=
  agent_running (fst (@agent_start _ _ demo_codec fleet_tls fleet_quic (Ok tt) fleet_agent)).

Definition fleet_final : running_agent MemDb :=
  default fleet_start (@agent_run _ _ demo_digests fleet_wire demo_codec fleet_run fleet_start).

Definition fleet_end : ReplicationAgent MemDb := ra_agent fleet_final.

Lemma agents_isolated_witness :
  ts_started (ag_transport fleet_end) = true ∧ length (chan_queue (ts_events (ag_transport fleet_end))) = 2%nat ∧
  ∀ id, sql_backend_row (sy_db (ag_sync fleet_end)) id = sql_backend_row example_db id.
Proof.
  split; [vm_compute; reflexivity|]. split; [vm_compute; reflexivity|].
  apply (@agents_isolated MemDb _ demo_digests fleet_wire demo_codec fleet_tls fleet_quic _
    fleet_config example_db fleet_agent (Ok tt) fleet_run fleet_final); vm_compute; reflexivity.
Defined.
