(* ===== verification/Bincode.v ===== *)
(** * An encoding in the format of bincode

    The messages of [src/src/replication/types.rs] and [src/src/replication/gossip.rs]
    travel as [bincode] 1 writes them.  The other files know that library only by its
    laws ([WireCodecLaws], [GossipCodecLaws], [Digests]).  This file writes its
    documented format down (little-endian integers of fixed width, lengths of eight
    bytes, variants of four, bytes after the value ignored) and proves the laws of it,
    so that the theorems about messages hold of the bytes that are really sent.  With
    it comes CRC-32 as [crc32fast] computes it.

    A [codec] is an encoder, which is partial only on values the Rust types do not
    have (a number out of range, a string that is not UTF-8), a decoder that leaves
    the rest of the input, and the law that connects them. *)

From Stdlib Require Import Ascii.
From S2P Require Import Prelude Text NetAddr AddrText Channel ReplTypes Gossip Membership Tls Transport.

Record codec (A : Type) := mkCodec {
  enc : A → option (list ascii);
  dec : list ascii → option (A * list ascii);
  good : A → Prop;
  dec_enc a bs rest : enc a = Some bs → good a → dec (bs ++ rest) = Some (a, rest)
}.
Arguments mkCodec {A}. Arguments enc {A}. Arguments dec {A}. Arguments good {A}. Arguments dec_enc {A}.

(** A type whose values take at least one byte. *)
Definition nonempty {A} (c : codec A) : Prop := ∀ a, enc c a ≠ Some [].

(** ** Integers *)

Definition byte_at (x : Z) : ascii := ascii_of_N (Z.to_N (x mod 256)).
Definition byte_value (b : ascii) : Z := Z.of_N (N_of_ascii b).

Lemma byte_value_at x : byte_value (byte_at x) = x mod 256.
Proof.
  unfold byte_value, byte_at. pose proof (Z.mod_pos_bound x 256 ltac:(lia)).
  rewrite N_ascii_embedding; lia.
Qed.

Fixpoint le_bytes (n : nat) (x : Z) : list ascii :=
  match n with O => [] | S n' => byte_at x :: le_bytes n' (x / 256) end.

Fixpoint le_value (bs : list ascii) : Z :=
  match bs with [] => 0 | b :: bs' => byte_value b + 256 * le_value bs' end.

Lemma le_bytes_length n x : length (le_bytes n x) = n.
Proof. revert x. induction n as [|n IH]; intros x; simpl; [done|]. by rewrite IH. Qed.

Lemma le_value_bytes n x : 0 <= x < 256 ^ Z.of_nat n → le_value (le_bytes n x) = x.
Proof.
  revert x. induction n as [|n IH]; intros x Hx; cbn [le_bytes le_value]; [simpl in Hx; lia|].
  rewrite Nat2Z.inj_succ, Z.pow_succ_r in Hx by lia.
  rewrite byte_value_at, IH; [pose proof (Z.div_mod x 256); lia|].
  split; [apply Z.div_pos; lia|apply Z.div_lt_upper_bound; lia].
Qed.

(** The next [n] bytes of the input, if there are as many. *)
Definition take_exact (n : nat) (bs : list ascii) : option (list ascii * list ascii) :=
  if (length bs <? n)%nat then None else Some (take n bs, drop n bs).

Lemma take_exact_app n bs rest : length bs = n → take_exact n (bs ++ rest) = Some (bs, rest).
Proof.
  intros <-. unfold take_exact. rewrite (proj2 (Nat.ltb_ge _ _)) by (rewrite length_app; lia).
  by rewrite take_app_length, drop_app_length.
Qed.

Definition uint_enc (n : nat) (x : Z) : option (list ascii) :=
  if (0 <=? x) && (x <? 256 ^ Z.of_nat n) then Some (le_bytes n x) else None.

Definition uint_dec (n : nat) (bs : list ascii) : option (Z * list ascii) :=
  '(front, rest) ← take_exact n bs; Some (le_value front, rest).

Lemma uint_dec_enc n x bs rest : uint_enc n x = Some bs → uint_dec n (bs ++ rest) = Some (x, rest).
Proof.
  unfold uint_enc, uint_dec. destruct (_ && _) eqn:Hx; [|done]. intros [= <-].
  apply andb_prop in Hx as [Hx1%Z.leb_le Hx2%Z.ltb_lt].
  rewrite take_exact_app by apply le_bytes_length. simpl. by rewrite le_value_bytes.
Qed.

Definition uint (n : nat) : codec Z :=
  mkCodec (uint_enc n) (uint_dec n) (λ _, True) (λ x bs rest He _, uint_dec_enc n x bs rest He).

Definition u8 : codec Z := uint 1.
Definition u16 : codec Z := uint 2.
Definition u32 : codec Z := uint 4.
Definition u64 : codec Z := uint 8.

Lemma uint_nonempty n : nonempty (uint (S n)).
Proof. intros x. unfold uint, uint_enc. simpl. by case_match. Qed.

(** ** Composition *)

Definition unit_codec : codec unit.
Proof. refine (mkCodec (λ _, Some []) (λ bs, Some (tt, bs)) (λ _, True) _). by intros [] bs rest [= <-]. Defined.

Section pairs.
Context {A B : Type} (cA : codec A) (cB : codec B).

Definition pair_enc (p : A * B) : option (list ascii) := b1 ← enc cA (fst p); b2 ← enc cB (snd p); Some (b1 ++ b2).
Definition pair_dec (bs : list ascii) : option ((A * B) * list ascii) :=
  '(a, bs) ← dec cA bs; '(b, bs) ← dec cB bs; Some ((a, b), bs).

Lemma pair_dec_enc p bs rest :
  pair_enc p = Some bs → good cA (fst p) ∧ good cB (snd p) → pair_dec (bs ++ rest) = Some (p, rest).
Proof.
  destruct p as [a b]. unfold pair_enc, pair_dec. simpl. intros He [Ha Hb].
  destruct (enc cA a) as [b1|] eqn:H1; [|done]. destruct (enc cB b) as [b2|] eqn:H2; [|done].
  injection He as <-. rewrite <-app_assoc, (dec_enc cA _ _ _ H1 Ha). simpl.
  by rewrite (dec_enc cB _ _ _ H2 Hb).
Qed.

Definition pair_codec : codec (A * B) :=
  mkCodec pair_enc pair_dec (λ p, good cA (fst p) ∧ good cB (snd p)) pair_dec_enc.

Lemma pair_nonempty : nonempty cA → nonempty pair_codec.
Proof.
  intros Hne [a b]. cbn. unfold pair_enc. simpl. specialize (Hne a).
  destruct (enc cA a) as [[|x b1]|]; [done| |done]. by destruct (enc cB b).
Qed.
End pairs.

(** A type that is another one in other words. *)
Section via.
Context {A B : Type} (cB : codec B) (f : A → B) (g : B → A) (Hgf : ∀ a, g (f a) = a).

Lemma via_dec_enc a bs rest :
  enc cB (f a) = Some bs → good cB (f a) → ('(b, rest) ← dec cB (bs ++ rest); Some (g b, rest)) = Some (a, rest).
Proof. intros He Hg. rewrite (dec_enc cB _ _ _ He Hg). simpl. by rewrite Hgf. Qed.

Definition via : codec A :=
  mkCodec (λ a, enc cB (f a)) (λ bs, '(b, rest) ← dec cB bs; Some (g b, rest)) (λ a, good cB (f a)) via_dec_enc.

Lemma via_nonempty : nonempty cB → nonempty via.
Proof. intros Hne a. apply Hne. Qed.
End via.

Section lists.
Context {A : Type} (cA : codec A) (Hne : nonempty cA).

Fixpoint items_enc (l : list A) : option (list ascii) :=
  match l with
  | [] => Some []
  | a :: l' => b1 ← enc cA a; b2 ← items_enc l'; Some (b1 ++ b2)
  end.

Fixpoint items_dec (n : nat) (bs : list ascii) : option (list A * list ascii) :=
  match n with
  | O => Some ([], bs)
  | S n' => '(a, bs) ← dec cA bs; '(l, bs) ← items_dec n' bs; Some (a :: l, bs)
  end.

Definition vec_enc (l : list A) : option (list ascii) :=
  b1 ← enc u64 (Z.of_nat (length l)); b2 ← items_enc l; Some (b1 ++ b2).

(** Every item takes a byte at least, so a length beyond what is left cannot be met. *)
Definition vec_dec (bs : list ascii) : option (list A * list ascii) :=
  '(n, bs) ← dec u64 bs;
  if n <=? Z.of_nat (length bs) then items_dec (Z.to_nat n) bs else None.

Lemma items_dec_enc l bs rest :
  items_enc l = Some bs → Forall (good cA) l → items_dec (length l) (bs ++ rest) = Some (l, rest).
Proof.
  revert bs. induction l as [|a l IH]; intros bs He Hg; cbn [items_enc items_dec length] in *; [by injection He as <-|].
  apply Forall_cons in Hg as [Ha Hl]. destruct (enc cA a) as [b1|] eqn:H1; [|done].
  destruct (items_enc l) as [b2|] eqn:H2; [|done]. injection He as <-.
  rewrite <-app_assoc, (dec_enc cA _ _ _ H1 Ha). simpl. by rewrite (IH _ eq_refl Hl).
Qed.

Lemma items_enc_length l bs : items_enc l = Some bs → (length l <= length bs)%nat.
Proof using Hne.
  revert bs. induction l as [|a l IH]; intros bs; cbn [items_enc length]; [intros [= <-]; simpl; lia|].
  specialize (Hne a). destruct (enc cA a) as [[|x b1]|]; [done| |done].
  destruct (items_enc l) as [b2|]; [|done]. intros [= <-]. specialize (IH _ eq_refl).
  simpl. rewrite length_app. lia.
Qed.

Lemma vec_dec_enc l bs rest : vec_enc l = Some bs → Forall (good cA) l → vec_dec (bs ++ rest) = Some (l, rest).
Proof using Hne.
  unfold vec_enc, vec_dec. intros He Hg.
  destruct (enc u64 _) as [b1|] eqn:H1; [|done]. destruct (items_enc l) as [b2|] eqn:H2; [|done].
  injection He as <-. rewrite <-app_assoc, (dec_enc u64 _ _ _ H1 I). simpl.
  pose proof (items_enc_length _ _ H2). rewrite (proj2 (Z.leb_le _ _)) by (rewrite length_app; lia).
  rewrite Nat2Z.id. by apply items_dec_enc.
Qed.

Definition vec : codec (list A) := mkCodec vec_enc vec_dec (Forall (good cA)) vec_dec_enc.

Lemma vec_nonempty : nonempty vec.
Proof.
  intros l. change (vec_enc l ≠ Some []). unfold vec_enc.
  assert (enc u64 (Z.of_nat (length l)) ≠ Some []) as Hl by apply uint_nonempty.
  destruct (enc u64 _) as [[|x b1]|]; [done| |done]. by destruct (items_enc l).
Qed.
End lists.

(** [Option<T>]: one byte, then the value. *)
Definition option_codec {A} (cA : codec A) : codec (option A).
Proof.
  refine (mkCodec
    (λ o, match o with None => Some ["000"%char] | Some a => b ← enc cA a; Some ("001"%char :: b) end)
    (λ bs, match bs with
           | "000"%char :: bs => Some (None, bs)
           | "001"%char :: bs => '(a, bs) ← dec cA bs; Some (Some a, bs)
           | _ => None
           end)
    (λ o, match o with None => True | Some a => good cA a end) _).
  intros [a|] bs rest He Hg; [|by injection He as <-].
  destruct (enc cA a) as [b|] eqn:H1; [|done]. injection He as <-. simpl. by rewrite (dec_enc cA _ _ _ H1 Hg).
Defined.

(** An enum: the number of the variant as a [u32], then its fields. *)
Record variant (A : Type) := mkVariant {
  v_fields : Type;
  v_codec : codec v_fields;
  v_make : v_fields → A;
  v_match : A → option v_fields;
  v_law a p : v_match a = Some p → v_make p = a
}.
Arguments mkVariant {A} {v_fields}. Arguments v_fields {A}. Arguments v_codec {A}. Arguments v_make {A}.
Arguments v_match {A}. Arguments v_law {A}.

Section enums.
Context {A : Type}.

(** The first variant of the list has number [n]. *)
Fixpoint enum_enc (n : Z) (vs : list (variant A)) (a : A) : option (list ascii) :=
  match vs with
  | [] => None
  | v :: vs' => match v_match v a with
                | Some p => b1 ← enc u32 n; b2 ← enc (v_codec v) p; Some (b1 ++ b2)
                | None => enum_enc (n + 1) vs' a
                end
  end.

Fixpoint variant_dec (tag n : Z) (vs : list (variant A)) (bs : list ascii) : option (A * list ascii) :=
  match vs with
  | [] => None
  | v :: vs' => if tag =? n then '(p, bs) ← dec (v_codec v) bs; Some (v_make v p, bs)
                else variant_dec tag (n + 1) vs' bs
  end.

Definition enum_dec (vs : list (variant A)) (bs : list ascii) : option (A * list ascii) :=
  '(tag, bs) ← dec u32 bs; variant_dec tag 0 vs bs.

Fixpoint enum_good (vs : list (variant A)) (a : A) : Prop :=
  match vs with
  | [] => True
  | v :: vs' => match v_match v a with Some p => good (v_codec v) p | None => enum_good vs' a end
  end.

Lemma enum_dec_enc_from n vs a bs rest :
  enum_enc n vs a = Some bs → enum_good vs a →
  ∃ tag b1 b2, enc u32 tag = Some b1 ∧ bs = b1 ++ b2 ∧ n <= tag ∧ variant_dec tag n vs (b2 ++ rest) = Some (a, rest).
Proof.
  revert n. induction vs as [|v vs IH]; intros n; cbn [enum_enc enum_good variant_dec]; [done|].
  destruct (v_match v a) as [p|] eqn:Hp.
  - destruct (enc u32 n) as [b1|] eqn:H1; [|done]. destruct (enc (v_codec v) p) as [b2|] eqn:H2; [|done].
    intros [= <-] Hg. exists n, b1, b2. split_and!; [done|done|lia|].
    rewrite Z.eqb_refl, (dec_enc _ _ _ _ H2 Hg). simpl. by rewrite (v_law v a p Hp).
  - intros He Hg. destruct (IH _ He Hg) as (tag & b1 & b2 & H1 & -> & Hle & Hd).
    exists tag, b1, b2. split_and!; [done|done|lia|].
    rewrite (proj2 (Z.eqb_neq _ _)) by lia. done.
Qed.

Lemma enum_dec_enc vs a bs rest :
  enum_enc 0 vs a = Some bs → enum_good vs a → enum_dec vs (bs ++ rest) = Some (a, rest).
Proof.
  intros He Hg. destruct (enum_dec_enc_from 0 vs a bs rest He Hg) as (tag & b1 & b2 & H1 & -> & _ & Hd).
  unfold enum_dec. rewrite <-app_assoc, (dec_enc u32 _ _ _ H1 I). exact Hd.
Qed.

Definition enum (vs : list (variant A)) : codec A :=
  mkCodec (enum_enc 0 vs) (enum_dec vs) (enum_good vs) (enum_dec_enc vs).

Lemma enum_nonempty vs : nonempty (enum vs).
Proof.
  intros a. change (enum_enc 0 vs a ≠ Some []). generalize 0.
  induction vs as [|v vs IH]; intros n; cbn [enum_enc]; [done|].
  destruct (v_match v a); [|apply IH]. assert (enc u32 n ≠ Some []) as Hn by apply uint_nonempty.
  destruct (enc u32 n) as [[|x b1]|]; [done| |done]. by destruct (enc (v_codec v) _).
Qed.
End enums.

(** ** Strings and addresses *)

(** UTF-8, as RFC 3629 tabulates it. *)
Definition byte_in (lo hi : Z) (b : ascii) : bool := (lo <=? byte_value b) && (byte_value b <=? hi).
Definition utf8_cont : ascii → bool := byte_in 128 191.

Fixpoint utf8 (bs : list ascii) : bool :=
  match bs with
  | [] => true
  | a :: bs1 =>
      if byte_in 0 127 a then utf8 bs1
      else match bs1 with
      | [] => false
      | b :: bs2 =>
          if byte_in 194 223 a then utf8_cont b && utf8 bs2
          else match bs2 with
          | [] => false
          | c :: bs3 =>
              if byte_in 224 239 a then
                (if byte_in 224 224 a then byte_in 160 191 b else if byte_in 237 237 a then byte_in 128 159 b
                 else utf8_cont b) && utf8_cont c && utf8 bs3
              else match bs3 with
              | [] => false
              | d :: bs4 =>
                  byte_in 240 244 a &&
                  (if byte_in 240 240 a then byte_in 144 191 b else if byte_in 244 244 a then byte_in 128 143 b
                   else utf8_cont b) && utf8_cont c && utf8_cont d && utf8 bs4
              end
          end
      end
  end.

Definition str_enc (s : string) : option (list ascii) :=
  let bs := String.list_ascii_of_string s in
  if utf8 bs then n ← enc u64 (Z.of_nat (length bs)); Some (n ++ bs) else None.

Definition str_dec (bs : list ascii) : option (string * list ascii) :=
  '(n, bs) ← dec u64 bs;
  if n <=? Z.of_nat (length bs) then
    '(front, rest) ← take_exact (Z.to_nat n) bs;
    if utf8 front then Some (String.string_of_list_ascii front, rest) else None
  else None.

Lemma str_dec_enc s bs rest : str_enc s = Some bs → True → str_dec (bs ++ rest) = Some (s, rest).
Proof.
  unfold str_enc, str_dec. intros He _. destruct (utf8 _) eqn:Hu; [|done].
  destruct (enc u64 _) as [n|] eqn:H1; [|done]. injection He as <-.
  rewrite <-app_assoc, (dec_enc u64 _ _ _ H1 I). simpl.
  rewrite (proj2 (Z.leb_le _ _)) by (rewrite length_app; lia).
  rewrite Nat2Z.id, take_exact_app by done. simpl. by rewrite Hu, String.string_of_list_ascii_of_string.
Qed.

Definition str : codec string := mkCodec str_enc str_dec (λ _, True) str_dec_enc.

Lemma str_nonempty : nonempty str.
Proof.
  intros s. change (str_enc s ≠ Some []). unfold str_enc. destruct (utf8 _); [|done].
  assert (enc u64 (Z.of_nat (length (String.list_ascii_of_string s))) ≠ Some []) as Hl by apply uint_nonempty.
  by destruct (enc u64 _) as [[|x b1]|].
Qed.

(** The octets of an address: most significant first. *)
Definition be (n : nat) : codec Z.
Proof.
  refine (mkCodec (λ x, reverse <$> uint_enc n x)
    (λ bs, '(front, rest) ← take_exact n bs; Some (le_value (reverse front), rest)) (λ _, True) _).
  intros x bs rest He _. unfold uint_enc in He. destruct (_ && _) eqn:Hx; [|done]. injection He as <-.
  apply andb_prop in Hx as [Hx1%Z.leb_le Hx2%Z.ltb_lt].
  rewrite take_exact_app by (rewrite length_reverse; apply le_bytes_length). simpl.
  by rewrite reverse_involutive, le_value_bytes.
Defined.

(** [SocketAddr]: the variant, the octets and the port.  The scope of an IPv6 address is
    not part of it. *)
Definition addr : codec SocketAddr :=
  enum [mkVariant (pair_codec (be 4) u16) (λ p, SockV4 (fst p) (snd p))
          (λ a, match a with SockV4 ip port => Some (ip, port) | _ => None end)
          ltac:(by intros [] p [= <-]);
        mkVariant (pair_codec (be 16) u16) (λ p, SockV6 (fst p) (snd p) 0)
          (λ a, match a with SockV6 ip port 0 => Some (ip, port) | _ => None end)
          ltac:(by intros [|ip port [|?|?]] fields [= <-])].

Definition drop_scope (a : SocketAddr) : SocketAddr :=
  match a with SockV4 _ _ => a | SockV6 ip port _ => SockV6 ip port 0 end.

(** An address as the model has it, its text. *)
Definition addr_text : codec string.
Proof.
  refine (mkCodec
    (λ s, a ← parse_socket_addr s;
          if str_eqb (display_socket_addr a) s then enc addr (drop_scope a) else None)
    (λ bs, '(a, rest) ← dec addr bs; Some (display_socket_addr a, rest))
    (λ s, scoped s = false) _).
  intros s bs rest He Hg. unfold scoped in Hg. destruct (parse_socket_addr s) as [a|]; [|done]. simpl in He.
  destruct (str_eqb _ s) eqn:Hs; [|done]. apply str_eqb_eq in Hs.
  assert (drop_scope a = a) as Ha.
  { destruct a as [|ip port scope]; [done|]. simpl. apply negb_false_iff, Z.eqb_eq in Hg. by subst. }
  rewrite Ha in He. rewrite (dec_enc addr a bs rest He); [simpl; by rewrite Hs|].
  destruct a as [|ip port []]; simpl; done.
Defined.

(** ** Replication messages *)

Definition node_id : codec NodeId := via str node_str mkNodeId ltac:(by intros []).

Definition timestamp : codec HLCTimestamp :=
  via (pair_codec (pair_codec u64 u32) u32) (λ t, (wall_time t, ts_counter t, node_hash t))
    (λ '(w, c, h), mkHlc w c h) ltac:(by intros []).

(** A variant without fields. *)
Definition constant {A} (a : A) (same : A → bool) (His : ∀ a', same a' = true → a = a') : variant A.
Proof.
  refine (mkVariant unit_codec (λ _, a) (λ a', if same a' then Some tt else None) _).
  intros a' p. destruct (same a') eqn:Hi; [|done]. intros _. by apply His.
Defined.

Definition change_kind : codec ChangeKind :=
  enum [constant KInsert (λ k, match k with KInsert => true | _ => false end) ltac:(by intros []);
        constant KUpdate (λ k, match k with KUpdate => true | _ => false end) ltac:(by intros []);
        constant KDelete (λ k, match k with KDelete => true | _ => false end) ltac:(by intros [])].

Definition change : codec Change :=
  via (pair_codec (pair_codec (pair_codec (pair_codec (pair_codec (pair_codec u64 str) str) change_kind) str) timestamp) node_id)
    (λ c, (ch_id c, ch_table c, ch_pk c, ch_kind c, ch_data c, ch_timestamp c, ch_origin c))
    (λ '(i, t, p, k, d, ts, o), mkChange i t p k d ts o) ltac:(by intros []).

Lemma change_nonempty : nonempty change.
Proof. apply via_nonempty. do 6 apply pair_nonempty. apply uint_nonempty. Qed.

Definition changes : codec (list Change) := vec change change_nonempty.

Definition changeset : codec ChangeSet :=
  via (pair_codec (pair_codec (pair_codec node_id u64) changes) u32)
    (λ cs, (cs_source cs, cs_seq cs, cs_changes cs, cs_checksum cs))
    (λ '(s, q, l, k), mkChangeSet s q l k) ltac:(by intros []).

Lemma changeset_nonempty : nonempty changeset.
Proof. apply via_nonempty. do 3 apply pair_nonempty. apply via_nonempty, str_nonempty. Qed.

Definition message : codec Message :=
  enum [mkVariant changeset MBroadcast (λ m, match m with MBroadcast cs => Some cs | _ => None end)
          ltac:(by intros [] p [= <-]);
        mkVariant (pair_codec u64 (option_codec str)) (λ p, MSyncRequest (fst p) (snd p))
          (λ m, match m with MSyncRequest q t => Some (q, t) | _ => None end) ltac:(by intros [] p [= <-]);
        mkVariant (vec changeset changeset_nonempty) MSyncResponse
          (λ m, match m with MSyncResponse l => Some l | _ => None end) ltac:(by intros [] p [= <-]);
        mkVariant (pair_codec node_id u64) (λ p, MAck (fst p) (snd p))
          (λ m, match m with MAck s q => Some (s, q) | _ => None end) ltac:(by intros [] p [= <-]);
        constant MPing (λ m, match m with MPing => true | _ => false end) ltac:(by intros []);
        constant MPong (λ m, match m with MPong => true | _ => false end) ltac:(by intros [])].

Lemma change_good c : good change c.
Proof. destruct c as [? ? ? [] ? ? ?]; simpl; by repeat split. Qed.

Lemma changes_good l : Forall (good change) l.
Proof. apply Forall_forall. intros c _. apply change_good. Qed.

Lemma changeset_good cs : good changeset cs.
Proof. simpl. repeat split. apply changes_good. Qed.

Lemma message_good m : good message m.
Proof.
  destruct m as [cs|q [t|]|l|s q| |]; simpl; try by repeat split.
  - repeat split. apply changes_good.
  - apply Forall_forall. intros cs _. apply changeset_good.
Qed.

(** ** Gossip messages *)

Lemma addr_text_nonempty : nonempty addr_text.
Proof.
  intros s. unfold addr_text. cbn [enc]. destruct (parse_socket_addr s) as [a|]; [|done].
  cbn [mbind option_bind]. destruct (str_eqb _ s); [|done]. exact (enum_nonempty _ _).
Qed.

(** Name, gossip address, transport address. *)
Definition identity : codec (string * string * string) := pair_codec (pair_codec str addr_text) addr_text.
Definition described : codec (string * string * string * Z) := pair_codec identity u64.

Lemma described_nonempty : nonempty described.
Proof. do 3 apply pair_nonempty. apply str_nonempty. Qed.

Definition gossip_message : codec GossipMessage :=
  enum [mkVariant described (λ '(i, g, t, n), GPing i g t n)
          (λ m, match m with GPing i g t n => Some (i, g, t, n) | _ => None end) ltac:(by intros [] p [= <-]);
        mkVariant described (λ '(i, g, t, n), GAck i g t n)
          (λ m, match m with GAck i g t n => Some (i, g, t, n) | _ => None end) ltac:(by intros [] p [= <-]);
        mkVariant identity (λ '(i, g, t), GJoin i g t)
          (λ m, match m with GJoin i g t => Some (i, g, t) | _ => None end) ltac:(by intros [] p [= <-]);
        mkVariant (vec described described_nonempty) GMemberList
          (λ m, match m with GMemberList l => Some l | _ => None end) ltac:(by intros [] p [= <-])].

Lemma gossip_message_good m : unscoped_message m → good gossip_message m.
Proof.
  unfold unscoped_message. destruct m as [i g t n|i g t n|i g t|l]; simpl;
    try (intros Ha; apply Forall_cons in Ha as [? Ha]; apply Forall_cons in Ha as [? _]; by repeat split).
  rewrite Forall_concat, Forall_fmap. intros Hl. apply (Forall_impl _ _ _ Hl). intros [[[i g] t] n] Ha. simpl in *.
  apply Forall_cons in Ha as [? Ha]. apply Forall_cons in Ha as [? _]. by repeat split.
Qed.

(** ** CRC-32

    Polynomial [0xEDB88320], a bit at a time. *)
Definition crc_bit (c : Z) : Z :=
  if Z.testbit c 0 then Z.lxor (Z.shiftr c 1) 3988292384 else Z.shiftr c 1.
Definition crc_byte (c : Z) (b : ascii) : Z := Nat.iter 8 crc_bit (Z.lxor c (byte_value b)).
Definition crc32_ieee (s : string) : Z :=
  Z.lxor (foldl crc_byte 4294967295 (String.list_ascii_of_string s)) 4294967295.

(** The check value of the standard. *)
Example crc32_check : crc32_ieee "123456789" = 3421780262.
Proof. vm_compute. reflexivity. Qed.

(** ** The classes *)

Definition bincode_error {A} : result A string := Err "io error: unexpected end of file".

Definition encode_text {A} (c : codec A) (a : A) : result string string :=
  match enc c a with Some bs => Ok (String.string_of_list_ascii bs) | None => Err "not encodable" end.
Definition decode_text {A} (c : codec A) (s : string) : result A string :=
  match dec c (String.list_ascii_of_string s) with Some (a, _) => Ok a | None => bincode_error end.

Lemma decode_encode_text {A} (c : codec A) a s : good c a → encode_text c a = Ok s → decode_text c s = Ok a.
Proof.
  unfold encode_text, decode_text. intros Hg He. destruct (enc c a) as [bs|] eqn:H1; [|done]. injection He as <-.
  rewrite String.list_ascii_of_string_of_list_ascii, <-(app_nil_r bs). by rewrite (dec_enc c a bs [] H1 Hg).
Qed.

#[export] Instance bincode_digests : Digests := {| crc32 := crc32_ieee; serialize_changes := encode_text changes |}.

#[export] Instance bincode_gossip : GossipCodec := {|
  gossip_serialize := encode_text gossip_message;
  gossip_deserialize := decode_text gossip_message
|}.

#[export] Instance bincode_gossip_laws : GossipCodecLaws.
Proof. split. intros m data Hm. apply decode_encode_text. by apply gossip_message_good. Qed.

(** The transport's bytes are numbers. *)
#[export] Instance bincode_wire : WireCodec := {|
  wire_serialize m := match enc message m with Some bs => Ok (byte_value <$> bs) | None => Err "not encodable" end;
  wire_deserialize bs := match dec message ((λ b, ascii_of_N (Z.to_N b)) <$> bs) with
                         | Some (m, _) => Ok m | None => bincode_error end
|}.

#[export] Instance bincode_wire_laws : WireCodecLaws.
Proof.
  split. intros m data He. cbn [wire_serialize wire_deserialize bincode_wire] in *. destruct (enc message m) as [bs|] eqn:H1; [|done]. injection He as <-.
  assert ((λ b, ascii_of_N (Z.to_N b)) <$> (byte_value <$> bs) = bs) as ->.
  { clear H1. induction bs as [|b bs IH]; [done|]. rewrite !fmap_cons, IH. f_equal.
    unfold byte_value. by rewrite N2Z.id, ascii_N_embedding. }
  pose proof (dec_enc message m bs [] H1 (message_good m)) as Hd. rewrite app_nil_r in Hd. by rewrite Hd.
Qed.

(** ** The format on examples, and what it does to the program *)

Example ping_bytes : wire_serialize MPing = Ok [4; 0; 0; 0].
Proof. vm_compute. reflexivity. Qed.

Example ack_bytes :
  wire_serialize (MAck (mkNodeId "eu") 258) = Ok [3; 0; 0; 0; 2; 0; 0; 0; 0; 0; 0; 0; 101; 117; 2; 1; 0; 0; 0; 0; 0; 0].
Proof. vm_compute. reflexivity. Qed.

(** What the transport sends is read back, up to its limit of 10 MiB. *)
Lemma bincode_framed msg stream data tail :
  wire_serialize msg = Ok data → Z.of_nat (length data) <= MAX_MESSAGE → encode_message msg = Ok stream →
  read_stream (stream ++ tail) = Some msg.
Proof.
  intros Hser Hlen Henc. unfold MAX_MESSAGE in *.
  rewrite (read_stream_encoded msg stream data tail Hser) by (lia || done). by rewrite (proj2 (Z.leb_le _ _)).
Qed.

(** A node whose gossip address has a scope is known to others by another address. *)
Lemma scope_lost :
  match gossip_serialize (GJoin "node-1" "[fe80::1%3]:4001" "0.0.0.0:4002") with
  | Ok data => gossip_deserialize data
  | Err e => Err e
  end = Ok (GJoin "node-1" "[fe80::1]:4001" "0.0.0.0:4002").
Proof. vm_compute. reflexivity. Qed.
