(* ===== verification/TestKit.v ===== *)
(** * Unit tests on the model

    The crate's own unit tests ([mod tests] of its files) are programs over the same
    operations that this library models.  The files [DomainTests], [ProxyTests],
    [StoreTests], [AdapterTests], [ResilienceTests], [PoolTests], [HealthTests],
    [LifecycleTests], [ReplicationTests], [GossipTests], [TransportTests],
    [AgentTests], [ApiTests], [DnsTests] and [ServerTests] translate them: a test
    function is a [bool], the conjunction of its assertions, over the model's
    definitions; where a test reads the clock or sleeps, its readings are numbers
    that fit, and messages are encoded by [Bincode].  Each test module ends with the
    evaluation of all its tests: none fails.  This checks the translation of the code
    against what its authors expect of it; the theorems of the other files do not use
    it.

    Left out are tests of [Debug], of [Clone] and of JSON serialisation, of the hand-over
    of an event receiver, of what the GeoLite2 database contains, and those whose
    outcome real sockets or racing threads leave open. *)

From S2P Require Import Prelude.

(** [assert_eq!], [assert_ne!]. *)
Definition assert_eq `{EqDecision A} (a b : A) : bool := bool_decide (a = b).
Definition assert_ne `{EqDecision A} (a b : A) : bool := negb (assert_eq a b).

(** [assert!(x.is_some())], [assert!(x.is_none())]. *)
Definition assert_some {A} (x : option A) : bool := match x with Some _ => true | None => false end.
Definition assert_none {A} (x : option A) : bool := negb (assert_some x).

(** A test on one object is a list of statements: calls that change it, assertions
    about it, and assertions about what a call returns. *)
Definition stmt (S : Type) : Type := S → S * bool.

Definition call {S} (f : S → S) : stmt S := fun s => (f s, true).
Definition asserts {S} (p : S → bool) : stmt S := fun s => (s, p s).
Definition returns {S} (f : S → S * bool) (expected : bool) : stmt S :=
  fun s => let '(s', b) := f s in (s', eqb b expected).

Definition run_test {S} (object : S) (body : list (stmt S)) : bool :=
  snd (foldl (fun acc st => let '(s', b) := st (fst acc) in (s', snd acc && b)) (object, true) body).

(** The names of the tests that fail. *)
Definition failing (tests : list (string * bool)) : list string :=
  fst <$> filter (fun t => snd t = false) tests.

(** Tests with no failure all hold. *)
Lemma failing_none tests : failing tests = [] ↔ ∀ name, (name, false) ∉ tests.
Proof.
  unfold failing. split.
  - intros Hf name Hin.
    assert (name ∈ fst <$> filter (fun t : string * bool => snd t = false) tests) as Hn.
    { apply list_elem_of_fmap. exists (name, false). split; [done|]. by apply list_elem_of_filter. }
    rewrite Hf in Hn. by apply elem_of_nil in Hn.
  - intros Hall. destruct (fst <$> filter _ _) as [|n l] eqn:E; [done|].
    assert (n ∈ fst <$> filter (fun t : string * bool => snd t = false) tests) as Hn by (rewrite E; by left).
    apply list_elem_of_fmap in Hn as ([n' b] & -> & [Hb Hin]%list_elem_of_filter). simpl in Hb. subst b.
    by destruct (Hall n').
Qed.

(** Runs all tests of a module. *)
Ltac run_tests := vm_compute; reflexivity.
