(* ===== verification/DomainTests.v ===== *)
(** * Tests of the domain layer

    The test modules of [src/src/domain/value_objects.rs], [entities.rs] and
    [services/load_balancer.rs]. *)

From S2P Require Import Prelude Text Float64 Domain NetAddr LoadBalancer TestKit.

Module ValueObjects.
Definition all_from_str (cases : list (string * RegionCode)) : bool :=
  forallb (fun c => assert_eq (region_from_str (fst c)) (snd c)) cases.

Definition all_from_country (region : RegionCode) (countries : list string) : bool :=
  forallb (fun c => assert_eq (region_from_country c) region) countries.

Definition all_regions : list RegionCode := [SouthAmerica; NorthAmerica; Europe; AsiaPacific].

Definition test_region_from_str_lowercase : bool :=
  all_from_str [("sa", SouthAmerica); ("us", NorthAmerica); ("eu", Europe); ("ap", AsiaPacific)].

Definition test_region_from_str_uppercase : bool :=
  all_from_str [("SA", SouthAmerica); ("US", NorthAmerica); ("EU", Europe); ("AP", AsiaPacific)].

Definition test_region_from_str_mixed_case : bool :=
  all_from_str [("Sa", SouthAmerica); ("Us", NorthAmerica); ("Eu", Europe); ("Ap", AsiaPacific)].

Definition test_region_from_str_fallback : bool :=
  all_from_str ((fun s => (s, NorthAmerica)) <$> ["invalid"; "xx"; ""; "north"; "south"; "asia"]).

Definition test_region_from_country_south_america : bool :=
  all_from_country SouthAmerica ["BR"; "AR"; "CL"; "PE"; "CO"; "UY"; "PY"; "BO"; "EC"; "VE"].

Definition test_region_from_country_north_america : bool :=
  all_from_country NorthAmerica ["US"; "CA"; "MX"].

Definition test_region_from_country_europe : bool :=
  all_from_country Europe
    ["PT"; "ES"; "FR"; "DE"; "NL"; "IT"; "GB"; "IE"; "BE"; "CH"; "AT"; "PL"; "CZ"; "SE";
     "NO"; "DK"; "FI"; "RU"; "UA"].

Definition test_region_from_country_asia_pacific : bool :=
  all_from_country AsiaPacific
    ["JP"; "KR"; "TW"; "HK"; "SG"; "MY"; "TH"; "VN"; "ID"; "PH"; "AU"; "NZ"; "CN"; "IN"].

Definition test_region_from_country_lowercase : bool :=
  assert_eq (region_from_country "br") SouthAmerica && assert_eq (region_from_country "us") NorthAmerica &&
  assert_eq (region_from_country "fr") Europe && assert_eq (region_from_country "jp") AsiaPacific.

Definition test_region_from_country_unknown_fallback : bool :=
  all_from_country NorthAmerica ["XX"; "ZZ"; "??"; ""].

Definition test_region_as_str : bool :=
  assert_eq (region_as_str <$> all_regions) ["sa"; "us"; "eu"; "ap"].

Definition test_region_default : bool := assert_eq region_default NorthAmerica.

Definition test_region_equality : bool :=
  assert_eq SouthAmerica SouthAmerica && assert_ne SouthAmerica NorthAmerica.

Definition test_region_default_country : bool :=
  assert_eq (default_country <$> all_regions) ["BR"; "US"; "DE"; "JP"].

Definition test_region_roundtrip : bool :=
  forallb (fun region => assert_eq (region_from_str (region_as_str region)) region) all_regions.

Example value_objects_tests :
  failing
    [("region_from_str_lowercase", test_region_from_str_lowercase);
     ("region_from_str_uppercase", test_region_from_str_uppercase);
     ("region_from_str_mixed_case", test_region_from_str_mixed_case);
     ("region_from_str_fallback", test_region_from_str_fallback);
     ("region_from_country_south_america", test_region_from_country_south_america);
     ("region_from_country_north_america", test_region_from_country_north_america);
     ("region_from_country_europe", test_region_from_country_europe);
     ("region_from_country_asia_pacific", test_region_from_country_asia_pacific);
     ("region_from_country_lowercase", test_region_from_country_lowercase);
     ("region_from_country_unknown_fallback", test_region_from_country_unknown_fallback);
     ("region_as_str", test_region_as_str);
     ("region_default", test_region_default);
     ("region_equality", test_region_equality);
     ("region_default_country", test_region_default_country);
     ("region_roundtrip", test_region_roundtrip)] = [].
Proof. run_tests. Qed.
End ValueObjects.

Module Entities.
(** [Ipv4Addr::new]. *)
Definition ipv4 (a b c d : Z) : IpAddr := V4 (((a * 256 + b) * 256 + c) * 256 + d).

Definition test_client_key_equality_ipv4 : bool :=
  let key1 := mkClientKey (ipv4 192 168 1 1) in
  let key2 := mkClientKey (ipv4 192 168 1 1) in
  let key3 := mkClientKey (ipv4 192 168 1 2) in
  assert_eq key1 key2 && assert_ne key1 key3.

Definition test_client_key_equality_ipv6 : bool :=
  let key1 := mkClientKey (V6 1) in
  let key2 := mkClientKey (V6 1) in
  let key3 := mkClientKey (V6 2) in
  assert_eq key1 key2 && assert_ne key1 key3.

Definition test_client_key_hash_consistency : bool :=
  let key1 := mkClientKey (ipv4 10 0 0 1) in
  let key2 := mkClientKey (ipv4 10 0 0 1) in
  let set : gset ClientKey := {[ key1 ]} in
  bool_decide (key2 ∈ set).

Definition test_client_key_ipv4_vs_ipv6 : bool :=
  assert_ne (mkClientKey (ipv4 127 0 0 1)) (mkClientKey (V6 1)).

Definition test_binding_new : bool :=
  let binding := binding_new 5 "backend-1" in
  assert_eq (bd_backend_id binding) "backend-1" && (bd_created_at binding <=? 5) && (bd_last_seen binding <=? 5).

Definition test_binding_created_at_equals_last_seen_on_new : bool :=
  let binding := binding_new 5 "backend-1" in
  assert_eq (bd_created_at binding) (bd_last_seen binding).

Definition test_binding_touch_updates_last_seen : bool :=
  let binding := binding_new 5 "backend-1" in
  let initial_seen := bd_last_seen binding in
  let binding := binding_touch (5 + from_millis 10) binding in
  initial_seen <? bd_last_seen binding.

Definition test_binding_touch_does_not_update_created_at : bool :=
  let binding := binding_new 5 "backend-1" in
  let initial_created := bd_created_at binding in
  let binding := binding_touch (5 + from_millis 10) binding in
  assert_eq (bd_created_at binding) initial_created.

Definition test_geo_info_new : bool :=
  let geo := mkGeoInfo "BR" SouthAmerica in
  assert_eq (geo_country geo) "BR" && assert_eq (geo_region geo) SouthAmerica.

Definition test_backend_struct_fields : bool :=
  let backend := mkBackend "fly-gru-1" "myapp" SouthAmerica "BR" "10.50.1.1" 8080 true 5 100 200 in
  assert_eq (be_id backend) "fly-gru-1" && assert_eq (be_app backend) "myapp" &&
  assert_eq (be_region backend) SouthAmerica && assert_eq (be_country backend) "BR" &&
  assert_eq (be_wg_ip backend) "10.50.1.1" && assert_eq (be_port backend) 8080 && be_healthy backend &&
  assert_eq (be_weight backend) 5 && assert_eq (be_soft_limit backend) 100 && assert_eq (be_hard_limit backend) 200.

Example entities_tests :
  failing
    [("client_key_equality_ipv4", test_client_key_equality_ipv4);
     ("client_key_equality_ipv6", test_client_key_equality_ipv6);
     ("client_key_hash_consistency", test_client_key_hash_consistency);
     ("client_key_ipv4_vs_ipv6", test_client_key_ipv4_vs_ipv6);
     ("binding_new", test_binding_new);
     ("binding_created_at_equals_last_seen_on_new", test_binding_created_at_equals_last_seen_on_new);
     ("binding_touch_updates_last_seen", test_binding_touch_updates_last_seen);
     ("binding_touch_does_not_update_created_at", test_binding_touch_does_not_update_created_at);
     ("geo_info_new", test_geo_info_new);
     ("backend_struct_fields", test_backend_struct_fields)] = [].
Proof. run_tests. Qed.
End Entities.

Module LoadBalancers.
Definition create_backend (id region country : string) (healthy : bool) : Backend :=
  mkBackend id "test" (region_from_str region) country "10.0.0.1" 8080 healthy 1 100 200.

Definition create_backend_with_limits (id region country : string) (weight soft_limit hard_limit : Z) : Backend :=
  mkBackend id "test" (region_from_str region) country "10.0.0.1" 8080 true weight soft_limit hard_limit.

(** [backend.weight = w] and so on. *)
Definition with_limits (f : Z * Z * Z → Z * Z * Z) (b : Backend) : Backend :=
  let '(weight, soft, hard) := f (be_weight b, be_soft_limit b, be_hard_limit b) in
  mkBackend (be_id b) (be_app b) (be_region b) (be_country b) (be_wg_ip b) (be_port b) (be_healthy b) weight soft hard.
Definition with_weight (w : Z) : Backend → Backend := with_limits (fun l => (w, snd (fst l), snd l)).
Definition with_soft_limit (s : Z) : Backend → Backend := with_limits (fun l => (fst (fst l), s, snd l)).
Definition with_hard_limit (h : Z) : Backend → Backend := with_limits (fun l => (fst l, h)).

(** [scores.iter().find(|(id, _)| id == ..)]. *)
Definition score_of_id (id : string) (scores : list (string * f64)) : option f64 :=
  snd <$> List.find (fun s => str_eqb (fst s) id) scores.

Definition test_pick_backend_same_country_priority : bool :=
  let result := pick_backend [create_backend "br-1" "sa" "BR" true; create_backend "ar-1" "sa" "AR" true;
      create_backend "us-1" "us" "US" true]
    NorthAmerica (Some (mkGeoInfo "BR" SouthAmerica)) (fun _ => 0) in
  assert_some result && assert_eq (be_id <$> result) (Some "br-1").

Definition test_pick_backend_same_region_when_no_country_match : bool :=
  let result := pick_backend [create_backend "ar-1" "sa" "AR" true; create_backend "cl-1" "sa" "CL" true;
      create_backend "us-1" "us" "US" true]
    NorthAmerica (Some (mkGeoInfo "BR" SouthAmerica)) (fun _ => 0) in
  (assert_eq (be_id <$> result) (Some "ar-1") || assert_eq (be_id <$> result) (Some "cl-1")).

Definition test_pick_backend_local_region_fallback : bool :=
  let result := pick_backend [create_backend "sa-1" "sa" "BR" true; create_backend "us-1" "us" "US" true]
    NorthAmerica None (fun _ => 0) in
  assert_some result && assert_eq (be_id <$> result) (Some "us-1").

Definition test_pick_backend_global_fallback : bool :=
  let result := pick_backend [create_backend "jp-1" "ap" "JP" true]
    NorthAmerica (Some (mkGeoInfo "BR" SouthAmerica)) (fun _ => 0) in
  assert_some result && assert_eq (be_id <$> result) (Some "jp-1").

Definition test_pick_backend_respects_hard_limit : bool :=
  let result := pick_backend [create_backend "br-1" "sa" "BR" true; create_backend "us-1" "us" "US" true]
    NorthAmerica (Some (mkGeoInfo "BR" SouthAmerica)) (fun id => if str_eqb id "br-1" then 200 else 0) in
  assert_some result && assert_eq (be_id <$> result) (Some "us-1").

Definition test_pick_backend_all_at_hard_limit : bool :=
  let result := pick_backend [create_backend "br-1" "sa" "BR" true; create_backend "us-1" "us" "US" true]
    SouthAmerica None (fun _ => 200) in
  assert_none result.

Definition test_pick_backend_zero_hard_limit_means_unlimited : bool :=
  let result := pick_backend [with_hard_limit 0 (create_backend "br-1" "sa" "BR" true)]
    SouthAmerica None (fun _ => 1000) in
  assert_some result.

Definition test_pick_backend_skips_unhealthy : bool :=
  let result := pick_backend [create_backend "br-1" "sa" "BR" false; create_backend "us-1" "us" "US" true]
    NorthAmerica (Some (mkGeoInfo "BR" SouthAmerica)) (fun _ => 0) in
  assert_some result && assert_eq (be_id <$> result) (Some "us-1").

Definition test_pick_backend_all_unhealthy : bool :=
  let result := pick_backend [create_backend "br-1" "sa" "BR" false; create_backend "us-1" "us" "US" false]
    SouthAmerica None (fun _ => 0) in
  assert_none result.

Definition test_pick_backend_prefers_lower_load : bool :=
  let result := pick_backend [create_backend_with_limits "br-1" "sa" "BR" 1 100 200;
      create_backend_with_limits "br-2" "sa" "BR" 1 100 200]
    SouthAmerica (Some (mkGeoInfo "BR" SouthAmerica)) (fun id => if str_eqb id "br-1" then 50 else 10) in
  assert_some result && assert_eq (be_id <$> result) (Some "br-2").

Definition test_pick_backend_weight_affects_preference : bool :=
  let result := pick_backend [create_backend_with_limits "br-1" "sa" "BR" 1 100 200;
      create_backend_with_limits "br-2" "sa" "BR" 3 100 200]
    SouthAmerica (Some (mkGeoInfo "BR" SouthAmerica)) (fun _ => 50) in
  assert_some result && assert_eq (be_id <$> result) (Some "br-2").

Definition test_pick_backend_zero_weight_treated_as_one : bool :=
  let result := pick_backend [with_weight 0 (create_backend "br-1" "sa" "BR" true)]
    SouthAmerica None (fun _ => 50) in
  assert_some result.

Definition test_pick_backend_zero_soft_limit_treated_as_one : bool :=
  let result := pick_backend [with_soft_limit 0 (create_backend "br-1" "sa" "BR" true)]
    SouthAmerica None (fun _ => 0) in
  assert_some result.

Definition test_pick_backend_no_backends : bool :=
  let result := pick_backend []
    SouthAmerica (Some (mkGeoInfo "BR" SouthAmerica)) (fun _ => 0) in
  assert_none result.

Definition test_pick_backend_single_backend : bool :=
  let result := pick_backend [create_backend "only-1" "ap" "JP" true]
    SouthAmerica None (fun _ => 0) in
  assert_some result && assert_eq (be_id <$> result) (Some "only-1").

Definition test_pick_backend_no_client_geo : bool :=
  let result := pick_backend [create_backend "br-1" "sa" "BR" true; create_backend "us-1" "us" "US" true]
    SouthAmerica None (fun _ => 0) in
  assert_some result && assert_eq (be_id <$> result) (Some "br-1").

Definition test_geo_priority_over_load : bool :=
  let result := pick_backend [create_backend_with_limits "br-1" "sa" "BR" 1 100 200;
      create_backend_with_limits "us-1" "us" "US" 1 100 200]
    NorthAmerica (Some (mkGeoInfo "BR" SouthAmerica)) (fun id => if str_eqb id "br-1" then 90 else 0) in
  assert_some result && assert_eq (be_id <$> result) (Some "br-1").

Definition test_calculate_all_scores : bool :=
  let scores := calculate_all_scores [create_backend "br-1" "sa" "BR" true; create_backend "us-1" "us" "US" true;
      create_backend "jp-1" "ap" "JP" false]
    NorthAmerica (Some (mkGeoInfo "BR" SouthAmerica)) (fun _ => 0) in
  assert_eq (length scores) 2%nat &&
  match score_of_id "br-1" scores, score_of_id "us-1" scores with
  | Some br_score, Some us_score => f64_ltb br_score us_score
  | _, _ => false
  end.

Definition test_calculate_all_scores_empty_backends : bool :=
  let scores := calculate_all_scores []
    SouthAmerica None (fun _ => 0) in
  assert_eq (length scores) 0%nat.

Definition test_calculate_all_scores_with_zero_weight : bool :=
  let scores := calculate_all_scores [with_weight 0 (create_backend "br-1" "sa" "BR" true)]
    SouthAmerica None (fun _ => 50) in
  assert_eq (length scores) 1%nat && assert_eq (fst <$> head scores) (Some "br-1").

Definition test_calculate_all_scores_with_zero_soft_limit : bool :=
  let scores := calculate_all_scores [with_soft_limit 0 (create_backend "br-1" "sa" "BR" true)]
    SouthAmerica None (fun _ => 0) in
  assert_eq (length scores) 1%nat && assert_eq (fst <$> head scores) (Some "br-1").

Definition test_calculate_all_scores_with_client_geo : bool :=
  let scores := calculate_all_scores [create_backend "br-1" "sa" "BR" true; create_backend "ar-1" "sa" "AR" true;
      create_backend "jp-1" "ap" "JP" true]
    Europe (Some (mkGeoInfo "BR" SouthAmerica)) (fun _ => 0) in
  assert_eq (length scores) 3%nat &&
  match score_of_id "br-1" scores, score_of_id "ar-1" scores, score_of_id "jp-1" scores with
  | Some br_score, Some ar_score, Some jp_score =>
      f64_ltb br_score (f64_of_Z 100) &&
      (f64_leb (f64_of_Z 100) ar_score && f64_ltb ar_score (f64_of_Z 200)) && f64_leb (f64_of_Z 300) jp_score
  | _, _, _ => false
  end.

Definition test_calculate_all_scores_local_region_fallback : bool :=
  let scores := calculate_all_scores [create_backend "eu-1" "eu" "DE" true; create_backend "jp-1" "ap" "JP" true]
    Europe None (fun _ => 0) in
  assert_eq (length scores) 2%nat &&
  match score_of_id "eu-1" scores, score_of_id "jp-1" scores with
  | Some eu_score, Some jp_score =>
      (f64_leb (f64_of_Z 200) eu_score && f64_ltb eu_score (f64_of_Z 300)) && f64_leb (f64_of_Z 300) jp_score
  | _, _ => false
  end.

Definition test_pick_backend_keeps_best_when_second_is_worse : bool :=
  let result := pick_backend [create_backend "br-1" "sa" "BR" true; create_backend "jp-1" "ap" "JP" true]
    Europe (Some (mkGeoInfo "BR" SouthAmerica)) (fun _ => 0) in
  assert_some result && assert_eq (be_id <$> result) (Some "br-1").

Definition test_pick_backend_multiple_same_score : bool :=
  let result := pick_backend [create_backend "br-1" "sa" "BR" true; create_backend "br-2" "sa" "BR" true;
      create_backend "br-3" "sa" "BR" true]
    SouthAmerica (Some (mkGeoInfo "BR" SouthAmerica)) (fun _ => 0) in
  assert_some result && assert_eq (be_id <$> result) (Some "br-1").

Example load_balancer_tests :
  failing
    [("pick_backend_same_country_priority", test_pick_backend_same_country_priority);
     ("pick_backend_same_region_when_no_country_match", test_pick_backend_same_region_when_no_country_match);
     ("pick_backend_local_region_fallback", test_pick_backend_local_region_fallback);
     ("pick_backend_global_fallback", test_pick_backend_global_fallback);
     ("pick_backend_respects_hard_limit", test_pick_backend_respects_hard_limit);
     ("pick_backend_all_at_hard_limit", test_pick_backend_all_at_hard_limit);
     ("pick_backend_zero_hard_limit_means_unlimited", test_pick_backend_zero_hard_limit_means_unlimited);
     ("pick_backend_skips_unhealthy", test_pick_backend_skips_unhealthy);
     ("pick_backend_all_unhealthy", test_pick_backend_all_unhealthy);
     ("pick_backend_prefers_lower_load", test_pick_backend_prefers_lower_load);
     ("pick_backend_weight_affects_preference", test_pick_backend_weight_affects_preference);
     ("pick_backend_zero_weight_treated_as_one", test_pick_backend_zero_weight_treated_as_one);
     ("pick_backend_zero_soft_limit_treated_as_one", test_pick_backend_zero_soft_limit_treated_as_one);
     ("pick_backend_no_backends", test_pick_backend_no_backends);
     ("pick_backend_single_backend", test_pick_backend_single_backend);
     ("pick_backend_no_client_geo", test_pick_backend_no_client_geo);
     ("geo_priority_over_load", test_geo_priority_over_load);
     ("calculate_all_scores", test_calculate_all_scores);
     ("calculate_all_scores_empty_backends", test_calculate_all_scores_empty_backends);
     ("calculate_all_scores_with_zero_weight", test_calculate_all_scores_with_zero_weight);
     ("calculate_all_scores_with_zero_soft_limit", test_calculate_all_scores_with_zero_soft_limit);
     ("calculate_all_scores_with_client_geo", test_calculate_all_scores_with_client_geo);
     ("calculate_all_scores_local_region_fallback", test_calculate_all_scores_local_region_fallback);
     ("pick_backend_keeps_best_when_second_is_worse", test_pick_backend_keeps_best_when_second_is_worse);
     ("pick_backend_multiple_same_score", test_pick_backend_multiple_same_score)] = [].
Proof. run_tests. Qed.
End LoadBalancers.
