(* ===== verification/ProxyTests.v ===== *)
(** * Tests of the proxy service

    The test module of [src/src/application/proxy_service.rs]: its mock repositories,
    which are further instances of the ports and keep their laws, so the theorems of
    [ProxyService] hold of the service in its tests as well; and its tests.  A mock is
    shared with the service through an [Arc]; the model passes it through the service. *)

From S2P Require Import Prelude Text Domain NetAddr Parse LoadBalancer Ports ProxyService TestKit.

(** ** Mock implementations *)

Record MockBackendRepo := mkMockBackendRepo { mock_backends : list Backend }.

#[export] Instance mock_backend_repository : BackendRepository MockBackendRepo := {|
  get_all r := mock_backends r;
  get_by_id r id := List.find (fun b => str_eqb (be_id b) id) (mock_backends r);
  get_healthy r := filter (fun b => be_healthy b = true) (mock_backends r);
  get_version r := 1
|}.

#[export] Instance mock_backend_laws : BackendRepositoryLaws MockBackendRepo.
Proof. by split. Qed.

Record MockBindingRepo := mkMockBindingRepo { mock_bindings : gmap IpAddr Binding }.

Definition mock_binding_new : MockBindingRepo := mkMockBindingRepo ∅.

Definition mock_binding_touch (now : instant) (r : MockBindingRepo) (key : ClientKey) : MockBindingRepo :=
  match mock_bindings r !! client_ip key with
  | Some b => mkMockBindingRepo
                (<[client_ip key := mkBinding (bd_backend_id b) (bd_created_at b) now]> (mock_bindings r))
  | None => r
  end.

(** The mock keeps what [retain] keeps, in one pass. *)
Definition mock_binding_cleanup (now : instant) (ttl : duration) (r : MockBindingRepo) : MockBindingRepo * Z :=
  let before := Z.of_nat (size (mock_bindings r)) in
  let bindings := filter (fun kb => (duration_since now (bd_last_seen (snd kb)) <=? ttl) = true) (mock_bindings r) in
  (mkMockBindingRepo bindings, before - Z.of_nat (size bindings)).

#[export] Instance mock_binding_repository : BindingRepository MockBindingRepo := {|
  binding_get r key := mock_bindings r !! client_ip key;
  binding_set r key b := mkMockBindingRepo (<[client_ip key := b]> (mock_bindings r));
  binding_remove r key := mkMockBindingRepo (delete (client_ip key) (mock_bindings r));
  binding_touch_key := mock_binding_touch;
  binding_cleanup_expired := mock_binding_cleanup;
  binding_count r := Z.of_nat (size (mock_bindings r))
|}.

Lemma client_ip_inj k k' : client_ip k = client_ip k' ↔ k = k'.
Proof. destruct k, k'. simpl. split; congruence. Qed.

#[export] Instance mock_binding_laws : BindingRepositoryLaws MockBindingRepo.
Proof.
  split; simpl.
  - intros r k b k'. rewrite lookup_insert. rewrite (decide_ext _ _ _ _ (client_ip_inj k k')). done.
  - intros r k k'. rewrite lookup_delete. rewrite (decide_ext _ _ _ _ (client_ip_inj k k')). done.
  - intros now r k k'. unfold mock_binding_touch.
    destruct (mock_bindings r !! client_ip k) as [b|] eqn:Hk; simpl.
    + rewrite lookup_insert, (decide_ext _ _ _ _ (client_ip_inj k k')).
      case_decide as Heq; [subst; by rewrite Hk|done].
    + case_decide as Heq; [subst; by rewrite Hk|done].
  - intros now ttl r k. rewrite map_lookup_filter. unfold binding_expired.
    destruct (mock_bindings r !! client_ip k) as [b|]; simpl; [|done].
    rewrite Z.ltb_antisym. destruct (duration_since now (bd_last_seen b) <=? ttl); done.
Qed.

(** [usize] counts. *)
Record MockMetrics := mkMockMetrics { mock_counts : gmap string N; mock_rtts : gmap string Z }.

Definition mock_metrics_new : MockMetrics := mkMockMetrics ∅ ∅.

#[export] Instance mock_metrics_store : MetricsStore MockMetrics := {|
  get_connection_count m id := Z.of_N (default 0%N (mock_counts m !! id));
  increment_connections m id :=
    mkMockMetrics (<[id := Z.to_N (Z.of_N (default 0%N (mock_counts m !! id)) +u64 1)]> (mock_counts m)) (mock_rtts m);
  decrement_connections m id :=
    match mock_counts m !! id with
    | Some count => mkMockMetrics (<[id := (count - 1)%N]> (mock_counts m)) (mock_rtts m)
    | None => m
    end;
  record_rtt m id rtt_ms := mkMockMetrics (mock_counts m) (<[id := rtt_ms]> (mock_rtts m));
  get_last_rtt m id := mock_rtts m !! id
|}.

#[export] Instance mock_metrics_laws : MetricsStoreLaws MockMetrics.
Proof.
  split; simpl.
  - intros m id id'. rewrite lookup_insert. case_decide as Heq; [subst|done]. simpl.
    rewrite Z2N.id; [done|]. by apply wrap_range.
  - intros m id id'. destruct (mock_counts m !! id) as [c|] eqn:Hc; simpl.
    + rewrite lookup_insert. case_decide as Heq; [subst; rewrite Hc; simpl|done].
      destruct (Z.ltb_spec 0 (Z.of_N c)); lia.
    + case_decide as Heq; [subst; by rewrite Hc|done].
  - done.
  - intros m id ms. by rewrite lookup_insert_eq.
Qed.

Record MockGeoResolver := mkMockGeo { mock_geo_map : gmap IpAddr GeoInfo }.

Definition mock_geo_new : MockGeoResolver := mkMockGeo ∅.

Definition with_geo (g : MockGeoResolver) (ip : IpAddr) (country : string) (region : RegionCode) : MockGeoResolver :=
  mkMockGeo (<[ip := mkGeoInfo country region]> (mock_geo_map g)).

#[export] Instance mock_geo_resolver : GeoResolver MockGeoResolver := {|
  geo_resolve g ip := mock_geo_map g !! ip
|}.

(** ** Tests *)

#[local] Abbreviation test_service := (ProxyService MockBackendRepo MockBindingRepo MockMetrics MockGeoResolver).

Definition create_test_backend (id region country : string) : Backend :=
  mkBackend id "test" (region_from_str region) country "10.0.0.1" 8080 true 1 100 200.

Definition create_unhealthy_backend (id region country : string) : Backend :=
  set_healthy false (create_test_backend id region country).

(** [ProxyService::new] on a list of backends. *)
Definition service_new (backends : list Backend) (bindings : MockBindingRepo) (geo : option MockGeoResolver)
    (metrics : MockMetrics) (region : RegionCode) : test_service :=
  mkProxy (mkMockBackendRepo backends) bindings geo metrics region.

(** [binding_repo.set(ClientKey::new(client_ip), Binding::new(id))], at time 1. *)
Definition pre_bound (client : IpAddr) (id : string) : MockBindingRepo :=
  binding_set mock_binding_new (mkClientKey client) (binding_new 1 id).

Definition bound_id (s : test_service) (client : IpAddr) : option string :=
  bd_backend_id <$> binding_get (ps_binding_repo s) (mkClientKey client).

(** ["192.168.1.1".parse().unwrap()]; the calls of a test happen at times 2, 3, ... *)
Definition parse_ip (s : string) : IpAddr := default (V4 0) (parse_ip_addr s).
Definition test_client : IpAddr := parse_ip "192.168.1.1".
Definition br_geo : option GeoInfo := Some (mkGeoInfo "BR" SouthAmerica).

Definition test_resolve_backend_creates_binding : bool :=
  let service := service_new [create_test_backend "br-1" "sa" "BR"]
    mock_binding_new None mock_metrics_new SouthAmerica in
  let '(service, result) := resolve_backend 2 3 service test_client in
  assert_some result && assert_eq (be_id <$> result) (Some "br-1") &&
  assert_some (bound_id service test_client) && assert_eq (bound_id service test_client) (Some "br-1").

Definition test_resolve_backend_uses_existing_binding : bool :=
  let service := service_new [create_test_backend "br-1" "sa" "BR"; create_test_backend "br-2" "sa" "BR"]
    (pre_bound test_client "br-2") None mock_metrics_new SouthAmerica in
  let '(service, result) := resolve_backend 2 3 service test_client in
  assert_some result && assert_eq (be_id <$> result) (Some "br-2").

Definition test_resolve_backend_removes_stale_binding_for_unhealthy : bool :=
  let service := service_new [create_unhealthy_backend "br-1" "sa" "BR"; create_test_backend "br-2" "sa" "BR"]
    (pre_bound test_client "br-1") None mock_metrics_new SouthAmerica in
  let '(service, result) := resolve_backend 2 3 service test_client in
  assert_some result && assert_eq (be_id <$> result) (Some "br-2") && assert_eq (bound_id service test_client) (Some "br-2").

Definition test_resolve_backend_no_healthy_backends : bool :=
  let service := service_new [create_unhealthy_backend "br-1" "sa" "BR"; create_unhealthy_backend "br-2" "sa" "BR"]
    mock_binding_new None mock_metrics_new SouthAmerica in
  let '(service, result) := resolve_backend 2 3 service test_client in
  assert_none result.

Definition test_resolve_backend_empty_backends : bool :=
  let service := service_new []
    mock_binding_new None mock_metrics_new SouthAmerica in
  let '(service, result) := resolve_backend 2 3 service test_client in
  assert_none result.

Definition test_resolve_backend_with_geo : bool :=
  let service := service_new [create_test_backend "br-1" "sa" "BR"; create_test_backend "us-1" "us" "US"]
    mock_binding_new None mock_metrics_new NorthAmerica in
  let '(service, result) := resolve_backend_with_geo 2 3 service test_client br_geo in
  assert_some result && assert_eq (be_id <$> result) (Some "br-1").

Definition test_resolve_backend_with_geo_respects_existing_binding : bool :=
  let service := service_new [create_test_backend "br-1" "sa" "BR"; create_test_backend "us-1" "us" "US"]
    (pre_bound test_client "us-1") None mock_metrics_new NorthAmerica in
  let '(service, result) := resolve_backend_with_geo 2 3 service test_client br_geo in
  assert_some result && assert_eq (be_id <$> result) (Some "us-1").

Definition test_clear_binding : bool :=
  let service := service_new [create_test_backend "br-1" "sa" "BR"]
    (pre_bound test_client "br-1") None mock_metrics_new SouthAmerica in
  let service := clear_binding service test_client in
  assert_none (bound_id service test_client).

Definition test_resolve_geo_with_resolver : bool :=
  let service := service_new [create_test_backend "br-1" "sa" "BR"]
    mock_binding_new (Some (with_geo mock_geo_new test_client "FR" Europe)) mock_metrics_new SouthAmerica in
  let geo := resolve_geo service test_client in
  assert_some geo && assert_eq (geo_country <$> geo) (Some "FR").

Definition test_resolve_geo_without_resolver : bool :=
  let service := service_new [create_test_backend "br-1" "sa" "BR"]
    mock_binding_new None mock_metrics_new SouthAmerica in
  let geo := resolve_geo service test_client in
  assert_none geo.

Definition test_record_connection_start : bool :=
  let service := service_new [create_test_backend "br-1" "sa" "BR"]
    mock_binding_new None mock_metrics_new SouthAmerica in
  let service := record_connection_start service "br-1" in
  let service := record_connection_start service "br-1" in
  assert_eq (get_connection_count (ps_metrics service) "br-1") 2.

Definition test_record_connection_end : bool :=
  let service := service_new [create_test_backend "br-1" "sa" "BR"]
    mock_binding_new None mock_metrics_new SouthAmerica in
  let service := record_connection_start service "br-1" in
  let service := record_connection_start service "br-1" in
  let service := record_connection_end service "br-1" in
  assert_eq (get_connection_count (ps_metrics service) "br-1") 1.

Definition test_record_rtt : bool :=
  let service := service_new [create_test_backend "br-1" "sa" "BR"]
    mock_binding_new None mock_metrics_new SouthAmerica in
  let service := ps_record_rtt service "br-1" 42 in
  assert_eq (get_last_rtt (ps_metrics service) "br-1") (Some 42).

Definition test_get_connection_count : bool :=
  let metrics := increment_connections (increment_connections mock_metrics_new "br-1") "br-1" in
  let service := service_new [create_test_backend "br-1" "sa" "BR"]
    mock_binding_new None metrics SouthAmerica in
  assert_eq (ps_get_connection_count service "br-1") 2 && assert_eq (ps_get_connection_count service "nonexistent") 0.

Definition test_local_region : bool :=
  let service := service_new [create_test_backend "br-1" "sa" "BR"]
    mock_binding_new None mock_metrics_new Europe in
  assert_eq (ps_local_region service) Europe.

Definition test_resolve_backend_removes_stale_binding_for_missing : bool :=
  let service := service_new [create_test_backend "br-2" "sa" "BR"]
    (pre_bound test_client "deleted-backend") None mock_metrics_new SouthAmerica in
  let '(service, result) := resolve_backend 2 3 service test_client in
  assert_some result && assert_eq (be_id <$> result) (Some "br-2") && assert_eq (bound_id service test_client) (Some "br-2").

Definition test_resolve_backend_with_geo_removes_stale_for_unhealthy : bool :=
  let service := service_new [create_unhealthy_backend "br-1" "sa" "BR"; create_test_backend "br-2" "sa" "BR"]
    (pre_bound test_client "br-1") None mock_metrics_new SouthAmerica in
  let '(service, result) := resolve_backend_with_geo 2 3 service test_client br_geo in
  assert_some result && assert_eq (be_id <$> result) (Some "br-2").

Definition test_resolve_backend_with_geo_removes_stale_for_missing : bool :=
  let service := service_new [create_test_backend "br-2" "sa" "BR"]
    (pre_bound test_client "deleted-backend") None mock_metrics_new SouthAmerica in
  let '(service, result) := resolve_backend_with_geo 2 3 service test_client br_geo in
  assert_some result && assert_eq (be_id <$> result) (Some "br-2").

Definition test_resolve_backend_with_geo_no_healthy_backends : bool :=
  let service := service_new [create_unhealthy_backend "br-1" "sa" "BR"; create_unhealthy_backend "br-2" "sa" "BR"]
    mock_binding_new None mock_metrics_new SouthAmerica in
  let '(service, result) := resolve_backend_with_geo 2 3 service test_client br_geo in
  assert_none result.

Definition test_multiple_clients_different_backends : bool :=
  let client_ip_br := parse_ip "192.168.1.1" in
  let client_ip_us := parse_ip "192.168.1.2" in
  let geo_resolver := with_geo (with_geo mock_geo_new client_ip_br "BR" SouthAmerica) client_ip_us "US" NorthAmerica in
  let service := service_new [create_test_backend "br-1" "sa" "BR"; create_test_backend "us-1" "us" "US"]
    mock_binding_new (Some geo_resolver) mock_metrics_new Europe in
  let '(service, result_br) := resolve_backend 2 3 service client_ip_br in
  let '(service, result_us) := resolve_backend 4 5 service client_ip_us in
  assert_eq (be_id <$> result_br) (Some "br-1") && assert_eq (be_id <$> result_us) (Some "us-1") &&
  assert_eq (bound_id service client_ip_br) (Some "br-1") && assert_eq (bound_id service client_ip_us) (Some "us-1").

Definition test_run_binding_cleanup : bool :=
  let service := service_new [create_test_backend "br-1" "sa" "BR"]
    (pre_bound test_client "br-1") None mock_metrics_new SouthAmerica in
  let before := binding_count (ps_binding_repo service) in
  let service := binding_cleanup_turn (from_millis 100) (from_millis 0) service in
  assert_eq before 1 && assert_eq (binding_count (ps_binding_repo service)) 0.

Definition test_run_binding_cleanup_keeps_fresh : bool :=
  let service := service_new [create_test_backend "br-1" "sa" "BR"]
    (pre_bound test_client "br-1") None mock_metrics_new SouthAmerica in
  let service := binding_cleanup_turn (from_millis 50) (from_secs 3600) service in
  let service := binding_cleanup_turn (from_millis 100) (from_secs 3600) service in
  assert_eq (binding_count (ps_binding_repo service)) 1.

Definition test_mock_backend_repo_get_all : bool :=
  let repo := mkMockBackendRepo [create_test_backend "br-1" "sa" "BR"; create_test_backend "br-2" "sa" "BR"] in
  let all := get_all repo in
  assert_eq (length all) 2%nat && assert_eq (be_id <$> all) ["br-1"; "br-2"].

Definition test_mock_backend_repo_get_version : bool :=
  let repo := mkMockBackendRepo [create_test_backend "br-1" "sa" "BR"] in
  assert_eq (get_version repo) 1.

Definition test_resolve_backend_all_at_hard_limit : bool :=
  let backend := mkBackend "br-1" "test" (region_from_str "sa") "BR" "10.0.0.1" 8080 true 1 100 1 in
  let metrics := increment_connections mock_metrics_new "br-1" in
  let service := service_new [backend] mock_binding_new None metrics SouthAmerica in
  let '(service, result) := resolve_backend 2 3 service test_client in
  assert_none result.

Definition test_resolve_backend_with_geo_all_at_hard_limit : bool :=
  let backend := mkBackend "br-1" "test" (region_from_str "sa") "BR" "10.0.0.1" 8080 true 1 100 1 in
  let metrics := increment_connections mock_metrics_new "br-1" in
  let service := service_new [backend] mock_binding_new None metrics SouthAmerica in
  let '(service, result) := resolve_backend_with_geo 2 3 service test_client br_geo in
  assert_none result.

Example proxy_service_tests :
  failing
    [("resolve_backend_creates_binding", test_resolve_backend_creates_binding);
     ("resolve_backend_uses_existing_binding", test_resolve_backend_uses_existing_binding);
     ("resolve_backend_removes_stale_binding_for_unhealthy", test_resolve_backend_removes_stale_binding_for_unhealthy);
     ("resolve_backend_no_healthy_backends", test_resolve_backend_no_healthy_backends);
     ("resolve_backend_empty_backends", test_resolve_backend_empty_backends);
     ("resolve_backend_with_geo", test_resolve_backend_with_geo);
     ("resolve_backend_with_geo_respects_existing_binding", test_resolve_backend_with_geo_respects_existing_binding);
     ("clear_binding", test_clear_binding);
     ("resolve_geo_with_resolver", test_resolve_geo_with_resolver);
     ("resolve_geo_without_resolver", test_resolve_geo_without_resolver);
     ("record_connection_start", test_record_connection_start);
     ("record_connection_end", test_record_connection_end);
     ("record_rtt", test_record_rtt);
     ("get_connection_count", test_get_connection_count);
     ("local_region", test_local_region);
     ("resolve_backend_removes_stale_binding_for_missing", test_resolve_backend_removes_stale_binding_for_missing);
     ("resolve_backend_with_geo_removes_stale_for_unhealthy", test_resolve_backend_with_geo_removes_stale_for_unhealthy);
     ("resolve_backend_with_geo_removes_stale_for_missing", test_resolve_backend_with_geo_removes_stale_for_missing);
     ("resolve_backend_with_geo_no_healthy_backends", test_resolve_backend_with_geo_no_healthy_backends);
     ("multiple_clients_different_backends", test_multiple_clients_different_backends);
     ("run_binding_cleanup", test_run_binding_cleanup);
     ("run_binding_cleanup_keeps_fresh", test_run_binding_cleanup_keeps_fresh);
     ("mock_backend_repo_get_all", test_mock_backend_repo_get_all);
     ("mock_backend_repo_get_version", test_mock_backend_repo_get_version);
     ("resolve_backend_all_at_hard_limit", test_resolve_backend_all_at_hard_limit);
     ("resolve_backend_with_geo_all_at_hard_limit", test_resolve_backend_with_geo_all_at_hard_limit)] = [].
Proof. run_tests. Qed.
