(* ===== verification/StoreTests.v ===== *)
(** * Tests of the stores

    The test modules of [src/src/adapters/outbound/dashmap_binding_repo.rs],
    [dashmap_metrics_store.rs] and [prometheus_metrics_store.rs].  Threads that only
    increment, or only decrement, are run one after the other: [Metrics] shows that
    the order makes no difference. *)

From S2P Require Import Prelude Text Float64 Domain Parse Ports BindingRepo Metrics PromText TestKit DomainTests.
From Stdlib Require Import SpecFloat.

Module BindingRepositories.
#[local] Abbreviation repo := DashMapBindingRepository.

(** [ClientKey::new(IpAddr::V4(Ipv4Addr::new(192, 168, 1, n)))] *)
Definition key (n : Z) : ClientKey := mkClientKey (Entities.ipv4 192 168 1 n).

(** [Instant::now()] when a test starts. *)
Definition start : instant := from_secs 1000.

(** [repo.set(key, Binding::new(id))] *)
Definition set_new (k : ClientKey) (id : string) : stmt repo := call (fun r => dm_set r k (binding_new start id)).

(** The same, with [last_seen] moved back. *)
Definition set_old (k : ClientKey) (id : string) (now : instant) (age : duration) : stmt repo :=
  call (fun r => dm_set r k (mkBinding id now (now - age))).

Definition bound_to (k : ClientKey) (id : string) : stmt repo :=
  asserts (fun r => assert_some (dm_get r k) && assert_eq (bd_backend_id <$> dm_get r k) (Some id)).
Definition unbound (k : ClientKey) : stmt repo := asserts (fun r => assert_none (dm_get r k)).
Definition bound (k : ClientKey) : stmt repo := asserts (fun r => assert_some (dm_get r k)).
Definition count_is (n : Z) : stmt repo := asserts (fun r => dm_count r =? n).

(** [let removed = repo.cleanup_expired(ttl); assert_eq!(removed, n);] *)
Definition cleanup_removes (now : instant) (ttl : duration) (n : Z) : stmt repo :=
  returns (fun r => let '(r', removed) := dm_cleanup_expired now ttl r in (r', removed =? n)) true.

Definition test_set_and_get : bool :=
  run_test binding_repo_new [set_new (key 1) "backend-1"; bound_to (key 1) "backend-1"].

Definition test_get_nonexistent : bool := run_test binding_repo_new [unbound (key 1)].

Definition test_set_overwrites : bool :=
  run_test binding_repo_new [set_new (key 1) "backend-1"; set_new (key 1) "backend-2"; bound_to (key 1) "backend-2"].

Definition test_ipv6_key : bool :=
  let k := mkClientKey (V6 1) in
  run_test binding_repo_new [set_new k "backend-v6"; bound_to k "backend-v6"].

Definition test_remove : bool :=
  run_test binding_repo_new
    [set_new (key 1) "backend-1"; bound (key 1); call (fun r => dm_remove r (key 1)); unbound (key 1)].

Definition test_remove_nonexistent_does_not_panic : bool :=
  run_test binding_repo_new [call (fun r => dm_remove r (key 1))].

Definition test_touch_updates_last_seen : bool :=
  let old_last_seen := start - from_secs 100 in
  run_test binding_repo_new
    [set_old (key 1) "backend-1" start (from_secs 100);
     call (fun r => dm_touch (start + 1) r (key 1));
     asserts (fun r => match dm_get r (key 1) with Some b => old_last_seen <? bd_last_seen b | None => false end)].

Definition test_touch_nonexistent_does_not_panic : bool :=
  run_test binding_repo_new [call (fun r => dm_touch start r (key 1))].

Definition test_cleanup_expired : bool :=
  run_test binding_repo_new
    [set_old (key 1) "backend-1" start (from_secs 100); cleanup_removes (start + 1) (from_secs 50) 1; unbound (key 1)].

Definition test_cleanup_keeps_fresh_bindings : bool :=
  run_test binding_repo_new
    [set_new (key 1) "backend-1"; cleanup_removes (start + 1) (from_secs 100) 0; bound (key 1)].

Definition test_cleanup_mixed_bindings : bool :=
  run_test binding_repo_new
    [set_old (key 1) "backend-1" start (from_secs 100); set_new (key 2) "backend-2";
     cleanup_removes (start + 1) (from_secs 50) 1; unbound (key 1); bound (key 2)].

Definition test_count_empty : bool := run_test binding_repo_new [count_is 0].

Definition test_count_after_additions : bool :=
  run_test binding_repo_new
    (((fun i => set_new (key i) ("backend-" +:+ pretty i)) <$> [0; 1; 2; 3; 4]) ++ [count_is 5]).

Definition test_count_after_removal : bool :=
  run_test binding_repo_new
    [set_new (key 1) "backend-1"; set_new (key 2) "backend-2"; count_is 2;
     call (fun r => dm_remove r (key 1)); count_is 1].

Definition test_inner_access : bool :=
  run_test binding_repo_new [set_new (key 1) "backend-1"; asserts (fun r => (size (br_bindings r) =? 1)%nat)].

Definition test_multiple_clients_isolated : bool :=
  let k n := mkClientKey (Entities.ipv4 10 0 0 n) in
  run_test binding_repo_new
    [set_new (k 1) "backend-1"; set_new (k 2) "backend-2"; set_new (k 3) "backend-1";
     bound_to (k 1) "backend-1"; bound_to (k 2) "backend-2"; bound_to (k 3) "backend-1"].

(** Turns of the collector of [start_gc] fall at multiples of its interval. *)
Definition gc_at (ms : Z) (ttl : duration) : stmt repo := call (gc_turn (start + from_millis ms) ttl).

Definition test_start_gc_removes_expired_bindings : bool :=
  run_test binding_repo_new
    [set_old (key 1) "backend-1" start (from_millis 200); bound (key 1);
     gc_at 0 (from_millis 100); gc_at 50 (from_millis 100); unbound (key 1)].

Definition test_start_gc_keeps_fresh_bindings : bool :=
  run_test binding_repo_new
    [set_new (key 2) "backend-2"; gc_at 0 (from_secs 10); gc_at 50 (from_secs 10); bound (key 2)].

Definition test_start_gc_multiple_iterations : bool :=
  run_test binding_repo_new
    [set_old (key 1) "backend-1" start (from_millis 200);
     gc_at 0 (from_millis 100); gc_at 30 (from_millis 100); unbound (key 1);
     set_old (key 2) "backend-2" (start + from_millis 50) (from_millis 200);
     gc_at 60 (from_millis 100); gc_at 90 (from_millis 100); unbound (key 2)].

Definition test_start_gc_mixed_expiry : bool :=
  run_test binding_repo_new
    [set_old (key 1) "old-backend" start (from_millis 200); set_new (key 2) "fresh-backend";
     gc_at 0 (from_millis 100); gc_at 50 (from_millis 100); unbound (key 1); bound (key 2)].

Example binding_repo_tests :
  failing
    [("set_and_get", test_set_and_get); ("get_nonexistent", test_get_nonexistent);
     ("set_overwrites", test_set_overwrites); ("ipv6_key", test_ipv6_key); ("remove", test_remove);
     ("remove_nonexistent_does_not_panic", test_remove_nonexistent_does_not_panic);
     ("touch_updates_last_seen", test_touch_updates_last_seen);
     ("touch_nonexistent_does_not_panic", test_touch_nonexistent_does_not_panic);
     ("cleanup_expired", test_cleanup_expired);
     ("cleanup_keeps_fresh_bindings", test_cleanup_keeps_fresh_bindings);
     ("cleanup_mixed_bindings", test_cleanup_mixed_bindings); ("count_empty", test_count_empty);
     ("count_after_additions", test_count_after_additions); ("count_after_removal", test_count_after_removal);
     ("inner_access", test_inner_access); ("multiple_clients_isolated", test_multiple_clients_isolated);
     ("start_gc_removes_expired_bindings", test_start_gc_removes_expired_bindings);
     ("start_gc_keeps_fresh_bindings", test_start_gc_keeps_fresh_bindings);
     ("start_gc_multiple_iterations", test_start_gc_multiple_iterations);
     ("start_gc_mixed_expiry", test_start_gc_mixed_expiry)] = [].
Proof. run_tests. Qed.
End BindingRepositories.

(** The calls and assertions on a metrics store, through the port. *)
Section metrics_store.
Context `{MetricsStore M}.

Definition inc (id : string) : stmt M := call (fun m => increment_connections m id).
Definition dec (id : string) : stmt M := call (fun m => decrement_connections m id).
Definition rtt (id : string) (ms : Z) : stmt M := call (fun m => record_rtt m id ms).
Definition conns (id : string) (n : Z) : stmt M := asserts (fun m => get_connection_count m id =? n).
Definition last_rtt (id : string) (ms : option Z) : stmt M := asserts (fun m => assert_eq (get_last_rtt m id) ms).
End metrics_store.

Module DashMapMetrics.
#[local] Abbreviation store_test := (run_test dm_store_new).

Definition test_connection_count_starts_at_zero : bool := store_test [conns "backend-1" 0].

Definition test_connection_count_increment : bool :=
  store_test [inc "backend-1"; conns "backend-1" 1; inc "backend-1"; conns "backend-1" 2; inc "backend-1";
      conns "backend-1" 3].

Definition test_connection_count_decrement : bool :=
  store_test
    [inc "backend-1"; inc "backend-1"; conns "backend-1" 2;
     dec "backend-1"; conns "backend-1" 1; dec "backend-1"; conns "backend-1" 0].

Definition test_decrement_nonexistent_backend : bool := store_test [dec "nonexistent"; conns "nonexistent" 0].

Definition test_decrement_at_zero_saturates : bool :=
  store_test [inc "backend-1"; dec "backend-1"; dec "backend-1"; conns "backend-1" 0].

Definition test_rtt_starts_as_none : bool := store_test [last_rtt "backend-1" None].

Definition test_rtt_recording : bool := store_test [rtt "backend-1" 50; last_rtt "backend-1" (Some 50)].

Definition test_rtt_overwrites_previous : bool :=
  store_test [rtt "backend-1" 50; rtt "backend-1" 75; rtt "backend-1" 100; last_rtt "backend-1" (Some 100)].

Definition test_rtt_zero_value : bool := store_test [rtt "backend-1" 0; last_rtt "backend-1" (Some 0)].

Definition test_multiple_backends_isolated : bool :=
  store_test
    [inc "backend-1"; inc "backend-1"; inc "backend-2";
     conns "backend-1" 2; conns "backend-2" 1; conns "backend-3" 0].

Definition test_multiple_backends_rtt_isolated : bool :=
  store_test
    [rtt "backend-1" 50; rtt "backend-2" 100;
     last_rtt "backend-1" (Some 50); last_rtt "backend-2" (Some 100); last_rtt "backend-3" None].

Definition test_backend_ids_empty : bool := store_test [asserts (fun s => assert_eq (dm_backend_ids s) [])].

Definition test_backend_ids_after_increment : bool :=
  store_test
    [inc "backend-1"; inc "backend-2"; inc "backend-3";
     asserts (fun s => let ids := dm_backend_ids s in
       assert_eq (length ids) 3%nat &&
       forallb (fun id => bool_decide (id ∈ ids)) ["backend-1"; "backend-2"; "backend-3"])].

Definition test_get_metrics : bool :=
  store_test
    [inc "backend-1"; inc "backend-1"; rtt "backend-1" 42;
     asserts (fun s => assert_eq (dm_get_metrics s "backend-1") (Some (2, 42)))].

Definition test_get_metrics_nonexistent : bool :=
  store_test [asserts (fun s => assert_none (dm_get_metrics s "nonexistent"))].

Definition test_concurrent_increments : bool :=
  store_test (concat (replicate 10 (replicate 100 (inc "backend-1"))) ++ [conns "backend-1" 1000]).

Definition test_concurrent_decrements : bool :=
  store_test
    (replicate 1000 (inc "backend-1") ++ concat (replicate 10 (replicate 100 (dec "backend-1"))) ++
     [conns "backend-1" 0]).

Definition test_backend_metrics_default : bool :=
  assert_eq (dm_current_conns dm_metrics_new) 0 && assert_eq (dm_last_rtt_ms dm_metrics_new) 0.

Example dashmap_metrics_tests :
  failing
    [("connection_count_starts_at_zero", test_connection_count_starts_at_zero);
     ("connection_count_increment", test_connection_count_increment);
     ("connection_count_decrement", test_connection_count_decrement);
     ("decrement_nonexistent_backend", test_decrement_nonexistent_backend);
     ("decrement_at_zero_saturates", test_decrement_at_zero_saturates);
     ("rtt_starts_as_none", test_rtt_starts_as_none); ("rtt_recording", test_rtt_recording);
     ("rtt_overwrites_previous", test_rtt_overwrites_previous); ("rtt_zero_value", test_rtt_zero_value);
     ("multiple_backends_isolated", test_multiple_backends_isolated);
     ("multiple_backends_rtt_isolated", test_multiple_backends_rtt_isolated);
     ("backend_ids_empty", test_backend_ids_empty); ("backend_ids_after_increment", test_backend_ids_after_increment);
     ("get_metrics", test_get_metrics); ("get_metrics_nonexistent", test_get_metrics_nonexistent);
     ("concurrent_increments", test_concurrent_increments); ("concurrent_decrements", test_concurrent_decrements);
     ("backend_metrics_default", test_backend_metrics_default)] = [].
Proof. run_tests. Qed.
End DashMapMetrics.

Module PrometheusMetrics.
#[local] Abbreviation store := PrometheusMetricsStore.

Definition err (id : string) : stmt store := call (fun s => pm_record_error s id).
Definition sent_received (sent received : Z) : stmt store := call (fun s => pm_record_bytes s sent received).
Definition global (f : AggregatedMetrics → Z) (n : Z) : stmt store := asserts (fun s => f (pm_global s) =? n).

Definition test_pm_new : bool :=
  run_test (pm_store_new "eu")
    [asserts (fun s => assert_eq (pm_region s) "eu"); asserts (fun s => assert_eq (pm_backend_ids s) [])].

Definition test_connection_tracking : bool :=
  run_test (pm_store_new "us")
    [inc "backend-1"; conns "backend-1" 1; inc "backend-1"; conns "backend-1" 2; dec "backend-1"; conns "backend-1" 1].

Definition test_total_connections : bool :=
  run_test (pm_store_new "sa") [inc "b1"; inc "b2"; inc "b1"; global agg_total_connections 3].

Definition test_pm_rtt_recording : bool :=
  run_test (pm_store_new "ap")
    [rtt "backend-1" 50; last_rtt "backend-1" (Some 50); rtt "backend-1" 100; last_rtt "backend-1" (Some 100)].

(** [(avg - 100.0).abs() < 0.01] *)
Definition test_avg_rtt : bool :=
  run_test (pm_store_new "eu")
    [rtt "backend-1" 50; rtt "backend-1" 100; rtt "backend-1" 150;
     asserts (fun s =>
       match pm_get_backend_metrics s "backend-1" with
       | Some m => f64_ltb (SFabs (SFsub 53 1024 (pm_avg_rtt_ms m) (f64_of_Z 100))) (f64_div (f64_of_Z 1) (f64_of_Z 100))
       | None => false
       end)].

Definition test_avg_rtt_zero_count : bool := SFeqb (pm_avg_rtt_ms pm_metrics_new) (f64_of_Z 0).

Definition test_error_recording : bool :=
  run_test (pm_store_new "eu")
    [err "backend-1"; err "backend-1"; err "backend-2"; global agg_connection_errors 3;
     asserts (fun s => assert_eq (pm_connection_errors <$> pm_get_backend_metrics s "backend-1") (Some 2))].

Definition test_bytes_recording : bool :=
  run_test (pm_store_new "us")
    [sent_received 1000 500; sent_received 500 250; global agg_bytes_sent 1500; global agg_bytes_received 750].

Definition test_decrement_at_zero : bool :=
  run_test (pm_store_new "eu") [inc "b1"; dec "b1"; dec "b1"; conns "b1" 0].

Definition test_decrement_nonexistent : bool :=
  run_test (pm_store_new "eu") [dec "nonexistent"; conns "nonexistent" 0].

Definition test_get_last_rtt_nonexistent : bool := run_test (pm_store_new "eu") [last_rtt "nonexistent" None].

Definition test_backend_ids : bool :=
  run_test (pm_store_new "eu")
    [inc "b1"; inc "b2"; inc "b3";
     asserts (fun s => let ids := pm_backend_ids s in
       assert_eq (length ids) 3%nat && forallb (fun id => bool_decide (id ∈ ids)) ["b1"; "b2"; "b3"])].

(** [output.contains(..)] *)
Fixpoint contains (needle haystack : string) : bool :=
  String.prefix needle haystack ||
  match haystack with String _ rest => contains needle rest | EmptyString => false end.

Definition test_export_prometheus : bool :=
  run_test (pm_store_new "eu")
    [inc "backend-1"; rtt "backend-1" 42; err "backend-1"; sent_received 1000 500;
     asserts (fun s => let output := export_prometheus s in
       contains "edgeproxy_connections_total" output && contains "edgeproxy_bytes_sent_total" output &&
       contains "edgeproxy_bytes_received_total" output && contains "edgeproxy_backend_connections_active" output &&
       contains ("backend=" +:+ quoted "backend-1") output && contains ("region=" +:+ quoted "eu") output)].

Definition test_pm_backend_metrics_default : bool :=
  assert_eq (pm_active_connections pm_metrics_new) 0 && assert_eq (pm_total_connections pm_metrics_new) 0.

Definition test_pm_concurrent_access : bool :=
  run_test (pm_store_new "eu")
    (concat (replicate 10 (replicate 100 (inc "b1"))) ++ [conns "b1" 1000; global agg_total_connections 1000]).

Definition test_global_metrics : bool :=
  run_test (pm_store_new "eu")
    [inc "b1"; err "b1"; sent_received 100 50;
     global agg_total_connections 1; global agg_connection_errors 1; global agg_bytes_sent 100;
         global agg_bytes_received 50].

Definition test_concurrent_decrement : bool :=
  run_test (pm_store_new "eu")
    (replicate 1000 (inc "b1") ++ [conns "b1" 1000] ++ concat (replicate 10 (replicate 100 (dec "b1"))) ++ [conns "b1" 0]).

Example prometheus_metrics_tests :
  failing
    [("new", test_pm_new); ("connection_tracking", test_connection_tracking);
     ("total_connections", test_total_connections); ("rtt_recording", test_pm_rtt_recording);
     ("avg_rtt", test_avg_rtt); ("avg_rtt_zero_count", test_avg_rtt_zero_count);
     ("error_recording", test_error_recording); ("bytes_recording", test_bytes_recording);
     ("decrement_at_zero", test_decrement_at_zero); ("decrement_nonexistent", test_decrement_nonexistent);
     ("get_last_rtt_nonexistent", test_get_last_rtt_nonexistent); ("backend_ids", test_backend_ids);
     ("export_prometheus", test_export_prometheus); ("backend_metrics_default", test_pm_backend_metrics_default);
     ("concurrent_access", test_pm_concurrent_access); ("global_metrics", test_global_metrics);
     ("concurrent_decrement", test_concurrent_decrement)] = [].
Proof. run_tests. Qed.
End PrometheusMetrics.
