(* ===== verification/ResilienceTests.v ===== *)
(** * Tests of the circuit breaker and the rate limiter

    The test modules of [src/src/infrastructure/circuit_breaker.rs] and
    [rate_limiter.rs].  Both read a clock that starts with the process.  The tests of
    the circuit breaker are given the reading [t0] at which they begin: all pass in
    the first minute, but the ones with a failure threshold of 1 fail when
    the process is older than the failure window ([circuit_breaker_tests_late];
    the reason is [CircuitBreaker.threshold_one_first_failure_ignored]). *)

From S2P Require Import Prelude Text Float64 Domain CircuitBreaker RateLimiter TestKit DomainTests.

Module CircuitBreakers.
Section tests.
Context (t0 : Z).

#[local] Abbreviation breaker := CircuitBreaker.

(** Fields of the configuration not given are the default's. *)
Definition config (failure_threshold : Z) (reset_timeout : duration) (success_threshold : Z)
    (failure_window : duration) : breaker :=
  breaker_new (mkCbConfig failure_threshold reset_timeout success_threshold failure_window).
Definition default_breaker : breaker := breaker_new cb_config_default.

(** The calls, at [t0] plus some milliseconds. *)
Definition allow_at (t : Z) (id : string) : stmt breaker := call (fun b => fst (allow_request (t0 + t) b id)).
Definition allows_at (t : Z) (id : string) (expected : bool) : stmt breaker :=
  returns (fun b => allow_request (t0 + t) b id) expected.
Definition success (id : string) : stmt breaker := call (fun b => record_success b id).
Definition failure_at (t : Z) (id : string) : stmt breaker := call (fun b => record_failure (t0 + t) b id).
Definition state_is (id : string) (s : CircuitState) : stmt breaker := asserts (fun b => assert_eq (cb_get_state b id) s).
Definition failures_are (id : string) (n : Z) : stmt breaker := asserts (fun b => cm_failures (cb_get_metrics b id) =? n).
Definition circuits_are (n : nat) : stmt breaker := asserts (fun b => (size (cb_circuits b) =? n)%nat).

Definition test_circuit_state_display : bool :=
  assert_eq (circuit_state_display <$> [CClosed; COpen; CHalfOpen]) ["closed"; "open"; "half-open"].

Definition test_config_default : bool :=
  assert_eq (cb_failure_threshold cb_config_default) 5 &&
  assert_eq (cb_reset_timeout cb_config_default) (from_secs 30) &&
  assert_eq (cb_success_threshold cb_config_default) 3.

Definition test_circuit_breaker_new : bool := run_test (breaker_new cb_config_default) [circuits_are 0].

Definition test_allow_request_initial : bool :=
  run_test default_breaker [allows_at 0 "backend-1" true; state_is "backend-1" CClosed].

Definition test_allow_request_unknown_backend : bool := run_test default_breaker [state_is "unknown" CClosed].

Definition test_record_success_resets_failures : bool :=
  run_test (config 5 (from_secs 30) 3 (from_secs 60))
    [failure_at 0 "b1"; failure_at 0 "b1"; failures_are "b1" 2; success "b1"; failures_are "b1" 0].

Definition test_circuit_opens_after_threshold : bool :=
  run_test (config 3 (from_secs 30) 3 (from_secs 60))
    [failure_at 0 "b1"; state_is "b1" CClosed; failure_at 0 "b1"; state_is "b1" CClosed;
     failure_at 0 "b1"; state_is "b1" COpen].

Definition test_circuit_open_blocks_requests : bool :=
  run_test (config 1 (from_secs 60) 3 (from_secs 60))
    [failure_at 0 "b1"; state_is "b1" COpen; allows_at 0 "b1" false].

Definition test_circuit_transitions_to_half_open : bool :=
  run_test (config 1 (from_millis 10) 3 (from_secs 60))
    [failure_at 0 "b1"; state_is "b1" COpen; allows_at 20 "b1" true; state_is "b1" CHalfOpen].

Definition test_half_open_closes_on_successes : bool :=
  run_test (config 1 (from_millis 1) 2 (from_secs 60))
    [failure_at 0 "b1"; allow_at 5 "b1"; success "b1"; state_is "b1" CHalfOpen; success "b1"; state_is "b1" CClosed].

Definition test_half_open_reopens_on_failure : bool :=
  run_test (config 1 (from_millis 1) 3 (from_secs 60))
    [failure_at 0 "b1"; allow_at 5 "b1"; failure_at 5 "b1"; state_is "b1" COpen].

Definition test_cb_get_metrics : bool :=
  run_test default_breaker
    [failure_at 0 "b1"; failure_at 0 "b1"; failures_are "b1" 2;
     asserts (fun b => assert_eq (cm_state (cb_get_metrics b "b1")) CClosed)].

Definition test_get_metrics_unknown : bool :=
  run_test default_breaker
    [failures_are "unknown" 0; asserts (fun b => assert_eq (cm_state (cb_get_metrics b "unknown")) CClosed)].

Definition test_all_states : bool :=
  run_test (config 1 (from_secs 30) 3 (from_secs 60))
    [allow_at 0 "b1"; failure_at 0 "b2"; asserts (fun b => assert_eq (length (cb_all_states b)) 2%nat)].

Definition test_reset : bool :=
  run_test (config 1 (from_secs 30) 3 (from_secs 60))
    [failure_at 0 "b1"; state_is "b1" COpen; call (fun b => cb_reset b "b1");
     state_is "b1" CClosed; failures_are "b1" 0].

Definition test_reset_unknown : bool := run_test default_breaker [call (fun b => cb_reset b "unknown")].

Definition test_cb_clear_all : bool :=
  run_test default_breaker
    [allow_at 0 "b1"; allow_at 0 "b2"; allow_at 0 "b3"; circuits_are 3; call cb_clear_all; circuits_are 0].

Definition test_failure_window_resets : bool :=
  run_test (config 3 (from_secs 30) 3 (from_millis 10))
    [failure_at 0 "b1"; failure_at 0 "b1"; failures_are "b1" 2; failure_at 20 "b1"; failures_are "b1" 1].

Definition test_record_failure_when_open : bool :=
  run_test (config 1 (from_secs 60) 3 (from_secs 60))
    [failure_at 0 "b1"; state_is "b1" COpen; failure_at 0 "b1"; state_is "b1" COpen].

(** Ten threads, one after the other. *)
Definition test_cb_concurrent_access : bool :=
  run_test (config 100 (from_secs 30) 3 (from_secs 60))
    (concat (replicate 10 (concat (replicate 50 [allow_at 0 "b1"; failure_at 0 "b1"]))) ++
     [asserts (fun b => 0 <? cm_failures (cb_get_metrics b "b1"))]).

Definition test_allow_request_when_already_half_open : bool :=
  run_test (config 1 (from_millis 1) 3 (from_secs 60))
    [failure_at 0 "b1"; allows_at 5 "b1" true; state_is "b1" CHalfOpen; allows_at 5 "b1" true; state_is "b1" CHalfOpen].

Definition test_record_success_when_open : bool :=
  run_test (config 1 (from_secs 60) 3 (from_secs 60))
    [failure_at 0 "b1"; state_is "b1" COpen; success "b1"; state_is "b1" COpen].

Definition all_tests : list (string * bool) :=
  [("circuit_state_display", test_circuit_state_display); ("config_default", test_config_default);
   ("circuit_breaker_new", test_circuit_breaker_new); ("allow_request_initial", test_allow_request_initial);
   ("allow_request_unknown_backend", test_allow_request_unknown_backend);
   ("record_success_resets_failures", test_record_success_resets_failures);
   ("circuit_opens_after_threshold", test_circuit_opens_after_threshold);
   ("circuit_open_blocks_requests", test_circuit_open_blocks_requests);
   ("circuit_transitions_to_half_open", test_circuit_transitions_to_half_open);
   ("half_open_closes_on_successes", test_half_open_closes_on_successes);
   ("half_open_reopens_on_failure", test_half_open_reopens_on_failure);
   ("get_metrics", test_cb_get_metrics); ("get_metrics_unknown", test_get_metrics_unknown);
   ("all_states", test_all_states); ("reset", test_reset); ("reset_unknown", test_reset_unknown);
   ("clear_all", test_cb_clear_all); ("failure_window_resets", test_failure_window_resets);
   ("record_failure_when_open", test_record_failure_when_open); ("concurrent_access", test_cb_concurrent_access);
   ("allow_request_when_already_half_open", test_allow_request_when_already_half_open);
   ("record_success_when_open", test_record_success_when_open)].
End tests.

Example circuit_breaker_tests : failing (all_tests 5) = [].
Proof. run_tests. Qed.

(** Once the process is older than the window, its first failure counts as one that
    restarts the window. *)
Example circuit_breaker_tests_late :
  failing (all_tests 60001) =
    ["circuit_open_blocks_requests"; "circuit_transitions_to_half_open"; "half_open_closes_on_successes";
     "reset"; "record_failure_when_open"; "allow_request_when_already_half_open"; "record_success_when_open"].
Proof. run_tests. Qed.
End CircuitBreakers.

Module RateLimiters.
#[local] Abbreviation limiter := RateLimiter.

Definition test_ip (n : Z) : IpAddr := Entities.ipv4 192 168 1 n.

Definition config (burst_size max_requests : Z) (window : duration) : limiter :=
  limiter_new (mkRlConfig max_requests window burst_size).

(** [..Default::default()] *)
Definition with_burst (burst_size : Z) : limiter := config burst_size 100 (from_secs 1).

(** Calls at a clock reading, and assertions. *)
Definition check_at (t : Z) (ip : IpAddr) : stmt limiter := call (fun l => fst (rl_check t t l ip)).
Definition checks_at (t : Z) (ip : IpAddr) (expected : bool) : stmt limiter := returns (fun l => rl_check t t l ip) expected.
Definition check (ip : IpAddr) : stmt limiter := check_at 0 ip.
Definition checks (ip : IpAddr) (expected : bool) : stmt limiter := checks_at 0 ip expected.
Definition costs (ip : IpAddr) (cost : Z) (expected : bool) : stmt limiter :=
  returns (fun l => check_with_cost 0 0 l ip cost) expected.
Definition remaining_is (ip : IpAddr) (n : Z) : stmt limiter := asserts (fun l => rl_remaining l ip =? n).
Definition clients_are (n : nat) : stmt limiter := asserts (fun l => (rl_client_count l =? n)%nat).

Definition test_rate_limit_config_default : bool :=
  assert_eq (rl_max_requests rl_config_default) 100 && assert_eq (rl_window rl_config_default) (from_secs 1) &&
  assert_eq (rl_burst_size rl_config_default) 10.

Definition test_rate_limiter_new : bool := run_test (limiter_new rl_config_default) [clients_are 0].

Definition test_rate_limiter_default : bool := run_test limiter_default [clients_are 0].

Definition test_check_allows_initial_burst : bool :=
  let ip := test_ip 1 in
  run_test (config 5 10 (from_secs 1)) (replicate 5 (checks ip true) ++ [checks ip false]).

Definition test_check_different_clients_isolated : bool :=
  let ip1 := test_ip 1 in
  let ip2 := test_ip 2 in
  run_test (config 2 10 (from_secs 1))
    [checks ip1 true; checks ip1 true; checks ip1 false; checks ip2 true; checks ip2 true].

Definition test_remaining : bool :=
  let ip := test_ip 1 in
  run_test (with_burst 5)
    [remaining_is ip 5; check ip; remaining_is ip 4; check ip; check ip; remaining_is ip 2].

Definition test_clear_client : bool :=
  let ip := test_ip 1 in
  run_test (with_burst 2)
    [check ip; check ip; checks ip false; call (fun l => rl_clear l ip); checks ip true; checks ip true].

Definition test_clear_all : bool :=
  run_test (with_burst 1)
    (((fun i => check (test_ip i)) <$> [0; 1; 2; 3; 4]) ++ [clients_are 5; call rl_clear_all; clients_are 0]).

Definition test_check_with_cost : bool :=
  let ip := test_ip 1 in
  run_test (with_burst 10)
    [costs ip 5 true; remaining_is ip 5; costs ip 5 true; remaining_is ip 0; costs ip 1 false].

Definition test_check_with_cost_too_high : bool :=
  let ip := test_ip 1 in
  run_test (with_burst 5) [costs ip 10 false; remaining_is ip 5].

Definition test_cleanup_removes_stale : bool :=
  run_test (limiter_new rl_config_default)
    (((fun i => check (test_ip i)) <$> [0; 1; 2; 3; 4]) ++
     [clients_are 5; call (fun l => rl_cleanup 10 l (from_millis 1)); clients_are 0]).

Definition test_cleanup_keeps_recent : bool :=
  run_test (limiter_new rl_config_default)
    [check (test_ip 1); call (fun l => rl_cleanup 0 l (from_secs 60)); clients_are 1].

Definition test_refill_over_time : bool :=
  let ip := test_ip 1 in
  run_test (config 2 1000 (from_millis 100)) [check ip; check ip; checks ip false; checks_at 50 ip true].

(** Ten threads with a client each, one after the other: how many checks pass. *)
Definition test_concurrent_access : bool :=
  let thread (acc : limiter * Z) (i : Z) :=
    foldl (fun '(l, allowed) _ => let '(l, ok) := rl_check 0 0 l (test_ip i) in (l, if ok then allowed + 1 else allowed))
      acc (seq 0 20) in
  0 <? snd (foldl thread (config 100 1000 (from_secs 1), 0) [0; 1; 2; 3; 4; 5; 6; 7; 8; 9]).

Definition test_remaining_unknown_client : bool := run_test (with_burst 42) [remaining_is (test_ip 99) 42].

Definition test_ipv6_client : bool :=
  let ipv6 := V6 1 in
  run_test (with_burst 3) [checks ipv6 true; checks ipv6 true; checks ipv6 true; checks ipv6 false].

Definition test_zero_cost_check : bool :=
  let ip := test_ip 1 in
  run_test (with_burst 1) [costs ip 0 true; costs ip 0 true; remaining_is ip 1].

Definition test_clear_nonexistent_client : bool :=
  run_test (limiter_new rl_config_default) [call (fun l => rl_clear l (test_ip 99)); clients_are 0].

Definition test_high_refill_rate : bool :=
  let ip := test_ip 1 in
  run_test (config 1 1000000 (from_secs 1)) [checks ip true; checks ip false; checks_at 10 ip true].

Example rate_limiter_tests :
  failing
    [("rate_limit_config_default", test_rate_limit_config_default); ("rate_limiter_new", test_rate_limiter_new);
     ("rate_limiter_default", test_rate_limiter_default);
     ("check_allows_initial_burst", test_check_allows_initial_burst);
     ("check_different_clients_isolated", test_check_different_clients_isolated); ("remaining", test_remaining);
     ("clear_client", test_clear_client); ("clear_all", test_clear_all); ("check_with_cost", test_check_with_cost);
     ("check_with_cost_too_high", test_check_with_cost_too_high);
     ("cleanup_removes_stale", test_cleanup_removes_stale); ("cleanup_keeps_recent", test_cleanup_keeps_recent);
     ("refill_over_time", test_refill_over_time); ("concurrent_access", test_concurrent_access);
     ("remaining_unknown_client", test_remaining_unknown_client); ("ipv6_client", test_ipv6_client);
     ("zero_cost_check", test_zero_cost_check); ("clear_nonexistent_client", test_clear_nonexistent_client);
     ("high_refill_rate", test_high_refill_rate)] = [].
Proof. run_tests. Qed.
End RateLimiters.
