(* ===== verification/ReplicationTests.v ===== *)
(** * Tests of the replication layer

    The test modules of [src/src/replication/types.rs], [config.rs] and [sync.rs], with
    the checksum and encoding of [Bincode] and JSON values for the texts the tests
    use; the database is [Sql.MemDb].  Times are microseconds. *)

From S2P Require Import Prelude Text Domain NetAddr Channel ReplTypes Sql Sync Gossip Transport Bincode TestKit StoreTests.
From Stdlib Require Import Ascii.

Module Types.
Definition now : Z := 1700000000000000.
Definition node1 : NodeId := mkNodeId "node-1".
Definition node2 : NodeId := mkNodeId "node-2".

(** [Change::new] at a reading of the clock, and a few nanoseconds later. *)
Definition change_at (t : Z) (table pk : string) (kind : ChangeKind) (data : string) (node : NodeId) : Change :=
  change_new t (t * 1000 + 40) (t * 1000 + 90) table pk kind data node.

Definition test_node_id : bool := assert_eq (node_str (mkNodeId "pop-sa-1")) "pop-sa-1".

Definition test_hlc_timestamp_ordering : bool :=
  let t1 := hlc_now now node1 in
  let t2 := hlc_now (now + 1000) node1 in
  hlc_ltb t1 t2.

Definition test_hlc_timestamp_tick : bool :=
  let t1 := hlc_now now node1 in
  let t2 := hlc_tick t1 None now node1 in
  let t3 := hlc_tick t2 (Some t1) now node1 in
  hlc_ltb t1 t2 && hlc_ltb t2 t3.

Definition test_change_wins_over : bool :=
  let c1 := change_at now "backends" "pk1" KInsert "{}" node1 in
  let c2 := change_at (now + 1000) "backends" "pk1" KUpdate "{}" node2 in
  wins_over c2 c1 && negb (wins_over c1 c2).

Definition test_changeset_checksum : bool :=
  let cs := changeset_new node1 1 [change_at now "backends" "pk1" KInsert "{}" node1] in
  cs_verify cs.

Definition test_changeset_checksum_fails_on_tamper : bool :=
  let cs := changeset_new node1 1 [change_at now "backends" "pk1" KInsert "{}" node1] in
  let tampered := change_at now "backends" "pk1" KInsert "tampered" node1 in
  negb (cs_verify (mkChangeSet (cs_source cs) (cs_seq cs) [tampered] (cs_checksum cs))).

Definition test_hlc_timestamp_default : bool := assert_eq hlc_default (mkHlc 0 0 0).

Definition test_hlc_timestamp_eq : bool :=
  assert_eq (mkHlc 100 1 42) (mkHlc 100 1 42) && assert_ne (mkHlc 100 1 42) (mkHlc 101 1 42).

Definition test_hlc_tick_with_older_other : bool :=
  let old_ts := mkHlc 1000 5 42 in
  let current := hlc_now now node1 in
  let ticked := hlc_tick current (Some old_ts) now node1 in
  hlc_ltb current ticked && hlc_ltb old_ts ticked.

Definition test_hlc_tick_same_wall_time_both : bool :=
  let wall := 2 ^ 64 - 1 - 1000 in
  let result := hlc_tick (mkHlc wall 5 42) (Some (mkHlc wall 3 43)) now node1 in
  assert_eq (ts_counter result) 6 && assert_eq (wall_time result) wall.

Definition test_node_id_eq : bool := assert_eq node1 (mkNodeId "node-1") && assert_ne node1 node2.

Definition test_change_kind_variants : bool :=
  assert_ne KInsert KUpdate && assert_ne KUpdate KDelete && assert_ne KDelete KInsert.

Definition test_change_delete : bool :=
  assert_eq (ch_kind (change_at now "backends" "pk1" KDelete "{}" node1)) KDelete.

Definition test_changeset_empty : bool :=
  let cs := changeset_new node1 0 [] in
  cs_verify cs && assert_eq (length (cs_changes cs)) 0%nat.

Definition test_change_has_id : bool := 0 <? ch_id (change_at now "backends" "pk1" KInsert "{}" node1).

Definition test_changeset_with_multiple_changes : bool :=
  let cs := changeset_new node1 1
    [change_at now "backends" "pk1" KInsert "{}" node1; change_at now "backends" "pk2" KUpdate "{}" node1;
     change_at now "backends" "pk3" KDelete "{}" node1] in
  cs_verify cs && assert_eq (length (cs_changes cs)) 3%nat.

Definition test_hlc_tick_counter_reset_on_new_wall_time : bool :=
  let old_ts := mkHlc 1 100 42 in
  wall_time old_ts <? wall_time (hlc_tick old_ts None now node1).

Definition test_hlc_tick_other_has_higher_wall_time : bool :=
  let far_future := 2 ^ 64 - 1 - 100 in
  let result := hlc_tick (mkHlc 1000 5 42) (Some (mkHlc far_future 10 43)) now node1 in
  assert_eq (wall_time result) far_future && assert_eq (ts_counter result) 11.

Definition test_hlc_tick_none_self_wall_time_is_max : bool :=
  let far_future := 2 ^ 64 - 1 - 100 in
  let result := hlc_tick (mkHlc far_future 7 42) None now node1 in
  assert_eq (wall_time result) far_future && assert_eq (ts_counter result) 8.

(** [bincode::deserialize(&bincode::serialize(&msg).unwrap()).unwrap()]. *)
Definition back (m : Message) : option Message :=
  match wire_serialize m with Ok bs => result_ok (wire_deserialize bs) | Err _ => None end.

Definition test_message_serialization : bool :=
  match back (MBroadcast (changeset_new node1 1 [])) with Some (MBroadcast cs) => cs_seq cs =? 1 | _ => false end.

Definition test_message_sync_request : bool :=
  match back (MSyncRequest 100 (Some "backends")) with
  | Some (MSyncRequest from_seq table) => assert_eq from_seq 100 && assert_eq table (Some "backends")
  | _ => false
  end.

Definition test_message_sync_response : bool :=
  match back (MSyncResponse [changeset_new node1 1 []]) with
  | Some (MSyncResponse sets) => assert_eq (length sets) 1%nat
  | _ => false
  end.

Definition test_message_ack : bool :=
  match back (MAck node1 42) with
  | Some (MAck source seq) => assert_eq (node_str source) "node-1" && assert_eq seq 42
  | _ => false
  end.

Definition test_message_ping_pong : bool :=
  match back MPing, back MPong with Some MPing, Some MPong => true | _, _ => false end.

Example types_tests :
  failing
    [("node_id", test_node_id); ("hlc_timestamp_ordering", test_hlc_timestamp_ordering);
     ("hlc_timestamp_tick", test_hlc_timestamp_tick); ("change_wins_over", test_change_wins_over);
     ("changeset_checksum", test_changeset_checksum);
     ("changeset_checksum_fails_on_tamper", test_changeset_checksum_fails_on_tamper);
     ("hlc_timestamp_default", test_hlc_timestamp_default); ("hlc_timestamp_eq", test_hlc_timestamp_eq);
     ("hlc_tick_with_older_other", test_hlc_tick_with_older_other);
     ("hlc_tick_same_wall_time_both", test_hlc_tick_same_wall_time_both); ("node_id_eq_hash", test_node_id_eq);
     ("change_kind_variants", test_change_kind_variants); ("change_delete", test_change_delete);
     ("changeset_empty", test_changeset_empty); ("change_has_id", test_change_has_id);
     ("changeset_with_multiple_changes", test_changeset_with_multiple_changes);
     ("hlc_tick_counter_reset_on_new_wall_time", test_hlc_tick_counter_reset_on_new_wall_time);
     ("hlc_tick_other_has_higher_wall_time", test_hlc_tick_other_has_higher_wall_time);
     ("hlc_tick_none_self_wall_time_is_max", test_hlc_tick_none_self_wall_time_is_max);
     ("message_serialization", test_message_serialization); ("message_sync_request", test_message_sync_request);
     ("message_sync_response", test_message_sync_response); ("message_ack", test_message_ack);
     ("message_ping_pong", test_message_ping_pong)] = [].
Proof. run_tests. Qed.
End Types.

Module Configs.
Definition addr_port (addr : string) : option Z :=
  (fun a => match a with SockV4 _ port => port | SockV6 _ port _ => port end) <$> parse_socket_addr addr.

Definition test_default_config : bool :=
  let config := replication_config_default in
  assert_eq (rc_node_id config) "" && assert_eq (addr_port (rc_gossip_addr config)) (Some 4001) &&
  assert_eq (addr_port (rc_transport_addr config)) (Some 4002) && assert_eq (rc_cluster_name config) "edgeproxy".

Definition test_builder_pattern : bool :=
  let config := with_cluster_name "myproxy"
    (with_bootstrap_peers ["peer1:4001"] (with_gossip_addr "0.0.0.0:5001" (replication_config_new "pop-sa-1"))) in
  assert_eq (rc_node_id config) "pop-sa-1" && assert_eq (addr_port (rc_gossip_addr config)) (Some 5001) &&
  assert_eq (length (rc_bootstrap_peers config)) 1%nat && assert_eq (rc_cluster_name config) "myproxy".

Definition test_validate_missing_node_id : bool :=
  match rc_validate replication_config_default with Err MissingNodeId => true | _ => false end.

Definition test_validate_missing_cluster_name : bool :=
  match rc_validate (with_cluster_name "" (replication_config_new "node-1")) with
  | Err MissingClusterName => true
  | _ => false
  end.

Definition test_validate_ok : bool := is_ok (rc_validate (replication_config_new "node-1")).

Example replication_config_tests :
  failing
    [("default_config", test_default_config); ("builder_pattern", test_builder_pattern);
     ("validate_missing_node_id", test_validate_missing_node_id);
     ("validate_missing_cluster_name", test_validate_missing_cluster_name); ("validate_ok", test_validate_ok)] = [].
Proof. run_tests. Qed.
End Configs.

(** ** The sync service *)

(** Values in the JSON objects that the tests write. *)
Inductive json_field := JStr (s : string) | JInt (i : Z).

Definition json_object : Type := list (string * json_field).

Definition quote : ascii := ascii_of_nat 34.
Definition json_quoted (s : string) : string := String quote (s +:+ String quote "").

(** Their text. *)
Definition json_text (o : json_object) : string :=
  "{" +:+ String.concat ","
    ((fun kv => json_quoted (fst kv) +:+ ":" +:+
                match snd kv with JStr s => json_quoted s | JInt i => pretty i end) <$> o) +:+ "}".

Definition backend_json (app region wg_ip : string) (port : Z) : json_object :=
  [("app", JStr app); ("region", JStr region); ("wg_ip", JStr wg_ip); ("port", JInt port)].

Definition full_json : json_object :=
  [("app", JStr "fullapp"); ("region", JStr "eu"); ("country", JStr "DE"); ("wg_ip", JStr "10.50.1.1");
   ("port", JInt 9999); ("healthy", JInt 1); ("weight", JInt 5); ("soft_limit", JInt 200); ("hard_limit", JInt 300)].

Definition min_json : json_object := [("app", JStr "minapp")].

(** All objects in the tests; reading finds the one with the given text. *)
Definition test_objects : list json_object :=
  [[]; backend_json "myapp" "sa" "10.0.0.1" 8080; backend_json "myapp" "us" "10.0.0.2" 9000;
   backend_json "old" "sa" "10.0.0.1" 8080; backend_json "new" "us" "10.0.0.2" 9000;
   backend_json "first" "sa" "10.0.0.1" 8080; backend_json "old" "us" "10.0.0.2" 9000;
   backend_json "app1" "sa" "10.0.0.1" 8080; backend_json "app2" "us" "10.0.0.2" 8081;
   backend_json "app3" "eu" "10.0.0.3" 8082; full_json; min_json;
   backend_json "remote-app" "us" "10.0.0.5" 9000].

Definition json_find (o : json_object) (k : string) : option json_field :=
  snd <$> List.find (fun kv => str_eqb (fst kv) k) o.

#[local] Instance test_json : SerdeJson := {|
  json_value := json_object;
  json_from_str s :=
    match List.find (fun o => str_eqb (json_text o) s) test_objects with Some o => Ok o | None => Err "expected value" end;
  json_get_str o k := f ← json_find o k; match f with JStr s => Some s | JInt _ => None end;
  json_get_i64 o k := f ← json_find o k; match f with JInt i => Some i | JStr _ => None end
|}.

Module Syncs.
#[local] Abbreviation sync := (SyncService MemDb).

(** [VersionVector] *)

Definition upd (node : string) (seq : Z) : stmt VersionVector := call (fun v => vv_update v node seq).
Definition at_ (node : string) (seq : Z) : stmt VersionVector := asserts (fun v => vv_get v node =? seq).
Definition seen (node : string) (seq : Z) (expected : bool) : stmt VersionVector :=
  asserts (fun v => Bool.eqb (vv_has_seen v node seq) expected).

Definition test_version_vector_new : bool := run_test vv_new [at_ "any-node" 0].

Definition test_version_vector_get_update : bool :=
  run_test vv_new
    [at_ "node-1" 0; seen "node-1" 1 false; upd "node-1" 5; at_ "node-1" 5;
     seen "node-1" 5 true; seen "node-1" 3 true; seen "node-1" 6 false].

Definition test_version_vector_update_only_increases : bool :=
  run_test vv_new
    [upd "node-1" 10; at_ "node-1" 10; upd "node-1" 5; at_ "node-1" 10; upd "node-1" 15; at_ "node-1" 15].

Definition test_version_vector_has_seen : bool :=
  run_test vv_new
    [seen "unknown" 1 false; seen "unknown" 0 true; upd "node-1" 5; seen "node-1" 0 true; seen "node-1" 1 true;
     seen "node-1" 5 true; seen "node-1" 6 false; seen "node-1" 100 false].

Definition test_version_vector_merge : bool :=
  let vv2 := vv_update (vv_update vv_new "node-1" 3) "node-3" 7 in
  run_test vv_new
    [upd "node-1" 5; upd "node-2" 3; call (fun vv1 => vv_merge vv1 vv2);
     at_ "node-1" 5; at_ "node-2" 3; at_ "node-3" 7].

Definition test_version_vector_merge_empty : bool :=
  run_test vv_new [upd "node-1" 5; call (fun vv1 => vv_merge vv1 vv_new); at_ "node-1" 5].

(** The service on an empty file, and after [init_db().unwrap()]. *)
Definition service : sync := sync_new (mkNodeId "test-node") mem_empty.
Definition init : stmt sync := returns (fun s => let '(s', r) := init_db s in (s', is_ok r)) true.

Definition sequence_is (n : Z) : stmt sync := asserts (fun s => sy_sequence s =? n).
Definition has_seen (node : string) (seq : Z) : stmt sync := asserts (fun s => vv_has_seen (sy_version_vector s) node seq).
Definition pending (n : nat) : stmt sync := asserts (fun s => (length (sy_pending_changes s) =? n)%nat).

(** Each call at a time of its own, in microseconds. *)
Definition record (t : Z) (pk : string) (kind : ChangeKind) (data : string) : stmt sync :=
  call (fun s => fst (record_change s t (t * 1000) (t * 1000 + 50) "backends" pk kind data)).

(** [service.flush().await], with an assertion on its result. *)
Definition flushes (p : option ChangeSet → bool) : stmt sync :=
  returns (fun s => let '(s', r) := flush s in (s', match r with Finished o => p o | Suspended => false end)) true.
Definition flushes_seq (n : Z) : stmt sync := flushes (fun o => match o with Some cs => cs_seq cs =? n | None => false end).

(** [service.apply_changeset(&cs).await]: the number of changes applied. *)
Definition applies (cs : ChangeSet) (n : Z) : stmt sync :=
  returns (fun s => let '(s', r) := apply_changeset 0 s cs in
                    (s', match r with Finished (Ok applied) => applied =? n | _ => false end)) true.

Definition other_node : NodeId := mkNodeId "other-node".
Definition change (t : Z) (pk : string) (kind : ChangeKind) (o : json_object) : Change :=
  Types.change_at t "backends" pk kind (json_text o) other_node.
Definition set_of (seq : Z) (changes : list Change) : ChangeSet := changeset_new other_node seq changes.

(** A column of a backend's row. *)
Definition column (pk : string) (f : BackendRow → SqlValue) (v : SqlValue) : stmt sync :=
  asserts (fun s => assert_eq (f <$> mem_backends (sy_db s) !! pk) (Some v)).
Definition backend_count (n : nat) : stmt sync := asserts (fun s => (size (mem_backends (sy_db s)) =? n)%nat).

Definition test_sync_service_creation : bool := run_test service [sequence_is 0].

Definition test_sync_service_version_vector : bool :=
  run_test service [asserts (fun s => vv_get (sy_version_vector s) "test-node" =? 0)].

Definition test_sync_service_init_db_loads_version_vector : bool :=
  let file := mkMemDb ∅ {[ "node-1" := 10 ]} [] ∅ in
  run_test (sync_new (mkNodeId "node-1") file) [init; sequence_is 10; has_seen "node-1" 10].

Definition test_record_change : bool :=
  let data := json_text (backend_json "myapp" "sa" "10.0.0.1" 8080) in
  let '(_, change) := record_change service 1 1000 1050 "backends" "backend-1" KInsert data in
  assert_eq (ch_table change) "backends" && assert_eq (ch_pk change) "backend-1" &&
  assert_eq (ch_kind change) KInsert && assert_eq (node_str (ch_origin change)) "test-node".

Definition test_record_multiple_changes : bool :=
  run_test service
    [record 1 "b1" KInsert "{}"; record 2 "b2" KInsert "{}"; record 3 "b1" KUpdate "{}"; pending 3].

Definition test_flush_empty : bool := run_test service [flushes assert_none].

Definition test_flush_with_changes : bool :=
  run_test service
    [init; record 1 "backend-1" KInsert "{}";
     flushes (fun result => match result with
                            | Some cs => (cs_seq cs =? 1) && (length (cs_changes cs) =? 1)%nat && cs_verify cs
                            | None => false
                            end);
     sequence_is 1; has_seen "test-node" 1].

Definition test_flush_increments_sequence : bool :=
  run_test service
    [init; record 1 "b1" KInsert "{}"; flushes_seq 1; record 2 "b2" KInsert "{}"; flushes_seq 2;
     record 3 "b3" KInsert "{}"; flushes_seq 3; sequence_is 3].

Definition test_flush_clears_pending : bool :=
  run_test service
    [init; record 1 "b1" KInsert "{}"; record 2 "b2" KInsert "{}"; pending 2; flushes (fun _ => true); pending 0].

Definition test_apply_changeset_invalid_checksum : bool :=
  let cs := mkChangeSet other_node 1 [] 12345 in
  run_test service
    [init; returns (fun s => let '(s', r) := apply_changeset 0 s cs in
                             (s', match r with Finished (Err e) => PrometheusMetrics.contains "checksum" e | _ => false end))
             true].

Definition test_apply_changeset_already_seen : bool :=
  run_test service
    [init; call (fun s => mkSync (sy_node_id s) (sy_db s) (sy_sequence s) (vv_update (sy_version_vector s) "other-node" 5)
                            (sy_pending_changes s) (sy_last_timestamps s) (sy_events s));
     applies (set_of 5 []) 0].

Definition test_apply_changeset_with_backend_insert : bool :=
  run_test service
    [init; applies (set_of 1 [change 10 "backend-1" KInsert (backend_json "myapp" "sa" "10.0.0.1" 8080)]) 1;
     backend_count 1; has_seen "other-node" 1].

Definition test_apply_changeset_with_backend_update : bool :=
  run_test service
    [init; applies (set_of 1 [change 10 "backend-1" KInsert (backend_json "myapp" "sa" "10.0.0.1" 8080)]) 1;
     applies (set_of 2 [change 2010 "backend-1" KUpdate (backend_json "myapp" "us" "10.0.0.2" 9000)]) 1;
     column "backend-1" row_region (SqlText "us")].

Definition test_apply_changeset_with_backend_delete : bool :=
  run_test service
    [init; applies (set_of 1 [change 10 "backend-1" KInsert (backend_json "myapp" "sa" "10.0.0.1" 8080)]) 1;
     applies (set_of 2 [change 2010 "backend-1" KDelete []]) 1; column "backend-1" row_deleted (SqlInteger 1)].

Definition test_apply_changeset_lww_newer_wins : bool :=
  run_test service
    [init; applies (set_of 1 [change 10 "backend-1" KInsert (backend_json "old" "sa" "10.0.0.1" 8080)]) 1;
     applies (set_of 2 [change 2010 "backend-1" KUpdate (backend_json "new" "us" "10.0.0.2" 9000)]) 1;
     column "backend-1" row_app (SqlText "new")].

Definition test_apply_changeset_unknown_table : bool :=
  run_test service
    [init; applies (set_of 1 [Types.change_at 10 "unknown_table" "pk1" KInsert "{}" other_node]) 1].

Definition test_get_changes_since : bool :=
  run_test service
    [init; asserts (fun s => match get_changes_since s "other-node" 0 with Ok [] => true | _ => false end)].

(** [service.persist_version(node, n).unwrap()] *)
Definition persist (node : string) (n : Z) : stmt sync :=
  returns (fun s => match persist_version (sy_db s) node n with
                    | Ok db => (mkSync (sy_node_id s) db (sy_sequence s) (sy_version_vector s) (sy_pending_changes s)
                                  (sy_last_timestamps s) (sy_events s), true)
                    | Err _ => (s, false)
                    end) true.
Definition persisted (node : string) (n : Z) : stmt sync :=
  asserts (fun s => assert_eq (mem_versions (sy_db s) !! node) (Some n)).

Definition test_persist_version : bool :=
  run_test service [init; persist "node-1" 42; persisted "node-1" 42; persist "node-1" 100; persisted "node-1" 100].

(** A change stamped some microseconds before another one. *)
Definition older_than (c : Change) (us : Z) (o : json_object) : Change :=
  mkChange (ch_id c + 1) "backends" (ch_pk c) KUpdate (json_text o) (mkHlc (wall_time (ch_timestamp c) - us) 0 1)
    other_node.

Definition test_apply_changeset_lww_older_ignored : bool :=
  let change_new := change 1000000 "backend-1" KInsert (backend_json "new" "us" "10.0.0.2" 9000) in
  let change_old := older_than change_new 10000 (backend_json "old" "sa" "10.0.0.1" 8080) in
  run_test service
    [init; applies (set_of 2 [change_new]) 1; applies (set_of 3 [change_old]) 0;
     column "backend-1" row_app (SqlText "new")].

Definition test_apply_changeset_lww_from_cache : bool :=
  let change1 := change 1000000 "backend-1" KInsert (backend_json "first" "sa" "10.0.0.1" 8080) in
  let change2 := older_than change1 5000 (backend_json "old" "us" "10.0.0.2" 9000) in
  run_test service
    [init; applies (set_of 1 [change1]) 1;
     asserts (fun s => assert_some (sy_last_timestamps s !! "backends:backend-1")); applies (set_of 2 [change2]) 0].

Definition test_apply_changeset_multiple_changes : bool :=
  run_test service
    [init;
     applies (set_of 1
       [change 10 "b1" KInsert (backend_json "app1" "sa" "10.0.0.1" 8080);
        change 11 "b2" KInsert (backend_json "app2" "us" "10.0.0.2" 8081);
        change 12 "b3" KInsert (backend_json "app3" "eu" "10.0.0.3" 8082)]) 3;
     backend_count 3].

Definition test_flush_sends_broadcast_ready_event : bool :=
  run_test service
    [init; record 1 "b1" KInsert "{}"; flushes (fun _ => true);
     asserts (fun s => match chan_queue (sy_events s) with BroadcastReady cs :: _ => cs_seq cs =? 1 | _ => false end)].

Definition test_apply_changeset_sends_change_applied_event : bool :=
  run_test service
    [init; applies (set_of 1 [change 10 "b1" KInsert (backend_json "app1" "sa" "10.0.0.1" 8080)]) 1;
     asserts (fun s => match chan_queue (sy_events s) with
                       | ChangeApplied c :: _ => assert_eq (ch_table c) "backends" && assert_eq (ch_pk c) "b1"
                       | _ => false
                       end)].

Definition test_backend_insert_with_all_fields : bool :=
  let id := "full-backend" in
  run_test service
    [init; applies (set_of 1 [change 10 id KInsert full_json]) 1;
     column id row_app (SqlText "fullapp"); column id row_region (SqlText "eu"); column id row_country (SqlText "DE");
     column id row_wg_ip (SqlText "10.50.1.1"); column id row_port (SqlInteger 9999); column id row_weight (SqlInteger 5);
     column id row_soft_limit (SqlInteger 200); column id row_hard_limit (SqlInteger 300);
     column id row_healthy (SqlInteger 1)].

Definition test_backend_insert_with_defaults : bool :=
  let id := "minimal-backend" in
  run_test service
    [init; applies (set_of 1 [change 10 id KInsert min_json]) 1;
     column id row_region (SqlText "us"); column id row_weight (SqlInteger 2);
     column id row_soft_limit (SqlInteger 100); column id row_hard_limit (SqlInteger 150)].

Example sync_tests :
  failing
    [("version_vector_new", test_version_vector_new); ("version_vector_get_update", test_version_vector_get_update);
     ("version_vector_update_only_increases", test_version_vector_update_only_increases);
     ("version_vector_has_seen", test_version_vector_has_seen); ("version_vector_merge", test_version_vector_merge);
     ("version_vector_merge_empty", test_version_vector_merge_empty);
     ("sync_service_creation", test_sync_service_creation);
     ("sync_service_version_vector", test_sync_service_version_vector);
     ("sync_service_init_db_loads_version_vector", test_sync_service_init_db_loads_version_vector);
     ("record_change", test_record_change); ("record_multiple_changes", test_record_multiple_changes);
     ("flush_empty", test_flush_empty); ("flush_with_changes", test_flush_with_changes);
     ("flush_increments_sequence", test_flush_increments_sequence); ("flush_clears_pending", test_flush_clears_pending);
     ("apply_changeset_invalid_checksum", test_apply_changeset_invalid_checksum);
     ("apply_changeset_already_seen", test_apply_changeset_already_seen);
     ("apply_changeset_with_backend_insert", test_apply_changeset_with_backend_insert);
     ("apply_changeset_with_backend_update", test_apply_changeset_with_backend_update);
     ("apply_changeset_with_backend_delete", test_apply_changeset_with_backend_delete);
     ("apply_changeset_lww_newer_wins", test_apply_changeset_lww_newer_wins);
     ("apply_changeset_unknown_table", test_apply_changeset_unknown_table);
     ("get_changes_since", test_get_changes_since); ("persist_version", test_persist_version);
     ("apply_changeset_lww_older_ignored", test_apply_changeset_lww_older_ignored);
     ("apply_changeset_lww_from_cache", test_apply_changeset_lww_from_cache);
     ("apply_changeset_multiple_changes", test_apply_changeset_multiple_changes);
     ("flush_sends_broadcast_ready_event", test_flush_sends_broadcast_ready_event);
     ("apply_changeset_sends_change_applied_event", test_apply_changeset_sends_change_applied_event);
     ("backend_insert_with_all_fields", test_backend_insert_with_all_fields);
     ("backend_insert_with_defaults", test_backend_insert_with_defaults)] = [].
Proof. run_tests. Qed.
End Syncs.
