(* ===== verification/GossipTests.v ===== *)
(** * Tests of gossip

    The test module of [src/src/replication/gossip.rs].  A test that inserts into the
    member map of a service does so here too ([insert]). *)

From S2P Require Import Prelude Text NetAddr Channel ReplTypes Gossip Membership Bincode TestKit.

#[local] Abbreviation members := (gmap string Member) (only parsing).

(** [Instant::now()]. *)
Definition gossip_now : instant := from_secs 1000.

(** A member with the given fields; most tests give all members these addresses. *)
Definition member (id ga ta : string) (state : MemberState) (last_seen : instant) (incarnation : Z) : Member :=
  mkMember (mkNodeId id) ga ta state last_seen incarnation.
Definition local_member (id : string) (state : MemberState) (age : duration) (incarnation : Z) : Member :=
  member id "127.0.0.1:4001" "127.0.0.1:4002" state (gossip_now - age) incarnation.

Definition gossip_service : GossipService := gossip_new (replication_config_new "test-node").

(** [service.members.write().insert(id, member)] *)
Definition insert (m : Member) : stmt GossipService :=
  call (fun g => mkGossip (gs_config g) (<[node_str (mb_node_id m) := m]> (gs_members g)) (gs_events g) (gs_shutdown g)).

Definition members_are (n : nat) : stmt GossipService := asserts (fun g => (length (gs_all_members g) =? n)%nat).
Definition alive_are (ids : list string) : stmt GossipService :=
  asserts (fun g => assert_eq ((fun m => node_str (mb_node_id m)) <$> alive_members g) ids).
Definition alive_count (n : nat) : stmt GossipService := asserts (fun g => (length (alive_members g) =? n)%nat).
Definition found (id : string) (f : Member → bool) : stmt GossipService :=
  asserts (fun g => match get_member g id with Some m => f m | None => false end).
Definition not_found (id : string) : stmt GossipService := asserts (fun g => assert_none (get_member g id)).
Definition shut (b : bool) : stmt GossipService := asserts (fun g => eqb (gs_is_shutdown g) b).

(** ** Members and the service *)

Definition test_member_state : bool :=
  assert_eq MAlive MAlive && assert_ne MAlive MDead && assert_ne MAlive MSuspect && assert_ne MDead MSuspect.

Definition test_member_creation : bool :=
  let m := local_member "node-1" MAlive 0 0 in
  assert_eq (node_str (mb_node_id m)) "node-1" && assert_eq (mb_state m) MAlive && assert_eq (mb_incarnation m) 0.

Definition test_gossip_service_creation : bool :=
  run_test (gossip_new (with_gossip_addr "127.0.0.1:4001" (replication_config_new "test-node"))) [members_are 0;
      shut false].

Definition test_gossip_service_shutdown : bool :=
  run_test gossip_service [shut false; call gs_signal_shutdown; shut true].

Definition test_gossip_service_get_member_none : bool := run_test gossip_service [not_found "nonexistent"].

Definition test_gossip_service_alive_members_empty : bool := run_test gossip_service [alive_are []].

Definition test_gossip_service_members_with_data : bool :=
  run_test gossip_service
    [insert (local_member "peer-1" MAlive 0 1); members_are 1; alive_count 1;
     found "peer-1" (fun m => assert_eq (node_str (mb_node_id m)) "peer-1")].

Definition test_gossip_service_alive_members_filters_dead : bool :=
  run_test gossip_service
    [insert (local_member "alive-node" MAlive 0 1); insert (local_member "dead-node" MDead 0 1);
     insert (local_member "suspect-node" MSuspect 0 1); members_are 3; alive_are ["alive-node"]].

(** Binding the socket succeeds. *)
Definition start_with (cfg : ReplicationConfig) : bool :=
  is_ok (@gossip_start {| gossip_serialize _ := Ok ""; gossip_deserialize _ := Err "" |} (Ok tt) (gossip_new cfg)).

Definition test_gossip_service_start_and_shutdown : bool :=
  let config := with_gossip_addr "127.0.0.1:0" (replication_config_new "test-node") in
  start_with config && run_test (gossip_new config) [call gs_signal_shutdown; shut true].

Definition test_gossip_service_start_with_bootstrap_peers : bool :=
  start_with (with_bootstrap_peers ["127.0.0.1:9999"]
                (with_gossip_addr "127.0.0.1:0" (replication_config_new "test-node"))).

Definition test_gossip_service_add_member_directly : bool :=
  run_test gossip_service
    [insert (local_member "direct-member" MAlive 0 10); found "direct-member" (fun m => mb_incarnation m =? 10)].

Definition test_gossip_service_member_state_transitions : bool :=
  run_test gossip_service
    [insert (local_member "state-member" MAlive 0 1); alive_count 1;
     insert (local_member "state-member" MSuspect 0 1); alive_count 0;
     insert (local_member "state-member" MDead 0 1); members_are 1; alive_count 0].

Definition test_gossip_service_multiple_members_states : bool :=
  run_test gossip_service
    (((fun p => insert (local_member (fst p) (snd p) 0 1)) <$>
        [("alive-1", MAlive); ("alive-2", MAlive); ("suspect-1", MSuspect); ("dead-1", MDead)]) ++
     [members_are 4; alive_count 2]).

Definition test_gossip_service_shutdown_idempotent : bool :=
  run_test gossip_service [shut false; call gs_signal_shutdown; shut true; call gs_signal_shutdown; shut true].

Definition test_gossip_service_get_member_not_found : bool :=
  run_test (gossip_new replication_config_default)
    [not_found "unknown"; insert (local_member "found" MAlive 0 5); found "found" (fun m => mb_incarnation m =? 5)].

(** ** Results *)

Definition test_process_result_empty : bool :=
  match pr_actions result_empty with [] => negb (pr_member_discovered result_empty) | _ => false end.

Definition test_process_result_send : bool :=
  let addr := "127.0.0.1:4001" in
  match pr_actions (result_send addr (create_ping "test" addr addr 1)) with
  | [ASend to _] => assert_eq to addr
  | _ => false
  end.

Definition test_process_result_with_action : bool :=
  match pr_actions (with_action result_empty ANone) with [ANone] => true | _ => false end.

Definition test_process_result_with_member_discovered : bool :=
  pr_member_discovered (with_member_discovered result_empty).

Definition test_process_result_chaining : bool :=
  let addr := "127.0.0.1:4001" in
  let result := with_action (with_member_discovered (with_action result_empty ANone))
                  (ASend addr (create_ping "test" addr addr 1)) in
  assert_eq (length (pr_actions result)) 2%nat && pr_member_discovered result.

Definition test_process_result_chain_builder : bool :=
  let addr := "127.0.0.1:4001" in
  let result := with_member_discovered (with_action (with_action result_empty ANone)
                  (ASend addr (create_ping "test" addr addr 1))) in
  pr_member_discovered result && assert_eq (length (pr_actions result)) 2%nat.

(** ** Processing a message *)

Definition gossip_local : LocalNode := mkLocal "local-node" "127.0.0.1:4001" "127.0.0.1:4002" 1.

(** [process_message(&msg, src, &members, "local-node", .., 1)] and assertions on the
    map and the result. *)
Definition processes (msg : GossipMessage) (src : string) (ms : members)
    (p : members → list GossipAction → bool → bool) : bool :=
  let '(ms', result) := process_message gossip_now msg src ms gossip_local in
  p ms' (pr_actions result) (pr_member_discovered result).

Definition test_process_message_ping_new_member : bool :=
  let src := "10.0.0.5:5000" in
  processes (GPing "peer-1" "10.0.0.1:4001" "10.0.0.1:4002" 5) src ∅ (fun ms actions discovered =>
    discovered && assert_some (ms !! "peer-1") &&
    match actions with
    | [ASend to (GAck sender_id _ _ _); AEmit (MemberJoined m)] =>
        assert_eq to src && assert_eq sender_id "local-node" &&
        assert_eq (node_str (mb_node_id m)) "peer-1" && assert_eq (mb_incarnation m) 5
    | _ => false
    end).

(** A peer that is known already. *)
Definition known_peer (id ip : string) (incarnation : Z) : members :=
  {[ id := member id (ip +:+ ":4001") (ip +:+ ":4002") MAlive gossip_now incarnation ]}.

Definition test_process_message_ping_existing_member : bool :=
  processes (GPing "peer-1" "10.0.0.1:4001" "10.0.0.1:4002" 5) "10.0.0.5:5000" (known_peer "peer-1" "10.0.0.1" 1)
    (fun _ actions discovered => negb discovered && match actions with [ASend _ _] => true | _ => false end).

Definition test_process_message_ack_new_member : bool :=
  processes (GAck "peer-2" "10.0.0.2:4001" "10.0.0.2:4002" 10) "10.0.0.5:5000" ∅ (fun _ actions discovered =>
    discovered &&
    match actions with
    | [AEmit (MemberJoined m)] => assert_eq (node_str (mb_node_id m)) "peer-2" && assert_eq (mb_incarnation m) 10
    | _ => false
    end).

Definition test_process_message_ack_existing_member : bool :=
  processes (GAck "peer-2" "10.0.0.2:4001" "10.0.0.2:4002" 10) "10.0.0.5:5000" (known_peer "peer-2" "10.0.0.2" 5)
    (fun _ actions discovered => negb discovered && match actions with [] => true | _ => false end).

Definition test_process_message_join_new_member : bool :=
  let src := "10.0.0.3:5000" in
  processes (GJoin "new-peer" "10.0.0.3:4001" "10.0.0.3:4002") src ∅ (fun _ actions discovered =>
    discovered &&
    match actions with
    | [ASend to (GMemberList (_ :: _)); AEmit (MemberJoined m)] =>
        assert_eq to src && assert_eq (node_str (mb_node_id m)) "new-peer"
    | _ => false
    end).

Definition test_process_message_member_list : bool :=
  processes
    (GMemberList [("peer-1", "10.0.0.1:4001", "10.0.0.1:4002", 1); ("peer-2", "10.0.0.2:4001", "10.0.0.2:4002", 2);
                  ("local-node", "127.0.0.1:4001", "127.0.0.1:4002", 1)]) "10.0.0.5:5000" ∅
    (fun ms actions discovered =>
       discovered && assert_eq (length actions) 2%nat &&
       forallb (fun a => match a with AEmit (MemberJoined _) => true | _ => false end) actions &&
       assert_eq (size ms) 2%nat && assert_some (ms !! "peer-1") && assert_some (ms !! "peer-2") &&
       assert_none (ms !! "local-node")).

Definition test_process_message_member_list_empty : bool :=
  processes (GMemberList []) "10.0.0.5:5000" ∅
    (fun _ actions discovered => negb discovered && match actions with [] => true | _ => false end).

(** ** Failures and ping targets *)

Definition map_of (l : list Member) : members := list_to_map ((fun m => (node_str (mb_node_id m), m)) <$> l).

Definition no_failures (l : list Member) : bool :=
  match snd (check_member_failures gossip_now (map_of l) (from_secs 30)) with [] => true | _ => false end.

Definition test_check_member_failures_no_failures : bool := no_failures [local_member "alive" MAlive 0 1].

Definition test_check_member_failures_with_failure : bool :=
  let '(ms, actions) :=
    check_member_failures gossip_now (map_of [local_member "stale" MAlive (from_secs 60) 1]) (from_secs 30) in
  match actions with
  | [AEmit (MemberStateChanged node_id old_state new_state); AEmit (MemberLeft left_id)] =>
      assert_eq (node_str node_id) "stale" && assert_eq old_state MAlive && assert_eq new_state MDead &&
      assert_eq (node_str left_id) "stale"
  | _ => false
  end && assert_eq (mb_state <$> ms !! "stale") (Some MDead).

Definition test_check_member_failures_already_dead : bool := no_failures [local_member "dead" MDead (from_secs 60) 1].

Definition test_check_member_failures_suspect_not_transitioned : bool :=
  no_failures [local_member "suspect" MSuspect (from_secs 60) 1].

Definition test_select_ping_target_empty (random : Z) : bool := assert_none (select_ping_target random ∅).

Definition test_select_ping_target_with_members (random : Z) : bool :=
  assert_eq (select_ping_target random (known_peer "peer-1" "10.0.0.1" 1)) (Some "10.0.0.1:4001").

Definition test_select_ping_target_skips_dead (random : Z) : bool :=
  assert_eq
    (select_ping_target random
       (map_of [member "dead" "10.0.0.1:4001" "10.0.0.1:4002" MDead gossip_now 1;
                member "alive" "10.0.0.2:4001" "10.0.0.2:4002" MAlive gossip_now 1])) (Some "10.0.0.2:4001").

Definition test_select_ping_target_all_members_dead (random : Z) : bool :=
  assert_none
    (select_ping_target random
       (map_of [member "dead1" "10.0.0.1:4001" "10.0.0.1:4002" MDead gossip_now 1;
                member "dead2" "10.0.0.2:4001" "10.0.0.2:4002" MDead gossip_now 1])).

Definition test_create_ping : bool :=
  match create_ping "my-node" "127.0.0.1:4001" "127.0.0.1:4002" 42 with
  | GPing sender_id ga ta incarnation =>
      assert_eq sender_id "my-node" && assert_eq ga "127.0.0.1:4001" && assert_eq ta "127.0.0.1:4002" &&
      assert_eq incarnation 42
  | _ => false
  end.

Definition test_create_join : bool :=
  match create_join "joining-node" "127.0.0.1:4001" "127.0.0.1:4002" with
  | GJoin node_id ga ta =>
      assert_eq node_id "joining-node" && assert_eq ga "127.0.0.1:4001" && assert_eq ta "127.0.0.1:4002"
  | _ => false
  end.

Definition test_member_partial_eq : bool :=
  member_eqb (local_member "test" MAlive 0 1) (local_member "test" MAlive (from_secs 10) 1).

Definition test_member_partial_eq_different : bool :=
  negb (member_eqb (local_member "test-1" MAlive 0 1) (local_member "test-2" MAlive 0 1)).

#[local] Instance member_eq_dec : EqDecision Member.
Proof. solve_decision. Defined.
#[local] Instance gossip_event_eq_dec : EqDecision GossipEvent.
Proof. solve_decision. Defined.

(** Events hold one member each, seen at one time. *)
Definition test_gossip_event_partial_eq : bool :=
  let m := local_member "test" MAlive 0 1 in
  assert_eq (MemberJoined m) (MemberJoined m) && assert_ne (MemberJoined m) (MemberLeft (mkNodeId "test")).

Definition test_member_state_eq_variants : bool :=
  assert_eq MAlive MAlive && assert_ne MAlive MSuspect && assert_ne MSuspect MDead.

Definition test_member_with_high_incarnation : bool :=
  assert_eq (mb_incarnation (local_member "high-incarn" MAlive 0 U64_MAX)) U64_MAX.

(** ** Encoding *)

(** [bincode::deserialize(&bincode::serialize(&msg).unwrap()).unwrap()]. *)
Definition gossip_back (m : GossipMessage) : option GossipMessage :=
  match gossip_serialize m with Ok data => result_ok (gossip_deserialize data) | Err _ => None end.

(** Addresses are equal when their texts read as the same address. *)
Definition same_addr (a b : string) : bool := assert_eq (parse_socket_addr a) (parse_socket_addr b).

Definition test_gossip_message_ping_serialization : bool :=
  match gossip_back (GPing "node-1" "127.0.0.1:4001" "127.0.0.1:4002" 1) with
  | Some (GPing sender_id ga ta incarnation) =>
      assert_eq sender_id "node-1" && assert_eq incarnation 1 && same_addr ga "127.0.0.1:4001" &&
      same_addr ta "127.0.0.1:4002"
  | _ => false
  end.

Definition test_gossip_message_ack_serialization : bool :=
  match gossip_back (GAck "node-2" "127.0.0.1:5001" "127.0.0.1:5002" 42) with
  | Some (GAck sender_id _ _ incarnation) => assert_eq sender_id "node-2" && assert_eq incarnation 42
  | _ => false
  end.

Definition test_gossip_message_join_serialization : bool :=
  match gossip_back (GJoin "new-node" "10.0.0.1:4001" "10.0.0.1:4002") with
  | Some (GJoin node_id ga ta) =>
      assert_eq node_id "new-node" && same_addr ga "10.0.0.1:4001" && same_addr ta "10.0.0.1:4002"
  | _ => false
  end.

Definition test_gossip_message_member_list_serialization : bool :=
  match gossip_back (GMemberList [("node-1", "127.0.0.1:4001", "127.0.0.1:4002", 1);
                                  ("node-2", "127.0.0.2:4001", "127.0.0.2:4002", 2)]) with
  | Some (GMemberList members) => assert_eq ((fun e => e.1.1.1) <$> members) ["node-1"; "node-2"]
  | _ => false
  end.

Definition test_gossip_message_empty_member_list : bool :=
  match gossip_back (GMemberList []) with Some (GMemberList members) => assert_eq members [] | _ => false end.

Definition test_gossip_message_with_ipv6 : bool :=
  match gossip_back (GPing "ipv6-node" "[::1]:4001" "[::1]:4002" 1) with
  | Some (GPing _ ga ta _) => assert_eq ga "[::1]:4001" && assert_eq ta "[::1]:4002"
  | _ => false
  end.

Definition test_gossip_message_bincode_all_variants : bool :=
  let comes_back m := assert_eq (gossip_back m) (Some m) in
  comes_back (GPing "node-1" "127.0.0.1:4001" "127.0.0.1:4002" 1) &&
  comes_back (GAck "node-1" "127.0.0.1:4001" "127.0.0.1:4002" 1) &&
  comes_back (GJoin "node-1" "127.0.0.1:4001" "127.0.0.1:4002") &&
  comes_back (GMemberList [("node-1", "127.0.0.1:4001", "127.0.0.1:4002", 1)]).

Example gossip_tests :
  failing
    [("member_state", test_member_state); ("member_creation", test_member_creation);
     ("gossip_service_creation", test_gossip_service_creation);
     ("gossip_service_shutdown", test_gossip_service_shutdown);
     ("gossip_service_get_member_none", test_gossip_service_get_member_none);
     ("gossip_service_alive_members_empty", test_gossip_service_alive_members_empty);
     ("gossip_service_members_with_data", test_gossip_service_members_with_data);
     ("gossip_service_alive_members_filters_dead", test_gossip_service_alive_members_filters_dead);
     ("gossip_service_start_and_shutdown", test_gossip_service_start_and_shutdown);
     ("gossip_service_start_with_bootstrap_peers", test_gossip_service_start_with_bootstrap_peers);
     ("gossip_service_add_member_directly", test_gossip_service_add_member_directly);
     ("gossip_service_member_state_transitions", test_gossip_service_member_state_transitions);
     ("gossip_service_multiple_members_states", test_gossip_service_multiple_members_states);
     ("gossip_service_shutdown_idempotent", test_gossip_service_shutdown_idempotent);
     ("gossip_service_get_member_not_found", test_gossip_service_get_member_not_found);
     ("process_result_empty", test_process_result_empty); ("process_result_send", test_process_result_send);
     ("process_result_with_action", test_process_result_with_action);
     ("process_result_with_member_discovered", test_process_result_with_member_discovered);
     ("process_result_chaining", test_process_result_chaining);
     ("process_result_chain_builder", test_process_result_chain_builder);
     ("process_message_ping_new_member", test_process_message_ping_new_member);
     ("process_message_ping_existing_member", test_process_message_ping_existing_member);
     ("process_message_ack_new_member", test_process_message_ack_new_member);
     ("process_message_ack_existing_member", test_process_message_ack_existing_member);
     ("process_message_join_new_member", test_process_message_join_new_member);
     ("process_message_member_list", test_process_message_member_list);
     ("process_message_member_list_empty", test_process_message_member_list_empty);
     ("check_member_failures_no_failures", test_check_member_failures_no_failures);
     ("check_member_failures_with_failure", test_check_member_failures_with_failure);
     ("check_member_failures_already_dead", test_check_member_failures_already_dead);
     ("check_member_failures_suspect_not_transitioned", test_check_member_failures_suspect_not_transitioned);
     ("create_ping", test_create_ping); ("create_join", test_create_join);
     ("member_partial_eq", test_member_partial_eq);
     ("member_partial_eq_different", test_member_partial_eq_different);
     ("gossip_event_partial_eq", test_gossip_event_partial_eq);
     ("member_state_eq_variants", test_member_state_eq_variants);
     ("member_with_high_incarnation", test_member_with_high_incarnation);
     ("gossip_message_ping_serialization", test_gossip_message_ping_serialization);
     ("gossip_message_ack_serialization", test_gossip_message_ack_serialization);
     ("gossip_message_join_serialization", test_gossip_message_join_serialization);
     ("gossip_message_member_list_serialization", test_gossip_message_member_list_serialization);
     ("gossip_message_empty_member_list", test_gossip_message_empty_member_list);
     ("gossip_message_with_ipv6", test_gossip_message_with_ipv6);
     ("gossip_message_bincode_all_variants", test_gossip_message_bincode_all_variants)] = [].
Proof. run_tests. Qed.

(** With one member alive every random number finds that one. *)
Lemma one_alive_target random ms addr : alive_addrs ms = [addr] → select_ping_target random ms = Some addr.
Proof. intros Hms. unfold select_ping_target. rewrite Hms. by rewrite Z.mod_1_r. Qed.

(** The tests that draw a random number hold for every one. *)
Lemma ping_target_tests random :
  failing
    [("select_ping_target_empty", test_select_ping_target_empty random);
     ("select_ping_target_with_members", test_select_ping_target_with_members random);
     ("select_ping_target_skips_dead", test_select_ping_target_skips_dead random);
     ("select_ping_target_all_members_dead", test_select_ping_target_all_members_dead random)] = [].
Proof.
  unfold test_select_ping_target_with_members, test_select_ping_target_skips_dead.
  rewrite (one_alive_target random _ "10.0.0.1:4001") by (vm_compute; reflexivity).
  rewrite (one_alive_target random _ "10.0.0.2:4001") by (vm_compute; reflexivity).
  vm_compute. reflexivity.
Qed.
