(* ===== verification/ApiTests.v ===== *)
(** * Unit tests of the registration API

    [mod tests] of [src/src/adapters/inbound/api_server.rs] on [ApiServer]; the HTTP
    tests send requests of [plain_axum] through the router. *)

From S2P Require Import Prelude Text Domain ApiServer TestKit.

(** When the tests start. *)
Definition api_start : instant := from_secs 1000.

Definition api_request (id region : string) (country : option string) (ip : string) : RegisterRequest :=
  mkRegisterRequest id "myapp" region country ip 8080 2 100 150.

Definition test_1 : RegisterRequest := api_request "test-1" "eu" None "10.0.0.1".
Definition backend_1 : RegisterRequest := api_request "backend-1" "eu" None "10.0.0.1".

Definition registers (req : RegisterRequest) : stmt ApiState := call (fun a => fst (api_register api_start a req)).
Definition registered_are (n : nat) : stmt ApiState := asserts (fun a => (size (api_backends a) =? n)%nat).
Definition entry_is (id : string) (p : Backend → bool) : stmt ApiState :=
  asserts (fun a => match api_backends a !! id with Some r => p (rg_backend r) | None => false end).
Definition cleans_up (now : instant) (removed : Z) : stmt ApiState :=
  returns (fun a => let '(a', n) := api_cleanup_expired now a in (a', n =? removed)) true.

(** [app.oneshot(request)] on the router: the status of the answer. *)
Definition serves (method path : string) (body : list (string * json_scalar)) (status : Z) : stmt ApiState :=
  returns (fun a => let '(a', (s, _)) := api_serve "0.2.0" api_start a (mkPlainRequest method path body) in
                    (a', s =? status)) true.

Definition register_body (id : string) : list (string * json_scalar) :=
  [("id", JsonString id); ("app", JsonString "myapp"); ("region", JsonString "eu");
   ("ip", JsonString "10.0.0.1"); ("port", JsonNumber 8080)].

Definition test_api_state_new : bool :=
  assert_eq (api_heartbeat_ttl (api_new 60)) (from_secs 60) && run_test (api_new 60) [registered_are 0].

Definition test_register_backend : bool :=
  run_test (api_new 60) [registers test_1; registered_are 1; entry_is "test-1" (fun _ => true)].

Definition test_heartbeat : bool :=
  run_test (api_new 60)
    [registers test_1; returns (fun a => heartbeat api_start a "test-1") true;
     returns (fun a => heartbeat api_start a "nonexistent") false].

Definition test_deregister : bool :=
  run_test (api_new 60)
    [registers test_1; returns (fun a => deregister a "test-1") true; returns (fun a => deregister a "test-1") false;
     registered_are 0].

Definition test_get_healthy_backends : bool :=
  run_test (api_new 60)
    [registers (api_request "eu-1" "eu" (Some "DE") "10.0.0.1");
     registers (api_request "us-1" "us" (Some "US") "10.0.0.2");
     asserts (fun a => (length (get_healthy_backends api_start a) =? 2)%nat)].

Definition test_get_all_backends : bool :=
  run_test (api_new 60)
    [registers (api_request "eu-1" "eu" None "10.0.0.1");
     asserts (fun a => assert_eq (bs_id <$> get_all_backends api_start a) ["eu-1"])].

Definition test_default_values : bool :=
  assert_eq default_weight 2 && assert_eq default_soft_limit 100 && assert_eq default_hard_limit 150.

Definition test_register_with_country : bool :=
  let registered := snd (api_register api_start (api_new 60) (api_request "test-1" "eu" (Some "FR") "10.0.0.1")) in
  assert_eq (be_country (rg_backend registered)) "FR" && assert_eq (be_region (rg_backend registered)) Europe.

Definition test_register_updates_existing : bool :=
  run_test (api_new 60)
    [registers test_1;
     registers (mkRegisterRequest "test-1" "myapp" "eu" None "10.0.0.99" 9090 5 200 300);
     registered_are 1;
     entry_is "test-1" (fun b => assert_eq (be_wg_ip b) "10.0.0.99" && assert_eq (be_port b) 9090 &&
                                 assert_eq (be_weight b) 5)].

Definition test_get_all_backends_with_multiple_regions : bool :=
  run_test (api_new 60)
    [registers (api_request "sa-1" "sa" (Some "BR") "10.0.0.1");
     registers (mkRegisterRequest "ap-1" "myapp" "ap" (Some "JP") "10.0.0.2" 8080 3 50 75);
     asserts (fun a => (length (get_all_backends api_start a) =? 2)%nat)].

Definition test_cleanup_expired_removes_old_backends : bool :=
  run_test (api_new 0)
    [registers test_1; registered_are 1; cleans_up (api_start + from_millis 10) 1; registered_are 0].

Definition test_cleanup_expired_keeps_fresh_backends : bool :=
  run_test (api_new 3600) [registers test_1; cleans_up api_start 0; registered_are 1].

Definition test_api_server_new : bool :=
  let server := api_server_new "0.0.0.0:8081" 60 in
  assert_eq (as_listen_addr server) "0.0.0.0:8081" && assert_eq (api_heartbeat_ttl (as_state server)) (from_secs 60).

(** Clones of the state share the map, so they are one state here. *)
Definition test_api_server_state_clone : bool :=
  run_test (as_state (api_server_new "0.0.0.0:8081" 60)) [registers test_1; registered_are 1].

Definition test_api_state_clone : bool := run_test (api_new 60) [registers test_1; registered_are 1].

Definition test_register_all_regions : bool :=
  run_test (api_new 60)
    (((fun rc => registers (api_request (fst rc +:+ "-1") (fst rc) (Some (snd rc)) "10.0.0.1")) <$>
        [("sa", "BR"); ("us", "US"); ("eu", "DE"); ("ap", "JP")]) ++
     [registered_are 4;
      entry_is "sa-1" (fun b => assert_eq (be_region b) SouthAmerica);
      entry_is "us-1" (fun b => assert_eq (be_region b) NorthAmerica);
      entry_is "eu-1" (fun b => assert_eq (be_region b) Europe);
      entry_is "ap-1" (fun b => assert_eq (be_region b) AsiaPacific)]).

Definition test_backend_status_healthy_reflects_ttl : bool :=
  run_test (api_new 3600)
    [registers test_1; asserts (fun a => assert_eq (bs_healthy <$> get_all_backends api_start a) [true])].

Definition test_health_handler : bool := run_test (api_new 60) [serves "GET" "/health" [] 200].

Definition test_register_handler : bool :=
  run_test (api_new 60) [serves "POST" "/api/v1/register" (register_body "backend-1") 201].

Definition test_heartbeat_handler_success : bool :=
  run_test (api_new 60) [registers backend_1; serves "POST" "/api/v1/heartbeat/backend-1" [] 200].

Definition test_heartbeat_handler_not_found : bool :=
  run_test (api_new 60) [serves "POST" "/api/v1/heartbeat/nonexistent" [] 404].

Definition test_deregister_handler_success : bool :=
  run_test (api_new 60) [registers backend_1; serves "DELETE" "/api/v1/backends/backend-1" [] 200].

Definition test_deregister_handler_not_found : bool :=
  run_test (api_new 60) [serves "DELETE" "/api/v1/backends/nonexistent" [] 404].

Definition test_list_backends_handler_empty : bool := run_test (api_new 60) [serves "GET" "/api/v1/backends" [] 200].

Definition test_list_backends_handler_with_backends : bool :=
  run_test (api_new 60) [registers backend_1; serves "GET" "/api/v1/backends" [] 200].

Definition test_get_backend_handler_success : bool :=
  run_test (api_new 60) [registers backend_1; serves "GET" "/api/v1/backends/backend-1" [] 200].

Definition test_get_backend_handler_not_found : bool :=
  run_test (api_new 60) [serves "GET" "/api/v1/backends/nonexistent" [] 404].

(** The cleanup task has ticked at once and after a second. *)
Definition test_start_cleanup_task_removes_expired : bool :=
  run_test (as_state (api_server_new "127.0.0.1:0" 0))
    [registers test_1; registered_are 1;
     call (fun a => api_event_step "0.2.0" a (ApiTick api_start));
     call (fun a => api_event_step "0.2.0" a (ApiTick (api_start + from_secs 1))); registered_are 0].

Definition test_cleanup_expired_no_tracing_when_zero : bool :=
  run_test (api_new 3600) [registers test_1; cleans_up api_start 0; registered_are 1].

(** The server's answers over its socket. *)
Definition test_full_lifecycle : bool :=
  run_test (as_state (api_server_new "127.0.0.1:8081" 60))
    [serves "GET" "/health" [] 200;
     serves "POST" "/api/v1/register" (register_body "test-backend") 201;
     serves "GET" "/api/v1/backends" [] 200;
     serves "GET" "/api/v1/backends/test-backend" [] 200;
     serves "POST" "/api/v1/heartbeat/test-backend" [] 200;
     serves "DELETE" "/api/v1/backends/test-backend" [] 200].

Example api_tests :
  failing
    [("api_state_new", test_api_state_new); ("register_backend", test_register_backend);
     ("heartbeat", test_heartbeat); ("deregister", test_deregister);
     ("get_healthy_backends", test_get_healthy_backends); ("get_all_backends", test_get_all_backends);
     ("default_values", test_default_values); ("register_with_country", test_register_with_country);
     ("register_updates_existing", test_register_updates_existing);
     ("get_all_backends_with_multiple_regions", test_get_all_backends_with_multiple_regions);
     ("cleanup_expired_removes_old_backends", test_cleanup_expired_removes_old_backends);
     ("cleanup_expired_keeps_fresh_backends", test_cleanup_expired_keeps_fresh_backends);
     ("api_server_new", test_api_server_new); ("api_server_state_clone", test_api_server_state_clone);
     ("api_state_clone", test_api_state_clone); ("register_all_regions", test_register_all_regions);
     ("backend_status_healthy_reflects_ttl", test_backend_status_healthy_reflects_ttl);
     ("health_handler", test_health_handler); ("register_handler", test_register_handler);
     ("heartbeat_handler_success", test_heartbeat_handler_success);
     ("heartbeat_handler_not_found", test_heartbeat_handler_not_found);
     ("deregister_handler_success", test_deregister_handler_success);
     ("deregister_handler_not_found", test_deregister_handler_not_found);
     ("list_backends_handler_empty", test_list_backends_handler_empty);
     ("list_backends_handler_with_backends", test_list_backends_handler_with_backends);
     ("get_backend_handler_success", test_get_backend_handler_success);
     ("get_backend_handler_not_found", test_get_backend_handler_not_found);
     ("start_cleanup_task_removes_expired", test_start_cleanup_task_removes_expired);
     ("cleanup_expired_no_tracing_when_zero", test_cleanup_expired_no_tracing_when_zero);
     ("full_lifecycle", test_full_lifecycle)] = [].
Proof. run_tests. Qed.
