(* ===== verification/DnsTests.v ===== *)
(** * Unit tests of the DNS server

    [mod tests] of [src/src/adapters/inbound/dns_server.rs] on [DnsServer].  The
    handler runs on a proxy service over a mock backend repository and the DashMap
    stores; packets are those the test instance of the wire format knows. *)

From S2P Require Import Prelude Text Parse NetAddr Domain LoadBalancer Ports ProxyService.
From S2P Require Import Geo BindingRepo Metrics BackendRepos DnsServer TestKit ProxyTests.
From Stdlib Require Import Ascii.

(** The service of these tests; their [MockBackendRepository] is the mock of
    [ProxyTests]. *)
#[local] Abbreviation dns_service :=
  (ProxyService MockBackendRepo DashMapBindingRepository DashMapMetricsStore MockGeoResolver).

Definition dns_test_backend (id app ip : string) : Backend := mkBackend id app Europe "DE" ip 8080 true 2 100 150.

Definition create_proxy_service (backends : list Backend) : dns_service :=
  mkProxy (mkMockBackendRepo backends) binding_repo_new None dm_store_new Europe.

Definition one_backend (ip : string) : dns_service := create_proxy_service [dns_test_backend "eu-1" "myapp" ip].

(** [handler.resolve(&name, client_ip).await] of a fresh handler. *)
Definition resolves (geo : option MockGeoResolver) (s : dns_service) (name client : string) : option Z :=
  snd (dns_resolve dns_config_default geo 10 11 s name (parse_ip client)).

Definition dns_app : string := "10.50.1.1".

(** ** Configuration and names *)

Definition test_dns_config_default : bool :=
  assert_eq (dns_domain dns_config_default) "internal" && assert_eq (dns_ttl dns_config_default) 30.

Definition test_dns_config_custom : bool :=
  let config := mkDnsConfig "mycompany.local" 60 in
  assert_eq (dns_domain config) "mycompany.local" && assert_eq (dns_ttl config) 60.

Definition test_parse_domain_suffix : bool :=
  let trimmed := trim_end_matches "."%char "myapp.internal." in
  assert_eq trimmed "myapp.internal" && ends_with trimmed ".internal" &&
  assert_eq (strip_suffix trimmed ".internal") (Some "myapp").

Definition test_parse_nested_domain : bool :=
  assert_eq (strip_suffix (trim_end_matches "."%char "api.myapp.internal.") ".internal") (Some "api.myapp").

Definition test_parse_domain_exact_match : bool := assert_eq (trim_end_matches "."%char "internal.") "internal".

Definition test_dns_server_new : bool :=
  assert_eq (ds_listen_addr (dns_server_new "0.0.0.0:5353" (None : option MockGeoResolver) "internal")) "0.0.0.0:5353".

Definition test_dns_server_new_custom_domain : bool :=
  assert_eq (ds_listen_addr (dns_server_new "127.0.0.1:5354" (None : option MockGeoResolver) "custom.local"))
    "127.0.0.1:5354".

(** ** [resolve] *)

Definition test_dns_handler_resolve_with_backend : bool :=
  let result := resolves None (one_backend dns_app) "myapp.internal." "192.168.1.1" in
  assert_some result && assert_eq result (parse_ipv4 "10.50.1.1").

Definition test_dns_handler_resolve_no_backend : bool :=
  assert_none (resolves None (create_proxy_service []) "myapp.internal." "192.168.1.1").

Definition test_dns_handler_resolve_wrong_domain : bool :=
  assert_none (resolves None (one_backend dns_app) "myapp.external." "192.168.1.1").

Definition test_dns_handler_resolve_root_domain : bool :=
  assert_some (resolves None (one_backend dns_app) "internal." "192.168.1.1").

Definition test_dns_handler_resolve_ipv6_backend_returns_none : bool :=
  assert_none (resolves None (one_backend "2001:db8::1") "myapp.internal." "192.168.1.1").

Definition test_dns_handler_resolve_localhost_client : bool :=
  assert_some (resolves None (one_backend dns_app) "myapp.internal." "127.0.0.1").

Definition test_ipv4_parse_valid : bool :=
  assert_eq (parse_ipv4 "10.50.1.1") (Some (((10 * 256 + 50) * 256 + 1) * 256 + 1)).

Definition test_ipv4_parse_invalid : bool := assert_none (parse_ipv4 "2001:db8::1").

Definition test_dns_handler_resolve_different_app_name : bool :=
  assert_some (resolves None (create_proxy_service [dns_test_backend "eu-1" "api" dns_app])
                 "webapp.internal." "192.168.1.1").

(** The resolver of the test gives every address one answer; it is asked for one. *)
Definition test_dns_handler_resolve_with_geo_resolver : bool :=
  let geo := with_geo mock_geo_new (parse_ip "8.8.8.8") "DE" Europe in
  assert_some (resolves (Some geo) (one_backend dns_app) "myapp.internal." "8.8.8.8").

Definition test_dns_handler_nested_subdomain : bool :=
  assert_some (resolves None (create_proxy_service [dns_test_backend "eu-1" "api.v2" dns_app])
                 "api.v2.myapp.internal." "192.168.1.1").

(** ** The mock repository *)

Definition test_mock_backend_repo_get_all : bool :=
  let repo := mkMockBackendRepo [dns_test_backend "eu-1" "app1" "10.0.0.1"; dns_test_backend "eu-2" "app2" "10.0.0.2"] in
  assert_eq (length (get_all repo)) 2%nat.

Definition test_mock_backend_repo_get_by_id_found : bool :=
  let repo := mkMockBackendRepo [dns_test_backend "eu-1" "app1" "10.0.0.1"] in
  assert_eq (be_id <$> get_by_id repo "eu-1") (Some "eu-1").

Definition test_mock_backend_repo_get_by_id_not_found : bool :=
  assert_none (get_by_id (mkMockBackendRepo [dns_test_backend "eu-1" "app1" "10.0.0.1"]) "nonexistent").

Definition test_mock_backend_repo_get_version : bool := assert_eq (get_version (mkMockBackendRepo [])) 1.

(** ** [handle_request] *)

Definition answers (s : dns_service) (name : string) (type : RecordType) : ResponseCode :=
  dr_code (snd (handle_request dns_config_default None 10 11 s (mkDnsRequest name type (parse_ip "192.168.1.1")))).

#[local] Instance response_code_eq_dec : EqDecision ResponseCode.
Proof. solve_decision. Defined.

(** The type codes of the other record types. *)
Definition record_aaaa : RecordType := RecordOther 28.
Definition record_mx : RecordType := RecordOther 15.
Definition record_txt : RecordType := RecordOther 16.

Definition test_request_handler_a_record_query_success : bool :=
  assert_eq (answers (one_backend dns_app) "myapp.internal." RecordA) NoError.

Definition test_request_handler_a_record_query_nxdomain : bool :=
  assert_eq (answers (create_proxy_service []) "myapp.internal." RecordA) NXDomain.

Definition test_request_handler_non_a_record_query : bool :=
  assert_eq (answers (one_backend dns_app) "myapp.internal." record_aaaa) NotImp.

Definition test_request_handler_mx_record_query : bool :=
  assert_eq (answers (one_backend dns_app) "myapp.internal." record_mx) NotImp.

(** When the response handler fails, [handle_request] still returns the header. *)
Definition test_request_handler_send_error_on_success_path : bool :=
  assert_eq (answers (one_backend dns_app) "myapp.internal." RecordA) NoError.

Definition test_request_handler_send_error_on_nxdomain_path : bool :=
  assert_eq (answers (create_proxy_service []) "myapp.internal." RecordA) NXDomain.

Definition test_request_handler_send_error_on_notimp_path : bool :=
  assert_eq (answers (one_backend dns_app) "myapp.internal." record_txt) NotImp.

Definition test_request_handler_with_tracing : bool :=
  assert_eq (answers (one_backend dns_app) "myapp.internal." RecordA) NoError.

Definition test_request_handler_wrong_domain_nxdomain : bool :=
  assert_eq (answers (one_backend dns_app) "myapp.external." RecordA) NXDomain.

Definition test_request_handler_root_domain_query : bool :=
  assert_eq (answers (one_backend dns_app) "internal." RecordA) NoError.

Definition test_request_handler_ipv6_backend_nxdomain : bool :=
  assert_eq (answers (one_backend "2001:db8::1") "myapp.internal." RecordA) NXDomain.

(** ** Packets

    The messages the tests send, at the clock reading and process id given: the
    packet of a message is its place in this list. *)
Definition dns_query (name : string) (id : Z) : DnsMessage := mkDnsMessage id MQuery true [(name, RecordA)] [].
Definition client_query : DnsMessage := query_for 123456789 4242 "test.internal".
Definition response_to (m : DnsMessage) (answers : list (option Z)) : DnsMessage :=
  mkDnsMessage (dm_id m) MResponse false (dm_queries m) answers.

Definition test_messages : list DnsMessage :=
  [dns_query "myapp.internal" 1; client_query; response_to client_query [];
   response_to client_query [parse_ipv4 "10.50.1.1"]].

#[local] Instance dns_message_eq_dec : EqDecision DnsMessage.
Proof.
  assert (EqDecision RecordType) by solve_decision. assert (EqDecision MessageType) by solve_decision. solve_decision.
Defined.

#[local] Instance test_wire : DnsWire := {|
  dns_to_bytes m := match list_find (eq m) test_messages with
                    | Some (i, _) => Ok [Z.of_nat i + 1] | None => Err "unknown message" end;
  dns_from_bytes data := match data with
                         | [i] => match nth_error test_messages (Z.to_nat (i - 1)) with
                                  | Some m => Ok m | None => Err "unexpected end of input" end
                         | _ => Err "unexpected end of input" end;
  name_from_str name := Ok name
|}.

Definition handles (data : result (list Z) string) : bool :=
  match data with Ok d => is_ok (snd (handle_packet d)) | Err _ => false end.

Definition test_handle_packet_valid_dns : bool := handles (dns_to_bytes (dns_query "myapp.internal" 1)).

Definition test_handle_packet_invalid_dns : bool := negb (handles (Ok (replicate 10 0))).

(** [handle_packet] does not use the address it received on. *)
Definition test_handle_packet_with_local_addr : bool := handles (dns_to_bytes (dns_query "myapp.internal" 1)).

(** A server that answers each query with what [respond] makes of it. *)
Definition test_server (respond : DnsMessage → DnsMessage) (data : list Z) : result (list Z) string :=
  let? query := dns_from_bytes data in dns_to_bytes (respond query).

Definition test_resolve_internal_helper : bool :=
  assert_eq (result_ok (resolve_internal (Ok tt) (test_server (fun q => response_to q [])) 123456789 4242 "test.internal"))
    (Some None).

Definition test_resolve_internal_with_a_record : bool :=
  assert_eq (result_ok (resolve_internal (Ok tt) (test_server (fun q => response_to q [parse_ipv4 "10.50.1.1"]))
                          123456789 4242 "test.internal"))
    (Some (parse_ipv4 "10.50.1.1")).

(** No answer comes. *)
Definition test_resolve_internal_timeout : bool :=
  negb (is_ok (resolve_internal (Ok tt) (fun _ => Err "deadline has elapsed") 123456789 4242 "test.internal")).

Example dns_tests :
  failing
    [("dns_config_default", test_dns_config_default); ("dns_config_custom", test_dns_config_custom);
     ("parse_domain_suffix", test_parse_domain_suffix); ("parse_nested_domain", test_parse_nested_domain);
     ("parse_domain_exact_match", test_parse_domain_exact_match); ("dns_server_new", test_dns_server_new);
     ("dns_server_new_custom_domain", test_dns_server_new_custom_domain);
     ("dns_handler_resolve_with_backend", test_dns_handler_resolve_with_backend);
     ("dns_handler_resolve_no_backend", test_dns_handler_resolve_no_backend);
     ("dns_handler_resolve_wrong_domain", test_dns_handler_resolve_wrong_domain);
     ("dns_handler_resolve_root_domain", test_dns_handler_resolve_root_domain);
     ("dns_handler_resolve_ipv6_backend_returns_none", test_dns_handler_resolve_ipv6_backend_returns_none);
     ("dns_handler_resolve_localhost_client", test_dns_handler_resolve_localhost_client);
     ("ipv4_parse_valid", test_ipv4_parse_valid); ("ipv4_parse_invalid", test_ipv4_parse_invalid);
     ("dns_handler_resolve_different_app_name", test_dns_handler_resolve_different_app_name);
     ("dns_handler_resolve_with_geo_resolver", test_dns_handler_resolve_with_geo_resolver);
     ("dns_handler_nested_subdomain", test_dns_handler_nested_subdomain);
     ("mock_backend_repo_get_all", test_mock_backend_repo_get_all);
     ("mock_backend_repo_get_by_id_found", test_mock_backend_repo_get_by_id_found);
     ("mock_backend_repo_get_by_id_not_found", test_mock_backend_repo_get_by_id_not_found);
     ("mock_backend_repo_get_version", test_mock_backend_repo_get_version);
     ("request_handler_a_record_query_success", test_request_handler_a_record_query_success);
     ("request_handler_a_record_query_nxdomain", test_request_handler_a_record_query_nxdomain);
     ("request_handler_non_a_record_query", test_request_handler_non_a_record_query);
     ("request_handler_mx_record_query", test_request_handler_mx_record_query);
     ("request_handler_send_error_on_success_path", test_request_handler_send_error_on_success_path);
     ("request_handler_send_error_on_nxdomain_path", test_request_handler_send_error_on_nxdomain_path);
     ("request_handler_send_error_on_notimp_path", test_request_handler_send_error_on_notimp_path);
     ("request_handler_with_tracing", test_request_handler_with_tracing);
     ("request_handler_wrong_domain_nxdomain", test_request_handler_wrong_domain_nxdomain);
     ("request_handler_root_domain_query", test_request_handler_root_domain_query);
     ("request_handler_ipv6_backend_nxdomain", test_request_handler_ipv6_backend_nxdomain);
     ("handle_packet_valid_dns", test_handle_packet_valid_dns);
     ("handle_packet_invalid_dns", test_handle_packet_invalid_dns);
     ("handle_packet_with_local_addr", test_handle_packet_with_local_addr);
     ("resolve_internal_helper", test_resolve_internal_helper);
     ("resolve_internal_with_a_record", test_resolve_internal_with_a_record);
     ("resolve_internal_timeout", test_resolve_internal_timeout)] = [].
Proof. run_tests. Qed.
