(* ===== verification/HealthTests.v ===== *)
(** * Unit tests of the health checker

    [mod tests] of [src/src/infrastructure/health_checker.rs] on [HealthChecker]; what
    a test's probe meets on the network is an argument. *)

From S2P Require Import Prelude Domain NetAddr Ports HealthChecker TestKit.

#[local] Instance health_action_eq_dec : EqDecision HealthAction.
Proof. solve_decision. Defined.

(** [format!("test-{}", port)] is the id. *)
Definition probed_backend (port : Z) : Backend :=
  mkBackend ("test-" +:+ pretty port) "test" Europe "DE" "127.0.0.1" port true 2 100 150.

Definition thresholds (unhealthy healthy : Z) : HealthCheckConfig :=
  mkHcConfig (from_secs 10) (from_secs 5) unhealthy healthy HcTcp.

(** A default status with other counters. *)
Definition status_with (healthy : bool) (failures successes : Z) (error : option string) : HealthStatus :=
  mkStatus healthy 0 None failures successes error.

Definition err_of {A} (r : result A string) : option string := match r with Ok _ => None | Err e => Some e end.

(** A network on which every TCP probe has the outcome [o]. *)
Definition probe_net (o : tcp_outcome) : ProbeNet := mkProbeNet (fun _ => o) (fun _ => HttpRequestError "") (fun _ => 0).
Definition refused : tcp_outcome := TcpError "Connection refused (os error 111)".

Definition test_health_check_config_default : bool :=
  assert_eq (hc_interval hc_config_default) (from_secs 10) && assert_eq (hc_timeout hc_config_default) (from_secs 5) &&
  assert_eq (unhealthy_threshold hc_config_default) 3 && assert_eq (healthy_threshold hc_config_default) 2.

Definition test_health_status_default : bool :=
  let status := health_status_default 0 in
  hs_healthy status && assert_eq (consecutive_failures status) 0 && assert_eq (consecutive_successes status) 0.

Definition test_health_check_result_is_success : bool :=
  hcr_is_success (HcSuccess 10) && negb (hcr_is_success (HcFailure "test" 10)).

Definition test_tcp_check_success : bool := is_ok (tcp_check TcpOpened).

Definition test_tcp_check_failure : bool := negb (is_ok (tcp_check refused)).

Definition test_tcp_check_timeout : bool := assert_eq (err_of (tcp_check TcpTimeout)) (Some "connection timeout").

Definition test_check_backend_success : bool :=
  hcr_is_success (check_backend (probe_net TcpOpened) hc_config_default (probed_backend 40000)).

Definition test_check_backend_failure : bool :=
  negb (hcr_is_success (check_backend (probe_net refused)
                          (mkHcConfig (from_secs 10) (from_millis 100) 3 2 HcTcp) (probed_backend 59999))).

(** [HealthChecker::new] starts with no status. *)
Definition test_health_checker_new : bool := assert_eq (size (∅ : status_map)) 0%nat.

Definition test_is_healthy_default : bool := hc_is_healthy ∅ "unknown".

Definition test_get_status_none : bool := assert_none (hc_get_status ∅ "unknown").

(** [update_status] for backend [b1], without a callback. *)
Definition b1_update (config : HealthCheckConfig) (r : HealthCheckResult) : stmt status_map :=
  call (fun m => fst (update_status m 0 "b1" r config false)).
Definition b1_status (p : HealthStatus → bool) : stmt status_map :=
  asserts (fun m => match m !! "b1" with Some s => p s | None => false end).
Definition b1_healthy (b : bool) : stmt status_map := b1_status (fun s => eqb (hs_healthy s) b).

Definition test_update_status_success : bool :=
  run_test ∅
    [b1_update hc_config_default (HcSuccess 10);
     b1_status (fun s => hs_healthy s && assert_eq (consecutive_successes s) 1 &&
                         assert_eq (consecutive_failures s) 0 && assert_eq (hs_latency_ms s) (Some 10))].

Definition test_update_status_failure : bool :=
  run_test ∅
    [b1_update hc_config_default (HcFailure "conn refused" 5);
     b1_status (fun s => hs_healthy s && assert_eq (consecutive_failures s) 1 &&
                         assert_eq (hs_last_error s) (Some "conn refused"))].

Definition test_update_status_becomes_unhealthy : bool :=
  run_test ∅
    [b1_update (thresholds 2 2) (HcFailure "error" 5); b1_healthy true;
     b1_update (thresholds 2 2) (HcFailure "error" 5); b1_healthy false].

Definition test_update_status_becomes_healthy : bool :=
  run_test ∅
    [b1_update (thresholds 1 2) (HcFailure "error" 5); b1_healthy false;
     b1_update (thresholds 1 2) (HcSuccess 10); b1_healthy false;
     b1_update (thresholds 1 2) (HcSuccess 10); b1_healthy true].

Definition test_on_health_change_callback : bool :=
  let calls := snd (update_status ∅ 0 "b1" (HcFailure "error" 5) (thresholds 1 2) true) in
  assert_ne calls [].

Definition test_check_once : bool :=
  hcr_is_success (check_backend (probe_net TcpOpened) hc_config_default (probed_backend 40000)).

Definition test_health_check_result_latency_ms : bool :=
  assert_eq (hcr_latency_ms (HcSuccess 42)) 42 && assert_eq (hcr_latency_ms (HcFailure "error" 100)) 100.

Definition test_health_check_result_error : bool :=
  assert_none (hcr_error (HcSuccess 10)) &&
  assert_eq (hcr_error (HcFailure "connection refused" 10)) (Some "connection refused").

Definition test_health_action_eq : bool :=
  assert_eq NoChange NoChange && assert_eq (HealthChanged "b1" true) (HealthChanged "b1" true) &&
  assert_ne NoChange (HealthChanged "b1" true).

Definition test_calculate_health_transition_success_stays_healthy : bool :=
  let '(new_status, action) := calculate_health_transition (health_status_default 0) (HcSuccess 10) hc_config_default in
  hs_healthy new_status && assert_eq (consecutive_successes new_status) 1 &&
  assert_eq (consecutive_failures new_status) 0 && assert_eq (hs_latency_ms new_status) (Some 10) &&
  assert_none (hs_last_error new_status) && assert_eq action NoChange.

Definition test_calculate_health_transition_failure_stays_healthy : bool :=
  let '(new_status, action) :=
    calculate_health_transition (health_status_default 0) (HcFailure "timeout" 5000) (thresholds 3 2) in
  hs_healthy new_status && assert_eq (consecutive_failures new_status) 1 &&
  assert_eq (consecutive_successes new_status) 0 && assert_eq (hs_last_error new_status) (Some "timeout") &&
  assert_eq action NoChange.

Definition test_calculate_health_transition_becomes_unhealthy : bool :=
  let '(new_status, action) :=
    calculate_health_transition (status_with true 2 0 None) (HcFailure "error" 100) (thresholds 3 2) in
  negb (hs_healthy new_status) && assert_eq (consecutive_failures new_status) 3 &&
  match action with HealthChanged _ false => true | _ => false end.

Definition test_calculate_health_transition_becomes_healthy : bool :=
  let '(new_status, action) :=
    calculate_health_transition (status_with false 0 1 None) (HcSuccess 50) (thresholds 3 2) in
  hs_healthy new_status && assert_eq (consecutive_successes new_status) 2 &&
  match action with HealthChanged _ true => true | _ => false end.

Definition test_calculate_health_transition_success_clears_error : bool :=
  let '(new_status, _) :=
    calculate_health_transition (status_with true 5 0 (Some "previous error")) (HcSuccess 10) hc_config_default in
  assert_none (hs_last_error new_status) && assert_eq (consecutive_failures new_status) 0.

Definition test_build_backend_addr : bool := assert_eq (build_backend_addr (probed_backend 8080)) "127.0.0.1:8080".

Definition test_should_mark_unhealthy : bool :=
  negb (should_mark_unhealthy (status_with true 2 0 None) 3) && should_mark_unhealthy (status_with true 3 0 None) 3 &&
  negb (should_mark_unhealthy (status_with false 3 0 None) 3).

Definition test_should_mark_healthy : bool :=
  negb (should_mark_healthy (status_with false 0 1 None) 2) && should_mark_healthy (status_with false 0 2 None) 2 &&
  negb (should_mark_healthy (status_with true 0 2 None) 2).

Definition test_health_check_config_custom : bool :=
  let config := mkHcConfig (from_secs 30) (from_secs 10) 5 3 (HcHttp "/health") in
  assert_eq (hc_interval config) (from_secs 30) && assert_eq (hc_timeout config) (from_secs 10) &&
  assert_eq (unhealthy_threshold config) 5 && assert_eq (healthy_threshold config) 3.

Example health_checker_tests :
  failing
    [("health_check_config_default", test_health_check_config_default);
     ("health_status_default", test_health_status_default);
     ("health_check_result_is_success", test_health_check_result_is_success);
     ("tcp_check_success", test_tcp_check_success); ("tcp_check_failure", test_tcp_check_failure);
     ("tcp_check_timeout", test_tcp_check_timeout); ("check_backend_success", test_check_backend_success);
     ("check_backend_failure", test_check_backend_failure); ("health_checker_new", test_health_checker_new);
     ("is_healthy_default", test_is_healthy_default); ("get_status_none", test_get_status_none);
     ("update_status_success", test_update_status_success);
     ("update_status_failure", test_update_status_failure);
     ("update_status_becomes_unhealthy", test_update_status_becomes_unhealthy);
     ("update_status_becomes_healthy", test_update_status_becomes_healthy);
     ("on_health_change_callback", test_on_health_change_callback); ("check_once", test_check_once);
     ("health_check_result_latency_ms", test_health_check_result_latency_ms);
     ("health_check_result_error", test_health_check_result_error);
     ("health_action_eq", test_health_action_eq);
     ("calculate_health_transition_success_stays_healthy", test_calculate_health_transition_success_stays_healthy);
     ("calculate_health_transition_failure_stays_healthy", test_calculate_health_transition_failure_stays_healthy);
     ("calculate_health_transition_becomes_unhealthy", test_calculate_health_transition_becomes_unhealthy);
     ("calculate_health_transition_becomes_healthy", test_calculate_health_transition_becomes_healthy);
     ("calculate_health_transition_success_clears_error", test_calculate_health_transition_success_clears_error);
     ("build_backend_addr", test_build_backend_addr); ("should_mark_unhealthy", test_should_mark_unhealthy);
     ("should_mark_healthy", test_should_mark_healthy);
     ("health_check_config_custom", test_health_check_config_custom)] = [].
Proof. run_tests. Qed.
