(* ===== verification/PoolTests.v ===== *)
(** * Unit tests of the connection pool

    [mod tests] of [src/src/infrastructure/connection_pool.rs] on [ConnectionPool].
    A test's object is the pool with the connections the test holds; what a
    connection attempt meets and the times of the calls are arguments. *)

From S2P Require Import Prelude ConnectionPool TestKit.

#[local] Instance pool_error_eq_dec : EqDecision PoolError.
Proof. solve_decision. Defined.

Definition pool_test : Type := ConnectionPool * list PooledConnection.

(** A pool with the default configuration but for the fields named. *)
Definition pool_with (max : Z) (idle life : duration) : pool_test :=
  (connection_pool_new (mkPoolConfig max 2 idle life (from_secs 5)), []).
Definition default_pool : pool_test := (connection_pool_new pool_config_default, []).

(** The tests' listeners accept; [acquires] is [pool.acquire(..).await.unwrap()]. *)
Definition addr_1 : string := "127.0.0.1:40001".
Definition addr_2 : string := "127.0.0.1:40002".
Definition acquires_at (now : instant) (id addr : string) : stmt pool_test :=
  fun t => let '(p, r) := acquire now (fst t) id addr (Connected (length (snd t))) in
           match r with Ok c => ((p, snd t ++ [c]), true) | Err _ => ((p, snd t), false) end.
Definition acquires : string → string → stmt pool_test := acquires_at 0.

Definition acquire_error (id : string) (o : connect_outcome) (p : PoolError → bool) : stmt pool_test :=
  fun t => let '(pool, r) := acquire 0 (fst t) id addr_1 o in
           ((pool, snd t), match r with Err e => p e | Ok _ => false end).

(** The oldest connection held is given back, or thrown away. *)
Definition releases_at (now : instant) : stmt pool_test :=
  fun t => match snd t with c :: held => ((fst (release now (fst t) c), held), true) | [] => (t, false) end.
Definition releases : stmt pool_test := releases_at 0.
Definition discards : stmt pool_test :=
  fun t => match snd t with c :: held => ((fst (discard (fst t) c), held), true) | [] => (t, false) end.

Definition in_use_is (id : string) (n : Z) : stmt pool_test :=
  asserts (fun t => match pool_stats (fst t) id with Some s => st_in_use s =? n | None => false end).
Definition pools_are (n : nat) : stmt pool_test := asserts (fun t => (size (cp_pools (fst t)) =? n)%nat).
Definition clears : stmt pool_test := call (fun t => (pool_clear (fst t), snd t)).

(** [pool.pools.clear()]: the map only. *)
Definition forget_pools : stmt pool_test :=
  call (fun t => (mkConnectionPool (cp_config (fst t)) (cp_heap (fst t)) ∅ (cp_fresh (fst t)), snd t)).

Definition test_pool_config_default : bool :=
  assert_eq (max_connections pool_config_default) 10 && assert_eq (min_idle pool_config_default) 2 &&
  assert_eq (idle_timeout pool_config_default) (from_secs 300).

Definition test_pool_error_display : bool :=
  assert_eq (pool_error_display PoolExhausted) "connection pool exhausted" &&
  assert_eq (pool_error_display (ConnectError "test")) "connection error: test" &&
  assert_eq (pool_error_display ConnectTimeout) "connection timeout".

Definition test_connection_pool_new : bool := run_test default_pool [pools_are 0].

Definition test_acquire_creates_connection : bool := run_test default_pool [acquires "b1" addr_1].

Definition test_acquire_connect_error : bool :=
  run_test default_pool
    [acquire_error "b1" (ConnectFailed "Connection refused (os error 111)")
       (fun e => match e with ConnectError _ => true | _ => false end)].

Definition test_acquire_timeout : bool :=
  run_test default_pool [acquire_error "b1" ConnectTimedOut (fun e => assert_eq e ConnectTimeout)].

Definition test_release_returns_connection : bool :=
  run_test default_pool [acquires "b1" addr_1; releases; acquires "b1" addr_1].

Definition test_discard_closes_connection : bool :=
  run_test default_pool [acquires "b1" addr_1; discards; in_use_is "b1" 0].

Definition test_stats : bool := run_test default_pool [acquires "b1" addr_1; in_use_is "b1" 1].

Definition test_stats_unknown : bool := assert_none (pool_stats (fst default_pool) "unknown").

Definition test_all_stats : bool :=
  run_test default_pool
    [acquires "b1" addr_1; acquires "b2" addr_2; asserts (fun t => (length (pool_all_stats (fst t)) =? 2)%nat)].

Definition test_clear : bool := run_test default_pool [acquires "b1" addr_1; releases; clears; pools_are 0].

Definition test_pooled_connection_is_expired : bool :=
  let conn := conn_new 0 0 "b1" in
  negb (is_expired 100 (from_secs 60) conn) && is_expired 100 1 conn.

Definition test_pooled_connection_is_idle_expired : bool :=
  let conn := conn_new 0 0 "b1" in
  negb (is_idle_expired 100 (from_secs 60) conn) && is_idle_expired (from_millis 10) (from_millis 1) conn.

Definition test_pooled_connection_touch : bool :=
  negb (is_idle_expired (from_millis 10) (from_millis 5) (conn_touch (from_millis 10) (conn_new 0 0 "b1"))).

Definition test_pool_exhausted : bool :=
  run_test (pool_with 2 (from_secs 300) (from_secs 3600))
    [acquires "b1" addr_1; acquires "b1" addr_1;
     acquire_error "b1" (Connected 2) (fun e => assert_eq e PoolExhausted)].

Definition test_release_expired_connection : bool :=
  run_test (pool_with 10 (from_secs 300) (from_millis 1))
    [acquires "b1" addr_1; releases_at (from_millis 10); in_use_is "b1" 0].

Definition test_release_to_full_pool : bool :=
  run_test (pool_with 1 (from_secs 300) (from_secs 3600))
    [acquires "b1" addr_1; releases; acquires "b1" addr_1; releases; in_use_is "b1" 0].

Definition test_acquire_discards_expired_pool_connections : bool :=
  run_test (pool_with 10 (from_secs 300) (from_millis 50))
    [acquires "b1" addr_1; releases; acquires_at (from_millis 100) "b1" addr_1].

Definition test_acquire_discards_idle_pool_connections : bool :=
  run_test (pool_with 10 (from_millis 50) (from_secs 60))
    [acquires "b1" addr_1; releases; acquires_at (from_millis 100) "b1" addr_1].

Definition test_pool_error_eq : bool :=
  assert_eq PoolExhausted PoolExhausted && assert_eq (ConnectError "test") (ConnectError "test") &&
  assert_ne PoolExhausted ConnectTimeout.

Definition test_discard_unknown_backend : bool :=
  run_test default_pool [acquires "b1" addr_1; forget_pools; discards].

Definition test_release_unknown_backend : bool :=
  run_test default_pool [acquires "b1" addr_1; forget_pools; releases].

Definition test_pool_error_std_error : bool := assert_eq (pool_error_display PoolExhausted) "connection pool exhausted".

Definition test_multiple_acquires_releases : bool :=
  run_test (pool_with 5 (from_secs 300) (from_secs 3600))
    ([acquires "b1" addr_1; acquires "b1" addr_1; acquires "b1" addr_1; releases; releases; releases; in_use_is "b1" 0]).

Definition test_get_or_create_pool_multiple_backends : bool :=
  let '(pool, p1) := get_or_create_pool (fst default_pool) "b1" "127.0.0.1:8081" in
  let '(pool, p2) := get_or_create_pool pool "b2" "127.0.0.1:8082" in
  let '(pool, p3) := get_or_create_pool pool "b1" "127.0.0.1:8081" in
  let addr h := bp_addr <$> cp_heap pool !! h in
  assert_eq (size (cp_pools pool)) 2%nat && assert_eq (addr p1) (addr p3) && assert_ne (addr p1) (addr p2).

Definition test_backend_pool_total_connections : bool :=
  let bp := backend_pool_new "127.0.0.1:8080" in
  assert_eq (total_connections bp) 0 && assert_eq (total_connections (in_use_add 5 bp)) 5.

Definition test_clear_with_multiple_backends : bool :=
  run_test default_pool
    [acquires "b1" addr_1; acquires "b2" addr_2; releases; releases; pools_are 2; clears; pools_are 0].

Definition test_pool_stats_addr : bool :=
  run_test default_pool
    [acquires "b1" addr_1; asserts (fun t => assert_eq (st_addr <$> pool_stats (fst t) "b1") (Some addr_1))].

Example connection_pool_tests :
  failing
    [("pool_config_default", test_pool_config_default); ("pool_error_display", test_pool_error_display);
     ("connection_pool_new", test_connection_pool_new);
     ("acquire_creates_connection", test_acquire_creates_connection);
     ("acquire_connect_error", test_acquire_connect_error); ("acquire_timeout", test_acquire_timeout);
     ("release_returns_connection", test_release_returns_connection);
     ("discard_closes_connection", test_discard_closes_connection); ("stats", test_stats);
     ("stats_unknown", test_stats_unknown); ("all_stats", test_all_stats); ("clear", test_clear);
     ("pooled_connection_is_expired", test_pooled_connection_is_expired);
     ("pooled_connection_is_idle_expired", test_pooled_connection_is_idle_expired);
     ("pooled_connection_touch", test_pooled_connection_touch); ("pool_exhausted", test_pool_exhausted);
     ("release_expired_connection", test_release_expired_connection);
     ("release_to_full_pool", test_release_to_full_pool);
     ("acquire_discards_expired_pool_connections", test_acquire_discards_expired_pool_connections);
     ("acquire_discards_idle_pool_connections", test_acquire_discards_idle_pool_connections);
     ("pool_error_eq", test_pool_error_eq); ("discard_unknown_backend", test_discard_unknown_backend);
     ("release_unknown_backend", test_release_unknown_backend);
     ("pool_error_std_error", test_pool_error_std_error);
     ("multiple_acquires_releases", test_multiple_acquires_releases);
     ("get_or_create_pool_multiple_backends", test_get_or_create_pool_multiple_backends);
     ("backend_pool_total_connections", test_backend_pool_total_connections);
     ("clear_with_multiple_backends", test_clear_with_multiple_backends);
     ("pool_stats_addr", test_pool_stats_addr)] = [].
Proof. run_tests. Qed.
