(* ===== verification/LifecycleTests.v ===== *)
(** * Unit tests of shutdown, the configuration watcher and the configuration

    The test modules of [src/src/infrastructure/shutdown.rs],
    [src/src/infrastructure/config_watcher.rs] and [src/src/config.rs]. *)

From S2P Require Import Prelude Text Parse Shutdown ConfigWatcher Config TestKit.

(** ** Shutdown

    The controller with its guards and waiting tasks; a test that ends connections
    itself uses the controller alone. *)
Module Shutdowns.
Definition sd_new : shutdown_sys := sd_init.

Definition step (op : sd_op) : stmt shutdown_sys := call (fun s => sd_step s op).

(** A guard dropped: all of [connection_ended]; and all of [shutdown]. *)
Definition drop_guard : stmt shutdown_sys := call (fun s => foldl sd_step s [SdDrop; SdTest; SdNotify]).
Definition shutdown : stmt shutdown_sys := call (fun s => foldl sd_step s [SdSwap; SdSend]).

Definition active (n : Z) : stmt shutdown_sys := asserts (fun s => sd_active_connections (sd_ctl s) =? n).
Definition initiated (b : bool) : stmt shutdown_sys := asserts (fun s => eqb (is_shutdown (sd_ctl s)) b).

(** What the call of [wait_for_drain] by task 0 has returned. *)
Definition drained (b : bool) : stmt shutdown_sys :=
  asserts (fun s => match sd_waiters s !! 0%nat with Some (WDone d) => eqb d b | _ => false end).
Definition waits : stmt shutdown_sys := call (fun s => sd_step (sd_step s (SdCheck 0)) (SdRegister 0)).

(** [connection_started], [connection_ended] called on the controller. *)
Definition starts : stmt ShutdownController := call connection_started.
Definition ends : stmt ShutdownController := call (fun c => fst (connection_ended c)).
Definition shuts_down : stmt ShutdownController := call sd_shutdown.
Definition count_is (n : Z) : stmt ShutdownController := asserts (fun c => sd_active_connections c =? n).

Definition test_shutdown_controller_new : bool := run_test sd_new [initiated false; active 0].

Definition test_shutdown_controller_default : bool := run_test sd_new [initiated false].

Definition test_shutdown_initiates_once : bool :=
  run_test sd_new [shutdown; initiated true; shutdown; initiated true].

Definition test_connection_tracking : bool :=
  run_test shutdown_new [starts; count_is 1; starts; count_is 2; ends; count_is 1; ends; count_is 0].

Definition test_connection_guard : bool :=
  run_test sd_new [active 0; step SdGuard; active 1; drop_guard; active 0].

Definition test_multiple_connection_guards : bool :=
  run_test sd_new
    [step SdGuard; step SdGuard; step SdGuard; active 3; drop_guard; active 2; drop_guard; drop_guard; active 0].

(** One message is on the channel for whoever has subscribed. *)
Definition test_subscribe_receives_shutdown : bool :=
  run_test sd_new [shutdown; asserts (fun s => assert_eq (sd_signals (sd_ctl s)) 1%nat)].

Definition test_wait_for_drain_immediate : bool := run_test sd_new [shutdown; waits; drained true].

Definition test_wait_for_drain_with_connections : bool :=
  run_test sd_new [step SdGuard; shutdown; waits; drop_guard; drained true].

Definition test_wait_for_drain_timeout : bool :=
  run_test sd_new [step SdGuard; shutdown; waits; step (SdTimeout 0); drained false].

Definition test_clone : bool := run_test shutdown_new [starts; count_is 1; shuts_down; asserts is_shutdown].

Definition test_connection_ended_without_shutdown : bool :=
  run_test shutdown_new [starts; count_is 1; ends; count_is 0].

Definition test_connection_ended_not_last_connection : bool :=
  run_test shutdown_new [starts; starts; shuts_down; ends; count_is 1; ends; count_is 0].

Definition test_multiple_subscribers : bool :=
  run_test sd_new [shutdown; asserts (fun s => assert_eq (sd_signals (sd_ctl s)) 1%nat)].

Definition test_wait_for_drain_no_connections_no_shutdown : bool := run_test sd_new [waits; drained true].

Definition test_connection_guard_with_clone : bool :=
  run_test sd_new [step SdGuard; step SdGuard; active 2; drop_guard; drop_guard; active 0].

Definition test_shutdown_broadcast_no_receivers : bool := run_test sd_new [shutdown; initiated true].

Definition test_active_connections_atomic : bool :=
  run_test shutdown_new (replicate 100 starts ++ [count_is 100] ++ replicate 100 ends ++ [count_is 0]).

Definition test_drain_with_guard_drop_during_wait : bool :=
  run_test sd_new [step SdGuard; shutdown; waits; drop_guard; drained true].

Example shutdown_tests :
  failing
    [("shutdown_controller_new", test_shutdown_controller_new);
     ("shutdown_controller_default", test_shutdown_controller_default);
     ("shutdown_initiates_once", test_shutdown_initiates_once);
     ("connection_tracking", test_connection_tracking); ("connection_guard", test_connection_guard);
     ("multiple_connection_guards", test_multiple_connection_guards);
     ("subscribe_receives_shutdown", test_subscribe_receives_shutdown);
     ("wait_for_drain_immediate", test_wait_for_drain_immediate);
     ("wait_for_drain_with_connections", test_wait_for_drain_with_connections);
     ("wait_for_drain_timeout", test_wait_for_drain_timeout); ("clone", test_clone);
     ("connection_ended_without_shutdown", test_connection_ended_without_shutdown);
     ("connection_ended_not_last_connection", test_connection_ended_not_last_connection);
     ("multiple_subscribers", test_multiple_subscribers);
     ("wait_for_drain_no_connections_no_shutdown", test_wait_for_drain_no_connections_no_shutdown);
     ("connection_guard_with_clone", test_connection_guard_with_clone);
     ("shutdown_broadcast_no_receivers", test_shutdown_broadcast_no_receivers);
     ("active_connections_atomic", test_active_connections_atomic);
     ("drain_with_guard_drop_during_wait", test_drain_with_guard_drop_during_wait)] = [].
Proof. run_tests. Qed.
End Shutdowns.

(** ** The configuration watcher

    The watcher, and the events a subscriber has not received yet. *)
Module ConfigWatchers.
#[local] Instance config_change_eq_dec : EqDecision ConfigChange.
Proof. solve_decision. Defined.
#[local] Instance config_watch_error_eq_dec : EqDecision ConfigWatchError.
Proof. solve_decision. Defined.

Definition watcher_test : Type := ConfigWatcher * list ConfigChange.

(** [ConfigWatcher::default()]. *)
Definition default_watcher : watcher_test := (watcher_new (from_secs 5), []).

(** A file system of the files listed, with their modification times. *)
Definition files (l : list (string * Z)) (path : string) : result Z string :=
  match List.find (fun f => str_eqb (fst f) path) l with
  | Some f => Ok (snd f)
  | None => Err "No such file or directory (os error 2)"
  end.
Definition temp_file : string := "/tmp/.tmpA1".
Definition on_disk : string → result Z string := files [(temp_file, 1000)].

Definition sets (key value : string) : stmt watcher_test :=
  call (fun t => let '(w, events) := cw_set (fst t) key value in (w, snd t ++ events)).
Definition receives (e : ConfigChange) : stmt watcher_test :=
  fun t => match snd t with e' :: rest => ((fst t, rest), bool_decide (e' = e)) | [] => (t, false) end.
Definition nothing_received : stmt watcher_test := asserts (fun t => assert_eq (snd t) []).
Definition gets (key : string) (value : option string) : stmt watcher_test :=
  asserts (fun t => assert_eq (cw_get (fst t) key) value).
Definition watches (fs : string → result Z string) (path : string) : stmt watcher_test :=
  fun t => match watch_file fs (fst t) path with Ok w => ((w, snd t), true) | Err _ => (t, false) end.
Definition watched (n : nat) : stmt watcher_test := asserts (fun t => (watched_count (fst t) =? n)%nat).
Definition checks_find (fs : string → result Z string) (paths : list string) : stmt watcher_test :=
  returns (fun t => let '(w, modified) := check_files fs (fst t) in ((w, snd t), assert_eq modified paths)) true.
Definition unwatches (path : string) : stmt watcher_test := call (fun t => (unwatch_file (fst t) path, snd t)).

Definition test_config_watcher_new : bool := assert_eq (cw_poll_interval (watcher_new (from_secs 10))) (from_secs 10).

Definition test_config_watcher_default : bool := assert_eq (cw_poll_interval (fst default_watcher)) (from_secs 5).

Definition test_watch_file : bool := run_test default_watcher [watches on_disk temp_file; watched 1].

Definition test_watch_nonexistent_file : bool :=
  match watch_file on_disk (fst default_watcher) "/nonexistent/file.conf" with
  | Err (FileError _ _) => true
  | _ => false
  end.

Definition test_unwatch_file : bool :=
  run_test default_watcher [watches on_disk temp_file; watched 1; unwatches temp_file; watched 0].

Definition test_set_and_get : bool :=
  run_test default_watcher [sets "key1" "value1"; gets "key1" (Some "value1"); gets "nonexistent" None].

Definition test_get_or : bool :=
  run_test default_watcher
    [sets "key1" "value1"; asserts (fun t => assert_eq (cw_get_or (fst t) "key1" "default") "value1");
     asserts (fun t => assert_eq (cw_get_or (fst t) "nonexistent" "default") "default")].

Definition test_get_all : bool :=
  run_test default_watcher
    [sets "key1" "value1"; sets "key2" "value2"; asserts (fun t => assert_eq (size (cw_get_all (fst t))) 2%nat);
     asserts (fun t => assert_eq (cw_get_all (fst t) !! "key1") (Some "value1"));
     asserts (fun t => assert_eq (cw_get_all (fst t) !! "key2") (Some "value2"))].

Definition test_subscribe_value_change : bool :=
  run_test default_watcher [sets "key1" "value1"; receives (ValueChanged "key1" None "value1")].

Definition test_subscribe_value_update : bool :=
  run_test default_watcher
    [sets "key1" "value1"; receives (ValueChanged "key1" None "value1"); sets "key1" "value2";
     receives (ValueChanged "key1" (Some "value1") "value2")].

Definition test_no_change_on_same_value : bool :=
  run_test default_watcher
    [sets "key1" "value1"; receives (ValueChanged "key1" None "value1"); sets "key1" "value1"; nothing_received].

Definition test_notify_reload : bool :=
  run_test default_watcher [call (fun t => (fst t, snd t ++ notify_reload)); receives FullReload].

Definition test_check_files_detects_modification : bool :=
  run_test default_watcher
    [watches on_disk temp_file; checks_find on_disk []; checks_find (files [(temp_file, 1010)]) [temp_file]].

Definition test_hot_value_new : bool := assert_eq (hot_key (mkHot 42 "test_key")) "test_key".

Definition test_hot_value_get_set : bool :=
  let value := mkHot "initial" "key" in
  assert_eq (hot_get value) "initial" && assert_eq (hot_get (hot_set value "updated")) "updated".

(** [{:?}] of a path quotes it; here it stands for itself. *)
Definition test_config_watch_error_display : bool :=
  assert_eq (config_watch_error_display id (FileError "/test" "not found")) "file error for /test: not found" &&
  assert_eq (config_watch_error_display id (ParseError "invalid")) "parse error: invalid".

Definition test_config_watch_error_eq : bool :=
  assert_eq (FileError "/a" "err") (FileError "/a" "err") && assert_ne (FileError "/a" "err") (FileError "/b" "err") &&
  assert_ne (FileError "/a" "err") (ParseError "parse").

Definition test_config_watch_error_std_error : bool :=
  assert_eq (config_watch_error_display id (ParseError "test")) "parse error: test".

Definition test_unwatch_nonexistent_file : bool :=
  run_test default_watcher [unwatches "/nonexistent/file"; watched 0].

Definition test_check_files_handles_deleted_file : bool :=
  run_test default_watcher [watches on_disk temp_file; watched 1; checks_find (files []) []].

Definition test_hot_value_multiple_updates : bool :=
  run_test (mkHot 0 "counter")
    (concat ((fun i => [call (fun v => hot_set v i); asserts (fun v => hot_get v =? i)]) <$> [1; 2; 3; 4; 5; 6; 7; 8; 9; 10])).

Definition test_hot_value_key : bool :=
  assert_eq (hot_key (mkHot "localhost" "config.database.url")) "config.database.url".

Definition test_multiple_watchers_same_file : bool :=
  run_test default_watcher [watches on_disk temp_file; watched 1] &&
  run_test default_watcher [watches on_disk temp_file; watched 1].

Definition test_config_value_with_special_characters : bool :=
  run_test default_watcher
    [sets "key-with-dashes" "value-with-dashes"; sets "key.with.dots" "value.with.dots";
     sets "key_with_underscores" "value_with_underscores"; gets "key-with-dashes" (Some "value-with-dashes");
     gets "key.with.dots" (Some "value.with.dots"); gets "key_with_underscores" (Some "value_with_underscores")].

Definition test_watch_multiple_files : bool :=
  let fs := files [("/tmp/.tmpA1", 1000); ("/tmp/.tmpB2", 1001); ("/tmp/.tmpC3", 1002)] in
  run_test default_watcher [watches fs "/tmp/.tmpA1"; watches fs "/tmp/.tmpB2"; watches fs "/tmp/.tmpC3"; watched 3].

Example config_watcher_tests :
  failing
    [("config_watcher_new", test_config_watcher_new); ("config_watcher_default", test_config_watcher_default);
     ("watch_file", test_watch_file); ("watch_nonexistent_file", test_watch_nonexistent_file);
     ("unwatch_file", test_unwatch_file); ("set_and_get", test_set_and_get); ("get_or", test_get_or);
     ("get_all", test_get_all); ("subscribe_value_change", test_subscribe_value_change);
     ("subscribe_value_update", test_subscribe_value_update);
     ("no_change_on_same_value", test_no_change_on_same_value); ("notify_reload", test_notify_reload);
     ("check_files_detects_modification", test_check_files_detects_modification);
     ("hot_value_new", test_hot_value_new); ("hot_value_get_set", test_hot_value_get_set);
     ("config_watch_error_display", test_config_watch_error_display);
     ("config_watch_error_eq", test_config_watch_error_eq);
     ("config_watch_error_std_error", test_config_watch_error_std_error);
     ("unwatch_nonexistent_file", test_unwatch_nonexistent_file);
     ("check_files_handles_deleted_file", test_check_files_handles_deleted_file);
     ("hot_value_multiple_updates", test_hot_value_multiple_updates); ("hot_value_key", test_hot_value_key);
     ("multiple_watchers_same_file", test_multiple_watchers_same_file);
     ("config_value_with_special_characters", test_config_value_with_special_characters);
     ("watch_multiple_files", test_watch_multiple_files)] = [].
Proof. run_tests. Qed.
End ConfigWatchers.

(** ** The configuration

    [std::env::set_var]: the environment of a test is the variables it sets. *)
Module Configurations.
Definition env (vars : list (string * string)) (name : string) : option string :=
  snd <$> List.find (fun v => str_eqb (fst v) name) vars.
Definition loads (vars : list (string * string)) (p : Config → bool) : bool := p (load_config (env vars)).

Definition test_default_config : bool :=
  let cfg := config_default in
  assert_eq (cfg_listen_addr cfg) "0.0.0.0:8080" && assert_eq (cfg_region cfg) "sa" && negb (cfg_tls_enabled cfg) &&
  negb (cfg_api_enabled cfg) && negb (cfg_dns_enabled cfg) && negb (cfg_replication_enabled cfg).

Definition test_load_config_defaults : bool :=
  loads [] (fun cfg => assert_eq (cfg_listen_addr cfg) "0.0.0.0:8080" && assert_eq (cfg_region cfg) "sa" &&
                       assert_eq (cfg_binding_ttl_secs cfg) 600).

Definition test_tls_config_disabled_by_default : bool := loads [] (fun cfg => negb (cfg_tls_enabled cfg)).

Definition test_api_config_disabled_by_default : bool := loads [] (fun cfg => negb (cfg_api_enabled cfg)).

Definition test_dns_config_disabled_by_default : bool := loads [] (fun cfg => negb (cfg_dns_enabled cfg)).

Definition test_replication_config_disabled_by_default : bool := loads [] (fun cfg => negb (cfg_replication_enabled cfg)).

Definition test_load_config_with_tls_enabled_true : bool := loads [("EDGEPROXY_TLS_ENABLED", "true")] cfg_tls_enabled.

Definition test_load_config_with_tls_enabled_1 : bool := loads [("EDGEPROXY_TLS_ENABLED", "1")] cfg_tls_enabled.

Definition test_load_config_with_api_enabled_true : bool := loads [("EDGEPROXY_API_ENABLED", "TRUE")] cfg_api_enabled.

Definition test_load_config_with_dns_enabled_true : bool := loads [("EDGEPROXY_DNS_ENABLED", "1")] cfg_dns_enabled.

Definition test_load_config_with_replication_enabled : bool :=
  loads [("EDGEPROXY_REPLICATION_ENABLED", "true"); ("EDGEPROXY_REPLICATION_NODE_ID", "pop-sa-1");
         ("EDGEPROXY_REPLICATION_BOOTSTRAP_PEERS", "peer1:4001,peer2:4001")]
    (fun cfg => cfg_replication_enabled cfg && assert_eq (cfg_replication_node_id cfg) (Some "pop-sa-1") &&
                assert_eq (length (cfg_replication_bootstrap_peers cfg)) 2%nat).

Definition test_load_config_with_custom_listen_addr : bool :=
  loads [("EDGEPROXY_LISTEN_ADDR", "127.0.0.1:9000")] (fun cfg => assert_eq (cfg_listen_addr cfg) "127.0.0.1:9000").

Definition test_load_config_with_custom_db_path : bool :=
  loads [("EDGEPROXY_DB_PATH", "/tmp/test.db")] (fun cfg => assert_eq (cfg_db_path cfg) "/tmp/test.db").

Definition test_load_config_with_custom_region : bool :=
  loads [("EDGEPROXY_REGION", "eu")] (fun cfg => assert_eq (cfg_region cfg) "eu").

Definition test_load_config_with_geoip_path : bool :=
  loads [("EDGEPROXY_GEOIP_PATH", "/path/to/GeoLite2.mmdb")]
    (fun cfg => assert_eq (cfg_geoip_path cfg) (Some "/path/to/GeoLite2.mmdb")).

Definition test_load_config_with_debug : bool := loads [("DEBUG", "1")] cfg_debug.

Definition test_load_config_with_tls_paths : bool :=
  loads [("EDGEPROXY_TLS_CERT", "/path/to/cert.pem"); ("EDGEPROXY_TLS_KEY", "/path/to/key.pem");
         ("EDGEPROXY_TLS_LISTEN_ADDR", "0.0.0.0:8443")]
    (fun cfg => assert_eq (cfg_tls_cert_path cfg) (Some "/path/to/cert.pem") &&
                assert_eq (cfg_tls_key_path cfg) (Some "/path/to/key.pem") &&
                assert_eq (cfg_tls_listen_addr cfg) (Some "0.0.0.0:8443")).

Definition test_load_config_with_api_settings : bool :=
  loads [("EDGEPROXY_API_LISTEN_ADDR", "0.0.0.0:9081"); ("EDGEPROXY_HEARTBEAT_TTL_SECS", "120")]
    (fun cfg => assert_eq (cfg_api_listen_addr cfg) "0.0.0.0:9081" && assert_eq (cfg_heartbeat_ttl_secs cfg) 120).

Definition test_load_config_with_dns_settings : bool :=
  loads [("EDGEPROXY_DNS_LISTEN_ADDR", "0.0.0.0:5354"); ("EDGEPROXY_DNS_DOMAIN", "edge.local")]
    (fun cfg => assert_eq (cfg_dns_listen_addr cfg) "0.0.0.0:5354" && assert_eq (cfg_dns_domain cfg) "edge.local").

Definition test_load_config_with_binding_settings : bool :=
  loads [("EDGEPROXY_BINDING_TTL_SECS", "1200"); ("EDGEPROXY_BINDING_GC_INTERVAL_SECS", "120")]
    (fun cfg => assert_eq (cfg_binding_ttl_secs cfg) 1200 && assert_eq (cfg_binding_gc_interval_secs cfg) 120).

Definition test_load_config_with_db_reload : bool :=
  loads [("EDGEPROXY_DB_RELOAD_SECS", "30")] (fun cfg => assert_eq (cfg_db_reload_secs cfg) 30).

Definition test_load_config_parse_error_uses_default : bool :=
  loads [("EDGEPROXY_DB_RELOAD_SECS", "not_a_number")] (fun cfg => assert_eq (cfg_db_reload_secs cfg) 5).

Example config_tests :
  failing
    [("default_config", test_default_config); ("load_config_defaults", test_load_config_defaults);
     ("tls_config_disabled_by_default", test_tls_config_disabled_by_default);
     ("api_config_disabled_by_default", test_api_config_disabled_by_default);
     ("dns_config_disabled_by_default", test_dns_config_disabled_by_default);
     ("replication_config_disabled_by_default", test_replication_config_disabled_by_default);
     ("load_config_with_tls_enabled_true", test_load_config_with_tls_enabled_true);
     ("load_config_with_tls_enabled_1", test_load_config_with_tls_enabled_1);
     ("load_config_with_api_enabled_true", test_load_config_with_api_enabled_true);
     ("load_config_with_dns_enabled_true", test_load_config_with_dns_enabled_true);
     ("load_config_with_replication_enabled", test_load_config_with_replication_enabled);
     ("load_config_with_custom_listen_addr", test_load_config_with_custom_listen_addr);
     ("load_config_with_custom_db_path", test_load_config_with_custom_db_path);
     ("load_config_with_custom_region", test_load_config_with_custom_region);
     ("load_config_with_geoip_path", test_load_config_with_geoip_path);
     ("load_config_with_debug", test_load_config_with_debug);
     ("load_config_with_tls_paths", test_load_config_with_tls_paths);
     ("load_config_with_api_settings", test_load_config_with_api_settings);
     ("load_config_with_dns_settings", test_load_config_with_dns_settings);
     ("load_config_with_binding_settings", test_load_config_with_binding_settings);
     ("load_config_with_db_reload", test_load_config_with_db_reload);
     ("load_config_parse_error_uses_default", test_load_config_parse_error_uses_default)] = [].
Proof. run_tests. Qed.
End Configurations.
