(* ===== verification/TransportTests.v ===== *)
(** * Unit tests of the transport

    [mod tests] of [src/src/replication/transport.rs] on [Transport], with messages in the
    encoding of [Bincode] and a network on which connections and sends succeed. *)

From S2P Require Import Prelude Tls Channel ReplTypes Gossip Transport Bincode TestKit.

(** TLS libraries that find nothing to object to. *)
#[local] Instance accepting_tls : TlsLib := {|
  ServerConfig := list Z;
  generate_simple_self_signed _ := Ok ([1], [2]);
  private_key_der := Ok;
  with_single_cert certs key := Ok key;
  pem_certs f := [Ok f];
  pem_private_key f := Ok (Some f)
|}.

#[local] Instance accepting_quic : QuicLib :=
  @Build_QuicLib accepting_tls (fun _ => Ok tt) (fun _ => Ok tt) (fun _ => Ok tt).

Definition transport_now : Z := 1700000000000000.
Definition node_1 : NodeId := mkNodeId "node-1".
Definition empty_set (seq : Z) : ChangeSet := changeset_new node_1 seq [].
Definition insert_change (pk : string) : Change :=
  change_new transport_now (transport_now * 1000) (transport_now * 1000 + 50) "backends" pk KInsert "{}" node_1.

(** [TransportService::new] for a node on a free local port. *)
Definition transport (id : string) : TransportService :=
  transport_new (with_transport_addr "127.0.0.1:0" (replication_config_new id)).
Definition listener : string := "127.0.0.1:40001".
Definition lan : QuicNet := mkQuic (fun _ => true) (fun _ _ => true) (fun _ _ => Err "closed") (fun _ _ => Ok 0%nat).

Definition started (id : string) : stmt TransportService :=
  fun _ => let '(t, r) := transport_start (transport id) in (t, is_ok r).
Definition connects (peer : string) (p : PeerConnection → bool) : stmt TransportService :=
  returns (fun t => let '(t', r) := ts_connect lan t listener peer in
                    (t', match r with Finished (Ok c) => p c | _ => false end)) true.
Definition peers_are (n : nat) : stmt TransportService := asserts (fun t => (length (ts_all_peers t) =? n)%nat).

(** [encode_message(&m).unwrap()], and the message read back from behind the length. *)
Definition encoded (m : Message) : list Z := match encode_message m with Ok bs => bs | Err _ => [] end.
Definition decodes (m : Message) (p : Message → bool) : bool :=
  match decode_message (drop 4 (encoded m)) with Ok m' => p m' | Err _ => false end.

(** [bincode::deserialize(&bincode::serialize(&m).unwrap()).unwrap()] *)
Definition reserialized (m : Message) (p : Message → bool) : bool :=
  match wire_serialize m with
  | Ok bs => match wire_deserialize bs with Ok m' => p m' | Err _ => false end
  | Err _ => false
  end.

Definition is_broadcast_of (seq : Z) (changes : nat) (m : Message) : bool :=
  match m with MBroadcast cs => (cs_seq cs =? seq) && (length (cs_changes cs) =? changes)%nat | _ => false end.
Definition is_sync_request_of (from_seq : Z) (table : option string) (m : Message) : bool :=
  match m with MSyncRequest q t => (q =? from_seq) && bool_decide (t = table) | _ => false end.
Definition is_sync_response_of (seqs : list Z) (m : Message) : bool :=
  match m with MSyncResponse l => bool_decide (cs_seq <$> l = seqs) | _ => false end.

Definition test_transport_service_creation : bool := negb (ts_is_shutdown (transport "test-node")).

Definition test_transport_shutdown : bool :=
  run_test (transport "test-node")
    [asserts (fun t => negb (ts_is_shutdown t)); call ts_signal_shutdown; asserts ts_is_shutdown].

Definition test_transport_service_peers_empty : bool := run_test (transport "test-node") [peers_are 0].

Definition test_transport_service_get_peer_none : bool := assert_none (get_peer (transport "test-node") "nonexistent").

Definition test_message_broadcast_serialization : bool := reserialized (MBroadcast (empty_set 1)) (is_broadcast_of 1 0).

Definition test_message_broadcast_with_changes : bool :=
  reserialized
    (MBroadcast (changeset_new node_1 5
       [insert_change "b1";
        change_new transport_now (transport_now * 1000) (transport_now * 1000 + 50) "backends" "b2" KUpdate "{}" node_1]))
    (is_broadcast_of 5 2).

Definition test_message_sync_request_serialization : bool :=
  reserialized (MSyncRequest 10 (Some "backends")) (is_sync_request_of 10 (Some "backends")).

Definition test_message_sync_response_serialization : bool :=
  reserialized (MSyncResponse [empty_set 1; empty_set 2]) (is_sync_response_of [1; 2]).

Definition test_transport_service_start : bool :=
  run_test (transport "test-node") [started "test-node"; asserts ts_started].

Definition test_transport_service_broadcast_no_peers : bool :=
  run_test (transport "test-node")
    [started "test-node"; asserts (fun t => (broadcast_changeset lan t (changeset_new (mkNodeId "test-node") 1 []) =? 0)%nat)].

Definition test_transport_service_connect_without_start : bool :=
  match snd (ts_connect lan (transport "test-node") "127.0.0.1:9999" "peer") with
  | Finished (Err _) => true
  | _ => false
  end.

#[local] Instance signature_scheme_eq_dec : EqDecision SignatureScheme.
Proof. solve_decision. Defined.

Definition test_skip_server_verification_supported_schemes : bool :=
  let schemes := supported_verify_schemes SkipServerVerification in
  assert_ne schemes [] && bool_decide (ECDSA_NISTP256_SHA256 ∈ schemes) && bool_decide (RSA_PKCS1_SHA256 ∈ schemes) &&
  bool_decide (ED25519 ∈ schemes).

Definition test_transport_two_services_communicate : bool :=
  run_test (transport "node-2")
    [started "node-2"; connects "node-1" (fun _ => true);
     asserts (fun t => match get_peer t "node-1" with Some p => is_alive lan p | None => false end); peers_are 1].

Definition test_peer_connection_is_alive : bool :=
  run_test (transport "node-2") [started "node-2"; connects "node-1" (is_alive lan)].

Definition test_peer_connection_send : bool :=
  run_test (transport "sender")
    [started "sender";
     connects "receiver" (fun p => peer_send lan p (MBroadcast (changeset_new (mkNodeId "sender") 1 [])))].

Definition test_broadcast_to_connected_peers : bool :=
  run_test (transport "broadcaster")
    [started "broadcaster"; connects "receiver" (fun _ => true);
     asserts (fun t => (broadcast_changeset lan t (changeset_new (mkNodeId "broadcaster") 1 []) =? 1)%nat)].

Definition test_encode_message_broadcast : bool :=
  let bs := encoded (MBroadcast (empty_set 1)) in
  (4 <? length bs)%nat && (decode_length (take 4 bs) =? Z.of_nat (length bs) - 4).

Definition test_encode_decode_roundtrip : bool :=
  decodes (MBroadcast (changeset_new node_1 42 [insert_change "b1"])) (is_broadcast_of 42 1).

Definition test_decode_length : bool :=
  (decode_length [0; 0; 1; 0] =? 256) && (decode_length [0; 0; 0; 16] =? 16) && (decode_length [0; 1; 0; 0] =? 65536).

Definition test_decode_message_invalid : bool := negb (is_ok (decode_message [0; 1; 2; 3])).

Definition test_validate_broadcast_valid : bool := validate_broadcast (empty_set 1).

Definition test_validate_broadcast_invalid : bool := negb (validate_broadcast (mkChangeSet node_1 1 [] 12345)).

Definition test_create_broadcast : bool := is_broadcast_of 5 0 (create_broadcast (empty_set 5)).

Definition test_create_sync_request : bool :=
  is_sync_request_of 100 (Some "backends") (create_sync_request 100 (Some "backends")).

Definition test_create_sync_request_no_table : bool := is_sync_request_of 50 None (create_sync_request 50 None).

Definition test_create_sync_response : bool :=
  is_sync_response_of [1; 2] (create_sync_response [empty_set 1; empty_set 2]).

Definition test_create_sync_response_empty : bool := is_sync_response_of [] (create_sync_response []).

Definition test_extract_broadcast : bool :=
  assert_eq (cs_seq <$> extract_broadcast (MBroadcast (empty_set 10))) (Some 10).

Definition test_extract_broadcast_wrong_type : bool := assert_none (extract_broadcast (MSyncRequest 1 None)).

Definition test_extract_sync_request : bool :=
  assert_eq (extract_sync_request (MSyncRequest 42 (Some "backends"))) (Some (42, Some "backends")).

Definition test_extract_sync_request_no_table : bool :=
  assert_eq (extract_sync_request (MSyncRequest 10 None)) (Some (10, None)).

Definition test_extract_sync_request_wrong_type : bool := assert_none (extract_sync_request (MBroadcast (empty_set 1))).

Definition test_extract_sync_response : bool :=
  assert_eq (length <$> extract_sync_response (MSyncResponse [empty_set 1; empty_set 2; empty_set 3])) (Some 3%nat).

Definition test_extract_sync_response_wrong_type : bool := assert_none (extract_sync_response (MSyncRequest 1 None)).

Definition test_encode_message_sync_request : bool :=
  let msg := create_sync_request 100 (Some "backends") in
  (0 <? decode_length (take 4 (encoded msg))) && decodes msg (is_sync_request_of 100 (Some "backends")).

Definition test_encode_message_sync_response : bool :=
  decodes (create_sync_response [empty_set 1]) (is_sync_response_of [1]).

Definition test_encode_large_changeset : bool :=
  let changes := (fun i => insert_change ("b" +:+ pretty (Z.of_nat i))) <$> seq 0 100 in
  decodes (create_broadcast (changeset_new node_1 999 changes)) (is_broadcast_of 999 100).

Definition a_broadcast : Message := MBroadcast (empty_set 1).
Definition a_request : Message := MSyncRequest 0 None.
Definition a_response : Message := MSyncResponse [].

Definition test_is_broadcast : bool :=
  is_broadcast a_broadcast && negb (is_broadcast a_request) && negb (is_broadcast a_response).

Definition test_is_sync_request : bool :=
  negb (is_sync_request a_broadcast) && is_sync_request a_request && negb (is_sync_request a_response).

Definition test_is_sync_response : bool :=
  negb (is_sync_response a_broadcast) && negb (is_sync_response a_request) && is_sync_response a_response.

Definition test_message_type_name : bool :=
  assert_eq (message_type_name <$> [a_broadcast; a_request; a_response; MAck node_1 1; MPing; MPong])
    ["Broadcast"; "SyncRequest"; "SyncResponse"; "Ack"; "Ping"; "Pong"].

Definition test_validate_sync_request : bool :=
  validate_sync_request 0 && validate_sync_request 1 && validate_sync_request U64_MAX.

Definition test_count_sync_response_changesets : bool :=
  assert_eq (count_sync_response_changesets a_response) 0%nat &&
  assert_eq (count_sync_response_changesets (MSyncResponse [empty_set 1])) 1%nat &&
  assert_eq (count_sync_response_changesets (MSyncResponse [empty_set 1; empty_set 2; empty_set 3])) 3%nat &&
  assert_eq (count_sync_response_changesets a_request) 0%nat.

Definition test_count_broadcast_changes : bool :=
  let changes := (fun i => insert_change ("b" +:+ pretty (Z.of_nat i))) <$> seq 0 5 in
  assert_eq (count_broadcast_changes a_broadcast) 0%nat &&
  assert_eq (count_broadcast_changes (MBroadcast (changeset_new node_1 2 changes))) 5%nat &&
  assert_eq (count_broadcast_changes a_request) 0%nat.

Definition test_get_broadcast_seq : bool :=
  assert_eq (get_broadcast_seq (MBroadcast (empty_set 42))) (Some 42) && assert_none (get_broadcast_seq a_request).

Definition test_get_sync_request_from_seq : bool :=
  assert_eq (get_sync_request_from_seq (MSyncRequest 100 None)) (Some 100) &&
  assert_none (get_sync_request_from_seq a_broadcast).

Example transport_tests :
  failing
    [("transport_service_creation", test_transport_service_creation);
     ("transport_shutdown", test_transport_shutdown);
     ("transport_service_peers_empty", test_transport_service_peers_empty);
     ("transport_service_get_peer_none", test_transport_service_get_peer_none);
     ("message_broadcast_serialization", test_message_broadcast_serialization);
     ("message_broadcast_with_changes", test_message_broadcast_with_changes);
     ("message_sync_request_serialization", test_message_sync_request_serialization);
     ("message_sync_response_serialization", test_message_sync_response_serialization);
     ("transport_service_start", test_transport_service_start);
     ("transport_service_broadcast_no_peers", test_transport_service_broadcast_no_peers);
     ("transport_service_connect_without_start", test_transport_service_connect_without_start);
     ("skip_server_verification_supported_schemes", test_skip_server_verification_supported_schemes);
     ("transport_two_services_communicate", test_transport_two_services_communicate);
     ("peer_connection_is_alive", test_peer_connection_is_alive);
     ("peer_connection_send", test_peer_connection_send);
     ("broadcast_to_connected_peers", test_broadcast_to_connected_peers);
     ("encode_message_broadcast", test_encode_message_broadcast);
     ("encode_decode_roundtrip", test_encode_decode_roundtrip); ("decode_length", test_decode_length);
     ("decode_message_invalid", test_decode_message_invalid);
     ("validate_broadcast_valid", test_validate_broadcast_valid);
     ("validate_broadcast_invalid", test_validate_broadcast_invalid);
     ("create_broadcast", test_create_broadcast); ("create_sync_request", test_create_sync_request);
     ("create_sync_request_no_table", test_create_sync_request_no_table);
     ("create_sync_response", test_create_sync_response);
     ("create_sync_response_empty", test_create_sync_response_empty);
     ("extract_broadcast", test_extract_broadcast);
     ("extract_broadcast_wrong_type", test_extract_broadcast_wrong_type);
     ("extract_sync_request", test_extract_sync_request);
     ("extract_sync_request_no_table", test_extract_sync_request_no_table);
     ("extract_sync_request_wrong_type", test_extract_sync_request_wrong_type);
     ("extract_sync_response", test_extract_sync_response);
     ("extract_sync_response_wrong_type", test_extract_sync_response_wrong_type);
     ("encode_message_sync_request", test_encode_message_sync_request);
     ("encode_message_sync_response", test_encode_message_sync_response);
     ("encode_large_changeset", test_encode_large_changeset); ("is_broadcast", test_is_broadcast);
     ("is_sync_request", test_is_sync_request); ("is_sync_response", test_is_sync_response);
     ("message_type_name", test_message_type_name); ("validate_sync_request", test_validate_sync_request);
     ("count_sync_response_changesets", test_count_sync_response_changesets);
     ("count_broadcast_changes", test_count_broadcast_changes); ("get_broadcast_seq", test_get_broadcast_seq);
     ("get_sync_request_from_seq", test_get_sync_request_from_seq)] = [].
Proof. run_tests. Qed.
