(* ===== verification/AdapterTests.v ===== *)
(** * Unit tests of the backend repositories

    The test modules of [src/src/adapters/outbound/sqlite_backend_repo.rs] and
    [postgres_backend_repo.rs].  A database file is a [MemDb]; each wait of a test for
    the sync loop is one turn of it.  The tests of [maxmind_geo_resolver.rs] are about the
    contents of its database, which is not code. *)

From S2P Require Import Prelude Text Domain Ports Sql BackendRepos TestKit StoreTests.

(** ** SQLite *)
Module SqliteRepositories.
#[local] Abbreviation repo := SqliteBackendRepository.

(** [create_test_backend] *)
Definition sqlite_backend (id : string) (healthy : bool) : Backend :=
  mkBackend id "testapp" Europe "DE" "10.50.1.1" 8080 healthy 2 100 150.

(** A file with the table and the rows that a test inserts. *)
Definition file (rows : list BackendRow) : MemDb :=
  mkMemDb ∅ ∅ [] (list_to_map ((fun r => (match row_id r with SqlText id => id | _ => "" end, r)) <$> rows)).

Definition row (id app region country wg_ip : string) (port healthy weight soft hard : Z) (deleted : SqlValue)
    : BackendRow :=
  mkBackendRow (SqlText id) (SqlText app) (SqlText region) (SqlText country) (SqlText wg_ip) (SqlInteger port)
    (SqlInteger healthy) (SqlInteger weight) (SqlInteger soft) (SqlInteger hard) deleted.

(** A path at which there is no file: [Connection::open] fails. *)
#[local] Instance no_file : SqlDb MemDb := {|
  sql_open d := Err "unable to open database file";
  sql_create_tables := sql_create_tables (SqlDb := mem_sql);
  sql_prepare_lww := sql_prepare_lww (SqlDb := mem_sql);
  sql_select_lww := sql_select_lww (SqlDb := mem_sql);
  sql_replace_lww := sql_replace_lww (SqlDb := mem_sql);
  sql_select_versions := sql_select_versions (SqlDb := mem_sql);
  sql_replace_version := sql_replace_version (SqlDb := mem_sql);
  sql_insert_log := sql_insert_log (SqlDb := mem_sql);
  sql_backend_row := sql_backend_row (SqlDb := mem_sql);
  sql_replace_backend := sql_replace_backend (SqlDb := mem_sql);
  sql_delete_backend := sql_delete_backend (SqlDb := mem_sql);
  sql_select_backends := sql_select_backends (SqlDb := mem_sql)
|}.

Definition load (rows : list BackendRow) : result (list Backend) sql_error :=
  load_from_sqlite (H := mem_sql) (file rows).

(** The next turn of the loop of [start_sync]. *)
Definition syncs (rows : list BackendRow) : stmt repo :=
  call (fun r => sqlite_sync_turn r (spawn_load (H := mem_sql) true (file rows))).
Definition syncs_nothing : stmt repo :=
  call (fun r => sqlite_sync_turn r (spawn_load (H := no_file) true mem_empty)).

Definition ids_are (ids : list string) : stmt repo := asserts (fun r => assert_eq (be_id <$> sq_get_all r) ids).
Definition count_is (n : nat) : stmt repo := asserts (fun r => (length (sq_get_all r) =? n)%nat).
Definition version_is (n : Z) : stmt repo := asserts (fun r => sq_get_version r =? n).

Definition test_new_repository : bool := run_test sqlite_new [version_is 0].

Definition test_default_repository : bool := run_test sqlite_new [version_is 0].

Definition test_with_backends : bool :=
  run_test (sqlite_with_backends [sqlite_backend "backend-1" true; sqlite_backend "backend-2" false]) [version_is 1].

Definition test_get_all_empty : bool := run_test sqlite_new [count_is 0].

Definition test_get_all_with_backends : bool :=
  run_test (sqlite_with_backends [sqlite_backend "eu-1" true; sqlite_backend "us-1" true]) [count_is 2].

Definition test_get_by_id_found : bool :=
  let repo := sqlite_with_backends [sqlite_backend "eu-1" true; sqlite_backend "us-1" true] in
  assert_eq (be_id <$> sq_get_by_id repo "eu-1") (Some "eu-1").

Definition test_get_by_id_not_found : bool :=
  assert_none (sq_get_by_id (sqlite_with_backends [sqlite_backend "eu-1" true]) "nonexistent").

Definition test_get_healthy_filters_unhealthy : bool :=
  let repo := sqlite_with_backends
    [sqlite_backend "healthy-1" true; sqlite_backend "unhealthy-1" false; sqlite_backend "healthy-2" true] in
  (length (sq_get_healthy repo) =? 2)%nat && forallb be_healthy (sq_get_healthy repo).

Definition test_get_healthy_empty_when_all_unhealthy : bool :=
  let repo := sqlite_with_backends [sqlite_backend "unhealthy-1" false; sqlite_backend "unhealthy-2" false] in
  assert_eq (sq_get_healthy repo) [].

Definition test_get_version_initial : bool := run_test sqlite_new [version_is 0].

Definition test_get_version_after_with_backends : bool :=
  run_test (sqlite_with_backends [sqlite_backend "eu-1" true]) [version_is 1].

Definition test_load_from_sqlite_nonexistent_file : bool :=
  negb (is_ok (load_from_sqlite (H := no_file) mem_empty)).

Definition test_load_from_sqlite_with_temp_db : bool :=
  match load [row "test-1" "myapp" "eu" "DE" "10.50.1.1" 8080 1 2 100 150 (SqlInteger 0);
              row "test-2" "myapp" "us" "US" "10.50.2.1" 8080 0 1 50 100 (SqlInteger 0)] with
  | Ok backends =>
      (length backends =? 2)%nat &&
      match List.find (fun b => str_eqb (be_id b) "test-1") backends,
            List.find (fun b => str_eqb (be_id b) "test-2") backends with
      | Some eu_backend, Some us_backend =>
          assert_eq (be_app eu_backend) "myapp" && assert_eq (be_region eu_backend) Europe &&
          assert_eq (be_country eu_backend) "DE" && be_healthy eu_backend && negb (be_healthy us_backend)
      | _, _ => false
      end
  | Err _ => false
  end.

Definition test_load_from_sqlite_excludes_deleted : bool :=
  match load [row "active" "myapp" "eu" "DE" "10.50.1.1" 8080 1 2 100 150 (SqlInteger 0);
              row "deleted" "myapp" "eu" "DE" "10.50.1.2" 8080 1 2 100 150 (SqlInteger 1)] with
  | Ok backends => assert_eq (be_id <$> backends) ["active"]
  | Err _ => false
  end.

Definition test_row_to_backend_mapping : bool :=
  match row_to_backend (row "b1" "app1" "sa" "BR" "10.1.1.1" 9000 1 5 200 300 SqlNull) with
  | Ok backend =>
      assert_eq (be_id backend) "b1" && assert_eq (be_app backend) "app1" &&
      assert_eq (be_region backend) SouthAmerica && assert_eq (be_country backend) "BR" &&
      assert_eq (be_wg_ip backend) "10.1.1.1" && (be_port backend =? 9000) && be_healthy backend &&
      (be_weight backend =? 5) && (be_soft_limit backend =? 200) && (be_hard_limit backend =? 300)
  | Err _ => false
  end.

Definition test_start_sync_loads_backends : bool :=
  run_test sqlite_new
    [count_is 0; syncs [row "sync-test-1" "myapp" "eu" "DE" "10.50.1.1" 8080 1 2 100 150 (SqlInteger 0)];
     ids_are ["sync-test-1"]].

Definition test_start_sync_updates_version : bool :=
  run_test sqlite_new
    [version_is 0; syncs [row "v-test" "app" "eu" "DE" "10.0.0.1" 80 1 1 10 20 (SqlInteger 0)];
     asserts (fun r => 1 <=? sq_get_version r)].

Definition test_start_sync_handles_missing_file : bool :=
  run_test sqlite_new [syncs_nothing; count_is 0; version_is 0].

Definition test_start_sync_multiple_iterations : bool :=
  let iter_1 := row "iter-1" "app" "eu" "DE" "10.0.0.1" 80 1 1 10 20 (SqlInteger 0) in
  let iter_2 := row "iter-2" "app" "eu" "DE" "10.0.0.2" 80 1 1 10 20 (SqlInteger 0) in
  run_test sqlite_new
    [syncs [iter_1]; count_is 1;
     fun r => let v1 := sq_get_version r in
              let '(r', b) := syncs [iter_1; iter_2] r in (r', b && (v1 <? sq_get_version r'));
     count_is 2].

Definition test_load_from_sqlite_includes_null_deleted : bool :=
  match load [row "null-deleted" "app" "eu" "DE" "10.0.0.1" 80 1 1 10 20 SqlNull] with
  | Ok backends => assert_eq (be_id <$> backends) ["null-deleted"]
  | Err _ => false
  end.

Example sqlite_repository_tests :
  failing
    [("new_repository", test_new_repository); ("default_repository", test_default_repository);
     ("with_backends", test_with_backends); ("get_all_empty", test_get_all_empty);
     ("get_all_with_backends", test_get_all_with_backends); ("get_by_id_found", test_get_by_id_found);
     ("get_by_id_not_found", test_get_by_id_not_found);
     ("get_healthy_filters_unhealthy", test_get_healthy_filters_unhealthy);
     ("get_healthy_empty_when_all_unhealthy", test_get_healthy_empty_when_all_unhealthy);
     ("get_version_initial", test_get_version_initial);
     ("get_version_after_with_backends", test_get_version_after_with_backends);
     ("load_from_sqlite_nonexistent_file", test_load_from_sqlite_nonexistent_file);
     ("load_from_sqlite_with_temp_db", test_load_from_sqlite_with_temp_db);
     ("load_from_sqlite_excludes_deleted", test_load_from_sqlite_excludes_deleted);
     ("row_to_backend_mapping", test_row_to_backend_mapping);
     ("start_sync_loads_backends", test_start_sync_loads_backends);
     ("start_sync_updates_version", test_start_sync_updates_version);
     ("start_sync_handles_missing_file", test_start_sync_handles_missing_file);
     ("start_sync_multiple_iterations", test_start_sync_multiple_iterations);
     ("load_from_sqlite_includes_null_deleted", test_load_from_sqlite_includes_null_deleted)] = [].
Proof. run_tests. Qed.
End SqliteRepositories.

(** ** PostgreSQL *)
Module PostgresRepositories.
#[local] Abbreviation repo := PostgresBackendRepository.
#[local] Abbreviation contains := PrometheusMetrics.contains.

(** [create_test_backend] *)
Definition postgres_backend (id : string) : Backend := mkBackend id "test" Europe "DE" "10.0.0.1" 8080 true 2 100 150.

(** [PostgresBackendRepository::default()] *)
Definition default_repo : repo := postgres_new postgres_config_default.

Definition succeeds (op : repo → repo * result unit PostgresError) : stmt repo :=
  returns (fun r => let '(r', res) := op r in (r', is_ok res)) true.
Definition initialize : stmt repo := succeeds postgres_initialize.
Definition adds (b : Backend) : stmt repo := succeeds (fun r => add_backend r b).
Definition ids_are (ids : list string) : stmt repo := asserts (fun r => assert_eq (be_id <$> pg_get_all r) ids).
Definition health_is (id : string) (h : bool) : stmt repo :=
  asserts (fun r => assert_eq (be_healthy <$> pg_get_by_id r id) (Some h)).

Definition test_postgres_config_default : bool :=
  (pg_max_connections postgres_config_default =? 10) &&
  (pg_reload_interval postgres_config_default =? from_secs 5).

Definition test_postgres_error_display : bool :=
  contains "connection error" (postgres_error_display (PgConnectionError "test")) &&
  contains "query error" (postgres_error_display (PgQueryError "test")) &&
  contains "data error" (postgres_error_display (PgDataError "test")) &&
  assert_eq (postgres_error_display PgNotInitialized) "repository not initialized".

Definition test_postgres_repo_new : bool := run_test (postgres_new postgres_config_default) [ids_are []].

Definition test_postgres_repo_default : bool := run_test default_repo [ids_are []].

Definition test_initialize : bool := run_test default_repo [initialize; asserts pg_initialized].

Definition test_add_backend : bool := run_test default_repo [initialize; adds (postgres_backend "b1"); ids_are ["b1"]].

Definition test_remove_backend : bool :=
  run_test default_repo
    [initialize; adds (postgres_backend "b1"); adds (postgres_backend "b2");
     succeeds (fun r => remove_backend r "b1"); ids_are ["b2"]].

Definition test_update_health : bool :=
  run_test default_repo
    [initialize; adds (postgres_backend "b1"); health_is "b1" true;
     succeeds (fun r => update_health r "b1" false); health_is "b1" false].

Definition test_get_by_id : bool :=
  run_test default_repo
    [initialize; adds (postgres_backend "b1"); asserts (fun r => assert_some (pg_get_by_id r "b1"));
     asserts (fun r => assert_none (pg_get_by_id r "b999"))].

Definition test_get_healthy : bool :=
  run_test default_repo
    [initialize; adds (set_healthy true (postgres_backend "b1")); adds (set_healthy false (postgres_backend "b2"));
     asserts (fun r => assert_eq (be_id <$> pg_get_healthy r) ["b1"])].

Definition test_get_version : bool :=
  run_test default_repo
    [initialize;
     fun r => let v1 := pg_get_version r in
              let '(r', b) := adds (postgres_backend "b1") r in (r', b && (v1 <? pg_get_version r'))].

Definition test_update_health_unknown_backend : bool :=
  run_test default_repo [initialize; succeeds (fun r => update_health r "unknown" false)].

Definition test_backends_schema : bool :=
  contains "CREATE TABLE" BACKENDS_SCHEMA && contains "backends" BACKENDS_SCHEMA &&
  contains "region" BACKENDS_SCHEMA && contains "healthy" BACKENDS_SCHEMA.

Example postgres_repository_tests :
  failing
    [("postgres_config_default", test_postgres_config_default);
     ("postgres_error_display", test_postgres_error_display); ("postgres_repo_new", test_postgres_repo_new);
     ("postgres_repo_default", test_postgres_repo_default); ("initialize", test_initialize);
     ("add_backend", test_add_backend); ("remove_backend", test_remove_backend);
     ("update_health", test_update_health); ("get_by_id", test_get_by_id); ("get_healthy", test_get_healthy);
     ("get_version", test_get_version); ("update_health_unknown_backend", test_update_health_unknown_backend);
     ("backends_schema", test_backends_schema)] = [].
Proof. run_tests. Qed.
End PostgresRepositories.
