(* ===== verification/AgentTests.v ===== *)
(** * Unit tests of the replication agent

    [mod tests] of [src/src/replication/agent.rs] on [Agent], with the messages of
    [Bincode], the JSON objects of [ReplicationTests] and the TLS libraries of
    [TransportTests]; ports that the tests leave to the system are bound. *)

From S2P Require Import Prelude Tls Channel ReplTypes Sql Sync Gossip Transport Agent Bincode.
From S2P Require Import TestKit ReplicationTests TransportTests.

#[local] Existing Instance test_json.
#[local] Existing Instance accepting_tls.
#[local] Existing Instance accepting_quic.

#[local] Abbreviation agent := (ReplicationAgent MemDb).

(** [NamedTempFile::new()]: an empty database. *)
Definition temp : MemDb := mem_empty.

Definition test_node : ReplicationConfig := replication_config_new "test-node".
Definition local_ports (cfg : ReplicationConfig) : ReplicationConfig :=
  with_transport_addr "127.0.0.1:0" (with_gossip_addr "127.0.0.1:0" cfg).

(** A test on [ReplicationAgent::new(config).unwrap()]. *)
Definition on_agent (made : result agent ConfigError) (body : list (stmt agent)) : bool :=
  match made with Ok a => run_test a body | Err _ => false end.

Definition running (b : bool) : stmt agent := asserts (fun a => Bool.eqb (is_running a) b).
Definition named (id : string) : stmt agent := asserts (fun a => assert_eq (node_str (ag_node_id a)) id).
Definition stops : stmt agent := call agent_stop.
Definition starts : stmt agent :=
  returns (fun a => let '(a', r) := agent_start (Ok tt) a in
                    (a', match r with Finished e => is_ok e | Suspended => false end)) true.
Definition init_db_ok : stmt agent :=
  returns (fun a => let '(s, r) := init_db (ag_sync a) in (with_sync a s, is_ok r)) true.

(** Each record at a time of its own. *)
Definition records (t : Z) (id : string) (kind : ChangeKind) (data : string) : stmt agent :=
  call (fun a => record_backend_change a t (t * 1000) (t * 1000 + 50) id kind data).
Definition flushes (p : option ChangeSet → bool) : stmt agent :=
  returns (fun a => let '(a', r) := agent_flush lan a in
                    (a', match r with Finished o => p (fst <$> o) | Suspended => false end)) true.
Definition flushed_changes (p : list Change → bool) : stmt agent :=
  flushes (fun o => match o with Some cs => p (cs_changes cs) | None => false end).

Definition app_json (app : string) : string := json_text [("app", JStr app)].

Definition test_agent_creation : bool := on_agent (agent_new test_node temp) [named "test-node"; running true].

Definition test_agent_stop : bool := on_agent (agent_new test_node temp) [running true; stops; running false].

Definition pop_sa_1 : ReplicationConfig :=
  builder_transport_addr "127.0.0.1:4002" (builder_gossip_addr "127.0.0.1:4001" (builder_new "pop-sa-1")).

Definition test_builder_pattern : bool :=
  on_agent (builder_build (builder_cluster_name "my-cluster" pop_sa_1) temp) [named "pop-sa-1"].

Definition test_builder_with_bootstrap_peers : bool :=
  is_ok (builder_build (builder_bootstrap_peers ["10.0.0.1:4001"; "10.0.0.2:4001"] pop_sa_1) temp).

Definition test_agent_validation_fails_without_node_id : bool :=
  negb (is_ok (agent_new replication_config_default temp)).

Definition test_agent_validation_fails_without_cluster_name : bool :=
  negb (is_ok (agent_new (with_cluster_name "" test_node) temp)).

Definition test_record_and_flush : bool :=
  on_agent (agent_new test_node temp)
    [init_db_ok; records 1 "backend-1" KInsert (json_text (backend_json "myapp" "sa" "10.0.0.1" 8080));
     flushed_changes (fun cs => assert_eq (ch_pk <$> cs) ["backend-1"])].

Definition test_record_multiple_changes_and_flush : bool :=
  on_agent (agent_new test_node temp)
    [init_db_ok; records 1 "b1" KInsert (app_json "app1"); records 2 "b2" KInsert (app_json "app2");
     records 3 "b1" KUpdate (app_json "app1-updated"); flushed_changes (fun cs => (length cs =? 3)%nat)].

Definition test_flush_empty : bool := on_agent (agent_new test_node temp) [init_db_ok; flushes assert_none].

Definition test_members_empty_initially : bool :=
  on_agent (agent_new test_node temp)
    [asserts (fun a => match ag_members a, ag_alive_members a with [], [] => true | _, _ => false end)].

Definition test_apply_changeset : bool :=
  let source_node := mkNodeId "other-node" in
  let data := json_text (backend_json "remote-app" "us" "10.0.0.5" 9000) in
  let cs := changeset_new source_node 1 [Types.change_at 1 "backends" "remote-backend" KInsert data source_node] in
  on_agent (agent_new test_node temp)
    [init_db_ok;
     returns (fun a => let '(a', r) := agent_apply_changeset 0 a cs in
                       (a', match r with Finished (Ok applied) => applied =? 1 | _ => false end)) true].

Definition test_agent_start_and_stop : bool :=
  on_agent (agent_new (local_ports test_node) temp) [starts; running true; stops; running false].

Definition test_builder_default_values : bool :=
  on_agent (builder_build (builder_new "minimal-node") temp) [named "minimal-node"].

Definition test_agent_with_bootstrap_peers_start : bool :=
  on_agent (agent_new (with_bootstrap_peers ["127.0.0.1:9999"] (local_ports test_node)) temp) [starts; stops].

Definition test_agent_record_change_kinds : bool :=
  on_agent (agent_new test_node temp)
    [init_db_ok; records 1 "b1" KInsert (app_json "a"); records 2 "b1" KUpdate (app_json "b");
     records 3 "b1" KDelete "{}"; flushed_changes (fun cs => assert_eq (ch_kind <$> cs) [KInsert; KUpdate; KDelete])].

Example agent_tests :
  failing
    [("agent_creation", test_agent_creation); ("agent_stop", test_agent_stop);
     ("builder_pattern", test_builder_pattern);
     ("builder_with_bootstrap_peers", test_builder_with_bootstrap_peers);
     ("agent_validation_fails_without_node_id", test_agent_validation_fails_without_node_id);
     ("agent_validation_fails_without_cluster_name", test_agent_validation_fails_without_cluster_name);
     ("record_and_flush", test_record_and_flush);
     ("record_multiple_changes_and_flush", test_record_multiple_changes_and_flush);
     ("flush_empty", test_flush_empty); ("members_empty_initially", test_members_empty_initially);
     ("apply_changeset", test_apply_changeset); ("agent_start_and_stop", test_agent_start_and_stop);
     ("builder_default_values", test_builder_default_values);
     ("agent_with_bootstrap_peers_start", test_agent_with_bootstrap_peers_start);
     ("agent_record_change_kinds", test_agent_record_change_kinds)] = [].
Proof. run_tests. Qed.
