(* ===== verification/ServerTests.v ===== *)
(** * Unit tests of the TCP and TLS servers

    From the test modules of [src/src/adapters/inbound/tcp_server.rs] and
    [tls_server.rs], the tests whose outcome is determined; those that pass
    connections through real sockets accept every outcome. *)

From S2P Require Import Prelude Text Domain NetAddr Parse Ports ProxyService Tls TcpServer.
From S2P Require Import TestKit DomainTests ProxyTests TransportTests.
From Stdlib Require Import Ascii.

#[local] Existing Instance accepting_tls.

(** The mocks of both test modules: backends as in [ProxyTests], and a resolver with
    one answer to everything. *)
Record FixedGeoResolver := mkFixedGeo { fixed_geo_info : option GeoInfo }.

#[export] Instance fixed_geo_resolver : GeoResolver FixedGeoResolver := {| geo_resolve g ip := fixed_geo_info g |}.

Definition served_backend (id : string) : Backend := mkBackend id "testapp" Europe "DE" "127.0.0.1" 9999 true 2 100 150.

Definition addressed (wg_ip : string) : Backend := mkBackend "test" "app" Europe "DE" wg_ip 8080 true 2 100 150.

Definition no_resolver : option FixedGeoResolver := None.
Definition in_br : option GeoInfo := Some (mkGeoInfo "BR" SouthAmerica).
Definition in_us : option GeoInfo := Some (mkGeoInfo "US" NorthAmerica).
Definition in_de : option GeoInfo := Some (mkGeoInfo "DE" Europe).
Definition in_jp : option GeoInfo := Some (mkGeoInfo "JP" AsiaPacific).

Definition google : IpAddr := Entities.ipv4 8 8 8 8.

Definition country_is (g : option GeoInfo) (country : string) : bool := assert_eq (geo_country <$> g) (Some country).

Definition repo_of (ids : list string) : MockBackendRepo := mkMockBackendRepo (served_backend <$> ids).

(** ** [tcp_server.rs] *)
Module TcpServers.
Definition test_tcp_server_new : bool :=
  assert_eq (tcp_listen_addr (tcp_server_new "0.0.0.0:0" no_resolver)) "0.0.0.0:0".

Definition test_tcp_server_new_with_geo_resolver : bool :=
  match tcp_geo_resolver (tcp_server_new "127.0.0.1:8080" no_resolver) with None => true | Some _ => false end.

Definition test_backend_addr_format_ipv4 : bool :=
  assert_eq (format_backend_addr (addressed "10.0.0.1")) "10.0.0.1:8080".

Definition test_backend_addr_format_ipv6 : bool :=
  assert_eq (format_backend_addr (addressed "::1")) "[::1]:8080".

(** The service for the address is out of reach. *)
Definition test_resolve_localhost_geo_returns_none_without_resolver : bool :=
  assert_none (snd (resolve_localhost_geo no_resolver None None)).

Definition test_resolve_localhost_geo_returns_cached : bool :=
  country_is (snd (resolve_localhost_geo no_resolver None in_de)) "DE".

Definition test_resolve_localhost_geo_with_resolver_no_cached : bool :=
  assert_none (snd (resolve_localhost_geo (Some (mkFixedGeo in_br)) (fetch_public_ip None) None)).

Definition test_resolve_localhost_geo_caches_result : bool :=
  let '(cache, result) := resolve_localhost_geo (Some (mkFixedGeo in_jp)) None in_jp in
  country_is result "JP" && assert_some cache.

Definition test_mock_backend_repo_get_all : bool := assert_eq (length (get_all (repo_of ["b-1"; "b-2"]))) 2%nat.

Definition test_mock_backend_repo_get_by_id_found : bool :=
  assert_eq (be_id <$> get_by_id (repo_of ["b-1"]) "b-1") (Some "b-1").

Definition test_mock_backend_repo_get_by_id_not_found : bool := assert_none (get_by_id (repo_of ["b-1"]) "b-999").

Definition test_mock_backend_repo_get_version : bool := get_version (repo_of []) =? 1.

Definition test_mock_geo_resolver : bool := country_is (geo_resolve (mkFixedGeo in_us) google) "US".

Definition test_mock_geo_resolver_none : bool := assert_none (geo_resolve (mkFixedGeo None) google).

Example tcp_server_tests :
  failing
    [("tcp_server_new", test_tcp_server_new);
     ("tcp_server_new_with_geo_resolver", test_tcp_server_new_with_geo_resolver);
     ("backend_addr_format_ipv4", test_backend_addr_format_ipv4);
     ("backend_addr_format_ipv6", test_backend_addr_format_ipv6);
     ("resolve_localhost_geo_returns_none_without_resolver", test_resolve_localhost_geo_returns_none_without_resolver);
     ("resolve_localhost_geo_returns_cached", test_resolve_localhost_geo_returns_cached);
     ("resolve_localhost_geo_with_resolver_no_cached", test_resolve_localhost_geo_with_resolver_no_cached);
     ("resolve_localhost_geo_caches_result", test_resolve_localhost_geo_caches_result);
     ("mock_backend_repo_get_all", test_mock_backend_repo_get_all);
     ("mock_backend_repo_get_by_id_found", test_mock_backend_repo_get_by_id_found);
     ("mock_backend_repo_get_by_id_not_found", test_mock_backend_repo_get_by_id_not_found);
     ("mock_backend_repo_get_version", test_mock_backend_repo_get_version);
     ("mock_geo_resolver", test_mock_geo_resolver); ("mock_geo_resolver_none", test_mock_geo_resolver_none)] = [].
Proof. run_tests. Qed.
End TcpServers.

(** ** [tls_server.rs] *)
Module TlsServers.
Definition certified (domain : string) : bool := is_ok (self_signed domain).

Definition test_self_signed_certificate_generation : bool := certified "test.internal".
Definition test_self_signed_with_custom_domain : bool := certified "myapp.internal".
Definition test_self_signed_with_localhost : bool := certified "localhost".
Definition test_self_signed_with_ip_address : bool := certified "192.168.1.1".

Definition test_from_pem_files_nonexistent : bool :=
  let open _ := Err "No such file or directory" in
  negb (is_ok (from_pem_files open "/nonexistent/cert.pem" "/nonexistent/key.pem")).

Definition test_tls_server_new : bool :=
  match self_signed "test.internal" with
  | Ok config => assert_eq (tls_listen_addr (tls_server_new "0.0.0.0:8443" no_resolver config)) "0.0.0.0:8443"
  | Err _ => false
  end.

Definition test_tls_server_new_with_custom_config : bool :=
  match self_signed "custom.domain" with
  | Ok config =>
      let server := tls_server_new "127.0.0.1:9443" no_resolver config in
      assert_eq (tls_listen_addr server) "127.0.0.1:9443" &&
      match tls_geo_resolver server with None => true | Some _ => false end
  | Err _ => false
  end.

Definition test_tls_resolve_geo_none_without_resolver : bool :=
  assert_none (snd (tls_resolve_localhost_geo no_resolver None None)).

Definition test_tls_resolve_localhost_geo_returns_cached : bool :=
  country_is (snd (tls_resolve_localhost_geo no_resolver None in_de)) "DE".

Definition test_resolve_localhost_geo_with_resolver : bool :=
  assert_none (snd (tls_resolve_localhost_geo (Some (mkFixedGeo in_br)) (tls_fetch_public_ip None) None)).

Definition test_tls_backend_addr_format_ipv4 : bool :=
  assert_eq (format_backend_addr (addressed "10.0.0.1")) "10.0.0.1:8080".

Definition test_tls_backend_addr_format_ipv6 : bool :=
  assert_eq (format_backend_addr (addressed "2001:db8::1")) "[2001:db8::1]:8080".

Definition test_backend_addr_format_ipv6_in_handle_connection : bool :=
  assert_eq (format_backend_addr (addressed "2001:db8::1")) "[2001:db8::1]:8080".

(** The encoder with which the tests write PEM files: lines of 64 characters. *)
Definition ALPHABET : string := "ABCDEFGHIJKLMNOPQRSTUVWXYZabcdefghijklmnopqrstuvwxyz0123456789+/".

Definition sextet (n : Z) (shift : Z) : string :=
  match String.get (Z.to_nat (Z.land (Z.shiftr n shift) 63)) ALPHABET with
  | Some c => String c EmptyString
  | None => EmptyString
  end.

(** A full line moves from [line] to [output]. *)
Definition break_line (acc : string * string) : string * string :=
  let '(output, line) := acc in
  if (64 <=? String.length line)%nat
  then (output +:+ String.substring 0 64 line +:+ String "010"%char EmptyString,
        String.substring 64 (String.length line - 64) line)
  else (output, line).

Fixpoint base64_chunks (acc : string * string) (data : list Z) : string * string :=
  let push s := break_line (fst acc, snd acc +:+ s) in
  match data with
  | [] => acc
  | [a] => let n := Z.shiftl a 16 in push (sextet n 18 +:+ sextet n 12 +:+ "==")
  | [a; b] =>
      let n := Z.lor (Z.shiftl a 16) (Z.shiftl b 8) in
      push (sextet n 18 +:+ sextet n 12 +:+ sextet n 6 +:+ "=")
  | a :: b :: c :: rest =>
      let n := Z.lor (Z.lor (Z.shiftl a 16) (Z.shiftl b 8)) c in
      base64_chunks (push (sextet n 18 +:+ sextet n 12 +:+ sextet n 6 +:+ sextet n 0)) rest
  end.

Definition base64_encode (data : list Z) : string :=
  let '(output, line) := base64_chunks (EmptyString, EmptyString) data in output +:+ line.

Example base64_known : base64_encode [77; 97; 110; 77] = "TWFuTQ==". Proof. reflexivity. Qed.

Definition test_base64_encode_various_sizes : bool :=
  let non_empty s := assert_ne s EmptyString in
  let one := base64_encode [255] in
  let long := base64_encode (seqZ 0 100) in
  non_empty one && (ends_with one "==" || str_contains "="%char one) &&
  non_empty (base64_encode [255; 170]) && non_empty (base64_encode [255; 170; 85]) &&
  non_empty long &&
  (if (64 <? String.length long)%nat then str_contains "010"%char long else true) &&
  assert_eq (base64_encode []) EmptyString.

Definition test_tls_mock_backend_repo_get_all : bool := assert_eq (length (get_all (repo_of ["eu-1"; "eu-2"]))) 2%nat.

Definition test_mock_backend_repo_get_by_id : bool :=
  assert_some (get_by_id (repo_of ["eu-1"]) "eu-1") && assert_none (get_by_id (repo_of ["eu-1"]) "nope").

Definition test_tls_mock_backend_repo_get_version : bool := get_version (repo_of []) =? 1.

Definition test_tls_mock_geo_resolver : bool :=
  country_is (geo_resolve (mkFixedGeo in_br) google) "BR" && assert_none (geo_resolve (mkFixedGeo None) google).

Example tls_server_tests :
  failing
    [("self_signed_certificate_generation", test_self_signed_certificate_generation);
     ("self_signed_with_custom_domain", test_self_signed_with_custom_domain);
     ("self_signed_with_localhost", test_self_signed_with_localhost);
     ("self_signed_with_ip_address", test_self_signed_with_ip_address);
     ("from_pem_files_nonexistent", test_from_pem_files_nonexistent); ("tls_server_new", test_tls_server_new);
     ("tls_server_new_with_custom_config", test_tls_server_new_with_custom_config);
     ("tls_resolve_geo_none_without_resolver", test_tls_resolve_geo_none_without_resolver);
     ("tls_resolve_localhost_geo_returns_cached", test_tls_resolve_localhost_geo_returns_cached);
     ("resolve_localhost_geo_with_resolver", test_resolve_localhost_geo_with_resolver);
     ("tls_backend_addr_format_ipv4", test_tls_backend_addr_format_ipv4);
     ("tls_backend_addr_format_ipv6", test_tls_backend_addr_format_ipv6);
     ("backend_addr_format_ipv6_in_handle_connection", test_backend_addr_format_ipv6_in_handle_connection);
     ("base64_encode_various_sizes", test_base64_encode_various_sizes);
     ("tls_mock_backend_repo_get_all", test_tls_mock_backend_repo_get_all);
     ("mock_backend_repo_get_by_id", test_mock_backend_repo_get_by_id);
     ("tls_mock_backend_repo_get_version", test_tls_mock_backend_repo_get_version);
     ("tls_mock_geo_resolver", test_tls_mock_geo_resolver)] = [].
Proof. run_tests. Qed.
End TlsServers.
